(* ===== verification/_CoqProject ===== *)
-Q . S2P
Prelude.v
GoSort.v
GoChan.v
Order.v
LevelQueue.v
OrderBook.v
BookSpec.v
BookInv.v
BookFlow.v
BookRefine.v
BookSim.v
BookProps.v
GoBytes.v
GoJson.v
JsonProps.v
Http.v
FixParser.v
FixSession.v
FixProps.v
Hub.v
HubProps.v
Server.v
ServerInv.v
ServerProps.v
Platform.v
Float64.v
GoTime.v
Controller.v
ControllerProps.v
Submission.v
SubmissionProps.v
Routes.v
Wire.v
Api.v
FloatRound.v
FloatOrder.v
FloatSecs.v
Telemetry.v
LbHub.v
LbHubProps.v
Sandbox.v
SandboxProps.v
LoadGen.v
LoadGenProps.v
Bots.v
FloatText.v
JsonFloat.v
Ranking.v
MemRedis.v
RankingProps.v
Queue.v
QueueJson.v
MemQueue.v
QueueProps.v
Runs.v
LbApi.v
Live.v
Services.v
ServicesProps.v
Probes.v
