(* ===== verification/Prelude.v ===== *)
(** * The distributed trading benchmarking platform, verified

    The repository is a Go platform that benchmarks trading engines: a limit
    order book with a matching engine behind a REST and WebSocket API, a FIX
    gateway, a Kubernetes controller that runs contestants' engines, and
    services around them (submissions, sandboxes, load generation, telemetry
    queue, leaderboard).  This library models the parts that carry the logic,
    function by function from the sources under src/, and proves what they
    guarantee.

    ** Conventions

    Go code that mutates state is a computation in [GoM S A], a state monad
    over the component's state whose results are [Ok], [Panic] (nil
    dereference, slice or index out of range, misuse of a channel) or [NoFuel]
    (a loop whose fuel ran out, or a channel operation that blocks).  Every
    theorem about an operation states its result as [Ok], or says which of the
    others it is, so none of them holds because of a panic or a missing
    result.  [uint64] and
    [int] arithmetic is written with its wrap-around ([wrap64],
    [wrap_int64]).  Pointers are addresses in explicit heaps, so aliasing
    between the index, the level queues and the matching loop is modelled.
    Goroutines are interleaved by step relations; each communication is one
    step.

    ** The parts and their files

    - [Prelude]: machine integers, the monad, the tactics [go_step] and
      [go_solve] that execute monadic code with the hint database [go].
    - [GoSort]: Go's [sort.Search] and the slice insertion and removal idioms;
      [GoChan]: buffered channels that can be closed.
    - The order book, pkg/orderbook.  [Order] is order.go and limit.go: the
      structs, the heap, [AddOrder] and [RemoveOrder].  [OrderBook] is
      orderbook.go: [Process], [Cancel], [GetDepth] and their helpers.
      [LevelQueue] ties a level's doubly linked list to the list of its
      orders.  [BookSpec] is the abstract specification: a side is a list of
      levels, best price first, a level the list of its orders, oldest first.
      [BookInv] proves that the specification keeps a book well formed
      (strictly sorted, not crossed, positive quantities, a sound index).
      [BookFlow] has the conservation of quantity, priority as greedy service
      of the crossing orders, the completeness of the index, and that
      cancelling undoes resting.  [BookRefine] proves that the pointer code
      implements the specification ([Rep s b]: the heap [s] holds the book
      [b]).  [BookSim] has the reachable states, [BookProps] the properties.
    - The FIX gateway, pkg/fix.  [GoBytes] models byte slices, [IndexByte],
      [Atoi] and the formatting verbs.  [FixParser] is parser.go, [FixSession]
      is session.go (formatter, connection loop, accept loop) with the
      protocol specification [reply], [FixProps] the properties.
    - The API, pkg/api.  [Hub] is hub.go as interleaved steps of the hub, the
      readers and the writers, with the invariant and its preservation;
      [HubProps] the properties.  [Server] is server.go: the handlers split
      where they wait, the two cases of the matching loop, the result
      channels, the broadcast channel, which holds 4096 messages and blocks the
      loop when it is full, and the depth cache, over the order book's heap.
      [ServerInv] has the sequential specification of the loop and the
      invariant, [ServerProps] the properties.  [Platform] is the process that
      [Server.Start] makes of server and hub, joined by the broadcast channel;
      it follows the feed from the engine to a subscriber.
    - HTTP and JSON.  [GoJson] models what the services use of
      encoding/json: printing, parsing and the decoding into structs;
      [JsonProps] proves that what is printed is parsed back and that what is
      parsed is UTF-8.  [Http] models path escaping, path cleaning and
      [http.ServeMux].  [Routes] has the route tables of the three services
      and how requests find their handlers.  [Wire] has the JSON of orders,
      responses, depths and messages, and the lines of frames.  [Api] is the
      whole path of a request to the engine, from bytes to bytes, with its
      specification [spec_http].
    - The metrics, pkg/telemetry.  [Telemetry] has the exporter's metrics and
      the matching loop with its calls of them; [FloatSecs] has
      [Duration.Seconds] in float64 and bounds its error.
    - The benchmark controller, pkg/controller.  [Controller] is [Reconcile]
      over the class [Cluster], with [ClusterLaws] stating what the Kubernetes
      API documents; [ControllerProps] has the properties and an in-memory API
      server that satisfies the laws.  [GoTime] models what the services use of
      Go's time package: the calendar, RFC 3339 text and the parsing of
      durations; the local time zone is the class [Location].
    - The submission service, pkg/submission.  [Submission] is handler.go:
      the store, the handlers and the clone goroutine over a heap of
      submissions they share, interleaved by [step]; [SubmissionProps] has
      the invariant's preservation and the properties.
    - The leaderboard, pkg/leaderboard.  [LbHub] is broadcast.go: the hub, the
      goroutine that forwards Redis messages, the removal goroutines and the
      two pumps of a client as interleaved steps; [LbHubProps] its invariant
      and properties.  [Ranking] is ranking.go over the class [Redis] with
      [RedisLaws]; [MemRedis] is a server in memory that satisfies them;
      [RankingProps] has the properties.
      Scores are float64: [Float64] has the arithmetic, on the Standard
      Library's [SpecFloat], and the text of [FormatFloat] and [ParseFloat];
      [FloatRound] relates rounding to the rational numbers, [FloatOrder]
      proves that multiplication and division are monotone, [FloatText] that
      formatting and parsing are, and what they keep.  [JsonFloat] has the
      shortest decimal of a float64, as JSON texts have it, and proves that it
      is read back exactly.
    - The queue, pkg/queue, and the handlers of cmd/leaderboard-service.
      [Queue] has the JSON of events, the producer, the consumer's loop and
      the handlers over the class [Kafka]; [QueueJson] proves that events
      survive their encoding; [MemQueue] is a topic in memory, [QueueProps] has
      the properties.  [Runs] decodes the body of a debug run.  [LbApi] is the
      service from bytes to bytes.  [Live] follows an event from [UpdateScore]
      into the frames that dashboards get.
    - The sandbox, pkg/sandbox.  [Sandbox] is docker.go and builder.go over a
      tree of files, the tar writer and the class [Docker] with [DockerLaws];
      [SandboxProps] has the properties and a daemon in memory.
    - The load generator, pkg/loadgen.  [LoadGen] is profiles.go and
      orchestrator.go: bots, collector and main goroutine as interleaved
      steps; [LoadGenProps] the invariant and the properties.  [Bots] sends a
      bot's request, in bytes, to the engine, and has the collector's metrics.
    - The commands, cmd and ebpf.  [Services] has the [main] functions of the
      engine, the submission service, the leaderboard service and the load
      generator as processes whose goroutines, requests and signals are
      interleaved; [ServicesProps] how they stop.  [Probes] is the telemetry
      aggregator and the latency probe.

    ** How the parts interact

    A handler of [Server] allocates an order in the book's heap and queues a
    request; the loop runs [Process] or [Cancel] of [OrderBook] on it, writes
    the response to the handler's channel and sends trades and depth to the
    hub's broadcast channel, which [Hub] delivers to its clients.  In the
    theorems about the server alone and about [Api] the hub takes a message
    from the channel before each iteration of the loop; [Platform] has all
    interleavings.  The proofs
    of [ServerInv] use the order book only through [Process_spec],
    [Cancel_spec] and [GetDepth_refines] of [BookRefine].  The FIX gateway is
    separate: it acknowledges orders without passing them to the book.  The
    orders of [LoadGen]'s bots are requests to [Server], and
    [bot_request_served] runs them through both, in bytes.  [Api] composes
    [Http], [Routes], [Wire] and [Server].  A run's figures travel from
    [PublishTelemetry] through the queue to [StartListening], whose handler is
    [UpdateScore] of [Ranking]; [telemetry_pipeline] follows them,
    [live_frames_lines] the event that is published then, and
    [posted_run_shown] a run from a client's request to the leaderboard that
    another one reads.

    ** What the theorems show

    - Order book: [Process] and [Cancel] are total on every well-formed book
      and refine the specification; trades follow price-time priority and
      respect limit prices; quantity is conserved; the depth is exact, sorted
      and uncrossed in every reachable state; with ids that are not reused
      every resting order can be cancelled; placing and cancelling restores
      the book.  Where the guarantees end is proved too: reused ids, unknown
      sides, and volumes that exceed [uint64].
    - FIX: the parser is total and safe on any input, accepts exactly the
      documented shape and inverts the encoding; formatted messages parse back
      with correct length and checksum; a session answers by the protocol with
      consecutive sequence numbers, and client values cannot inject fields.
    - API: the loop never panics and waits only for a full broadcast channel,
      which the hub alone can always empty; it serves requests in order and
      exactly once as the sequential specification does, and keeps the depth
      cache current; the hub never misuses a channel in any interleaving and
      delivers in order without gaps until it drops a client; together,
      subscribers are sent what the engine did, and one that is up to date
      sees the book as it is.  As an HTTP service the engine answers any
      sequence of requests with the bytes of its specification, and what it
      answers can be read back; ids reach their handlers through escaping and
      routing unless they are dots; metrics record what was done and nothing
      else, times in seconds.
    - Controller: fresh runs are provisioned completely or retried, running
      ones end on time, with every outcome of the API accounted for, finished
      ones are left alone; without the status subresource no run ever starts.
    - Submissions: in every interleaving a submission only moves forward and
      ends as what its one clone returned; an upload is never built; the status
      endpoint answers with the current contents.
    - Leaderboard: better figures never score less; updates report what they
      did; the board shows the best submissions in order, with what was
      stored, in bytes from the run that is posted to the list that is read;
      the scores displayed are those of the ranking and in descending order
      although they were rounded and come from other keys, except for expired
      metadata and updates that failed half-way; whatever the service is sent, its scores stay
      numbers and its answers can be read, but an infinite score blanks the
      board.  Its hub never misuses a channel and delivers in order, with gaps only
      for a client that is being removed; the lines of its frames are the
      events published, but only a frame of one event is a JSON text.
    - Queue: an event that is published decodes to the very event, to the
      last bit of its figures and in every time zone; an error of publishing
      does not exclude that it was written; the consumer handles
      exactly the events decoded before it is cancelled, whatever errors
      occur; runs reach the board unless an error is logged; the partition key
      does not keep a run's events together.
    - Sandbox: the containers that are launched have the six constraints of
      the comment on [RunSandbox], but no user of their own; the build context
      is exactly the source tree; what a build leaves behind.
    - Load generator: the parameters that start, for the orchestrator and for
      the bots; no panics; a run ends once its time is over, every metric is
      counted once, and the report has these numbers.
    - Processes: a service exits with status 0 only after a signal and a clean
      shutdown (the submission service excepted), though its goroutines still
      run; else with a logged cause, unless a goroutine panics or a signal
      comes too early; a signal ends it.  The aggregator never does more than create its tables;
      the probe reports its dials, and on Linux a constant.

    ** Fuel and bounds

    The two loops of [matchOrder] take fuel; more than the number of orders
    ever allocated is enough ([place_correct] and the server's
    [process_order], which computes it from the heap).  [Parse] takes the
    length of its input, and so do the parser and the printer of JSON and the
    parser of durations, [sort.Search] the length of the slice, [%d] twenty
    digits, [FormatFloat] 310 digits before the point and the exact decimal of
    a float64 800 digits, of which 767 can occur.  [make] panics beyond the
    address space of 2^48 bytes ([max_levels], [max_chan]).  The order book
    theorems assume that the volume of the level an order joins stays below
    2^64, those of the server that all quantities in the book and the queue
    together do.

    ** Not modelled

    Sockets, TLS, HTTP headers other than what decides a route, the WebSocket
    handshake, timers and the scheduler are inputs or left out; of the log,
    the lines of the processes are kept.  Redis, Kafka, Docker, Kubernetes,
    the Prometheus client and the database are outside the repository: they
    are parameters with the laws their documentation gives, or traces of the
    calls made to them.  Their laws leave open whether a call that fails was
    carried out.  The time of an
    event or a run is an instant, of which the zone is dropped once it is
    parsed; the texts of decoding errors are left out or a parameter, as are
    the files of the dashboard.  The kernel program ebpf/socket_latency.c is C and is not
    loaded by the Go code; the dashboard of web/ is JavaScript, of which [Live]
    takes only that it parses a frame as one JSON text. *)

From stdpp Require Import prelude gmap strings list fin_maps sorting.
From Stdlib Require Import ZArith Lia.

Local Open Scope Z_scope.

(** ** Machine integers *)

Definition wrap64 (z : Z) : Z := z mod 2 ^ 64.

(** [time.Second]; times and durations are in nanoseconds. *)
Definition second : Z := 1000000000.

(** [int] values are 64-bit two's complement on the platforms Go targets here. *)
Definition wrap_int64 (z : Z) : Z := (z + 2 ^ 63) mod 2 ^ 64 - 2 ^ 63.

Declare Scope go_scope.
Delimit Scope go_scope with go.
Notation "a +u b" := (wrap64 (a + b)) (at level 50, left associativity) : go_scope.
Notation "a -u b" := (wrap64 (a - b)) (at level 50, left associativity) : go_scope.

Definition is_u64 (z : Z) : Prop := 0 <= z < 2 ^ 64.
Definition is_int64 (z : Z) : Prop := - 2 ^ 63 <= z < 2 ^ 63.

Lemma wrap64_id z : is_u64 z → wrap64 z = z.
Proof. apply Z.mod_small. Qed.

Lemma wrap64_bounds z : is_u64 (wrap64 z).
Proof. apply Z.mod_pos_bound. lia. Qed.

Lemma wrap_int64_id z : is_int64 z → wrap_int64 z = z.
Proof. intros H. unfold wrap_int64, is_int64 in *. rewrite Z.mod_small; lia. Qed.

Lemma wrap_int64_bounds z : is_int64 (wrap_int64 z).
Proof.
  unfold wrap_int64, is_int64.
  pose proof (Z.mod_pos_bound (z + 2 ^ 63) (2 ^ 64) ltac:(lia)). lia.
Qed.

(** ** Results and the state monad of Go code

    [Panic] is a run-time panic (nil dereference, index out of range, send on
    a closed channel); [NoFuel] is reached by a loop that was given too little
    fuel and by a channel operation that would block for ever. *)
Inductive res (A : Type) : Type :=
  | Ok (a : A)
  | Panic
  | NoFuel.
Arguments Ok {A} a.
Arguments Panic {A}.
Arguments NoFuel {A}.

#[global] Instance res_ret : MRet res := λ A a, Ok a.
#[global] Instance res_bind : MBind res := λ A B k m,
  match m with Ok a => k a | Panic => Panic | NoFuel => NoFuel end.

#[global] Instance res_eq_dec `{EqDecision A} : EqDecision (res A).
Proof. solve_decision. Defined.

Definition GoM (S A : Type) : Type := S → res (A * S).

#[global] Instance GoM_ret {S} : MRet (GoM S) := λ A a s, Ok (a, s).
#[global] Instance GoM_bind {S} : MBind (GoM S) := λ A B k m s,
  match m s with
  | Ok (a, s') => k a s'
  | Panic => Panic
  | NoFuel => NoFuel
  end.

Section monad.
Context {S : Type}.

Lemma bind_Ok {A B} (m : GoM S A) (k : A → GoM S B) s a s' :
  m s = Ok (a, s') → (m ≫= k) s = k a s'.
Proof. intros E. unfold mbind, GoM_bind. by rewrite E. Qed.

Lemma bind_NoFuel {A B} (m : GoM S A) (k : A → GoM S B) s :
  m s = NoFuel → (m ≫= k) s = NoFuel.
Proof. intros E. unfold mbind, GoM_bind. by rewrite E. Qed.

Lemma ret_Ok {A} (a : A) (s : S) : (mret a : GoM S A) s = Ok (a, s).
Proof. done. Qed.

Definition panic {A} : GoM S A := λ _, Panic.
Definition nofuel {A} : GoM S A := λ _, NoFuel.
(** Read a component of the state; write the state. *)
Definition gets {A} (f : S → A) : GoM S A := λ s, Ok (f s, s).
Definition modify (f : S → S) : GoM S unit := λ s, Ok (tt, f s).
(** A value that may be missing: a nil pointer or an index out of range. *)
Definition from_option_panic {A} (o : option A) : GoM S A := λ s,
  match o with Some a => Ok (a, s) | None => Panic end.
(** Run a state-free computation. *)
Definition lift {A} (r : res A) : GoM S A := λ s,
  match r with Ok a => Ok (a, s) | Panic => Panic | NoFuel => NoFuel end.

Lemma gets_Ok {A} (f : S → A) s : gets f s = Ok (f s, s).
Proof. done. Qed.
Lemma modify_Ok f (s : S) : modify f s = Ok (tt, f s).
Proof. done. Qed.
Lemma from_option_panic_Ok {A} (o : option A) a (s : S) :
  o = Some a → from_option_panic o s = Ok (a, s).
Proof. by intros ->. Qed.
Lemma lift_Ok {A} (r : res A) a (s : S) : r = Ok a → lift r s = Ok (a, s).
Proof. by intros ->. Qed.
End monad.

(** Execution of a monadic program one statement at a time: [go_step] finds
    the first statement of the program in the goal and rewrites with the
    equation the hint database [go] proves for it. *)
Create HintDb go.
#[export] Hint Resolve ret_Ok gets_Ok modify_Ok : go.
#[export] Hint Extern 2 (from_option_panic _ _ = Ok _) =>
  apply from_option_panic_Ok : go.
#[export] Hint Extern 2 (lift _ _ = Ok _) => apply lift_Ok : go.

Ltac go_solve :=
  first
    [ solve [eauto with go]
    | erewrite bind_Ok; [ | go_solve ]; cbn beta; go_solve ].
Ltac go_step := erewrite bind_Ok; [ | go_solve ]; cbn beta.
Ltac go_steps := repeat go_step.
Ltac go_run lem := erewrite bind_Ok; [ | solve [eapply lem; eauto with go] ]; cbn beta.

(** ** Lists *)

Lemma StronglySorted_mono {A} (R R' : A → A → Prop) l :
  (∀ x y, R x y → R' x y) → StronglySorted R l → StronglySorted R' l.
Proof.
  intros HR Hs. induction Hs as [|x l _ IH Hx]; constructor; [done|].
  eapply Forall_impl; [exact Hx|]. auto.
Qed.

(** ** Strings *)

Lemma list_ascii_app s t :
  String.list_ascii_of_string (s +:+ t) =
  String.list_ascii_of_string s ++ String.list_ascii_of_string t.
Proof.
  induction s as [|c s IH]; [done|].
  change (String c s +:+ t) with (String c (s +:+ t)). cbn. by rewrite IH.
Qed.
