(* ===== verification/GoSort.v ===== *)
(** * Go's [sort.Search] and the slice idioms of the order book

    [sort_Search] is the binary search of the Go standard library; the
    predicate may read the state (the order book's closures dereference price
    levels), so it is a computation.  [slice_insert] and [slice_remove] are the
    [append]/[copy] sequences of pkg/orderbook/orderbook.go. *)

From stdpp Require Import prelude list.
From Stdlib Require Import ZArith Lia.
From S2P Require Import Prelude.

Section search.
Context {S : Type}.
Implicit Types f : nat → GoM S bool.

(** The loop [for i < j { h := int(uint(i+j) >> 1); ... }]. *)
Fixpoint search_loop (fuel : nat) f (i j : nat) : GoM S nat :=
  if i <? j then
    match fuel with
    | O => nofuel
    | Datatypes.S fuel' =>
        let h := Nat.div2 (i + j) in
        b ← f h;
        if (b : bool) then search_loop fuel' f i h
        else search_loop fuel' f (h + 1) j
    end
  else mret i.

Definition sort_Search (n : nat) f : GoM S nat := search_loop n f 0 n.

Lemma div2_between i j : i < j → i ≤ Nat.div2 (i + j) < j.
Proof. intros ?. rewrite Nat.div2_div. split.
  - apply Nat.div_le_lower_bound; lia.
  - apply Nat.Div0.div_lt_upper_bound; lia.
Qed.

Lemma search_loop_first f (P : nat → bool) (s : S) n idx fuel i j :
  (∀ k, k < n → f k s = Ok (P k, s)) →
  (∀ k, k < idx → P k = false) → (∀ k, idx ≤ k < n → P k = true) →
  i ≤ idx ≤ j → j ≤ n → j - i ≤ fuel →
  search_loop fuel f i j s = Ok (idx, s).
Proof.
  intros Hf Hlo Hhi. revert i j.
  induction fuel as [|fuel IH]; intros i j Hidx Hj Hfuel; simpl.
  - destruct (Nat.ltb_spec i j); [lia|]. by replace i with idx by lia.
  - destruct (Nat.ltb_spec i j); [|by replace i with idx by lia].
    pose proof (div2_between i j ltac:(lia)) as Hd.
    rewrite (bind_Ok _ _ _ _ _ (Hf (Nat.div2 (i + j)) ltac:(lia))).
    destruct (P (Nat.div2 (i + j))) eqn:EP; apply IH; try lia.
    + destruct (decide (idx ≤ Nat.div2 (i + j))); [lia|].
      rewrite Hlo in EP; [done|lia].
    + destruct (decide (Nat.div2 (i + j) < idx)); [lia|].
      rewrite Hhi in EP; [done|lia].
Qed.

(** When the predicate only reads and is false below [idx] and true from
    [idx] on, the search returns [idx]. *)
Lemma sort_Search_first f (P : nat → bool) (s : S) n idx :
  (∀ k, k < n → f k s = Ok (P k, s)) →
  idx ≤ n → (∀ k, k < idx → P k = false) → (∀ k, idx ≤ k < n → P k = true) →
  sort_Search n f s = Ok (idx, s).
Proof. intros. eapply search_loop_first; eauto; lia. Qed.
End search.

Section slices.
Context {A : Type}.
Implicit Types (l : list A) (x : A).

(** [copy(dst[at:], src)]: overwrite from [at] on, as far as both reach. *)
Definition copy_at (pos : nat) (src dst : list A) : list A :=
  let k := Nat.min (length dst - pos) (length src) in
  take pos dst ++ take k src ++ drop (pos + k) dst.

(** [l = append(l, zero); copy(l[idx+1:], l[idx:]); l[idx] = x]. *)
Definition slice_insert (zero : A) (idx : nat) (x : A) l : list A :=
  let l1 := l ++ [zero] in
  let l2 := copy_at (idx + 1) (drop idx l1) l1 in
  <[idx := x]> l2.

(** [append(l[:idx], l[idx+1:]...)]. *)
Definition slice_remove (idx : nat) l : list A := take idx l ++ drop (idx + 1) l.

Lemma slice_insert_app zero x l1 l2 :
  slice_insert zero (length l1) x (l1 ++ l2) = l1 ++ x :: l2.
Proof.
  unfold slice_insert, copy_at. rewrite <-!app_assoc.
  rewrite (drop_app_length l1 (l2 ++ [zero])).
  destruct l2 as [|y l2]; simpl.
  - rewrite !length_app; simpl. rewrite take_app_add. simpl.
    replace (length l1 + 1 - (length l1 + 1)) with 0 by lia. simpl.
    rewrite drop_ge by (rewrite length_app; simpl; lia).
    rewrite app_nil_r. rewrite insert_app_r_alt by lia.
    by rewrite Nat.sub_diag.
  - replace (length (l1 ++ y :: l2 ++ [zero]) - (length l1 + 1))
      with (length (y :: l2)) by (rewrite !length_app; simpl; rewrite length_app; simpl; lia).
    rewrite Nat.min_l by (simpl; rewrite length_app; simpl; lia).
    rewrite take_app_add. simpl take at 1.
    change (y :: l2 ++ [zero]) with ((y :: l2) ++ [zero]).
    rewrite take_app_length.
    rewrite drop_ge by (rewrite !length_app; simpl; lia).
    rewrite app_nil_r, <-app_assoc, insert_app_r_alt by lia.
    by rewrite Nat.sub_diag.
Qed.

Lemma slice_remove_app x l1 l2 :
  slice_remove (length l1) (l1 ++ x :: l2) = l1 ++ l2.
Proof.
  unfold slice_remove. rewrite take_app_length. f_equal.
  rewrite drop_app_add'; done.
Qed.
End slices.

#[export] Hint Resolve sort_Search_first : go.
