(* ===== verification/GoChan.v ===== *)
(** * Buffered channels

    The part of Go's channels the two hubs use, over messages of any type:
    sending on a closed channel and closing twice panic, a receive from a
    closed and drained channel gives the zero value, and a receive from an
    open and empty one blocks ([NoFuel]). *)

From stdpp Require Import prelude list.
From S2P Require Import Prelude.

Section chan.
Context {msg : Type}.

Record chan := mkChan { cBuf : list msg; cClosed : bool }.

Definition new_chan : chan := mkChan [] false.

(** A non-blocking send to a channel of capacity [cap],
    [select { case c <- m: ... default: ... }]: [true] when the message went
    into the buffer. *)
Definition try_send (cap : nat) (m : msg) (c : chan) : res (bool * chan) :=
  if cClosed c then Panic
  else if (length (cBuf c) <? cap) then Ok (true, mkChan (cBuf c ++ [m]) false)
  else Ok (false, c).

Definition close_chan (c : chan) : res chan :=
  if cClosed c then Panic else Ok (mkChan (cBuf c) true).

(** [<-c]; [None] is the zero value of a closed channel. *)
Definition recv (c : chan) : res (option msg * chan) :=
  match cBuf c with
  | m :: buf => Ok (Some m, mkChan buf (cClosed c))
  | [] => if cClosed c then Ok (None, c) else NoFuel
  end.

Lemma close_chan_Ok c : cClosed c = false → close_chan c = Ok (mkChan (cBuf c) true).
Proof. intros H. unfold close_chan. by rewrite H. Qed.
Lemma recv_Ok c m buf : cBuf c = m :: buf → recv c = Ok (Some m, mkChan buf (cClosed c)).
Proof. intros H. unfold recv. by rewrite H. Qed.
End chan.
Arguments chan : clear implicits.
#[export] Hint Resolve close_chan_Ok recv_Ok : go.
