(* ===== verification/Order.v ===== *)
(** * Orders, price levels and the Go heap they live in

    pkg/orderbook/order.go and pkg/orderbook/limit.go.  Orders and limits are
    mutable structs reached through pointers, so the model keeps a heap of
    each and a pointer is an address with [nil_ptr = 0]; dereferencing [nil_ptr] (or
    any unallocated address) panics.  [AddOrder] and [RemoveOrder] are the
    doubly linked queue operations of a price level, pointer write by pointer
    write. *)

From stdpp Require Import prelude gmap strings list fin_maps.
From Stdlib Require Import ZArith Lia.
From S2P Require Import Prelude.

Local Open Scope Z_scope.
Local Open Scope go_scope.

(** ** Data *)

Abbreviation ptr := N.
Definition nil_ptr : ptr := 0%N.

(** [type Side int]: any [int] can be converted to it. *)
Definition Buy : Z := 0.
Definition Sell : Z := 1.
Definition Side_String (s : Z) : string := if s =? Buy then "BUY" else "SELL".

(** [type OrderType int]. *)
Definition LimitOrder : Z := 0.
Definition MarketOrder : Z := 1.

Record Order := mkOrder {
  oID : string;
  oSide : Z;
  oType : Z;
  oPrice : Z;
  oQuantity : Z;
  oFilledQty : Z;
  oTimestamp : Z;
  oNext : ptr;
  oPrev : ptr;
  oLimit : ptr;
}.

Record Limit := mkLimit {
  lPrice : Z;
  lTotalVolume : Z;
  lHead : ptr;
  lTail : ptr;
}.

Record Trade := mkTrade {
  tMakerOrderID : string;
  tTakerOrderID : string;
  tPrice : Z;
  tQuantity : Z;
}.

#[global] Instance Order_eq_dec : EqDecision Order.
Proof. solve_decision. Defined.
#[global] Instance Limit_eq_dec : EqDecision Limit.
Proof. solve_decision. Defined.
#[global] Instance Trade_eq_dec : EqDecision Trade.
Proof. solve_decision. Defined.

(** Field assignments. *)
Definition set_oFilledQty (v : Z) (o : Order) : Order :=
  mkOrder (oID o) (oSide o) (oType o) (oPrice o) (oQuantity o) v
    (oTimestamp o) (oNext o) (oPrev o) (oLimit o).
Definition set_oNext (v : ptr) (o : Order) : Order :=
  mkOrder (oID o) (oSide o) (oType o) (oPrice o) (oQuantity o) (oFilledQty o)
    (oTimestamp o) v (oPrev o) (oLimit o).
Definition set_oPrev (v : ptr) (o : Order) : Order :=
  mkOrder (oID o) (oSide o) (oType o) (oPrice o) (oQuantity o) (oFilledQty o)
    (oTimestamp o) (oNext o) v (oLimit o).
Definition set_oLimit (v : ptr) (o : Order) : Order :=
  mkOrder (oID o) (oSide o) (oType o) (oPrice o) (oQuantity o) (oFilledQty o)
    (oTimestamp o) (oNext o) (oPrev o) v.

Definition set_lTotalVolume (v : Z) (l : Limit) : Limit :=
  mkLimit (lPrice l) v (lHead l) (lTail l).
Definition set_lHead (v : ptr) (l : Limit) : Limit :=
  mkLimit (lPrice l) (lTotalVolume l) v (lTail l).
Definition set_lTail (v : ptr) (l : Limit) : Limit :=
  mkLimit (lPrice l) (lTotalVolume l) (lHead l) v.

(** The book: two slices of levels and the index of active orders. *)
Record OrderBook := mkOrderBook {
  bids : list ptr;
  asks : list ptr;
  orders : gmap string ptr;
}.

(** The heap and the book that lives in it.  Addresses from [sBrk] on are
    free. *)
Record St := mkSt {
  sOrders : gmap ptr Order;
  sLimits : gmap ptr Limit;
  sBrk : ptr;
  sBook : OrderBook;
}.

Definition with_orders (h : gmap ptr Order) (s : St) : St :=
  mkSt h (sLimits s) (sBrk s) (sBook s).
Definition with_limits (h : gmap ptr Limit) (s : St) : St :=
  mkSt (sOrders s) h (sBrk s) (sBook s).
Definition with_book (b : OrderBook) (s : St) : St :=
  mkSt (sOrders s) (sLimits s) (sBrk s) b.
Definition with_index (m : gmap string ptr) (s : St) : St :=
  with_book (mkOrderBook (bids (sBook s)) (asks (sBook s)) m) s.

Abbreviation M := (GoM St).

(** ** Heap access *)

Definition load_order (p : ptr) : M Order :=
  λ s, match sOrders s !! p with Some o => Ok (o, s) | None => Panic end.
Definition modify_order (p : ptr) (f : Order → Order) : M unit :=
  λ s, match sOrders s !! p with
       | Some o => Ok (tt, with_orders (<[p := f o]> (sOrders s)) s)
       | None => Panic
       end.
Definition alloc_order (o : Order) : M ptr :=
  λ s, Ok (sBrk s, mkSt (<[sBrk s := o]> (sOrders s)) (sLimits s)
                     (N.succ (sBrk s)) (sBook s)).
Definition load_limit (p : ptr) : M Limit :=
  λ s, match sLimits s !! p with Some l => Ok (l, s) | None => Panic end.
Definition modify_limit (p : ptr) (f : Limit → Limit) : M unit :=
  λ s, match sLimits s !! p with
       | Some l => Ok (tt, with_limits (<[p := f l]> (sLimits s)) s)
       | None => Panic
       end.
Definition alloc_limit (l : Limit) : M ptr :=
  λ s, Ok (sBrk s, mkSt (sOrders s) (<[sBrk s := l]> (sLimits s))
                     (N.succ (sBrk s)) (sBook s)).

(** ** order.go and limit.go *)

(** The struct [NewOrder] builds; [now] is the reading of [time.Now()]. *)
Definition new_order_struct (id : string) (side orderType price qty now : Z) : Order :=
  mkOrder id side orderType price qty 0 now nil_ptr nil_ptr nil_ptr.

Definition NewOrder (id : string) (side orderType price qty now : Z) : M ptr :=
  alloc_order (new_order_struct id side orderType price qty now).

Definition RemainingQty (o : Order) : Z := oQuantity o -u oFilledQty o.

Definition NewLimit (price : Z) : M ptr :=
  alloc_limit (mkLimit price 0 nil_ptr nil_ptr).

Definition AddOrder (l order : ptr) : M unit :=
  modify_order order (set_oLimit l);;
  lim ← load_limit l;
  (if (lHead lim =? nil_ptr)%N then
     modify_limit l (set_lHead order);;
     modify_limit l (set_lTail order)
   else
     modify_order (lTail lim) (set_oNext order);;
     modify_order order (set_oPrev (lTail lim));;
     modify_order order (set_oNext nil_ptr);;
     modify_limit l (set_lTail order));;
  o ← load_order order;
  modify_limit l (λ lim, set_lTotalVolume (lTotalVolume lim +u RemainingQty o) lim).

Definition RemoveOrder (l order : ptr) : M unit :=
  o ← load_order order;
  (if negb (oPrev o =? nil_ptr)%N then
     modify_order (oPrev o) (set_oNext (oNext o))
   else
     modify_limit l (set_lHead (oNext o)));;
  o ← load_order order;
  (if negb (oNext o =? nil_ptr)%N then
     modify_order (oNext o) (set_oPrev (oPrev o))
   else
     modify_limit l (set_lTail (oPrev o)));;
  o ← load_order order;
  modify_limit l (λ lim, set_lTotalVolume (lTotalVolume lim -u RemainingQty o) lim);;
  modify_order order (set_oLimit nil_ptr);;
  modify_order order (set_oNext nil_ptr);;
  modify_order order (set_oPrev nil_ptr).
