(* ===== verification/LevelQueue.v ===== *)
(** * The queue of a price level

    The abstract content of a price level is the list of its resting orders,
    oldest first ([entry]).  [dseg] and [level_rep] say that the pointers of
    the heap spell that list: they are the representation predicate of the
    doubly linked list of limit.go.  The lemmas show what [AddOrder] and
    [RemoveOrder] do to it. *)

From stdpp Require Import prelude gmap strings list fin_maps.
From Stdlib Require Import ZArith Lia.
From S2P Require Import Prelude Order.

Local Open Scope Z_scope.
Local Open Scope go_scope.

Record entry := mkEntry { eOid : ptr; eId : string; eRem : Z }.
Record level := mkLevel { vPrice : Z; vQueue : list entry }.

#[global] Instance entry_eq_dec : EqDecision entry.
Proof. solve_decision. Defined.
#[global] Instance level_eq_dec : EqDecision level.
Proof. solve_decision. Defined.

Definition oids (q : list entry) : list ptr := eOid <$> q.
Definition vol (q : list entry) : Z := foldr (λ e a, eRem e + a) 0 q.

Lemma vol_app q1 q2 : vol (q1 ++ q2) = vol q1 + vol q2.
Proof. induction q1; simpl; lia. Qed.

Lemma vol_nonneg q : Forall (λ e, 0 <= eRem e) q → 0 <= vol q.
Proof. induction 1; simpl; lia. Qed.

(** ** What an operation leaves alone *)

Record frame (ps ls : list ptr) (s s' : St) : Prop := {
  frame_orders p : p ∉ ps → sOrders s' !! p = sOrders s !! p;
  frame_limits p : p ∉ ls → sLimits s' !! p = sLimits s !! p;
  frame_dom_orders : dom (sOrders s') = dom (sOrders s);
  frame_dom_limits : dom (sLimits s') = dom (sLimits s);
  frame_brk : sBrk s' = sBrk s;
}.

Lemma frame_refl ps ls s : frame ps ls s s.
Proof. by split. Qed.

Lemma frame_trans ps ls s1 s2 s3 :
  frame ps ls s1 s2 → frame ps ls s2 s3 → frame ps ls s1 s3.
Proof.
  intros F1 F2; split.
  - intros p Hp. by rewrite (frame_orders _ _ _ _ F2), (frame_orders _ _ _ _ F1).
  - intros p Hp. by rewrite (frame_limits _ _ _ _ F2), (frame_limits _ _ _ _ F1).
  - by rewrite (frame_dom_orders _ _ _ _ F2), (frame_dom_orders _ _ _ _ F1).
  - by rewrite (frame_dom_limits _ _ _ _ F2), (frame_dom_limits _ _ _ _ F1).
  - by rewrite (frame_brk _ _ _ _ F2), (frame_brk _ _ _ _ F1).
Qed.

Lemma frame_mono ps ps' ls ls' s s' :
  ps ⊆ ps' → ls ⊆ ls' → frame ps ls s s' → frame ps' ls' s s'.
Proof. intros Hp Hl []; split; auto. Qed.

Lemma frame_insert_order ps ls p o' s :
  p ∈ ps → is_Some (sOrders s !! p) →
  frame ps ls s (with_orders (<[p := o']> (sOrders s)) s).
Proof.
  intros Hp Ho. split; simpl; auto.
  - intros q Hq. rewrite lookup_insert_ne; set_solver.
  - by rewrite dom_insert_lookup_L.
Qed.

Lemma frame_insert_limit ps ls p l' s :
  p ∈ ls → is_Some (sLimits s !! p) →
  frame ps ls s (with_limits (<[p := l']> (sLimits s)) s).
Proof.
  intros Hp Ho. split; simpl; auto.
  - intros q Hq. rewrite lookup_insert_ne; set_solver.
  - by rewrite dom_insert_lookup_L.
Qed.

Lemma frame_with_book ps ls b s : frame ps ls s (with_book b s).
Proof. by split. Qed.

#[export] Hint Resolve frame_refl frame_with_book : go.

(** ** Primitive steps *)

Lemma load_order_Ok s p o : sOrders s !! p = Some o → load_order p s = Ok (o, s).
Proof. intros E. unfold load_order. by rewrite E. Qed.
Lemma load_limit_Ok s p l : sLimits s !! p = Some l → load_limit p s = Ok (l, s).
Proof. intros E. unfold load_limit. by rewrite E. Qed.
Lemma modify_order_Ok s p f o :
  sOrders s !! p = Some o →
  modify_order p f s = Ok (tt, with_orders (<[p := f o]> (sOrders s)) s).
Proof. intros E. unfold modify_order. by rewrite E. Qed.
Lemma modify_limit_Ok s p f l :
  sLimits s !! p = Some l →
  modify_limit p f s = Ok (tt, with_limits (<[p := f l]> (sLimits s)) s).
Proof. intros E. unfold modify_limit. by rewrite E. Qed.

#[export] Hint Resolve load_order_Ok load_limit_Ok modify_order_Ok modify_limit_Ok : go.

(** Reading a cell of a heap that was written a few times. *)
Ltac heap_lookup :=
  cbn [sOrders sLimits sBook sBrk with_orders with_limits with_book with_index];
  repeat first
    [ eassumption
    | apply lookup_insert_eq
    | rewrite lookup_insert_ne by congruence ].
#[export] Hint Extern 1 (sOrders _ !! _ = Some _) => heap_lookup : go.
#[export] Hint Extern 1 (sLimits _ !! _ = Some _) => heap_lookup : go.

(** The frame of a sequence of writes is the frame of each of them. *)
Ltac frame_solve :=
  lazymatch goal with
  | |- frame _ _ ?s ?s => apply frame_refl
  | |- frame _ _ _ (with_orders _ ?s1) =>
      eapply (frame_trans _ _ _ s1);
      [ frame_solve | apply (frame_insert_order _ _ _ _ s1); [first [assumption | set_solver] | eexists; heap_lookup] ]
  | |- frame _ _ _ (with_limits _ ?s1) =>
      eapply (frame_trans _ _ _ s1);
      [ frame_solve | apply (frame_insert_limit _ _ _ _ s1); [first [assumption | set_solver] | eexists; heap_lookup] ]
  end.

(** ** The doubly linked segment *)

Definition first_oid (q : list entry) (nxt : ptr) : ptr :=
  match q with [] => nxt | e :: _ => eOid e end.
Fixpoint last_oid (prev : ptr) (q : list entry) : ptr :=
  match q with [] => prev | e :: q' => last_oid (eOid e) q' end.

(** The order in the heap is the one the entry describes. *)
Definition order_is (bid : bool) (price : Z) (o : Order) (e : entry) : Prop :=
  oID o = eId e ∧ (oSide o =? Buy) = bid ∧ oPrice o = price ∧
  0 <= oFilledQty o ∧ oQuantity o < 2 ^ 64 ∧
  oQuantity o - oFilledQty o = eRem e ∧ 0 <= eRem e.

Section segment.
Context (bid : bool) (price : Z) (lp : ptr).
Implicit Types (h : gmap ptr Order) (q : list entry).

Definition node h (prev : ptr) (e : entry) (nxt : ptr) : Prop :=
  ∃ o, h !! eOid e = Some o ∧ order_is bid price o e ∧
       oPrev o = prev ∧ oNext o = nxt ∧ oLimit o = lp.

Fixpoint dseg h (prev : ptr) q (nxt : ptr) : Prop :=
  match q with
  | [] => True
  | e :: q' => node h prev e (first_oid q' nxt) ∧ dseg h (eOid e) q' nxt
  end.

Lemma dseg_app h prev q1 q2 nxt :
  dseg h prev (q1 ++ q2) nxt ↔
  dseg h prev q1 (first_oid q2 nxt) ∧ dseg h (last_oid prev q1) q2 nxt.
Proof.
  revert prev. induction q1 as [|e q1 IH]; intros prev; simpl; [tauto|].
  rewrite IH. destruct q1; simpl; tauto.
Qed.

Lemma dseg_frame h h' prev q nxt :
  (∀ p, p ∈ oids q → h' !! p = h !! p) → dseg h prev q nxt → dseg h' prev q nxt.
Proof.
  revert prev. induction q as [|e q IH]; intros prev Hf; simpl; [done|].
  intros [(o & Ho & ?) Hq]. split.
  - exists o. rewrite Hf by (unfold oids; simpl; set_solver). done.
  - apply IH; [|done]. intros p Hp. apply Hf. unfold oids in *. set_solver.
Qed.

Lemma dseg_insert_ne h p o prev q nxt :
  p ∉ oids q → dseg h prev q nxt → dseg (<[p := o]> h) prev q nxt.
Proof.
  intros Hp. apply dseg_frame. intros r Hr. rewrite lookup_insert_ne; [done|].
  by intros ->.
Qed.

Lemma dseg_lookup h prev q nxt e :
  dseg h prev q nxt → e ∈ q →
  ∃ o, h !! eOid e = Some o ∧ order_is bid price o e ∧ oLimit o = lp.
Proof.
  revert prev. induction q as [|e' q IH]; intros prev Hd He; [set_solver|].
  destruct Hd as [(o & ? & ? & ? & ? & ?) Hd]. apply elem_of_cons in He as [->|He]; eauto.
Qed.

(** Relinking the last node forwards and the first node backwards. *)
Lemma dseg_set_next h prev q e o nxt nxt' :
  NoDup (oids (q ++ [e])) → h !! eOid e = Some o →
  dseg h prev (q ++ [e]) nxt →
  dseg (<[eOid e := set_oNext nxt' o]> h) prev (q ++ [e]) nxt'.
Proof.
  intros Hnd Ho. rewrite !dseg_app; simpl. intros (Hq & (o' & Ho' & R & ? & ? & ?) & _).
  simplify_eq. split; [|split; [|done]].
  - apply dseg_insert_ne; [|done]. unfold oids in *.
    rewrite fmap_app in Hnd. apply NoDup_app in Hnd as (_ & Hn & _).
    intros Hin. apply (Hn _ Hin). simpl. set_solver.
  - exists (set_oNext nxt' o). rewrite lookup_insert_eq. done.
Qed.

Lemma dseg_set_prev h prev prev' q e o nxt :
  eOid e ∉ oids q → h !! eOid e = Some o →
  dseg h prev (e :: q) nxt →
  dseg (<[eOid e := set_oPrev prev' o]> h) prev' (e :: q) nxt.
Proof.
  intros Hnd Ho. simpl. intros ((o' & Ho' & R & ? & ? & ?) & Hq). simplify_eq. split.
  - exists (set_oPrev prev' o). rewrite lookup_insert_eq. done.
  - by apply dseg_insert_ne.
Qed.
End segment.
#[global] Arguments dseg : simpl never.

Lemma last_oid_app prev q1 q2 : last_oid prev (q1 ++ q2) = last_oid (last_oid prev q1) q2.
Proof. revert prev. induction q1; intros; simpl; auto. Qed.

(** ** A whole level *)

Definition level_rep (bid : bool) (s : St) (lp : ptr) (v : level) : Prop :=
  ∃ lim, sLimits s !! lp = Some lim ∧
    lPrice lim = vPrice v ∧
    lTotalVolume lim = vol (vQueue v) ∧ vol (vQueue v) < 2 ^ 64 ∧
    lHead lim = first_oid (vQueue v) nil_ptr ∧
    lTail lim = last_oid nil_ptr (vQueue v) ∧
    dseg bid (vPrice v) lp (sOrders s) nil_ptr (vQueue v) nil_ptr.

Lemma level_rep_frame ps ls bid s s' lp v :
  frame ps ls s s' → lp ∉ ls → oids (vQueue v) ## ps →
  level_rep bid s lp v → level_rep bid s' lp v.
Proof.
  intros F Hl Hd (lim & Hlim & ? & ? & ? & ? & ? & Hseg). exists lim.
  rewrite (frame_limits _ _ _ _ F) by done. repeat split; auto.
  eapply dseg_frame; [|done]. intros p Hp. apply (frame_orders _ _ _ _ F). set_solver.
Qed.

Lemma order_is_RemainingQty bid price o e :
  order_is bid price o e → RemainingQty o = eRem e.
Proof.
  intros (_ & _ & _ & ? & ? & <- & ?). apply wrap64_id. unfold is_u64. lia.
Qed.

Lemma dseg_vol_nonneg bid price lp h prev q nxt :
  dseg bid price lp h prev q nxt → 0 <= vol q.
Proof.
  revert prev. induction q as [|e q IH]; intros prev; [done|].
  simpl. intros [(o & _ & (_ & _ & _ & _ & _ & _ & ?) & _) Hd]. specialize (IH _ Hd). lia.
Qed.

Lemma oids_app q1 q2 : oids (q1 ++ q2) = oids q1 ++ oids q2.
Proof. apply fmap_app. Qed.

Lemma NoDup_oids_snoc q e :
  NoDup (oids (q ++ [e])) → NoDup (oids q) ∧ eOid e ∉ oids q.
Proof.
  rewrite oids_app. intros (? & Hn & _)%NoDup_app. split; [done|].
  intros Hin. apply (Hn _ Hin). set_solver.
Qed.

Lemma NoDup_oids_mid q1 e q2 :
  NoDup (oids (q1 ++ e :: q2)) →
  NoDup (oids (q1 ++ q2)) ∧ (eOid e ∉ oids q1) ∧ (eOid e ∉ oids q2) ∧ oids q1 ## oids q2.
Proof.
  rewrite !oids_app. simpl. intros H. rewrite <-Permutation_middle in H.
  apply NoDup_cons in H as [Hn H]. split; [done|].
  apply NoDup_app in H as (_ & Hd & _). rewrite elem_of_app in Hn. set_solver.
Qed.

(** The goals about a heap after a few writes: read back what was written. *)
Ltac heap_simpl :=
  repeat (simplify_map_eq || rewrite lookup_insert_ne by congruence); simpl in *.

(** [AddOrder] appends to the tail. *)
Lemma AddOrder_spec bid s lp o price q e :
  level_rep bid s lp (mkLevel price q) →
  sOrders s !! eOid e = Some o → order_is bid price o e →
  oNext o = nil_ptr → oPrev o = nil_ptr →
  NoDup (oids (q ++ [e])) → nil_ptr ∉ oids q → vol q + eRem e < 2 ^ 64 →
  ∃ s', AddOrder lp (eOid e) s = Ok (tt, s') ∧
    level_rep bid s' lp (mkLevel price (q ++ [e])) ∧
    frame (oids (q ++ [e])) [lp] s s' ∧ sBook s' = sBook s.
Proof.
  intros (lim & Hlim & Hpr & Hvol & _ & Hhd & Htl & Hseg) Ho Ris Hnx Hpv Hnd Hnil Hov; simpl in *.
  pose proof (dseg_vol_nonneg _ _ _ _ _ _ _ Hseg) as Hq0.
  pose proof (order_is_RemainingQty _ _ _ _ Ris) as Hrem.
  assert (0 <= eRem e) by apply Ris.
  unfold RemainingQty in Hrem. unfold AddOrder. go_step. go_step.
  destruct q as [|e0 q0 _] using rev_ind.
  - simpl in *. rewrite Hhd; simpl.
    eexists. split; [go_step; go_step; go_solve|]. split; [|split; [frame_solve|done]].
    eexists; split; [heap_lookup|]. unfold RemainingQty; simpl.
    rewrite Hrem, Hvol, wrap64_id by (unfold is_u64; lia).
    split_and!; auto; try lia. split; [|done]. exists (set_oLimit lp o). heap_simpl. auto.
  - rewrite Hhd.
    apply NoDup_oids_snoc in Hnd as [Hnd Hne].
    assert (eOid e0 ≠ eOid e) by (intros E; apply Hne; rewrite oids_app, <-E; set_solver).
    destruct (dseg_lookup _ _ _ _ _ _ _ e0 Hseg) as (o0 & Ho0 & R0 & Hl0); [set_solver|].
    rewrite last_oid_app in Htl; simpl in Htl.
    replace ((first_oid (q0 ++ [e0]) nil_ptr =? nil_ptr)%N) with false.
    2:{ symmetry. apply N.eqb_neq. intros E. apply Hnil. rewrite <- E.
        destruct q0; simpl; set_solver. }
    rewrite Htl.
    eexists. split; [go_step; go_step; go_solve|]. split; [|split; [frame_solve|done]].
    eexists; split; [heap_lookup|]. unfold RemainingQty; simpl.
    rewrite Hrem, Hvol, wrap64_id by (unfold is_u64; lia).
    rewrite !vol_app in *. rewrite last_oid_app. simpl in *.
    split_and!; auto; try lia; [by destruct q0|].
    apply dseg_app; split.
    + do 2 (apply dseg_insert_ne; [done|]).
      apply dseg_set_next with (nxt := nil_ptr); [done|heap_lookup|].
      by apply dseg_insert_ne.
    + split; [|done]. rewrite last_oid_app. eexists; split; [apply lookup_insert_eq|]. done.
Qed.

(** The two relinking halves of [RemoveOrder]: the part of the queue before
    the order gets a new end, the part after it a new beginning. *)
Lemma unlink_prev bid price lp s lim q old nxt :
  sLimits s !! lp = Some lim → lHead lim = first_oid q old →
  NoDup (oids q) → nil_ptr ∉ oids q →
  dseg bid price lp (sOrders s) nil_ptr q old →
  ∃ s' lim', (if negb (last_oid nil_ptr q =? nil_ptr)%N
              then modify_order (last_oid nil_ptr q) (set_oNext nxt)
              else modify_limit lp (set_lHead nxt)) s = Ok (tt, s') ∧
    frame (oids q) [lp] s s' ∧ sBook s' = sBook s ∧
    dseg bid price lp (sOrders s') nil_ptr q nxt ∧
    sLimits s' !! lp = Some lim' ∧ lHead lim' = first_oid q nxt ∧
    lPrice lim' = lPrice lim ∧ lTotalVolume lim' = lTotalVolume lim ∧ lTail lim' = lTail lim.
Proof.
  intros Hlim Hhd Hnd Hnil Hseg. destruct q as [|e q _] using rev_ind.
  - eexists _, _. simpl. split; [go_solve|].
    split_and!; [frame_solve|done|done|heap_lookup|done..].
  - destruct (dseg_lookup _ _ _ _ _ _ _ e Hseg) as (o & Ho & _); [set_solver|].
    assert (eOid e ≠ nil_ptr) as Hn by (intros E; apply Hnil; rewrite oids_app, <-E; set_solver).
    apply N.eqb_neq in Hn. rewrite last_oid_app. simpl. rewrite Hn. simpl.
    eexists _, lim. split; [go_solve|].
    split_and!; try done; [|by eapply dseg_set_next|by destruct q].
    rewrite oids_app. frame_solve.
Qed.

Lemma unlink_next bid price lp s lim q old prev :
  sLimits s !! lp = Some lim → lTail lim = last_oid old q →
  NoDup (oids q) → nil_ptr ∉ oids q →
  dseg bid price lp (sOrders s) old q nil_ptr →
  ∃ s' lim', (if negb (first_oid q nil_ptr =? nil_ptr)%N
              then modify_order (first_oid q nil_ptr) (set_oPrev prev)
              else modify_limit lp (set_lTail prev)) s = Ok (tt, s') ∧
    frame (oids q) [lp] s s' ∧ sBook s' = sBook s ∧
    dseg bid price lp (sOrders s') prev q nil_ptr ∧
    sLimits s' !! lp = Some lim' ∧ lTail lim' = last_oid prev q ∧
    lPrice lim' = lPrice lim ∧ lTotalVolume lim' = lTotalVolume lim ∧ lHead lim' = lHead lim.
Proof.
  intros Hlim Htl Hnd Hnil Hseg. destruct q as [|e q].
  - eexists _, _. simpl. split; [go_solve|].
    split_and!; [frame_solve|done|done|heap_lookup|done..].
  - destruct (dseg_lookup _ _ _ _ _ _ _ e Hseg) as (o & Ho & _); [set_solver|].
    assert (eOid e ≠ nil_ptr) as Hn by (intros E; apply Hnil; rewrite <-E; set_solver).
    apply N.eqb_neq in Hn. simpl. rewrite Hn. simpl.
    eexists _, lim. split; [go_solve|].
    apply NoDup_cons in Hnd as [? _].
    split_and!; try done; [frame_solve|by eapply dseg_set_prev].
Qed.

(** [RemoveOrder] unlinks the order wherever it is in the queue. *)
Lemma RemoveOrder_spec bid s lp price q1 e q2 :
  level_rep bid s lp (mkLevel price (q1 ++ e :: q2)) →
  NoDup (oids (q1 ++ e :: q2)) → nil_ptr ∉ oids (q1 ++ e :: q2) →
  ∃ s' o, RemoveOrder lp (eOid e) s = Ok (tt, s') ∧
    level_rep bid s' lp (mkLevel price (q1 ++ q2)) ∧
    frame (oids (q1 ++ e :: q2)) [lp] s s' ∧ sBook s' = sBook s ∧
    sOrders s !! eOid e = Some o ∧
    sOrders s' !! eOid e =
      Some (set_oPrev nil_ptr (set_oNext nil_ptr (set_oLimit nil_ptr o))).
Proof.
  intros (lim & Hlim & Hpr & Hvol & Hmax & Hhd & Htl & Hseg) Hnd Hnil; simpl in *.
  rewrite dseg_app in Hseg. destruct Hseg as [Hs1 [(o & Ho & Ris & Hpv & Hnx & Hl) Hs2]].
  pose proof (order_is_RemainingQty _ _ _ _ Ris) as Hrem. unfold RemainingQty in Hrem.
  pose proof (dseg_vol_nonneg _ _ _ _ _ _ _ Hs1).
  pose proof (dseg_vol_nonneg _ _ _ _ _ _ _ Hs2).
  assert (0 <= eRem e) by apply Ris. rewrite vol_app in *; simpl in *.
  apply NoDup_oids_mid in Hnd as (Hnd & He1 & He2 & Hd12).
  rewrite oids_app in Hnd, Hnil. apply NoDup_app in Hnd as (Hnd1 & _ & Hnd2).
  apply not_elem_of_app in Hnil as [Hnil1 [_ Hnil2]%not_elem_of_cons].
  unfold RemoveOrder. go_step. rewrite Hpv, Hnx.
  destruct (unlink_prev bid price lp s lim q1 (eOid e) (first_oid q2 nil_ptr))
    as (s1 & lim1 & E1 & F1 & B1 & D1 & L1 & Hh1 & Hp1 & Hv1 & Ht1); auto.
  { by rewrite Hhd; destruct q1. }
  rewrite (bind_Ok _ _ _ _ _ E1).
  assert (sOrders s1 !! eOid e = Some o) by (by rewrite (frame_orders _ _ _ _ F1)).
  go_step. rewrite Hpv, Hnx.
  destruct (unlink_next bid price lp s1 lim1 q2 (eOid e) (last_oid nil_ptr q1))
    as (s2 & lim2 & E2 & F2 & B2 & D2 & L2 & Ht2 & Hp2 & Hv2 & Hh2); auto.
  { rewrite Ht1, Htl. apply last_oid_app. }
  { eapply dseg_frame; [|done]. intros p Hp. apply (frame_orders _ _ _ _ F1).
    intros Hp1'. by apply (Hd12 p). }
  rewrite (bind_Ok _ _ _ _ _ E2).
  assert (sOrders s2 !! eOid e = Some o) by (by rewrite (frame_orders _ _ _ _ F2)).
  eexists _, o. split; [go_solve|].
  split; [|split; [|split_and!; [by simpl; congruence|done|heap_lookup]]].
  - eexists. split; [heap_lookup|]. unfold RemainingQty; simpl.
    rewrite Hrem, Hv2, Hv1, Hvol, wrap64_id by (unfold is_u64; lia).
    rewrite vol_app, last_oid_app. split_and!; try congruence; try lia.
    + rewrite Hh2, Hh1. by destruct q1.
    + do 3 (apply dseg_insert_ne; [rewrite oids_app; set_solver|]).
      apply dseg_app; split; [|done].
      eapply dseg_frame; [|done]. intros p Hp. apply (frame_orders _ _ _ _ F2).
      intros Hp2'. by apply (Hd12 p).
  - eapply frame_trans; [eapply frame_mono; [| |exact F1]; rewrite ?oids_app; set_solver|].
    eapply frame_trans; [eapply frame_mono; [| |exact F2]; rewrite ?oids_app; set_solver|].
    rewrite oids_app. frame_solve.
Qed.
