(* ===== verification/OrderBook.v ===== *)
(** * The limit order book

    pkg/orderbook/orderbook.go, function by function, over the heap of
    [Order].  [&ob.bids] and [&ob.asks] are passed around as pointers to
    slices; [slice_ref] names which of the two a pointer denotes.  The two
    loops of [matchOrder] take fuel: running out of it is [NoFuel], which the
    refinement theorem shows does not happen once the fuel exceeds the number
    of orders resting on the opposite side. *)

From stdpp Require Import prelude gmap strings list fin_maps.
From Stdlib Require Import ZArith Lia.
From S2P Require Import Prelude GoSort Order.

Local Open Scope Z_scope.
Local Open Scope go_scope.

Record PriceLevel := mkPriceLevel { plPrice : Z; plVolume : Z }.
#[global] Instance PriceLevel_eq_dec : EqDecision PriceLevel.
Proof. solve_decision. Defined.

Inductive slice_ref := Bids | Asks.
#[global] Instance slice_ref_eq_dec : EqDecision slice_ref.
Proof. solve_decision. Defined.

Definition get_slice (r : slice_ref) (b : OrderBook) : list ptr :=
  match r with Bids => bids b | Asks => asks b end.
Definition set_slice (r : slice_ref) (l : list ptr) (b : OrderBook) : OrderBook :=
  match r with
  | Bids => mkOrderBook l (asks b) (orders b)
  | Asks => mkOrderBook (bids b) l (orders b)
  end.

Definition load_slice (r : slice_ref) : M (list ptr) := gets (λ s, get_slice r (sBook s)).
Definition store_slice (r : slice_ref) (l : list ptr) : M unit :=
  modify (λ s, with_book (set_slice r l (sBook s)) s).
(** [delete(ob.orders, id)] and [ob.orders[id] = p]. *)
Definition index_delete (id : string) : M unit :=
  modify (λ s, with_index (delete id (orders (sBook s))) s).
Definition index_insert (id : string) (p : ptr) : M unit :=
  modify (λ s, with_index (<[id := p]> (orders (sBook s))) s).

(** [limits[i]] through a pointer to the slice: an index out of range panics. *)
Definition slice_at (r : slice_ref) (i : nat) : M ptr :=
  l ← load_slice r; from_option_panic (l !! i).

Definition NewOrderBook : OrderBook := mkOrderBook [] [] ∅.

(** The state of a process that has just called [NewOrderBook]: an empty heap
    whose first free address is 1. *)
Definition init_state : St := mkSt ∅ ∅ 1%N NewOrderBook.

Definition min (a b : Z) : Z := if a <? b then a else b.

(** The inner loop of [matchOrder], over the queue of one level. *)
Fixpoint match_level (fuel : nat) (takerOrder bestLimit : ptr) (trades : list Trade) :
    M (list Trade) :=
  match fuel with
  | O => nofuel
  | S fuel' =>
      lim ← load_limit bestLimit;
      taker ← load_order takerOrder;
      if negb (lHead lim =? nil_ptr)%N && (0 <? RemainingQty taker) then
        let makerOrder := lHead lim in
        maker ← load_order makerOrder;
        let matchQty := min (RemainingQty taker) (RemainingQty maker) in
        modify_order takerOrder (λ o, set_oFilledQty (oFilledQty o +u matchQty) o);;
        modify_order makerOrder (λ o, set_oFilledQty (oFilledQty o +u matchQty) o);;
        modify_limit bestLimit (λ l, set_lTotalVolume (lTotalVolume l -u matchQty) l);;
        maker ← load_order makerOrder;
        taker ← load_order takerOrder;
        lim ← load_limit bestLimit;
        let trades := trades ++ [mkTrade (oID maker) (oID taker) (lPrice lim) matchQty] in
        (if RemainingQty maker =? 0 then
           RemoveOrder bestLimit makerOrder;;
           index_delete (oID maker)
         else mret tt);;
        match_level fuel' takerOrder bestLimit trades
      else mret trades
  end.

(** The outer loop, over the levels of the opposite side. *)
Fixpoint match_levels (fuel : nat) (takerOrder : ptr) (makerLimits : slice_ref)
    (trades : list Trade) : M (list Trade) :=
  match fuel with
  | O => nofuel
  | S fuel' =>
      limits ← load_slice makerLimits;
      taker ← load_order takerOrder;
      if (0 <? length limits)%nat && (0 <? RemainingQty taker) then
        bestLimit ← slice_at makerLimits 0;
        best ← load_limit bestLimit;
        if (oType taker =? LimitOrder) &&
           ((oSide taker =? Buy) && (oPrice taker <? lPrice best) ||
            (oSide taker =? Sell) && (lPrice best <? oPrice taker))
        then mret trades
        else
          trades ← match_level fuel takerOrder bestLimit trades;
          best ← load_limit bestLimit;
          (if lTotalVolume best =? 0 then
             limits ← load_slice makerLimits;
             store_slice makerLimits (drop 1 limits)
           else mret tt);;
          match_levels fuel' takerOrder makerLimits trades
      else mret trades
  end.

Definition matchOrder (fuel : nat) (takerOrder : ptr) (makerLimits : slice_ref) :
    M (list Trade) :=
  match_levels fuel takerOrder makerLimits [].

(** The closure [addLimitOrder] and [removeLimitLevel] hand to [sort.Search]. *)
Definition search_price (limits : slice_ref) (price : Z) (descending : bool) (i : nat) : M bool :=
  p ← slice_at limits i;
  l ← load_limit p;
  mret (if descending then lPrice l <=? price else price <=? lPrice l).

(** The test whether the level at [idx] exists and has price [price]. *)
Definition price_at (limits : slice_ref) (idx : nat) (price : Z) : M bool :=
  l ← load_slice limits;
  if (idx <? length l)%nat then
    p ← slice_at limits idx;
    lim ← load_limit p;
    mret (lPrice lim =? price)
  else mret false.

Definition addLimitOrder (order : ptr) (limits : slice_ref) (descending : bool) : M unit :=
  o ← load_order order;
  let price := oPrice o in
  l ← load_slice limits;
  idx ← sort_Search (length l) (search_price limits price descending);
  found ← price_at limits idx price;
  limit ← (if (found : bool) then slice_at limits idx
           else
             limit ← NewLimit price;
             l ← load_slice limits;
             store_slice limits (slice_insert nil_ptr idx limit l);;
             mret limit);
  AddOrder limit order;;
  o ← load_order order;
  index_insert (oID o) order.

Definition removeLimitLevel (limits : slice_ref) (price : Z) (descending : bool) : M unit :=
  l ← load_slice limits;
  idx ← sort_Search (length l) (search_price limits price descending);
  found ← price_at limits idx price;
  if (found : bool) then
    l ← load_slice limits;
    store_slice limits (slice_remove idx l)
  else mret tt.

Definition Process (fuel : nat) (order : ptr) : M (list Trade) :=
  o ← load_order order;
  if oQuantity o =? 0 then mret []
  else if oSide o =? Buy then
    trades ← matchOrder fuel order Asks;
    o ← load_order order;
    (if (0 <? RemainingQty o) && (oType o =? LimitOrder) then
       addLimitOrder order Bids true
     else mret tt);;
    mret trades
  else
    trades ← matchOrder fuel order Bids;
    o ← load_order order;
    (if (0 <? RemainingQty o) && (oType o =? LimitOrder) then
       addLimitOrder order Asks false
     else mret tt);;
    mret trades.

Definition Cancel (orderID : string) : M bool :=
  index ← gets (λ s, orders (sBook s));
  match index !! orderID with
  | None => mret false
  | Some order =>
      o ← load_order order;
      let limit := oLimit o in
      if (limit =? nil_ptr)%N then mret false
      else
        RemoveOrder limit order;;
        o ← load_order order;
        index_delete (oID o);;
        lim ← load_limit limit;
        (if lTotalVolume lim =? 0 then
           if oSide o =? Buy then removeLimitLevel Bids (lPrice lim) true
           else removeLimitLevel Asks (lPrice lim) false
         else mret tt);;
        mret true
  end.

(** One of the two loops of [GetDepth]: [for i := 0; i < len(l) && i < depth; i++]. *)
Fixpoint depth_loop (r : slice_ref) (n : nat) (i : nat) : M (list PriceLevel) :=
  match n with
  | O => mret []
  | S n' =>
      p ← slice_at r i;
      lim ← load_limit p;
      rest ← depth_loop r n' (i + 1);
      mret (mkPriceLevel (lPrice lim) (lTotalVolume lim) :: rest)
  end.

(** [make([]PriceLevel, 0, depth)] panics for a negative capacity and for one
    that exceeds the address space: the two words of a [PriceLevel] are 16
    bytes, of the 2^48 that Go's allocator addresses on 64-bit platforms. *)
Definition max_levels : Z := 2 ^ 48 / 16.
Definition GetDepth (depth : Z) : M (list PriceLevel * list PriceLevel) :=
  if (depth <? 0) || (max_levels <? depth) then panic
  else
    b ← load_slice Bids;
    bidsDepth ← depth_loop Bids (Nat.min (length b) (Z.to_nat depth)) 0;
    a ← load_slice Asks;
    asksDepth ← depth_loop Asks (Nat.min (length a) (Z.to_nat depth)) 0;
    mret (bidsDepth, asksDepth).
