(* ===== verification/BookSpec.v ===== *)
(** * The order book as a price-time priority queue

    What orderbook.go promises, without pointers: each side is a list of
    price levels, best price first, and a level is the list of its resting
    orders, oldest first.  The functions below are the reference the pointer
    code is proved to refine (BookRefine). *)

From stdpp Require Import prelude gmap strings list fin_maps sorting.
From Stdlib Require Import ZArith Lia.
From S2P Require Import Prelude Order LevelQueue OrderBook.

Local Open Scope Z_scope.

Record book := mkBook {
  bBids : list level;
  bAsks : list level;
  bIndex : gmap string ptr;
}.

Definition levels (r : slice_ref) (b : book) : list level :=
  match r with Bids => bBids b | Asks => bAsks b end.
Definition set_levels (r : slice_ref) (ls : list level) (b : book) : book :=
  match r with
  | Bids => mkBook ls (bAsks b) (bIndex b)
  | Asks => mkBook (bBids b) ls (bIndex b)
  end.
Definition set_bIndex (m : gmap string ptr) (b : book) : book :=
  mkBook (bBids b) (bAsks b) m.
Definition opp (r : slice_ref) : slice_ref :=
  match r with Bids => Asks | Asks => Bids end.
Definition is_bid (r : slice_ref) : bool :=
  match r with Bids => true | Asks => false end.
(** The side an order rests on; a side that is not [Buy] is treated as a sell. *)
Definition side_of (side : Z) : slice_ref := if side =? Buy then Bids else Asks.

(** All resting orders of a side, in priority order. *)
Definition entries (ls : list level) : list entry := ls ≫= vQueue.
Definition side_vol (ls : list level) : Z := vol (entries ls).

Definition empty_book : book := mkBook [] [] ∅.

(** ** Matching *)

Record fill := mkFill { fPrice : Z; fEntry : entry; fQty : Z }.

Definition trade_of (taker : string) (f : fill) : Trade :=
  mkTrade (eId (fEntry f)) taker (fPrice f) (fQty f).

(** Consume a queue from its oldest order on. *)
Fixpoint fill_queue (price rem : Z) (q : list entry) : list fill * Z * list entry :=
  match q with
  | [] => ([], rem, [])
  | e :: q' =>
      if rem <=? 0 then ([], rem, q)
      else if eRem e <=? rem then
        let '(fs, rem', q'') := fill_queue price (rem - eRem e) q' in
        (mkFill price e (eRem e) :: fs, rem', q'')
      else ([mkFill price e rem], 0, mkEntry (eOid e) (eId e) (eRem e - rem) :: q')
  end.

(** Consume the levels that cross, best price first. *)
Fixpoint fill_levels (cross : Z → bool) (rem : Z) (ls : list level) :
    list fill * Z * list level :=
  match ls with
  | [] => ([], rem, [])
  | v :: ls' =>
      if rem <=? 0 then ([], rem, ls)
      else if negb (cross (vPrice v)) then ([], rem, ls)
      else
        let '(fs, rem', q') := fill_queue (vPrice v) rem (vQueue v) in
        match q' with
        | [] => let '(gs, rem'', ls'') := fill_levels cross rem' ls' in (fs ++ gs, rem'', ls'')
        | _ => (fs, rem', mkLevel (vPrice v) q' :: ls')
        end
  end.

(** The price test of [matchOrder]. *)
Definition crosses (side orderType price lprice : Z) : bool :=
  negb ((orderType =? LimitOrder) &&
        ((side =? Buy) && (price <? lprice) || (side =? Sell) && (lprice <? price))).

(** Orders that are used up leave the index. *)
Definition exhausted (f : fill) : bool := eRem (fEntry f) <=? fQty f.
Definition drop_filled (fs : list fill) (m : gmap string ptr) : gmap string ptr :=
  foldl (λ m f, if exhausted f then delete (eId (fEntry f)) m else m) m fs.

(** ** Resting *)

(** [better r a b]: on side [r], price [a] goes strictly before price [b]. *)
Definition better (r : slice_ref) (a b : Z) : bool :=
  match r with Bids => b <? a | Asks => a <? b end.

Fixpoint insert_entry (r : slice_ref) (price : Z) (e : entry) (ls : list level) : list level :=
  match ls with
  | [] => [mkLevel price [e]]
  | v :: ls' =>
      if vPrice v =? price then mkLevel price (vQueue v ++ [e]) :: ls'
      else if better r price (vPrice v) then mkLevel price [e] :: ls
      else v :: insert_entry r price e ls'
  end.

(** ** The operations *)

Definition spec_process (oid : ptr) (id : string) (side orderType price qty : Z) (b : book) :
    list Trade * book :=
  if qty =? 0 then ([], b)
  else
    let r := side_of side in
    let '(fs, rem, ls) := fill_levels (crosses side orderType price) qty (levels (opp r) b) in
    let b1 := set_bIndex (drop_filled fs (bIndex b)) (set_levels (opp r) ls b) in
    (trade_of id <$> fs,
     if (0 <? rem) && (orderType =? LimitOrder) then
       set_bIndex (<[id := oid]> (bIndex b1))
         (set_levels r (insert_entry r price (mkEntry oid id rem) (levels r b1)) b1)
     else b1).

(** Remove the order [oid]; a level whose last order goes disappears. *)
Definition remove_from_level (oid : ptr) (v : level) : list level :=
  match filter (λ e, eOid e ≠ oid) (vQueue v) with
  | [] => []
  | q => [mkLevel (vPrice v) q]
  end.
Definition remove_entry (oid : ptr) (ls : list level) : list level :=
  ls ≫= remove_from_level oid.

Definition spec_cancel (id : string) (b : book) : bool * book :=
  match bIndex b !! id with
  | None => (false, b)
  | Some oid =>
      (true, mkBook (remove_entry oid (bBids b)) (remove_entry oid (bAsks b))
               (delete id (bIndex b)))
  end.

Definition spec_depth (depth : nat) (ls : list level) : list PriceLevel :=
  (λ v, mkPriceLevel (vPrice v) (vol (vQueue v))) <$> take depth ls.

(** ** Well-formed books *)

(** Strictly sorted, best price first. *)
Definition sorted_side (r : slice_ref) (ls : list level) : Prop :=
  StronglySorted (λ v w, better r (vPrice v) (vPrice w) = true) ls.

Definition level_ok (v : level) : Prop :=
  vQueue v ≠ [] ∧ Forall (λ e, 0 < eRem e) (vQueue v).

Record wf (b : book) : Prop := {
  wf_sorted r : sorted_side r (levels r b);
  wf_levels r : Forall level_ok (levels r b);
  (** every index entry is a resting order with that id *)
  wf_index id oid : bIndex b !! id = Some oid →
    ∃ r e, e ∈ entries (levels r b) ∧ eOid e = oid ∧ eId e = id;
  (** the best bid is below the best ask *)
  wf_uncrossed v w : v ∈ bBids b → w ∈ bAsks b → vPrice v < vPrice w;
  wf_oids : NoDup (oids (entries (bBids b) ++ entries (bAsks b)));
}.

(** ** Facts about matching *)

Lemma fill_queue_rem price rem q fs rem' q' :
  fill_queue price rem q = (fs, rem', q') → Forall (λ e, 0 < eRem e) q →
  0 <= rem → 0 <= rem' <= rem ∧ (q' ≠ [] → rem' = 0).
Proof.
  revert rem fs rem' q'. induction q as [|e q IH]; intros rem fs rem' q' H Hpos Hr; simpl in H.
  - simplify_eq. split; [lia|done].
  - apply Forall_cons in Hpos as [He Hpos].
    destruct (Z.leb_spec rem 0); [simplify_eq; lia|].
    destruct (Z.leb_spec (eRem e) rem); [|simplify_eq; lia].
    destruct (fill_queue price (rem - eRem e) q) as [[fs1 r1] q1] eqn:E. simplify_eq.
    destruct (IH _ _ _ _ E Hpos) as [? ?]; [lia|]. split; [lia|done].
Qed.

Lemma fill_queue_pos price rem q fs rem' q' :
  fill_queue price rem q = (fs, rem', q') →
  Forall (λ e, 0 < eRem e) q → Forall (λ e, 0 < eRem e) q'.
Proof.
  revert rem fs rem' q'. induction q as [|e q IH]; intros rem fs rem' q' H Hpos; simpl in H.
  - by simplify_eq.
  - apply Forall_cons in Hpos as [He Hpos].
    destruct (Z.leb_spec rem 0); [simplify_eq; by constructor|].
    destruct (Z.leb_spec (eRem e) rem).
    + destruct (fill_queue price (rem - eRem e) q) as [[fs1 r1] q1] eqn:E. simplify_eq. eauto.
    + simplify_eq. constructor; [simpl; lia|done].
Qed.

(** What is left of a queue is a suffix of it, with the same orders. *)
Lemma fill_queue_oids price rem q fs rem' q' :
  fill_queue price rem q = (fs, rem', q') → oids q' `suffix_of` oids q.
Proof.
  revert rem fs rem' q'. induction q as [|e q IH]; intros rem fs rem' q' H; simpl in H.
  - by simplify_eq.
  - destruct (rem <=? 0); [by simplify_eq|]. destruct (eRem e <=? rem).
    + destruct (fill_queue price (rem - eRem e) q) as [[fs1 r1] q1] eqn:E. simplify_eq.
      apply suffix_cons_r. eauto.
    + simplify_eq. done.
Qed.

Lemma vol_pos q : Forall (λ e, 0 < eRem e) q → q ≠ [] → 0 < vol q.
Proof.
  intros Hpos Hne. destruct Hpos as [|e q He Hq]; [done|]. simpl.
  assert (0 <= vol q); [|lia]. apply vol_nonneg. eapply Forall_impl; [exact Hq|]. simpl; lia.
Qed.

Lemma entries_cons v ls : entries (v :: ls) = vQueue v ++ entries ls.
Proof. done. Qed.
Lemma entries_app ls1 ls2 : entries (ls1 ++ ls2) = entries ls1 ++ entries ls2.
Proof. apply bind_app. Qed.

(** ** Facts about sides *)

Lemma better_irrefl r a : better r a a = false.
Proof. destruct r; simpl; lia. Qed.
Lemma better_asym r a b : better r a b = true → better r b a = false.
Proof. destruct r; simpl; lia. Qed.
Lemma better_trans r a b c : better r a b = true → better r b c = true → better r a c = true.
Proof. destruct r; simpl; lia. Qed.
Lemma better_total r a b : better r a b = false → a ≠ b → better r b a = true.
Proof. destruct r; simpl; lia. Qed.
Lemma better_ne r a b : better r a b = true → a ≠ b.
Proof. destruct r; simpl; lia. Qed.

(** A sorted side splits at any price into what goes before it and the rest. *)
Lemma split_at_price r price ls :
  sorted_side r ls →
  ∃ ls1 ls2, ls = ls1 ++ ls2 ∧
    Forall (λ v, better r (vPrice v) price = true) ls1 ∧
    Forall (λ v, better r (vPrice v) price = false) ls2.
Proof.
  induction 1 as [|v ls Hs IH Hv]; [by exists [], []|].
  destruct (better r (vPrice v) price) eqn:E.
  - destruct IH as (ls1 & ls2 & -> & H1 & H2). exists (v :: ls1), ls2. by repeat constructor.
  - exists [], (v :: ls). split_and!; [done|constructor|]. constructor; [done|].
    eapply Forall_impl; [exact Hv|]. intros w Hw; simpl in Hw.
    destruct (better r (vPrice w) price) eqn:E2; [|done].
    by rewrite (better_trans _ _ _ _ Hw E2) in E.
Qed.

Lemma insert_entry_before r price e ls1 ls2 :
  Forall (λ v, better r (vPrice v) price = true) ls1 →
  insert_entry r price e (ls1 ++ ls2) = ls1 ++ insert_entry r price e ls2.
Proof.
  induction 1 as [|v ls1 Hv _ IH]; [done|]. simpl.
  pose proof (better_ne _ _ _ Hv). replace (vPrice v =? price) with false by lia.
  rewrite (better_asym _ _ _ Hv). by rewrite IH.
Qed.

(** On the rest, the order joins the first level or starts a new one. *)
Lemma insert_entry_here r price e ls2 :
  Forall (λ v, better r (vPrice v) price = false) ls2 →
  insert_entry r price e ls2 =
    match ls2 with
    | v :: ls => if vPrice v =? price then mkLevel price (vQueue v ++ [e]) :: ls
                 else mkLevel price [e] :: ls2
    | [] => [mkLevel price [e]]
    end.
Proof.
  destruct 1 as [|v ls Hv _]; [done|]. simpl. destruct (Z.eqb_spec (vPrice v) price); [done|].
  by rewrite (better_total _ _ _ Hv).
Qed.

(** The volume at [price] stays a [uint64] when [qty] more comes to rest. *)
Definition fits (side price qty : Z) (b : book) : Prop :=
  ∀ v, v ∈ levels (side_of side) b → vPrice v = price → vol (vQueue v) + qty < 2 ^ 64.

Lemma fill_levels_rem cross rem ls fs rem' ls' :
  fill_levels cross rem ls = (fs, rem', ls') → Forall level_ok ls → 0 <= rem →
  0 <= rem' <= rem.
Proof.
  revert rem fs rem' ls'. induction ls as [|v ls IH]; intros rem fs rem' ls' H Hok Hr; simpl in H.
  - simplify_eq. lia.
  - apply Forall_cons in Hok as [[_ Hpos] Hok].
    destruct (Z.leb_spec rem 0); [simplify_eq; lia|].
    destruct (cross (vPrice v)); simpl in H; [|simplify_eq; lia].
    destruct (fill_queue (vPrice v) rem (vQueue v)) as [[fs1 r1] q1] eqn:E.
    destruct (fill_queue_rem _ _ _ _ _ _ E Hpos) as [? _]; [lia|].
    destruct q1; [|simplify_eq; lia].
    destruct (fill_levels cross r1 ls) as [[gs r2] ls2] eqn:E2. simplify_eq.
    specialize (IH _ _ _ _ E2 Hok). lia.
Qed.

Lemma fill_levels_oids cross rem ls fs rem' ls' :
  fill_levels cross rem ls = (fs, rem', ls') → oids (entries ls') `suffix_of` oids (entries ls).
Proof.
  revert rem fs rem' ls'. induction ls as [|v ls IH]; intros rem fs rem' ls' H; simpl in H.
  - by simplify_eq.
  - destruct (rem <=? 0); [by simplify_eq|].
    destruct (cross (vPrice v)); simpl in H; [|by simplify_eq].
    destruct (fill_queue (vPrice v) rem (vQueue v)) as [[fs1 r1] q1] eqn:E.
    rewrite entries_cons, oids_app. destruct q1 as [|e q1].
    + destruct (fill_levels cross r1 ls) as [[gs r2] ls2] eqn:E2. simplify_eq.
      apply suffix_app_r. eauto.
    + simplify_eq. rewrite entries_cons, oids_app. apply suffix_app. by eapply fill_queue_oids.
Qed.

(** ** Facts about cancelling *)

Lemma filter_oid_none oid q : oid ∉ oids q → filter (λ e, eOid e ≠ oid) q = q.
Proof.
  induction q as [|e q IH]; intros Hn; [done|].
  apply not_elem_of_cons in Hn as [Hne Hn].
  rewrite filter_cons_True by done. by rewrite IH.
Qed.

Lemma filter_oid_mid q1 e q2 :
  NoDup (oids (q1 ++ e :: q2)) → filter (λ e', eOid e' ≠ eOid e) (q1 ++ e :: q2) = q1 ++ q2.
Proof.
  intros (_ & H1 & H2 & _)%NoDup_oids_mid.
  rewrite filter_app, filter_cons_False by tauto. by rewrite !filter_oid_none.
Qed.

Lemma remove_entry_cons oid v ls :
  remove_entry oid (v :: ls) = remove_from_level oid v ++ remove_entry oid ls.
Proof. done. Qed.
Lemma remove_entry_app oid ls1 ls2 :
  remove_entry oid (ls1 ++ ls2) = remove_entry oid ls1 ++ remove_entry oid ls2.
Proof. apply bind_app. Qed.

Lemma remove_entry_other oid ls :
  oid ∉ oids (entries ls) → Forall level_ok ls → remove_entry oid ls = ls.
Proof.
  intros Hn Hok. induction Hok as [|v ls [Hne _] _ IH]; [done|].
  rewrite entries_cons, oids_app, elem_of_app in Hn. rewrite remove_entry_cons, IH by tauto.
  unfold remove_from_level. rewrite filter_oid_none by tauto.
  destruct v as [p [|e q]]; [done|]. done.
Qed.

Definition nonempty_level (price : Z) (q : list entry) : list level :=
  match q with [] => [] | _ => [mkLevel price q] end.

Lemma remove_entry_mid price lsa q1 e q2 lsb :
  NoDup (oids (entries (lsa ++ mkLevel price (q1 ++ e :: q2) :: lsb))) →
  Forall level_ok (lsa ++ mkLevel price (q1 ++ e :: q2) :: lsb) →
  remove_entry (eOid e) (lsa ++ mkLevel price (q1 ++ e :: q2) :: lsb) =
  lsa ++ nonempty_level price (q1 ++ q2) ++ lsb.
Proof.
  rewrite entries_app, entries_cons; simpl vQueue. rewrite !oids_app; simpl.
  intros Hnd [Ha [_ Hb]%Forall_cons]%Forall_app.
  pose proof Hnd as (_ & Hda & Hnd2)%NoDup_app.
  pose proof Hnd2 as (Hq & Hdq & _)%NoDup_app.
  rewrite remove_entry_app, remove_entry_cons, !remove_entry_other; auto.
  - unfold remove_from_level; simpl. rewrite filter_oid_mid by by rewrite oids_app.
    by destruct (q1 ++ q2).
  - apply Hdq. set_solver.
  - intros Hin. apply (Hda _ Hin). set_solver.
Qed.

Lemma sorted_side_mid r lsa v lsb :
  sorted_side r (lsa ++ v :: lsb) →
  Forall (λ w, better r (vPrice w) (vPrice v) = true) lsa ∧
  Forall (λ w, better r (vPrice w) (vPrice v) = false) (v :: lsb).
Proof.
  induction lsa as [|w lsa IH]; simpl; intros Hs; apply StronglySorted_inv in Hs as [Hs Hall].
  - split; [constructor|]. constructor; [apply better_irrefl|].
    eapply Forall_impl; [exact Hall|]. intros u. simpl. apply better_asym.
  - destruct (IH Hs) as [H1 H2]. split; [|done]. constructor; [|done].
    rewrite Forall_app, Forall_cons in Hall. by destruct Hall as (_ & ? & _).
Qed.

(** Sortedness only looks at prices. *)
Lemma sorted_side_prices r ls ls' :
  vPrice <$> ls = vPrice <$> ls' → sorted_side r ls → sorted_side r ls'.
Proof.
  revert ls'. induction ls as [|v ls IH]; intros [|v' ls'] E Hs; try discriminate; [constructor|].
  rewrite !fmap_cons in E. apply (inj2 cons) in E as [E1 E2]. apply StronglySorted_inv in Hs as [Hs Hall]. constructor; [by apply IH|].
  apply Forall_forall. intros w Hw. rewrite <-E1.
  assert (Hp : vPrice w ∈ vPrice <$> ls) by (rewrite E2; by apply list_elem_of_fmap_2).
  apply list_elem_of_fmap in Hp as (w' & -> & Hw'). rewrite Forall_forall in Hall. auto.
Qed.
