(* ===== verification/BookInv.v ===== *)
(** * The invariant of the order book

    The reference operations keep a book well formed: sides strictly sorted,
    no empty level, positive quantities, a sound index, and the best bid below
    the best ask. *)

From stdpp Require Import prelude gmap strings list fin_maps sorting.
From Stdlib Require Import ZArith Lia.
From S2P Require Import Prelude Order LevelQueue OrderBook BookSpec.

Local Open Scope Z_scope.

(** ** What matching leaves of the opposite side *)

Lemma fill_levels_prices cross rem ls fs rem' ls' :
  fill_levels cross rem ls = (fs, rem', ls') → (vPrice <$> ls') `suffix_of` (vPrice <$> ls).
Proof.
  revert rem fs rem' ls'. induction ls as [|v ls IH]; intros rem fs rem' ls' H; simpl in H.
  - by simplify_eq.
  - destruct (rem <=? 0); [by simplify_eq|].
    destruct (cross (vPrice v)); simpl in H; [|by simplify_eq].
    destruct (fill_queue (vPrice v) rem (vQueue v)) as [[fs1 r1] q1] eqn:E.
    destruct q1 as [|e q1]; [|by simplify_eq].
    destruct (fill_levels cross r1 ls) as [[gs r2] ls2] eqn:E2. simplify_eq.
    rewrite fmap_cons. apply suffix_cons_r. eauto.
Qed.

Lemma fill_levels_ok cross rem ls fs rem' ls' :
  fill_levels cross rem ls = (fs, rem', ls') → Forall level_ok ls → Forall level_ok ls'.
Proof.
  revert rem fs rem' ls'. induction ls as [|v ls IH]; intros rem fs rem' ls' H Hok; simpl in H.
  - by simplify_eq.
  - destruct (rem <=? 0); [by simplify_eq|].
    destruct (cross (vPrice v)); simpl in H; [|by simplify_eq].
    apply Forall_cons in Hok as [[_ Hpos] Hok].
    destruct (fill_queue (vPrice v) rem (vQueue v)) as [[fs1 r1] q1] eqn:E.
    destruct q1 as [|e q1].
    + destruct (fill_levels cross r1 ls) as [[gs r2] ls2] eqn:E2. simplify_eq. eauto.
    + simplify_eq. constructor; [|done]. split; [done|]. by eapply fill_queue_pos.
Qed.

(** When the taker is not served in full, the best remaining level does not
    cross. *)
Lemma fill_levels_stop cross rem ls fs rem' v ls' :
  fill_levels cross rem ls = (fs, rem', v :: ls') → Forall level_ok ls → 0 <= rem → 0 < rem' →
  cross (vPrice v) = false.
Proof.
  revert rem fs rem'. induction ls as [|w ls IH]; intros rem fs rem' H Hok Hr Hr'; simpl in H;
    [done|].
  apply Forall_cons in Hok as [[_ Hpos] Hok].
  destruct (Z.leb_spec rem 0); [simplify_eq; lia|].
  destruct (cross (vPrice w)) eqn:Ec; simpl in H; [|by simplify_eq].
  destruct (fill_queue (vPrice w) rem (vQueue w)) as [[fs1 r1] q1] eqn:E.
  destruct (fill_queue_rem _ _ _ _ _ _ E Hpos) as [Hr1 Hz]; [lia|].
  destruct q1 as [|e q1].
  - destruct (fill_levels cross r1 ls) as [[gs r2] ls2] eqn:E2. simplify_eq.
    eapply (IH r1); eauto; lia.
  - simplify_eq. rewrite Hz in Hr' by done. lia.
Qed.

Lemma sorted_suffix r ls ls' :
  (vPrice <$> ls') `suffix_of` (vPrice <$> ls) → sorted_side r ls → sorted_side r ls'.
Proof.
  intros [k E] Hs.
  assert (Hex : ∃ ls1 ls2, ls = ls1 ++ ls2 ∧ vPrice <$> ls2 = vPrice <$> ls').
  { apply fmap_app_inv in E as (ls1 & ls2 & _ & ? & ?). eauto. }
  destruct Hex as (ls1 & ls2 & -> & E2). eapply sorted_side_prices; [exact E2|].
  clear E E2. induction ls1 as [|v ls1 IH]; [done|].
  apply IH. by apply StronglySorted_inv in Hs as [? _].
Qed.

(** ** Resting an order *)

Lemma entries_insert r price e ls : entries (insert_entry r price e ls) ≡ₚ e :: entries ls.
Proof.
  induction ls as [|v ls IH]; [done|]. simpl insert_entry.
  destruct (vPrice v =? price); [|destruct (better r price (vPrice v)); [done|]];
    rewrite !entries_cons; simpl.
  - rewrite <-app_assoc. simpl. by rewrite Permutation_middle.
  - rewrite IH. by rewrite Permutation_middle.
Qed.

Lemma insert_entry_ok r price e ls :
  0 < eRem e → Forall level_ok ls → Forall level_ok (insert_entry r price e ls).
Proof.
  intros He. assert (Hone : level_ok (mkLevel price [e])) by by repeat constructor.
  induction 1 as [|v ls [Hne Hv] Hls IH]; simpl; [by repeat constructor|].
  destruct (vPrice v =? price); [|destruct (better r price (vPrice v))]; repeat constructor; auto.
  - simpl. by destruct (vQueue v).
  - simpl. apply Forall_app. auto.
Qed.

Lemma insert_entry_price r price e ls v :
  v ∈ insert_entry r price e ls → vPrice v = price ∨ ∃ w, w ∈ ls ∧ vPrice w = vPrice v.
Proof.
  induction ls as [|w ls IH]; simpl.
  - intros ->%list_elem_of_singleton. auto.
  - destruct (vPrice w =? price); [|destruct (better r price (vPrice w))].
    + intros [->|?]%elem_of_cons; [auto|]. right. exists v. set_solver.
    + intros [->|?]%elem_of_cons; [auto|]. right. exists v. set_solver.
    + intros [->|H]%elem_of_cons; [right; exists w; set_solver|].
      destruct (IH H) as [?|(u & ? & ?)]; [auto|]. right. exists u. set_solver.
Qed.

Lemma insert_entry_sorted r price e ls :
  sorted_side r ls → sorted_side r (insert_entry r price e ls).
Proof.
  induction 1 as [|v ls Hs IH Hv]; simpl; [by repeat constructor|].
  destruct (Z.eqb_spec (vPrice v) price) as [<-|Hne]; [by constructor|].
  destruct (better r price (vPrice v)) eqn:Eb.
  - constructor; [by constructor|]. constructor; [done|].
    eapply Forall_impl; [exact Hv|]. intros w Hw. simpl. by eapply better_trans.
  - constructor; [done|]. apply Forall_forall. intros w Hw.
    destruct (insert_entry_price _ _ _ _ _ Hw) as [->|(u & Hu & <-)].
    + by apply better_total.
    + rewrite Forall_forall in Hv. by apply Hv.
Qed.

(** ** The index *)

Lemma fill_queue_survive price rem q fs rem' q' e :
  fill_queue price rem q = (fs, rem', q') → e ∈ q →
  (∃ f, f ∈ fs ∧ fEntry f = e ∧ exhausted f = true) ∨
  (∃ e', e' ∈ q' ∧ eOid e' = eOid e ∧ eId e' = eId e).
Proof.
  revert rem fs rem' q'. induction q as [|x q IH]; intros rem fs rem' q' H He; simpl in H;
    [set_solver|].
  destruct (rem <=? 0); [simplify_eq; eauto|].
  destruct (eRem x <=? rem) eqn:Ex.
  - destruct (fill_queue price (rem - eRem x) q) as [[fs1 r1] q1] eqn:E. simplify_eq.
    apply elem_of_cons in He as [->|He].
    + left. exists (mkFill price x (eRem x)). split; [set_solver|]. split; [done|].
      unfold exhausted; simpl; lia.
    + destruct (IH _ _ _ _ E He) as [(f & ? & ? & ?)|?]; [left; exists f; set_solver|by right].
  - simplify_eq. right. apply elem_of_cons in He as [->|He].
    + exists (mkEntry (eOid x) (eId x) (eRem x - rem)). set_solver.
    + exists e. set_solver.
Qed.

Lemma fill_levels_survive cross rem ls fs rem' ls' e :
  fill_levels cross rem ls = (fs, rem', ls') → e ∈ entries ls →
  (∃ f, f ∈ fs ∧ fEntry f = e ∧ exhausted f = true) ∨
  (∃ e', e' ∈ entries ls' ∧ eOid e' = eOid e ∧ eId e' = eId e).
Proof.
  revert rem fs rem' ls'. induction ls as [|v ls IH]; intros rem fs rem' ls' H He; simpl in H;
    [simplify_eq; eauto|].
  destruct (rem <=? 0); [simplify_eq; eauto|].
  destruct (cross (vPrice v)); simpl in H; [|simplify_eq; eauto].
  destruct (fill_queue (vPrice v) rem (vQueue v)) as [[fs1 r1] q1] eqn:E.
  rewrite entries_cons, elem_of_app in He.
  destruct q1 as [|e1 q1].
  - destruct (fill_levels cross r1 ls) as [[gs r2] ls2] eqn:E2. simplify_eq. destruct He as [He|He].
    + destruct (fill_queue_survive _ _ _ _ _ _ _ E He) as [(f & ? & ? & ?)|(? & ? & _)];
        [left; exists f; set_solver|set_solver].
    + destruct (IH _ _ _ _ E2 He) as [(f & ? & ? & ?)|?]; [left; exists f; set_solver|auto].
  - simplify_eq. rewrite entries_cons; cbn [vQueue]. destruct He as [He|He].
    + destruct (fill_queue_survive _ _ _ _ _ _ _ E He) as [?|(e' & ? & ?)]; [auto|].
      right. exists e'. split; [apply elem_of_app; auto|done].
    + right. exists e. split; [apply elem_of_app; auto|done].
Qed.

Lemma drop_filled_lookup fs m id oid :
  drop_filled fs m !! id = Some oid ↔
  m !! id = Some oid ∧ ∀ f, f ∈ fs → exhausted f = true → eId (fEntry f) ≠ id.
Proof.
  revert m. induction fs as [|f fs IH]; intros m.
  - split; [intros ?; split; [done|]; intros ? []%not_elem_of_nil|by intros [? _]].
  - unfold drop_filled in *; simpl. rewrite IH. setoid_rewrite elem_of_cons.
    destruct (exhausted f) eqn:Ef; [rewrite lookup_delete_Some|]; split.
    + intros [[Hne Hm] Hall]. split; [done|]. intros g [->|Hg]; auto.
    + intros [Hm Hall]. split; [split; [apply Hall; auto|done]|]. auto.
    + intros [Hm Hall]. split; [done|]. intros g [->|Hg]; [congruence|auto].
    + intros [Hm Hall]. auto.
Qed.

(** ** The operations keep the invariant *)

Lemma levels_set_levels r r' ls b :
  levels r' (set_levels r ls b) = if decide (r = r') then ls else levels r' b.
Proof. by destruct r, r'. Qed.

Lemma slice_ref_cases r r' : r' = r ∨ r' = opp r.
Proof. destruct r, r'; auto. Qed.

(** Bids below asks, said of either side. *)
Definition outside (r : slice_ref) (own other : Z) : Prop :=
  match r with Bids => own < other | Asks => other < own end.

Lemma uncrossed_side b r :
  (∀ v w, v ∈ bBids b → w ∈ bAsks b → vPrice v < vPrice w) ↔
  (∀ v w, v ∈ levels r b → w ∈ levels (opp r) b → outside r (vPrice v) (vPrice w)).
Proof. destruct r; simpl; naive_solver. Qed.

Lemma match_wf b r cross rem fs rem' ls :
  wf b → fill_levels cross rem (levels (opp r) b) = (fs, rem', ls) →
  wf (set_bIndex (drop_filled fs (bIndex b)) (set_levels (opp r) ls b)).
Proof.
  intros Hwf Hfill. split.
  - intros r'. destruct (slice_ref_cases r r') as [->| ->].
    + pose proof (wf_sorted _ Hwf r). by destruct r.
    + pose proof (sorted_suffix (opp r) _ _ (fill_levels_prices _ _ _ _ _ _ Hfill)
        (wf_sorted _ Hwf (opp r))). by destruct r.
  - intros r'. destruct (slice_ref_cases r r') as [->| ->].
    + pose proof (wf_levels _ Hwf r). by destruct r.
    + pose proof (fill_levels_ok _ _ _ _ _ _ Hfill (wf_levels _ Hwf (opp r))). by destruct r.
  - intros id oid. simpl. rewrite drop_filled_lookup. intros [Hid Hno].
    destruct (wf_index _ Hwf _ _ Hid) as (r' & e & He & <- & <-).
    destruct (slice_ref_cases r r') as [->| ->].
    + exists r, e. split; [|done]. by destruct r.
    + destruct (fill_levels_survive _ _ _ _ _ _ _ Hfill He) as [(f & Hf & <- & Hx)|(e' & ? & ? & ?)].
      * by destruct (Hno f Hf Hx).
      * exists (opp r), e'. split; [|done]. by destruct r.
  - rewrite (uncrossed_side _ r). intros v w Hv Hw.
    assert (Hv' : v ∈ levels r b) by by destruct r.
    assert (Hw' : vPrice w ∈ vPrice <$> levels (opp r) b).
    { destruct (fill_levels_prices _ _ _ _ _ _ Hfill) as [k ->]. apply elem_of_app. right.
      apply list_elem_of_fmap_2. by destruct r. }
    apply list_elem_of_fmap in Hw' as (w' & -> & Hw').
    pose proof (wf_uncrossed _ Hwf) as Hu. rewrite (uncrossed_side _ r) in Hu. auto.
  - pose proof (wf_oids _ Hwf) as Hnd. rewrite oids_app in *.
    destruct (fill_levels_oids _ _ _ _ _ _ Hfill) as [k Hk].
    destruct r; simpl in *; rewrite Hk in Hnd.
    + rewrite (Permutation_app_comm k), (assoc app) in Hnd. by apply NoDup_app in Hnd as [? _].
    + rewrite <-(assoc app) in Hnd. by apply NoDup_app in Hnd as (_ & _ & ?).
Qed.

Lemma rest_wf b r p id price rem :
  wf b → p ∉ oids (entries (bBids b) ++ entries (bAsks b)) → 0 < rem →
  (∀ w, w ∈ levels (opp r) b → outside r price (vPrice w)) →
  wf (set_bIndex (<[id := p]> (bIndex b))
        (set_levels r (insert_entry r price (mkEntry p id rem) (levels r b)) b)).
Proof.
  intros Hwf Hp Hrem Hout. set (e := mkEntry p id rem).
  pose proof (entries_insert r price e (levels r b)) as Hperm. split.
  - intros r'. destruct (slice_ref_cases r r') as [->| ->].
    + pose proof (insert_entry_sorted r price e _ (wf_sorted _ Hwf r)). by destruct r.
    + pose proof (wf_sorted _ Hwf (opp r)). by destruct r.
  - intros r'. destruct (slice_ref_cases r r') as [->| ->].
    + pose proof (insert_entry_ok r price e _ Hrem (wf_levels _ Hwf r)). by destruct r.
    + pose proof (wf_levels _ Hwf (opp r)). by destruct r.
  - intros id' oid. simpl. rewrite lookup_insert_Some. intros [[<- <-]|[Hne Hid]].
    + exists r, e. split; [|done].
      assert (e ∈ entries (insert_entry r price e (levels r b))) by (rewrite Hperm; set_solver).
      by destruct r.
    + destruct (wf_index _ Hwf _ _ Hid) as (r' & e' & He' & ? & ?). exists r', e'. split; [|done].
      destruct (slice_ref_cases r r') as [->| ->]; [|by destruct r].
      assert (e' ∈ entries (insert_entry r price e (levels r b))) by (rewrite Hperm; set_solver).
      by destruct r.
  - rewrite (uncrossed_side _ r). intros v w Hv Hw.
    assert (Hw' : w ∈ levels (opp r) b) by by destruct r.
    assert (Hv' : v ∈ insert_entry r price e (levels r b)) by by destruct r.
    destruct (insert_entry_price _ _ _ _ _ Hv') as [->|(u & Hu & <-)]; [auto|].
    pose proof (wf_uncrossed _ Hwf) as Hun. rewrite (uncrossed_side _ r) in Hun. auto.
  - pose proof (wf_oids _ Hwf) as Hnd.
    assert (HN : NoDup (oids (e :: entries (bBids b) ++ entries (bAsks b)))) by by constructor.
    destruct r; simpl in *; unfold oids in *; rewrite Hperm; simpl; [done|].
    rewrite fmap_app in *. simpl. by rewrite <-Permutation_middle.
Qed.

(** A limit order that is not served in full does not cross what is left. *)
Lemma stop_outside b side price qty fs rem ls w :
  wf b → 0 <= qty → 0 < rem →
  fill_levels (crosses side LimitOrder price) qty (levels (opp (side_of side)) b) = (fs, rem, ls) →
  w ∈ ls → outside (side_of side) price (vPrice w).
Proof.
  intros Hwf Hq Hr Hfill Hw.
  pose proof (sorted_suffix (opp (side_of side)) _ _ (fill_levels_prices _ _ _ _ _ _ Hfill)
    (wf_sorted _ Hwf _)) as Hs.
  destruct ls as [|v ls]; [by apply not_elem_of_nil in Hw|].
  pose proof (fill_levels_stop _ _ _ _ _ _ _ Hfill (wf_levels _ Hwf _) Hq Hr) as Hc.
  assert (Hv : outside (side_of side) price (vPrice v)).
  { unfold crosses in Hc. unfold side_of, outside. unfold Buy, Sell, LimitOrder in *.
    destruct (Z.eqb_spec side 0); simpl in *; lia. }
  apply elem_of_cons in Hw as [->|Hw]; [done|].
  apply StronglySorted_inv in Hs as [_ Hall]. rewrite Forall_forall in Hall.
  specialize (Hall _ Hw). simpl in Hall. unfold outside in *.
  destruct (side_of side); simpl in Hall; lia.
Qed.

Lemma spec_process_wf p id side ty price qty b :
  wf b → p ∉ oids (entries (bBids b) ++ entries (bAsks b)) → 0 <= qty →
  wf (snd (spec_process p id side ty price qty b)).
Proof.
  intros Hwf Hp Hq. unfold spec_process. destruct (qty =? 0); [done|].
  destruct (fill_levels (crosses side ty price) qty (levels (opp (side_of side)) b))
    as [[fs rem] ls] eqn:Hfill. simpl.
  pose proof (match_wf b (side_of side) _ _ _ _ _ Hwf Hfill) as Hwf1.
  destruct ((0 <? rem) && (ty =? LimitOrder)) eqn:Hrest; [|done].
  apply andb_true_iff in Hrest as [Hrem%Z.ltb_lt ->%Z.eqb_eq].
  apply rest_wf; auto.
  - intros Hin. apply Hp. rewrite oids_app in *.
    destruct (fill_levels_oids _ _ _ _ _ _ Hfill) as [k Hk].
    destruct (side_of side); simpl in *; rewrite Hk; set_solver.
  - intros w Hw. eapply stop_outside; [exact Hwf|exact Hq|exact Hrem|exact Hfill|].
    by destruct (side_of side).
Qed.

(** ** Cancelling *)

Lemma wf_oids_side b r : wf b → NoDup (oids (entries (levels r b)) ++ oids (entries (levels (opp r) b))).
Proof.
  intros Hwf. pose proof (wf_oids _ Hwf) as Hnd. rewrite oids_app in Hnd.
  destruct r; simpl; [done|]. by rewrite (comm app).
Qed.

Lemma wf_remove_pos b r lsa price q1 e q2 lsb :
  wf b → levels r b = lsa ++ mkLevel price (q1 ++ e :: q2) :: lsb →
  Forall (λ e, 0 < eRem e) (q1 ++ q2).
Proof.
  intros Hwf Elv. pose proof (wf_levels _ Hwf r) as Hok. rewrite Elv in Hok.
  apply Forall_app in Hok as [_ [[_ Hok] _]%Forall_cons]. simpl in Hok.
  apply Forall_app in Hok as [? [_ ?]%Forall_cons]. by apply Forall_app.
Qed.

Lemma remove_both_sides b r e lsa price q1 q2 lsb :
  wf b → levels r b = lsa ++ mkLevel price (q1 ++ e :: q2) :: lsb →
  mkBook (remove_entry (eOid e) (bBids b)) (remove_entry (eOid e) (bAsks b))
    (delete (eId e) (bIndex b)) =
  set_bIndex (delete (eId e) (bIndex b))
    (set_levels r (lsa ++ nonempty_level price (q1 ++ q2) ++ lsb) b).
Proof.
  intros Hwf Elv.
  pose proof (wf_oids_side b r Hwf) as (Hnd & Hdis & _)%NoDup_app.
  assert (Hin : eOid e ∈ oids (entries (levels r b))).
  { rewrite Elv, entries_app, entries_cons, !oids_app. simpl. rewrite oids_app. set_solver. }
  pose proof (remove_entry_other _ _ (Hdis _ Hin) (wf_levels _ Hwf (opp r))) as Hother.
  pose proof (wf_levels _ Hwf r) as Hok. rewrite Elv in Hnd, Hok.
  pose proof (remove_entry_mid _ _ _ _ _ _ Hnd Hok) as Hmid. rewrite <-Elv in Hmid.
  destruct r; simpl in *; by rewrite Hmid, Hother.
Qed.

Lemma locate_entry b r e :
  e ∈ entries (levels r b) →
  ∃ lsa price q1 q2 lsb, levels r b = lsa ++ mkLevel price (q1 ++ e :: q2) :: lsb.
Proof.
  intros (v & He & Hv)%list_elem_of_bind.
  apply list_elem_of_split in Hv as (lsa & lsb & Elv), He as (q1 & q2 & Eq).
  exists lsa, (vPrice v), q1, q2, lsb. rewrite Elv, <-Eq. by destruct v.
Qed.

Lemma sorted_side_remove r lsa v lsb :
  sorted_side r (lsa ++ v :: lsb) → sorted_side r (lsa ++ lsb).
Proof.
  induction lsa as [|w lsa IH]; simpl; intros [Hs Hall]%StronglySorted_inv; [done|].
  constructor; [by apply IH|]. rewrite Forall_app, Forall_cons in Hall.
  destruct Hall as (? & _ & ?). by apply Forall_app.
Qed.

Lemma nonempty_entries price q : entries (nonempty_level price q) = q.
Proof. destruct q; [done|]. unfold entries; simpl. by rewrite app_nil_r. Qed.

Lemma nonempty_ok price q : Forall (λ e, 0 < eRem e) q → Forall level_ok (nonempty_level price q).
Proof. intros Hq. destruct q; constructor; [|constructor]. by split. Qed.

Lemma nonempty_price price q v : v ∈ nonempty_level price q → vPrice v = price.
Proof.
  destruct q; simpl; [by intros ?%not_elem_of_nil|]. by intros ->%list_elem_of_singleton.
Qed.

Section remove.
Context (b : book) (r : slice_ref) (e : entry) (lsa lsb : list level)
  (price : Z) (q1 q2 : list entry).
Context (Hwf : wf b) (Elv : levels r b = lsa ++ mkLevel price (q1 ++ e :: q2) :: lsb).
Let ls' := lsa ++ nonempty_level price (q1 ++ q2) ++ lsb.

Lemma remove_sorted : sorted_side r ls'.
Proof using Hwf Elv.
  pose proof (wf_sorted _ Hwf r) as Hs. rewrite Elv in Hs. unfold ls'.
  destruct (q1 ++ q2); simpl; [by eapply sorted_side_remove|].
  eapply sorted_side_prices; [|exact Hs]. by rewrite !fmap_app.
Qed.

Lemma remove_perm : e :: entries ls' ≡ₚ entries (levels r b).
Proof using Elv.
  unfold ls'. rewrite Elv, !entries_app, entries_cons, nonempty_entries. simpl vQueue.
  rewrite <-!app_assoc; simpl. by rewrite <-!Permutation_middle.
Qed.

Lemma remove_price v : v ∈ ls' → ∃ w, w ∈ levels r b ∧ vPrice w = vPrice v.
Proof using Elv Hwf.
  unfold ls'. rewrite Elv, !elem_of_app. intros [Hv|[Hv|Hv]].
  - exists v. set_solver.
  - exists (mkLevel price (q1 ++ e :: q2)). rewrite (nonempty_price _ _ _ Hv). set_solver.
  - exists v. set_solver.
Qed.

Lemma remove_wf : wf (set_bIndex (delete (eId e) (bIndex b)) (set_levels r ls' b)).
Proof using Hwf Elv.
  pose proof remove_perm as Hperm. split.
  - intros r'. destruct (slice_ref_cases r r') as [->| ->].
    + pose proof remove_sorted. by destruct r.
    + pose proof (wf_sorted _ Hwf (opp r)). by destruct r.
  - intros r'. destruct (slice_ref_cases r r') as [->| ->].
    + pose proof (wf_levels _ Hwf r) as Hok. rewrite Elv in Hok.
      apply Forall_app in Hok as [Ha [_ Hb]%Forall_cons].
      pose proof (nonempty_ok price _ (wf_remove_pos _ _ _ _ _ _ _ _ Hwf Elv)) as Hm.
      assert (Forall level_ok ls') by (by apply Forall_app; split; [|apply Forall_app]).
      by destruct r.
    + pose proof (wf_levels _ Hwf (opp r)). by destruct r.
  - intros id oid. simpl. rewrite lookup_delete_Some. intros [Hne Hid].
    destruct (wf_index _ Hwf _ _ Hid) as (r' & e' & He' & ? & Hid'). exists r', e'. split; [|done].
    destruct (slice_ref_cases r r') as [->| ->]; [|by destruct r].
    rewrite <-Hperm in He'. apply elem_of_cons in He' as [->|He']; [congruence|]. by destruct r.
  - rewrite (uncrossed_side _ r). intros v w Hv Hw.
    assert (Hw' : w ∈ levels (opp r) b) by by destruct r.
    assert (Hv' : v ∈ ls') by by destruct r.
    destruct (remove_price _ Hv') as (u & Hu & <-).
    pose proof (wf_uncrossed _ Hwf) as Hun. rewrite (uncrossed_side _ r) in Hun. auto.
  - pose proof (wf_oids _ Hwf) as Hnd. unfold oids in *.
    destruct r; simpl in *; rewrite <-Hperm in Hnd; simpl in Hnd.
    + by apply NoDup_cons in Hnd as [_ ?].
    + rewrite fmap_app in *. simpl in Hnd. rewrite <-Permutation_middle in Hnd.
      by apply NoDup_cons in Hnd as [_ ?].
Qed.
End remove.

Lemma spec_cancel_wf id b : wf b → wf (snd (spec_cancel id b)).
Proof.
  intros Hwf. unfold spec_cancel. destruct (bIndex b !! id) as [oid|] eqn:Hid; [|done].
  destruct (wf_index _ Hwf _ _ Hid) as (r & e & He & <- & <-).
  destruct (locate_entry b r e He) as (lsa & price & q1 & q2 & lsb & Elv).
  simpl. rewrite (remove_both_sides b r e lsa price q1 q2 lsb Hwf Elv). by apply remove_wf.
Qed.

Lemma empty_book_wf : wf empty_book.
Proof.
  split.
  - intros []; constructor.
  - intros []; constructor.
  - intros id oid. simpl. by rewrite lookup_empty.
  - intros v w Hv. by apply not_elem_of_nil in Hv.
  - constructor.
Qed.
