(* ===== verification/BookFlow.v ===== *)
(** * Quantities and priority

    Two views of matching that do not mention levels: what is bought is sold
    (conservation), and the fills are the greedy consumption of the resting
    orders in price-time order ([flat]). *)

From stdpp Require Import prelude gmap strings list fin_maps sorting.
From Stdlib Require Import ZArith Lia.
From S2P Require Import Prelude Order LevelQueue OrderBook BookSpec BookInv.

Local Open Scope Z_scope.

(** ** Conservation *)

Definition fill_sum (fs : list fill) : Z := foldr (λ f a, fQty f + a) 0 fs.

Lemma fill_sum_app fs gs : fill_sum (fs ++ gs) = fill_sum fs + fill_sum gs.
Proof. induction fs; simpl; lia. Qed.

#[global] Instance vol_proper : Proper ((≡ₚ) ==> (=)) vol.
Proof. induction 1; simpl; lia. Qed.

Lemma fill_queue_sum price rem q fs rem' q' :
  fill_queue price rem q = (fs, rem', q') →
  fill_sum fs = rem - rem' ∧ vol q' = vol q - fill_sum fs.
Proof.
  revert rem fs rem' q'. induction q as [|e q IH]; intros rem fs rem' q' H; simpl in H.
  - simplify_eq/=. lia.
  - destruct (rem <=? 0); [simplify_eq/=; lia|]. destruct (eRem e <=? rem).
    + destruct (fill_queue price (rem - eRem e) q) as [[fs1 r1] q1] eqn:E. simplify_eq/=.
      destruct (IH _ _ _ _ E). lia.
    + simplify_eq/=. lia.
Qed.

Lemma side_vol_cons v ls : side_vol (v :: ls) = vol (vQueue v) + side_vol ls.
Proof. unfold side_vol. rewrite entries_cons. apply vol_app. Qed.

Lemma fill_levels_sum cross rem ls fs rem' ls' :
  fill_levels cross rem ls = (fs, rem', ls') →
  fill_sum fs = rem - rem' ∧ side_vol ls' = side_vol ls - fill_sum fs.
Proof.
  revert rem fs rem' ls'. induction ls as [|v ls IH]; intros rem fs rem' ls' H; simpl in H.
  - simplify_eq/=. lia.
  - destruct (rem <=? 0); [simplify_eq/=; lia|].
    destruct (cross (vPrice v)); simpl in H; [|simplify_eq/=; lia].
    destruct (fill_queue (vPrice v) rem (vQueue v)) as [[fs1 r1] q1] eqn:E.
    destruct (fill_queue_sum _ _ _ _ _ _ E) as [Hs Hv]. rewrite side_vol_cons.
    destruct q1 as [|e q1].
    + destruct (fill_levels cross r1 ls) as [[gs r2] ls2] eqn:E2. simplify_eq.
      destruct (IH _ _ _ _ E2). rewrite fill_sum_app. simpl in Hv. lia.
    + simplify_eq. rewrite side_vol_cons. simpl vQueue. lia.
Qed.

Lemma side_vol_insert r price e ls :
  side_vol (insert_entry r price e ls) = side_vol ls + eRem e.
Proof. unfold side_vol. rewrite entries_insert. simpl. lia. Qed.

(** Every fill is for a positive quantity, at most what the maker had left. *)
Lemma fill_queue_qty price rem q fs rem' q' :
  fill_queue price rem q = (fs, rem', q') → Forall (λ e, 0 < eRem e) q →
  Forall (λ f, fPrice f = price ∧ 0 < fQty f <= eRem (fEntry f)) fs.
Proof.
  revert rem fs rem' q'. induction q as [|e q IH]; intros rem fs rem' q' H Hpos; simpl in H.
  - simplify_eq. constructor.
  - apply Forall_cons in Hpos as [He Hpos].
    destruct (Z.leb_spec rem 0); [simplify_eq; constructor|].
    destruct (Z.leb_spec (eRem e) rem).
    + destruct (fill_queue price (rem - eRem e) q) as [[fs1 r1] q1] eqn:E. simplify_eq.
      constructor; [simpl; lia|]. eauto.
    + simplify_eq. constructor; [simpl; lia|constructor].
Qed.

Lemma fill_levels_qty cross rem ls fs rem' ls' :
  fill_levels cross rem ls = (fs, rem', ls') → Forall level_ok ls →
  Forall (λ f, cross (fPrice f) = true ∧ 0 < fQty f <= eRem (fEntry f)) fs.
Proof.
  revert rem fs rem' ls'. induction ls as [|v ls IH]; intros rem fs rem' ls' H Hok; simpl in H.
  - simplify_eq. constructor.
  - apply Forall_cons in Hok as [[_ Hpos] Hok].
    destruct (rem <=? 0); [simplify_eq; constructor|].
    destruct (cross (vPrice v)) eqn:Ec; simpl in H; [|simplify_eq; constructor].
    destruct (fill_queue (vPrice v) rem (vQueue v)) as [[fs1 r1] q1] eqn:E.
    pose proof (fill_queue_qty _ _ _ _ _ _ E Hpos) as H1.
    assert (H2 : Forall (λ f, cross (fPrice f) = true ∧ 0 < fQty f <= eRem (fEntry f)) fs1).
    { eapply Forall_impl; [exact H1|]. intros f [-> ?]. done. }
    destruct q1 as [|e q1]; [|by simplify_eq].
    destruct (fill_levels cross r1 ls) as [[gs r2] ls2] eqn:E2. simplify_eq.
    apply Forall_app. eauto.
Qed.

(** ** Priority *)

(** The resting orders of a side with their prices, best first, oldest first. *)
Definition flat (ls : list level) : list (Z * entry) :=
  ls ≫= λ v, pair (vPrice v) <$> vQueue v.

Lemma flat_cons v ls : flat (v :: ls) = (pair (vPrice v) <$> vQueue v) ++ flat ls.
Proof. done. Qed.

(** Serve [rem] from the front of the list. *)
Fixpoint greedy (rem : Z) (l : list (Z * entry)) : list fill :=
  match l with
  | [] => []
  | (price, e) :: l' =>
      if rem <=? 0 then []
      else mkFill price e (Z.min rem (eRem e)) :: greedy (rem - Z.min rem (eRem e)) l'
  end.

Fixpoint take_while {A} (f : A → bool) (l : list A) : list A :=
  match l with [] => [] | x :: l' => if f x then x :: take_while f l' else [] end.

Lemma greedy_done rem l : rem <= 0 → greedy rem l = [].
Proof. intros H. destruct l as [|[p e] l]; [done|]. simpl. by replace (rem <=? 0) with true by lia. Qed.

Lemma greedy_queue price rem q l fs rem' q' :
  fill_queue price rem q = (fs, rem', q') → Forall (λ e, 0 < eRem e) q → 0 <= rem →
  greedy rem ((pair price <$> q) ++ l) = fs ++ (if decide (q' = []) then greedy rem' l else []).
Proof.
  revert rem fs rem' q'. induction q as [|e q IH]; intros rem fs rem' q' H Hpos Hr; simpl in H.
  - by simplify_eq.
  - apply Forall_cons in Hpos as [He Hpos]. simpl.
    destruct (Z.leb_spec rem 0); [by simplify_eq|].
    destruct (Z.leb_spec (eRem e) rem).
    + destruct (fill_queue price (rem - eRem e) q) as [[fs1 r1] q1] eqn:E. simplify_eq.
      rewrite Z.min_r by lia. simpl. f_equal. apply IH; auto. lia.
    + simplify_eq. rewrite Z.min_l by lia. simpl. by rewrite greedy_done by lia.
Qed.

Lemma take_while_app_all {A} (f : A → bool) l k :
  Forall (λ x, f x = true) l → take_while f (l ++ k) = l ++ take_while f k.
Proof. induction 1 as [|x l Hx _ IH]; [done|]. simpl. by rewrite Hx, IH. Qed.

(** Matching level by level is the greedy consumption of the crossing orders. *)
Lemma fill_levels_greedy cross rem ls fs rem' ls' :
  fill_levels cross rem ls = (fs, rem', ls') → Forall level_ok ls → 0 <= rem →
  fs = greedy rem (take_while (λ pe, cross pe.1) (flat ls)).
Proof.
  revert rem fs rem' ls'. induction ls as [|v ls IH]; intros rem fs rem' ls' H Hok Hr; simpl in H.
  - by simplify_eq.
  - apply Forall_cons in Hok as [[Hne Hpos] Hok].
    destruct (Z.leb_spec rem 0); [simplify_eq; by rewrite greedy_done|].
    rewrite flat_cons.
    destruct (cross (vPrice v)) eqn:Ec; simpl in H.
    2:{ simplify_eq. destruct (vQueue v) as [|e q]; [done|]. simpl. by rewrite Ec. }
    rewrite take_while_app_all.
    2:{ apply Forall_fmap, Forall_forall. intros e _. done. }
    destruct (fill_queue (vPrice v) rem (vQueue v)) as [[fs1 r1] q1] eqn:E.
    destruct (fill_queue_rem _ _ _ _ _ _ E Hpos) as [Hr1 _]; [lia|].
    rewrite (greedy_queue _ _ _ _ _ _ _ E) by (auto; lia).
    destruct q1 as [|e q1]; simpl.
    + destruct (fill_levels cross r1 ls) as [[gs r2] ls2] eqn:E2. simplify_eq.
      f_equal. eapply IH; eauto. lia.
    + simplify_eq. by rewrite app_nil_r.
Qed.

(** What greedy means: a prefix is served, all of it in full but possibly the
    last, and as much as there is demand or supply. *)
Lemma greedy_prefix rem l :
  Forall (λ pe, 0 < eRem pe.2) l →
  (λ f, (fPrice f, fEntry f)) <$> greedy rem l = take (length (greedy rem l)) l.
Proof.
  revert rem. induction l as [|[p e] l IH]; intros rem Hpos; [done|].
  apply Forall_cons in Hpos as [He Hpos]. simpl. destruct (rem <=? 0); [done|]. simpl.
  f_equal. by apply IH.
Qed.

Lemma greedy_full rem l i f g :
  Forall (λ pe, 0 < eRem pe.2) l →
  greedy rem l !! i = Some f → greedy rem l !! S i = Some g → fQty f = eRem (fEntry f).
Proof.
  revert rem i. induction l as [|[p e] l IH]; intros rem i Hpos Hf Hg; [done|].
  apply Forall_cons in Hpos as [He Hpos]. simpl in *.
  destruct (Z.leb_spec rem 0); [done|]. destruct i as [|i]; simpl in *; [|by eapply IH].
  simplify_eq. simpl. destruct (Z.leb_spec (eRem e) rem); [lia|].
  rewrite greedy_done in Hg by lia. done.
Qed.

Lemma greedy_sum rem l :
  Forall (λ pe, 0 < eRem pe.2) l → 0 <= rem →
  fill_sum (greedy rem l) = Z.min rem (vol (snd <$> l)).
Proof.
  revert rem. induction l as [|[p e] l IH]; intros rem Hpos Hr; [simpl; lia|].
  apply Forall_cons in Hpos as [He Hpos]. simpl in He.
  change (vol (snd <$> (p, e) :: l)) with (eRem e + vol (snd <$> l)). cbn [greedy].
  assert (0 <= vol (snd <$> l)).
  { apply vol_nonneg, Forall_fmap. eapply Forall_impl; [exact Hpos|]. simpl; lia. }
  destruct (Z.leb_spec rem 0); cbn [fill_sum foldr fQty]; [lia|].
  fold (fill_sum (greedy (rem - Z.min rem (eRem e)) l)). rewrite IH by (auto; lia). lia.
Qed.

(** ** Exactly the exhausted orders leave *)

Definition gone (fs : list fill) : list entry := fEntry <$> filter (λ f, exhausted f = true) fs.

Lemma gone_app fs gs : gone (fs ++ gs) = gone fs ++ gone gs.
Proof. unfold gone. by rewrite filter_app, fmap_app. Qed.

Lemma fill_queue_gone price rem q fs rem' q' :
  fill_queue price rem q = (fs, rem', q') → Forall (λ e, 0 < eRem e) q →
  oids q = oids (gone fs) ++ oids q'.
Proof.
  revert rem fs rem' q'. induction q as [|e q IH]; intros rem fs rem' q' H Hpos; simpl in H.
  - by simplify_eq.
  - apply Forall_cons in Hpos as [He Hpos]. destruct (rem <=? 0); [by simplify_eq|].
    destruct (Z.leb_spec (eRem e) rem).
    + destruct (fill_queue price (rem - eRem e) q) as [[fs1 r1] q1] eqn:E. simplify_eq.
      unfold gone. rewrite filter_cons_True by (unfold exhausted; simpl; lia). simpl.
      f_equal. by eapply IH.
    + simplify_eq. unfold gone. rewrite filter_cons_False; [done|].
      unfold exhausted; simpl. lia.
Qed.

Lemma fill_levels_gone cross rem ls fs rem' ls' :
  fill_levels cross rem ls = (fs, rem', ls') → Forall level_ok ls →
  oids (entries ls) = oids (gone fs) ++ oids (entries ls').
Proof.
  revert rem fs rem' ls'. induction ls as [|v ls IH]; intros rem fs rem' ls' H Hok; simpl in H.
  - by simplify_eq.
  - apply Forall_cons in Hok as [[_ Hpos] Hok]. destruct (rem <=? 0); [by simplify_eq|].
    destruct (cross (vPrice v)); simpl in H; [|by simplify_eq].
    destruct (fill_queue (vPrice v) rem (vQueue v)) as [[fs1 r1] q1] eqn:E.
    rewrite entries_cons, oids_app, (fill_queue_gone _ _ _ _ _ _ E Hpos).
    destruct q1 as [|e q1].
    + destruct (fill_levels cross r1 ls) as [[gs r2] ls2] eqn:E2. simplify_eq.
      rewrite gone_app, oids_app, <-!app_assoc. f_equal. simpl. by eapply IH.
    + simplify_eq. by rewrite entries_cons, oids_app, <-!app_assoc.
Qed.

(** An order that is not exhausted is still there, under its id. *)
Lemma fill_queue_kept price rem q fs rem' q' e' :
  fill_queue price rem q = (fs, rem', q') → e' ∈ q' →
  ∃ e, e ∈ q ∧ eOid e = eOid e' ∧ eId e = eId e'.
Proof.
  revert rem fs rem' q'. induction q as [|e q IH]; intros rem fs rem' q' H He; simpl in H.
  - simplify_eq. eauto.
  - destruct (rem <=? 0); [simplify_eq; eauto|]. destruct (eRem e <=? rem).
    + destruct (fill_queue price (rem - eRem e) q) as [[fs1 r1] q1] eqn:E. simplify_eq.
      destruct (IH _ _ _ _ E He) as (x & ? & ?). exists x. split; [by apply elem_of_cons; right|done].
    + simplify_eq. apply elem_of_cons in He as [->|He]; [exists e|exists e'];
        (split; [apply elem_of_cons; auto|done]).
Qed.

Lemma fill_levels_kept cross rem ls fs rem' ls' e' :
  fill_levels cross rem ls = (fs, rem', ls') → e' ∈ entries ls' →
  ∃ e, e ∈ entries ls ∧ eOid e = eOid e' ∧ eId e = eId e'.
Proof.
  revert rem fs rem' ls'. induction ls as [|v ls IH]; intros rem fs rem' ls' H He; simpl in H.
  - simplify_eq. eauto.
  - destruct (rem <=? 0); [simplify_eq; eauto|].
    destruct (cross (vPrice v)); simpl in H; [|simplify_eq; eauto].
    destruct (fill_queue (vPrice v) rem (vQueue v)) as [[fs1 r1] q1] eqn:E.
    destruct q1 as [|e q1].
    + destruct (fill_levels cross r1 ls) as [[gs r2] ls2] eqn:E2. simplify_eq.
      destruct (IH _ _ _ _ E2 He) as (x & ? & ?). exists x. rewrite entries_cons, elem_of_app. auto.
    + simplify_eq. rewrite entries_cons, elem_of_app in He. destruct He as [He|He].
      * destruct (fill_queue_kept _ _ _ _ _ _ _ E He) as (x & ? & ?). exists x.
        rewrite entries_cons, elem_of_app. auto.
      * exists e'. rewrite entries_cons, elem_of_app. auto.
Qed.

(** ** A complete index

    When no two resting orders share an id, the index finds all of them. *)
Definition index_complete (b : book) : Prop :=
  ∀ r e, e ∈ entries (levels r b) → bIndex b !! eId e = Some (eOid e).

Lemma oid_unique b r e e' :
  wf b → e ∈ entries (levels r b) → e' ∈ entries (levels r b) → eOid e = eOid e' → e = e'.
Proof.
  intros Hwf He He' Heq. pose proof (wf_oids_side b r Hwf) as (Hnd & _ & _)%NoDup_app.
  apply list_elem_of_lookup in He as [i Hi], He' as [j Hj].
  assert (i = j) as ->; [|congruence].
  apply (NoDup_lookup _ i j (eOid e) Hnd); unfold oids; rewrite list_lookup_fmap.
  - by rewrite Hi.
  - by rewrite Hj, Heq.
Qed.

Lemma fill_queue_fEntry price rem q fs rem' q' f :
  fill_queue price rem q = (fs, rem', q') → f ∈ fs → fEntry f ∈ q.
Proof.
  revert rem fs rem' q'. induction q as [|e q IH]; intros rem fs rem' q' H Hf; simpl in H.
  - simplify_eq. by apply not_elem_of_nil in Hf.
  - apply elem_of_cons. destruct (rem <=? 0); [simplify_eq; by apply not_elem_of_nil in Hf|].
    destruct (eRem e <=? rem).
    + destruct (fill_queue price (rem - eRem e) q) as [[fs1 r1] q1] eqn:E. simplify_eq.
      apply elem_of_cons in Hf as [->|Hf]; eauto.
    + simplify_eq. apply list_elem_of_singleton in Hf as ->. auto.
Qed.

Lemma fill_levels_fEntry cross rem ls fs rem' ls' f :
  fill_levels cross rem ls = (fs, rem', ls') → f ∈ fs → fEntry f ∈ entries ls.
Proof.
  revert rem fs rem' ls'. induction ls as [|v ls IH]; intros rem fs rem' ls' H Hf; simpl in H.
  - simplify_eq. by apply not_elem_of_nil in Hf.
  - rewrite entries_cons, elem_of_app.
    destruct (rem <=? 0); [simplify_eq; by apply not_elem_of_nil in Hf|].
    destruct (cross (vPrice v)); simpl in H; [|simplify_eq; by apply not_elem_of_nil in Hf].
    destruct (fill_queue (vPrice v) rem (vQueue v)) as [[fs1 r1] q1] eqn:E.
    destruct q1.
    + destruct (fill_levels cross r1 ls) as [[gs r2] ls2] eqn:E2. simplify_eq.
      apply elem_of_app in Hf as [Hf|Hf]; eauto using fill_queue_fEntry.
    + simplify_eq. eauto using fill_queue_fEntry.
Qed.

(** A matched book keeps a complete index. *)
Lemma match_index_complete b r cross rem fs rem' ls :
  wf b → index_complete b →
  fill_levels cross rem (levels (opp r) b) = (fs, rem', ls) →
  index_complete (set_bIndex (drop_filled fs (bIndex b)) (set_levels (opp r) ls b)).
Proof.
  intros Hwf Hc Hfill r' e He. simpl. apply drop_filled_lookup.
  pose proof (wf_oids_side b (opp r) Hwf) as (Hnd & Hdis & _)%NoDup_app.
  pose proof (fill_levels_gone _ _ _ _ _ _ Hfill (wf_levels _ Hwf _)) as Hgone.
  assert (Hold : ∃ e0, e0 ∈ entries (levels r' b) ∧ eOid e0 = eOid e ∧ eId e0 = eId e).
  { destruct (slice_ref_cases r r') as [->| ->].
    - exists e. split; [by destruct r|done].
    - apply (fill_levels_kept _ _ _ _ _ _ _ Hfill). by destruct r. }
  destruct Hold as (e0 & He0 & Ho & Hi). rewrite <-Ho, <-Hi. split; [by apply (Hc r')|].
  intros f Hf Hx Hid.
  assert (Hg : eOid (fEntry f) ∈ oids (gone fs)).
  { apply list_elem_of_fmap_2, list_elem_of_fmap_2. apply list_elem_of_filter. auto. }
  pose proof (Hc (opp r) _ (fill_levels_fEntry _ _ _ _ _ _ f Hfill Hf)) as Hlook.
  pose proof (Hc _ _ He0) as Hlook0. rewrite Hid, Hlook0 in Hlook. simplify_eq.
  assert (Hin : eOid e ∈ oids (entries (levels r' (set_levels (opp r) ls b))))
    by by apply list_elem_of_fmap_2.
  rewrite <-Hlook, Ho in Hg.
  destruct (slice_ref_cases r r') as [->| ->].
  - apply (Hdis (eOid e)); [rewrite Hgone; apply elem_of_app; auto|].
    by destruct r.
  - rewrite Hgone in Hnd. apply NoDup_app in Hnd as (_ & Hnd & _).
    apply (Hnd _ Hg). by destruct r.
Qed.

Lemma index_complete_fresh b r e id :
  index_complete b → bIndex b !! id = None → e ∈ entries (levels r b) → eId e ≠ id.
Proof. intros Hc Hn He <-. by rewrite (Hc _ _ He) in Hn. Qed.

Lemma rest_index_complete b r p id price rem :
  index_complete b → (∀ r' e, e ∈ entries (levels r' b) → eId e ≠ id) →
  index_complete (set_bIndex (<[id := p]> (bIndex b))
    (set_levels r (insert_entry r price (mkEntry p id rem) (levels r b)) b)).
Proof.
  intros Hc Hfresh r' e He. simpl.
  assert (Hcase : e = mkEntry p id rem ∨ e ∈ entries (levels r' b)).
  { destruct (slice_ref_cases r r') as [->| ->]; [|right; by destruct r].
    assert (He' : e ∈ entries (insert_entry r price (mkEntry p id rem) (levels r b)))
      by by destruct r.
    rewrite entries_insert in He'. by apply elem_of_cons in He'. }
  destruct Hcase as [->|Hin]; [by rewrite lookup_insert_eq|].
  rewrite lookup_insert_ne by (intros E; by apply (Hfresh _ _ Hin)). eauto.
Qed.

(** Orders placed under unused ids keep the index complete. *)
Lemma process_index_complete p id side ty price qty b :
  wf b → index_complete b → bIndex b !! id = None →
  index_complete (snd (spec_process p id side ty price qty b)).
Proof.
  intros Hwf Hc Hn. unfold spec_process. destruct (qty =? 0); [done|].
  destruct (fill_levels _ qty _) as [[fs rem] ls] eqn:Hfill. cbn [snd].
  pose proof (match_index_complete _ _ _ _ _ _ _ Hwf Hc Hfill) as Hm.
  destruct (_ && _); [|exact Hm]. apply rest_index_complete; [exact Hm|].
  intros r' e He. apply (index_complete_fresh _ r' e _ Hm); [|exact He]. cbn.
  destruct (drop_filled fs (bIndex b) !! id) eqn:E; [|done].
  apply drop_filled_lookup in E as [E _]. congruence.
Qed.

Lemma elem_of_remove_entry oid e ls :
  e ∈ entries (remove_entry oid ls) ↔ e ∈ entries ls ∧ eOid e ≠ oid.
Proof.
  induction ls as [|v ls IH]; [cbn; rewrite elem_of_nil; tauto|].
  rewrite remove_entry_cons, entries_app, entries_cons, !elem_of_app, IH.
  assert (Hv : entries (remove_from_level oid v) = filter (λ e, eOid e ≠ oid) (vQueue v)).
  { unfold remove_from_level. destruct (filter _ _); [done|]. cbn. by rewrite app_nil_r. }
  rewrite Hv, list_elem_of_filter. tauto.
Qed.

(** Cancelling removes the order [bIndex b !! id] and nothing else. *)
Lemma elem_of_spec_cancel b id oid r e :
  bIndex b !! id = Some oid →
  e ∈ entries (levels r (snd (spec_cancel id b))) ↔ e ∈ entries (levels r b) ∧ eOid e ≠ oid.
Proof. intros Hi. unfold spec_cancel. rewrite Hi. destruct r; apply elem_of_remove_entry. Qed.

Lemma cancel_index_complete id b :
  wf b → index_complete b → index_complete (snd (spec_cancel id b)).
Proof.
  intros Hwf Hc. destruct (bIndex b !! id) as [oid|] eqn:Hi.
  - intros r e He. apply (elem_of_spec_cancel _ _ _ _ _ Hi) in He as [He Hne].
    unfold spec_cancel. rewrite Hi. cbn [snd bIndex]. rewrite lookup_delete_ne; [eauto|].
    intros ->. specialize (Hc _ _ He). congruence.
  - unfold spec_cancel. by rewrite Hi.
Qed.

(** ** Resting and cancelling are inverse *)

Lemma remove_insert_entry r price e ls :
  eOid e ∉ oids (entries ls) → Forall level_ok ls →
  remove_entry (eOid e) (insert_entry r price e ls) = ls.
Proof.
  assert (Hself : ∀ q : list entry, eOid e ∉ oids q →
    filter (λ e', eOid e' ≠ eOid e) (q ++ [e]) = q).
  { intros q Hq. rewrite filter_app, filter_oid_none by done.
    rewrite filter_cons_False by tauto. cbn. apply app_nil_r. }
  assert (Hone : remove_from_level (eOid e) (mkLevel price [e]) = []).
  { unfold remove_from_level; cbn [vQueue]. by rewrite filter_cons_False by tauto. }
  intros Hn Hok. induction Hok as [|v ls Hv Hok IH].
  - cbn [insert_entry]. by rewrite remove_entry_cons, Hone.
  - rewrite entries_cons, oids_app, not_elem_of_app in Hn. destruct Hn as [Hnv Hn].
    cbn [insert_entry]. destruct (Z.eqb_spec (vPrice v) price) as [<-|Hne].
    + rewrite remove_entry_cons, remove_entry_other by done.
      unfold remove_from_level; cbn [vQueue vPrice]. rewrite Hself by done.
      destruct v as [pv [|e0 q]]; [by destruct Hv|done].
    + destruct (better r price (vPrice v)).
      * rewrite remove_entry_cons, Hone, remove_entry_other; [done|..].
        -- by rewrite entries_cons, oids_app, not_elem_of_app.
        -- by constructor.
      * rewrite remove_entry_cons, IH by done.
        pose proof (remove_entry_other (eOid e) [v]) as Hrm.
        rewrite entries_cons, app_nil_r in Hrm.
        cbn in Hrm. rewrite app_nil_r in Hrm. rewrite Hrm; [done|done|by constructor].
Qed.

(** No fills means that nothing moved. *)
Lemma fill_levels_none cross rem ls rem' ls' :
  fill_levels cross rem ls = ([], rem', ls') → Forall level_ok ls → rem' = rem ∧ ls' = ls.
Proof.
  intros H Hok. destruct ls as [|v ls]; cbn [fill_levels] in H; [by simplify_eq|].
  destruct (rem <=? 0) eqn:Hr; [by simplify_eq|].
  destruct (cross (vPrice v)); cbn [negb] in H; [|by simplify_eq].
  apply Forall_cons in Hok as [[Hne _] _]. destruct (vQueue v) as [|e q]; [done|].
  cbn [fill_queue] in H. rewrite Hr in H. destruct (eRem e <=? rem); [|by simplify_eq].
  destruct (fill_queue _ _ q) as [[fs1 r1] [|e1 q1]]; [|by simplify_eq].
  destruct (fill_levels cross r1 ls) as [[gs r2] ls2]. by simplify_eq.
Qed.

Lemma place_cancel_inverse p id side price qty b :
  wf b → 0 < qty → p ∉ oids (entries (bBids b) ++ entries (bAsks b)) →
  bIndex b !! id = None →
  fst (spec_process p id side LimitOrder price qty b) = [] →
  spec_cancel id (snd (spec_process p id side LimitOrder price qty b)) = (true, b).
Proof.
  intros Hwf Hq Hp Hid. unfold spec_process. destruct (Z.eqb_spec qty 0); [lia|].
  destruct (fill_levels _ qty _) as [[fs rem] ls] eqn:Hfill. cbn [fst snd].
  intros ->%fmap_nil_inv. cbn [drop_filled foldl].
  destruct (fill_levels_none _ _ _ _ _ Hfill (wf_levels _ Hwf _)) as [-> ->].
  replace (0 <? qty) with true by lia. cbn [andb Z.eqb LimitOrder].
  assert (Hset : set_bIndex (bIndex b) (set_levels (opp (side_of side)) (levels (opp (side_of side)) b) b) = b)
    by (destruct b; by destruct (side_of side)).
  rewrite Hset. unfold spec_cancel. cbn [bIndex set_bIndex]. rewrite lookup_insert_eq.
  rewrite oids_app, not_elem_of_app in Hp. destruct Hp as [Hpb Hpa].
  pose proof (wf_levels _ Hwf Bids) as HB. pose proof (wf_levels _ Hwf Asks) as HA.
  pose proof (λ r ls, remove_insert_entry r price (mkEntry p id qty) ls) as Hri. cbn [eOid] in Hri.
  f_equal. destruct b as [bs as_ m]; cbn [bBids bAsks bIndex set_bIndex levels] in *.
  rewrite delete_insert_id by done.
  destruct (side_of side); cbn [set_levels bBids bAsks bIndex levels set_bIndex]; rewrite Hri by done; by rewrite remove_entry_other.
Qed.
