(* ===== verification/BookRefine.v ===== *)
(** * The pointer code refines the price-time priority queue

    [Rep s b]: the heap and slices of state [s] represent the book [b].  Each
    operation of orderbook.go, started in a represented state, returns
    (no panic, no lack of fuel), returns what the reference returns, and ends
    in a state that represents the reference's result. *)

From stdpp Require Import prelude gmap strings list fin_maps sorting.
From Stdlib Require Import ZArith Lia.
From S2P Require Import Prelude GoSort Order LevelQueue OrderBook BookSpec BookInv.

Local Open Scope Z_scope.
Local Open Scope go_scope.

(** ** Matching within one level *)

Definition set_eRem (r : Z) (e : entry) : entry := mkEntry (eOid e) (eId e) r.

Lemma level_rep_fill_head bid s s' lp price e q o lim m :
  level_rep bid s lp (mkLevel price (e :: q)) →
  sOrders s !! eOid e = Some o → sLimits s !! lp = Some lim →
  NoDup (oids (e :: q)) → 0 <= m <= eRem e →
  sOrders s' !! eOid e = Some (set_oFilledQty (oFilledQty o + m) o) →
  (∀ p, p ∈ oids q → sOrders s' !! p = sOrders s !! p) →
  sLimits s' !! lp = Some (set_lTotalVolume (lTotalVolume lim - m) lim) →
  level_rep bid s' lp (mkLevel price (set_eRem (eRem e - m) e :: q)).
Proof.
  intros (lim' & Hlim & Hpr & Hvol & Hmax & Hhd & Htl & [(o' & Ho & R & Hn) Hseg])
    Ho' Hlim' Hnd Hm Hs' Hfr Hl'. simplify_eq; simpl in *.
  apply NoDup_cons in Hnd as [Hne Hnd].
  eexists; split; [exact Hl'|]. simpl. split_and!; auto; try lia.
  split.
  - exists (set_oFilledQty (oFilledQty o' + m) o'). split; [done|]. split; [|done].
    destruct R as (? & ? & ? & ? & ? & ? & ?). unfold order_is; simpl. split_and!; auto; lia.
  - by eapply dseg_frame.
Qed.

Lemma level_rep_head_nonneg bid s lp price e q :
  level_rep bid s lp (mkLevel price (e :: q)) → 0 <= eRem e.
Proof. intros (_ & _ & _ & _ & _ & _ & _ & [(o & _ & Ris & _) _]). apply Ris. Qed.

(** The taker as the loop sees it: its unfilled quantity is [rem]. *)
Definition taker_ok (t : Order) (rem : Z) : Prop :=
  0 <= oFilledQty t ∧ oQuantity t < 2 ^ 64 ∧ oQuantity t - oFilledQty t = rem ∧ 0 <= rem.

Lemma taker_RemainingQty t rem : taker_ok t rem → RemainingQty t = rem.
Proof. intros (? & ? & <- & ?). apply wrap64_id. unfold is_u64; lia. Qed.

Lemma taker_unfilled s tp t rem :
  sOrders s !! tp = Some t → taker_ok t rem →
  sOrders s !! tp = Some (set_oFilledQty (oQuantity t - rem) t).
Proof.
  intros -> (_ & _ & <- & _). f_equal. destruct t; unfold set_oFilledQty; simpl. f_equal. lia.
Qed.

Definition book_drop (fs : list fill) (b : OrderBook) : OrderBook :=
  mkOrderBook (bids b) (asks b) (drop_filled fs (orders b)).

Lemma drop_filled_cons f fs m :
  drop_filled (f :: fs) m =
  drop_filled fs (if exhausted f then delete (eId (fEntry f)) m else m).
Proof. done. Qed.

Lemma book_drop_nil b : b = book_drop [] b.
Proof. by destruct b. Qed.

Section match_level.
Context (bid : bool) (lp tp : ptr) (price : Z).

Lemma match_level_done fuel s q t rem trades :
  level_rep bid s lp (mkLevel price q) → sOrders s !! tp = Some t → taker_ok t rem →
  q = [] ∨ rem = 0 →
  match_level (S fuel) tp lp trades s = Ok (trades, s).
Proof.
  intros (lim & Hlim & _ & _ & _ & Hhd & _) Ht Hok Hdone. simpl in *.
  go_step. go_step. rewrite (taker_RemainingQty _ _ Hok), Hhd.
  destruct Hdone as [->| ->]; [done|]. by rewrite andb_false_r.
Qed.

(** One iteration up to the exhaustion test: [m] shares change hands. *)
Lemma match_level_fill fuel s e q t rem trades :
  let m := Z.min rem (eRem e) in
  level_rep bid s lp (mkLevel price (e :: q)) →
  NoDup (oids (e :: q)) → nil_ptr ∉ oids (e :: q) →
  sOrders s !! tp = Some t → tp ∉ oids (e :: q) → taker_ok t rem → 0 < rem →
  ∃ s', match_level (S fuel) tp lp trades s =
      ((if eRem e - m =? 0 then RemoveOrder lp (eOid e);; index_delete (eId e)
        else mret tt);;
       match_level fuel tp lp (trades ++ [trade_of (oID t) (mkFill price e m)])) s' ∧
    level_rep bid s' lp (mkLevel price (set_eRem (eRem e - m) e :: q)) ∧
    frame (tp :: oids (e :: q)) [lp] s s' ∧
    sOrders s' !! tp = Some (set_oFilledQty (oFilledQty t + m) t) ∧
    sBook s' = sBook s.
Proof.
  intros m Hrep Hnd Hnil Ht Htp Hok Hr.
  pose proof Hrep as (lim & Hlim & Hpr & Hvol & Hmax & Hhd & _ & [(o & Ho & Ris & _) Hseg]).
  simpl in Hpr, Hvol, Hmax, Hhd.
  pose proof (dseg_vol_nonneg _ _ _ _ _ _ _ Hseg) as Hv0.
  assert (eOid e ≠ tp) by (intros E; apply Htp; rewrite <-E; set_solver).
  assert (eOid e ≠ nil_ptr) as Hne by (intros E; apply Hnil; rewrite <-E; set_solver).
  apply N.eqb_neq in Hne. simpl match_level. go_step. go_step.
  rewrite Hhd, Hne, (taker_RemainingQty _ _ Hok).
  replace (0 <? rem) with true by lia. simpl. go_step.
  rewrite (order_is_RemainingQty _ _ _ _ Ris). cbn zeta.
  replace (min rem (eRem e)) with m
    by (unfold m, min; destruct (Z.ltb_spec rem (eRem e)); lia).
  destruct Ris as (Hid & Hside & Hop & Hf0 & Hq64 & Hqf & He0).
  destruct Hok as (Htf0 & Htq & Hrem & Hrem0).
  do 6 go_step. rewrite !wrap64_id by (unfold is_u64; lia).
  unfold RemainingQty. simpl. rewrite wrap64_id by (unfold is_u64; lia).
  replace (oQuantity o - (oFilledQty o + m)) with (eRem e - m) by lia.
  rewrite Hid, Hpr. eexists; split; [reflexivity|].
  split_and!; [|frame_solve|heap_lookup|done].
  eapply level_rep_fill_head; eauto; [lia|heap_lookup| |heap_lookup].
  intros p Hp. simpl. apply NoDup_cons in Hnd as [Hne' _].
  rewrite !lookup_insert_ne; set_solver.
Qed.

(** An iteration that uses up the oldest order. *)
Lemma match_level_full fuel s e q t rem trades :
  level_rep bid s lp (mkLevel price (e :: q)) →
  NoDup (oids (e :: q)) → nil_ptr ∉ oids (e :: q) →
  sOrders s !! tp = Some t → tp ∉ oids (e :: q) → taker_ok t rem →
  0 < rem → eRem e <= rem →
  ∃ s', match_level (S fuel) tp lp trades s =
      match_level fuel tp lp (trades ++ [trade_of (oID t) (mkFill price e (eRem e))]) s' ∧
    level_rep bid s' lp (mkLevel price q) ∧
    frame (tp :: oids (e :: q)) [lp] s s' ∧
    sOrders s' !! tp = Some (set_oFilledQty (oFilledQty t + eRem e) t) ∧
    sBook s' = mkOrderBook (bids (sBook s)) (asks (sBook s)) (delete (eId e) (orders (sBook s))).
Proof.
  intros Hrep Hnd Hnil Ht Htp Hok Hr He.
  destruct (match_level_fill fuel s e q t rem trades)
    as (s1 & -> & Hrep1 & F1 & Ht1 & B1); auto.
  rewrite Z.min_r by lia. rewrite Z.min_r in Hrep1, Ht1 by lia.
  rewrite Z.sub_diag in *. simpl.
  destruct (RemoveOrder_spec bid s1 lp price [] (set_eRem 0 e) q) as
    (s2 & o & E2 & Hrep2 & F2 & B2 & _ & _); auto.
  eexists. split.
  { erewrite bind_Ok; [reflexivity|]. rewrite (bind_Ok _ _ _ _ _ E2). reflexivity. }
  simpl. split_and!.
  - exact Hrep2.
  - eapply frame_trans; [exact F1|]. eapply frame_trans; [|apply frame_with_book].
    eapply frame_mono; [| |exact F2]; set_solver.
  - rewrite (frame_orders _ _ _ _ F2); [done|]. set_solver.
  - by rewrite B2, B1.
Qed.
End match_level.

Lemma match_level_spec bid lp price q : ∀ fuel s t tp rem trades fs rem' q',
  level_rep bid s lp (mkLevel price q) →
  NoDup (oids q) → nil_ptr ∉ oids q →
  sOrders s !! tp = Some t → tp ∉ oids q → taker_ok t rem →
  (length q < fuel)%nat →
  fill_queue price rem q = (fs, rem', q') →
  ∃ s', match_level fuel tp lp trades s = Ok (trades ++ (trade_of (oID t) <$> fs), s') ∧
    level_rep bid s' lp (mkLevel price q') ∧
    frame (tp :: oids q) [lp] s s' ∧
    sOrders s' !! tp = Some (set_oFilledQty (oQuantity t - rem') t) ∧
    sBook s' = book_drop fs (sBook s).
Proof.
  induction q as [|e q IH]; intros fuel s t tp rem trades fs rem' q'
    Hrep Hnd Hnil Ht Htp Hok Hfuel Hfill; destruct fuel as [|fuel]; try (simpl in *; lia).
  - simpl in Hfill. simplify_eq. exists s.
    rewrite (match_level_done bid lp tp price fuel s [] t rem' trades) by auto.
    rewrite app_nil_r. split_and!; auto using frame_refl, taker_unfilled, book_drop_nil.
  - apply NoDup_cons in Hnd as Hnd'. simpl in Hfill.
    destruct (Z.leb_spec rem 0) as [Hr|Hr]; [|destruct (Z.leb_spec (eRem e) rem) as [He|He]].
    + assert (rem = 0) as -> by (destruct Hok; lia). simplify_eq. exists s.
      rewrite (match_level_done bid lp tp price fuel s (e :: q) t 0 trades) by auto.
      rewrite app_nil_r. split_and!; auto using frame_refl, taker_unfilled, book_drop_nil.
    + destruct (fill_queue price (rem - eRem e) q) as [[fs1 rem1] q1] eqn:Hq. simplify_eq.
      destruct (match_level_full bid lp tp price fuel s e q t rem trades)
        as (s1 & -> & Hrep1 & F1 & Ht1 & B1); auto.
      edestruct (IH fuel s1) as (s2 & E2 & Hrep2 & F2 & Ht2 & B2);
        [exact Hrep1|apply Hnd'|set_solver|exact Ht1|set_solver| |simpl in *; lia|exact Hq|].
      { pose proof (level_rep_head_nonneg _ _ _ _ _ _ Hrep).
        destruct Hok as (? & ? & ? & ?). unfold taker_ok; simpl. split_and!; lia. }
      exists s2. rewrite E2, <-app_assoc. split_and!; auto.
      * eapply frame_trans; [exact F1|]. eapply frame_mono; [| |exact F2]; set_solver.
      * rewrite B2, B1. unfold book_drop. rewrite drop_filled_cons.
        by replace (exhausted (mkFill price e (eRem e))) with true
          by (unfold exhausted; simpl; lia).
    + simplify_eq. simpl in Hfuel. destruct fuel as [|fuel]; [lia|].
      destruct (match_level_fill bid lp tp price (S fuel) s e q t rem trades)
        as (s1 & -> & Hrep1 & F1 & Ht1 & B1); auto.
      rewrite Z.min_l in * by lia. replace (eRem e - rem =? 0) with false by lia.
      go_step. exists s1.
      assert (taker_ok (set_oFilledQty (oFilledQty t + rem) t) 0).
      { destruct Hok as (? & ? & ? & ?). unfold taker_ok; simpl. split_and!; lia. }
      erewrite match_level_done by eauto. split_and!; auto.
      * rewrite Ht1. do 2 f_equal. destruct Hok as (? & ? & ? & ?). lia.
      * rewrite B1. unfold book_drop, drop_filled, exhausted; simpl.
        replace (eRem e <=? rem) with false by lia. by destruct (sBook s).
Qed.

(** ** Matching across levels *)

Lemma get_set_slice r l b : get_slice r (set_slice r l b) = l.
Proof. by destruct r. Qed.
Lemma get_set_slice_opp r l b : get_slice (opp r) (set_slice r l b) = get_slice (opp r) b.
Proof. by destruct r. Qed.
Lemma set_get_slice r b : set_slice r (get_slice r b) b = b.
Proof. by destruct r, b. Qed.
Lemma get_slice_drop r fs b : get_slice r (book_drop fs b) = get_slice r b.
Proof. by destruct r. Qed.
Lemma book_drop_set_slice r l l' fs gs b :
  set_slice r l (book_drop gs (set_slice r l' (book_drop fs b))) =
  set_slice r l (book_drop (fs ++ gs) b).
Proof.
  unfold book_drop, drop_filled. destruct r; simpl; by rewrite foldl_app.
Qed.

Lemma load_slice_Ok r s : load_slice r s = Ok (get_slice r (sBook s), s).
Proof. done. Qed.
Lemma store_slice_Ok r l s :
  store_slice r l s = Ok (tt, with_book (set_slice r l (sBook s)) s).
Proof. done. Qed.
Lemma slice_at_Ok r i s p :
  get_slice r (sBook s) !! i = Some p → slice_at r i s = Ok (p, s).
Proof. intros E. unfold slice_at. go_step. by apply from_option_panic_Ok. Qed.
#[export] Hint Resolve load_slice_Ok store_slice_Ok slice_at_Ok : go.

Lemma levels_rep_frame ps ls bid s s' ptrs vs :
  frame ps ls s s' → ptrs ## ls → oids (entries vs) ## ps →
  Forall2 (level_rep bid s) ptrs vs → Forall2 (level_rep bid s') ptrs vs.
Proof.
  intros F Hl Hd H. induction H as [|p v ptrs vs Hp H IH]; constructor.
  - eapply level_rep_frame; [exact F| | |done]; [set_solver|].
    rewrite entries_cons, oids_app in Hd. set_solver.
  - apply IH; [set_solver|]. rewrite entries_cons, oids_app in Hd. set_solver.
Qed.

Section match_levels.
Context (r : slice_ref) (tp : ptr).

(** What the outer loop delivers: the trades of [fs], the levels [ls']. *)
Definition match_post (s : St) (ps touched : list ptr) (t : Order) (trades : list Trade)
    (out : res (list Trade * St)) (fs : list fill) (rem' : Z) (ls' : list level) : Prop :=
  ∃ s' ps', out = Ok (trades ++ (trade_of (oID t) <$> fs), s') ∧
    Forall2 (level_rep (is_bid r) s') ps' ls' ∧ ps' `suffix_of` ps ∧
    frame (tp :: touched) ps s s' ∧
    sOrders s' !! tp = Some (set_oFilledQty (oQuantity t - rem') t) ∧
    sBook s' = set_slice r ps' (book_drop fs (sBook s)).

Lemma match_post_stop s ps touched t trades rem ls :
  get_slice r (sBook s) = ps → Forall2 (level_rep (is_bid r) s) ps ls →
  sOrders s !! tp = Some t → taker_ok t rem →
  match_post s ps touched t trades (Ok (trades, s)) [] rem ls.
Proof.
  intros Hps Hrep Ht Hok. exists s, ps. simpl. rewrite app_nil_r.
  split_and!; auto using frame_refl, taker_unfilled.
  rewrite <-book_drop_nil, <-Hps. by rewrite set_get_slice.
Qed.

(** Composing an iteration that empties the best level with the rest. *)
Lemma match_post_step s s1 lp ps q es t trades fs gs rem1 rem2 ls2 out :
  frame (tp :: oids q) [lp] s s1 → sBook s1 = book_drop fs (sBook s) →
  match_post (with_book (set_slice r ps (book_drop fs (sBook s))) s1) ps (oids es)
    (set_oFilledQty (oQuantity t - rem1) t) (trades ++ (trade_of (oID t) <$> fs)) out gs rem2 ls2 →
  match_post s (lp :: ps) (oids q ++ oids es) t trades out (fs ++ gs) rem2 ls2.
Proof.
  intros F1 B1 (s2 & ps2 & -> & Hrep & Hsuf & F2 & Ht & B2). exists s2, ps2.
  rewrite <-app_assoc, fmap_app. split_and!; auto.
  - by apply suffix_cons_r.
  - eapply frame_trans; [eapply frame_mono; [| |exact F1]; set_solver|].
    eapply frame_trans; [apply frame_with_book|].
    eapply frame_mono; [| |exact F2]; set_solver.
  - rewrite B2. simpl. apply book_drop_set_slice.
Qed.

Lemma taker_ok_fill t rem rem1 :
  taker_ok t rem → 0 <= rem1 <= rem →
  taker_ok (set_oFilledQty (oQuantity t - rem1) t) rem1.
Proof. intros (? & ? & ? & ?) ?. unfold taker_ok; simpl. lia. Qed.

Lemma match_levels_stop fuel s ps t rem trades :
  get_slice r (sBook s) = ps → sOrders s !! tp = Some t → taker_ok t rem →
  ps = [] ∨ rem = 0 →
  match_levels (S fuel) tp r trades s = Ok (trades, s).
Proof.
  intros Hps Ht Hok Hdone. simpl. go_step. go_step.
  rewrite (taker_RemainingQty _ _ Hok), Hps.
  destruct Hdone as [->| ->]; [done|]. by rewrite andb_false_r.
Qed.

(** An outer iteration that looks at the best level. *)
Lemma match_levels_iter fuel s lp ps v t rem trades :
  get_slice r (sBook s) = lp :: ps → level_rep (is_bid r) s lp v →
  sOrders s !! tp = Some t → taker_ok t rem → 0 < rem →
  match_levels (S fuel) tp r trades s =
    (if crosses (oSide t) (oType t) (oPrice t) (vPrice v) then
       trades ← match_level (S fuel) tp lp trades;
       best ← load_limit lp;
       (if lTotalVolume best =? 0 then
          limits ← load_slice r; store_slice r (drop 1 limits)
        else mret tt);;
       match_levels fuel tp r trades
     else mret trades) s.
Proof.
  intros Hps (lim & Hlim & Hpr & _) Ht Hok Hr. cbn [match_levels]. go_step. go_step.
  rewrite Hps, (taker_RemainingQty _ _ Hok). replace (0 <? rem) with true by lia.
  cbn [length Nat.ltb Nat.leb andb].
  erewrite bind_Ok by (apply slice_at_Ok; by rewrite Hps). cbn beta. go_step.
  unfold crosses. rewrite <-Hpr. by case_match.
Qed.

Lemma match_levels_spec ls : ∀ fuel s ps t rem trades fs rem' ls',
  get_slice r (sBook s) = ps →
  Forall2 (level_rep (is_bid r) s) ps ls → NoDup ps →
  NoDup (oids (entries ls)) → nil_ptr ∉ oids (entries ls) → Forall level_ok ls →
  sOrders s !! tp = Some t → tp ∉ oids (entries ls) → taker_ok t rem →
  (length (entries ls) < fuel)%nat →
  fill_levels (crosses (oSide t) (oType t) (oPrice t)) rem ls = (fs, rem', ls') →
  match_post s ps (oids (entries ls)) t trades (match_levels fuel tp r trades s) fs rem' ls'.
Proof.
  induction ls as [|v ls IH]; intros fuel s ps t rem trades fs rem' ls'
    Hps Hrep Hndp Hnd Hnil Hok Ht Htp Htok Hfuel Hfill; destruct fuel as [|fuel]; [lia| |lia|];
    simpl in Hfill.
  { apply Forall2_nil_inv_r in Hrep as ->. simplify_eq.
    erewrite match_levels_stop by eauto. by apply match_post_stop. }
  pose proof Hrep as (lp & ps1 & Hv & Hrep1 & ->)%Forall2_cons_inv_r.
  destruct (Z.leb_spec rem 0) as [Hr|Hr].
  { assert (rem = 0) as -> by (destruct Htok as (? & ? & ? & ?); lia). simplify_eq.
    erewrite match_levels_stop by eauto. by apply match_post_stop. }
  erewrite match_levels_iter by eauto.
  destruct (crosses _ _ _ (vPrice v)); simpl in Hfill; [|by simplify_eq; apply match_post_stop].
  destruct (fill_queue (vPrice v) rem (vQueue v)) as [[fs1 rem1] q1] eqn:Hq.
  apply Forall_cons in Hok as [[Hvne Hvpos] Hok].
  rewrite entries_cons in *. rewrite oids_app in *.
  apply NoDup_app in Hnd as (Hnd1 & Hdis & Hnd2). apply not_elem_of_app in Hnil as [Hnil1 Hnil2].
  apply not_elem_of_app in Htp as [Htp1 Htp2]. rewrite length_app in Hfuel.
  destruct v as [price q]; simpl in *.
  destruct (match_level_spec _ _ _ _ (S fuel) s t tp rem trades fs1 rem1 q1 Hv)
    as (s1 & E1 & Hv1 & F1 & Ht1 & B1); auto; [lia|].
  rewrite (bind_Ok _ _ _ _ _ E1).
  pose proof Hv1 as (lim & Hlim & _ & Hvol & _). simpl in Hvol. go_step. rewrite Hvol.
  destruct (fill_queue_rem _ _ _ _ _ _ Hq Hvpos) as [Hr1 Hrest]; [lia|].
  pose proof (fill_queue_pos _ _ _ _ _ _ Hq Hvpos) as Hpos1.
  pose proof (taker_ok_fill _ _ rem1 Htok ltac:(lia)) as Htok1.
  assert (Hrep1' : Forall2 (level_rep (is_bid r) s1) ps1 ls).
  { eapply levels_rep_frame; [exact F1| | |done]; [apply NoDup_cons in Hndp; set_solver|].
    set_solver. }
  destruct q1 as [|e1 q1].
  - destruct (fill_levels _ rem1 ls) as [[gs rem2] ls2] eqn:Hls. simplify_eq. simpl.
    go_step. rewrite B1, get_slice_drop, Hps. simpl drop.
    apply (match_post_step s s1 lp ps1 q (entries ls) t trades fs1 gs rem1); auto.
    apply (IH fuel _ _ _ rem1); auto; [apply get_set_slice|by apply NoDup_cons in Hndp as [_ ?]|].
    destruct q; simpl in *; [done|lia].
  - pose proof (vol_pos _ Hpos1 ltac:(done)). replace (vol (e1 :: q1) =? 0) with false by lia.
    simplify_eq. rewrite Hrest in * by done. go_step. destruct fuel as [|fuel].
    { destruct q; simpl in *; [done|lia]. }
    erewrite match_levels_stop by eauto.
    exists s1, (lp :: ps1). split_and!; [done|by constructor|done| |done|].
    + eapply frame_mono; [| |exact F1]; set_solver.
    + rewrite B1, <-Hps, <-(get_slice_drop r fs (sBook s)). by rewrite set_get_slice.
Qed.
End match_levels.

(** ** Finding a price level *)

Section search_level.
Context (r : slice_ref) (s : St) (ls1 ls2 : list level) (price : Z).
Hypothesis Hrep : Forall2 (level_rep (is_bid r) s) (get_slice r (sBook s)) (ls1 ++ ls2).

Lemma slice_lookup i v :
  (ls1 ++ ls2) !! i = Some v →
  ∃ p, get_slice r (sBook s) !! i = Some p ∧ level_rep (is_bid r) s p v.
Proof using Hrep. intros Hv. destruct (Forall2_lookup_r _ _ _ _ _ Hrep Hv) as (p & ? & ?). eauto. Qed.

Lemma search_price_Ok i v :
  (ls1 ++ ls2) !! i = Some v →
  search_price r price (is_bid r) i s = Ok (negb (better r (vPrice v) price), s).
Proof using Hrep.
  intros (p & Hp & lim & Hlim & Hpr & _)%slice_lookup. unfold search_price.
  erewrite bind_Ok by (by apply slice_at_Ok). go_step. rewrite Hpr. unfold mret, GoM_ret.
  do 2 f_equal. destruct r; simpl; lia.
Qed.

Hypothesis Hls1 : Forall (λ v, better r (vPrice v) price = true) ls1.
Hypothesis Hls2 : Forall (λ v, better r (vPrice v) price = false) ls2.

(** The binary search finds where the price belongs. *)
Lemma search_level :
  sort_Search (length (get_slice r (sBook s))) (search_price r price (is_bid r)) s =
  Ok (length ls1, s).
Proof using Hrep Hls1 Hls2.
  rewrite (Forall2_length _ _ _ Hrep).
  apply sort_Search_first with (P := λ i,
    match (ls1 ++ ls2) !! i with Some v => negb (better r (vPrice v) price) | None => true end).
  - intros k Hk. destruct (lookup_lt_is_Some_2 (ls1 ++ ls2) k Hk) as [v Hv].
    rewrite Hv. by apply search_price_Ok.
  - rewrite length_app. lia.
  - intros k Hk. rewrite lookup_app_l by done.
    destruct (lookup_lt_is_Some_2 ls1 k Hk) as [v Hv]. rewrite Hv.
    rewrite Forall_lookup in Hls1. by rewrite (Hls1 _ _ Hv).
  - intros k Hk. rewrite lookup_app_r by lia. case_match eqn:Hv; [|done].
    rewrite Forall_lookup in Hls2. by rewrite (Hls2 _ _ Hv).
Qed.

Lemma price_at_Ok :
  price_at r (length ls1) price s =
  Ok (match ls2 with v :: _ => vPrice v =? price | [] => false end, s).
Proof using Hrep.
  clear Hls1 Hls2. unfold price_at. go_step. rewrite (Forall2_length _ _ _ Hrep), length_app.
  destruct ls2 as [|v ls]; simpl.
  - by replace (length ls1 <? length ls1 + 0)%nat with false by (symmetry; apply Nat.ltb_ge; lia).
  - replace (length ls1 <? length ls1 + S (length ls))%nat with true
      by (symmetry; apply Nat.ltb_lt; lia).
    destruct (Forall2_lookup_r _ _ _ (length ls1) v Hrep) as (p & Hp & lim & Hlim & Hpr & _).
    { by apply list_lookup_middle. }
    erewrite bind_Ok by (by apply slice_at_Ok). go_step. by rewrite Hpr.
Qed.
End search_level.

(** ** Resting an order *)

(** The heap never uses [nil] or an address from the break on. *)
Record heap_ok (s : St) : Prop := {
  heap_brk : (0 < sBrk s)%N;
  heap_orders p : p ∈ dom (sOrders s) → (0 < p < sBrk s)%N;
  heap_limits p : p ∈ dom (sLimits s) → (0 < p < sBrk s)%N;
}.

(** Like [frame], for operations that may also allocate. *)
Record keeps (ps ls : list ptr) (s s' : St) : Prop := {
  keeps_orders p : p ∉ ps → (p < sBrk s)%N → sOrders s' !! p = sOrders s !! p;
  keeps_limits p : p ∉ ls → (p < sBrk s)%N → sLimits s' !! p = sLimits s !! p;
  keeps_heap : heap_ok s → heap_ok s';
  keeps_brk : (sBrk s <= sBrk s')%N;
}.

Lemma frame_keeps ps ls s s' : frame ps ls s s' → keeps ps ls s s'.
Proof.
  intros F. split.
  - intros p Hp _. by apply (frame_orders _ _ _ _ F).
  - intros p Hp _. by apply (frame_limits _ _ _ _ F).
  - intros [? Ho Hl]. split; rewrite ?(frame_brk _ _ _ _ F), ?(frame_dom_orders _ _ _ _ F),
      ?(frame_dom_limits _ _ _ _ F); auto.
  - by rewrite (frame_brk _ _ _ _ F).
Qed.

Lemma keeps_trans ps ls s1 s2 s3 : keeps ps ls s1 s2 → keeps ps ls s2 s3 → keeps ps ls s1 s3.
Proof.
  intros K1 K2. pose proof (keeps_brk _ _ _ _ K1). pose proof (keeps_brk _ _ _ _ K2). split.
  - intros p Hp Hb. rewrite (keeps_orders _ _ _ _ K2), (keeps_orders _ _ _ _ K1); auto. lia.
  - intros p Hp Hb. rewrite (keeps_limits _ _ _ _ K2), (keeps_limits _ _ _ _ K1); auto. lia.
  - intros Hh. by apply (keeps_heap _ _ _ _ K2), (keeps_heap _ _ _ _ K1).
  - lia.
Qed.

Lemma keeps_mono ps ps' ls ls' s s' :
  ps ⊆ ps' → ls ⊆ ls' → keeps ps ls s s' → keeps ps' ls' s s'.
Proof. intros Hp Hl []; split; auto. Qed.

(** A fresh address needs no mention. *)
Lemma keeps_fresh ps ls s s' : keeps ps (sBrk s :: ls) s s' → keeps ps ls s s'.
Proof.
  intros []; split; auto. intros p Hp Hb. apply keeps_limits0; [|done].
  intros [->|?]%elem_of_cons; [lia|done].
Qed.

Lemma keeps_alloc_limit ps ls l s b :
  keeps ps ls s (mkSt (sOrders s) (<[sBrk s := l]> (sLimits s)) (N.succ (sBrk s)) b).
Proof.
  split; simpl; auto; [| |lia].
  - intros p Hp Hb. rewrite lookup_insert_ne; [done|lia].
  - intros [? Ho Hl]. split; simpl; [lia| |].
    + intros p Hp. specialize (Ho p Hp). lia.
    + intros p. rewrite dom_insert_L. intros [->%elem_of_singleton|Hp]%elem_of_union; [lia|].
      specialize (Hl p Hp). lia.
Qed.

Lemma level_rep_brk bid s lp v :
  heap_ok s → level_rep bid s lp v →
  (lp < sBrk s)%N ∧ ∀ p, p ∈ oids (vQueue v) → (0 < p < sBrk s)%N.
Proof.
  intros Hh (lim & Hlim & _ & _ & _ & _ & _ & Hseg). split.
  - apply (heap_limits _ Hh). by eapply elem_of_dom_2.
  - intros p (e & -> & He)%list_elem_of_fmap.
    destruct (dseg_lookup _ _ _ _ _ _ _ e Hseg He) as (o & Ho & _).
    apply (heap_orders _ Hh). by eapply elem_of_dom_2.
Qed.

Lemma levels_rep_brk bid s ptrs vs :
  heap_ok s → Forall2 (level_rep bid s) ptrs vs →
  (∀ p, p ∈ ptrs → (p < sBrk s)%N) ∧ (∀ p, p ∈ oids (entries vs) → (0 < p < sBrk s)%N).
Proof.
  intros Hh. induction 1 as [|lp v ptrs vs Hv _ [IH1 IH2]]; [set_solver|].
  destruct (level_rep_brk _ _ _ _ Hh Hv) as [Hlp Hp]. split.
  - intros p [->|Hin]%elem_of_cons; auto.
  - intros p. rewrite entries_cons, oids_app, elem_of_app. intros [?|?]; auto.
Qed.

Lemma levels_rep_keeps ps ls bid s s' ptrs vs :
  keeps ps ls s s' → heap_ok s → ptrs ## ls → oids (entries vs) ## ps →
  Forall2 (level_rep bid s) ptrs vs → Forall2 (level_rep bid s') ptrs vs.
Proof.
  intros K Hh Hl Hd H. induction H as [|lp v ptrs vs Hv H IH]; constructor.
  - destruct (level_rep_brk _ _ _ _ Hh Hv) as [Hb1 Hb2].
    rewrite entries_cons, oids_app in Hd.
    destruct Hv as (lim & Hlim & ? & ? & ? & ? & ? & Hseg). exists lim. split_and!; auto.
    + rewrite (keeps_limits _ _ _ _ K); [done|set_solver|done].
    + eapply dseg_frame; [|done]. intros p Hp. apply (keeps_orders _ _ _ _ K); [set_solver|].
      by apply Hb2.
  - apply IH; [set_solver|]. rewrite entries_cons, oids_app in Hd. set_solver.
Qed.

Section rest.
Context (r : slice_ref) (price : Z).

(** [AddOrder] on one of the levels of a side, and the index entry. *)
Lemma rest_at_level s psa lp psb lsa q lsb e o :
  Forall2 (level_rep (is_bid r) s) (psa ++ lp :: psb) (lsa ++ mkLevel price q :: lsb) →
  length psa = length lsa → NoDup (psa ++ lp :: psb) →
  NoDup (eOid e :: oids (entries (lsa ++ mkLevel price q :: lsb))) →
  nil_ptr ∉ oids (entries (lsa ++ mkLevel price q :: lsb)) →
  sOrders s !! eOid e = Some o → order_is (is_bid r) price o e →
  oNext o = nil_ptr → oPrev o = nil_ptr → vol q + eRem e < 2 ^ 64 →
  ∃ s', (AddOrder lp (eOid e);; o ← load_order (eOid e); index_insert (oID o) (eOid e)) s
        = Ok (tt, s') ∧
    Forall2 (level_rep (is_bid r) s') (psa ++ lp :: psb)
      (lsa ++ mkLevel price (q ++ [e]) :: lsb) ∧
    frame (eOid e :: oids (entries (lsa ++ mkLevel price q :: lsb))) [lp] s s' ∧
    sBook s' = mkOrderBook (bids (sBook s)) (asks (sBook s)) (<[eId e := eOid e]> (orders (sBook s))).
Proof.
  intros Hrep Hlen Hnp Hnd Hnil Ho Ris Hnx Hpv Hvol.
  apply Forall2_app_inv in Hrep as [Ha Hb]; [|done].
  apply Forall2_cons in Hb as [Hlp Hb].
  rewrite entries_app, entries_cons in *. simpl vQueue in *. rewrite !oids_app in *.
  apply NoDup_cons in Hnd as [He Hnd]. apply NoDup_app in Hnd as (_ & Hda & Hnd).
  apply NoDup_app in Hnd as (Hq & Hdq & _).
  rewrite !elem_of_app in He. rewrite !elem_of_app in Hnil.
  destruct (AddOrder_spec (is_bid r) s lp o price q e) as (s1 & E1 & R1 & F1 & B1);
    auto; [|].
  { rewrite oids_app. apply NoDup_app. split_and!; [done| |apply NoDup_singleton].
    intros p Hp Hp'. apply list_elem_of_singleton in Hp' as ->. tauto. }
  pose proof R1 as (_ & _ & _ & _ & _ & _ & _ & Hseg).
  destruct (dseg_lookup _ _ _ _ _ _ _ e Hseg) as (o1 & Ho1 & (Hid & _) & _); [set_solver|].
  eexists. split; [|split_and!].
  - rewrite (bind_Ok _ _ _ _ _ E1). go_step. reflexivity.
  - apply Forall2_app; [|constructor; [exact R1|]].
    + eapply (levels_rep_frame _ _ _ s s1); [exact F1| | |done].
      * apply NoDup_app in Hnp as (_ & Hn & _). set_solver.
      * rewrite oids_app. set_solver.
    + eapply (levels_rep_frame _ _ _ s s1); [exact F1| | |done].
      * apply NoDup_app in Hnp as (_ & _ & Hn). apply NoDup_cons in Hn. set_solver.
      * rewrite oids_app. set_solver.
  - eapply frame_trans; [|apply frame_with_book]. eapply frame_mono; [| |exact F1]; [|done].
    rewrite oids_app. set_solver.
  - simpl. by rewrite B1, Hid.
Qed.

(** What resting [e] does to the side. *)
Definition rest_post (s : St) (ps : list ptr) (e : entry) (ls : list level)
    (out : res (unit * St)) : Prop :=
  ∃ s' ps', out = Ok (tt, s') ∧
    Forall2 (level_rep (is_bid r) s') ps' (insert_entry r price e ls) ∧
    NoDup ps' ∧ (∀ p, p ∈ ps' → p ∈ ps ∨ p = sBrk s) ∧
    keeps (eOid e :: oids (entries ls)) ps s s' ∧
    sBook s' = set_slice r ps' (mkOrderBook (bids (sBook s)) (asks (sBook s))
                                  (<[eId e := eOid e]> (orders (sBook s)))).

(** The branch that creates a level. *)
Lemma rest_new_level s psa psb lsa lsb e o :
  get_slice r (sBook s) = psa ++ psb →
  Forall2 (level_rep (is_bid r) s) psa lsa → Forall2 (level_rep (is_bid r) s) psb lsb →
  insert_entry r price e (lsa ++ lsb) = lsa ++ mkLevel price [e] :: lsb →
  heap_ok s → NoDup (psa ++ psb) →
  NoDup (eOid e :: oids (entries (lsa ++ lsb))) → nil_ptr ∉ oids (entries (lsa ++ lsb)) →
  sOrders s !! eOid e = Some o → order_is (is_bid r) price o e →
  oNext o = nil_ptr → oPrev o = nil_ptr →
  rest_post s (psa ++ psb) e (lsa ++ lsb)
    ((limit ← (limit ← NewLimit price; l ← load_slice r;
               store_slice r (slice_insert nil_ptr (length lsa) limit l);; mret limit);
      AddOrder limit (eOid e);; o ← load_order (eOid e); index_insert (oID o) (eOid e)) s).
Proof.
  intros Hps Ha Hb Hins Hh Hndp Hnd Hnil Ho Ris Hnx Hpv.
  pose proof (Forall2_length _ _ _ Ha) as Hlen.
  set (s1 := mkSt (sOrders s) (<[sBrk s := mkLimit price 0 nil_ptr nil_ptr]> (sLimits s))
               (N.succ (sBrk s)) (set_slice r (psa ++ sBrk s :: psb) (sBook s))).
  assert (Hnew : sBrk s ∉ psa ++ psb).
  { intros Hin. assert (Hall : Forall2 (level_rep (is_bid r) s) (psa ++ psb) (lsa ++ lsb))
      by by apply Forall2_app.
    eapply levels_rep_brk in Hin; eauto. lia. }
  assert (K1 : keeps [] [] s s1) by apply keeps_alloc_limit.
  destruct (rest_at_level s1 psa (sBrk s) psb lsa [] lsb e o) as (s2 & E2 & R2 & F2 & B2); auto.
  { apply Forall2_app; [|constructor].
    - eapply levels_rep_keeps; eauto; set_solver.
    - eexists; split; [apply lookup_insert_eq|]. done.
    - eapply levels_rep_keeps; eauto; set_solver. }
  { rewrite <-Permutation_middle. by constructor. }
  { rewrite entries_app, entries_cons in *. done. }
  { rewrite entries_app, entries_cons in *. done. }
  { simpl. destruct Ris as (_ & _ & _ & ? & ? & ? & ?). lia. }
  exists s2, (psa ++ sBrk s :: psb). split_and!.
  - erewrite bind_Ok; [exact E2|]. unfold NewLimit, alloc_limit. go_step. go_step. simpl.
    rewrite Hps, <-Hlen, slice_insert_app. reflexivity.
  - by rewrite Hins.
  - rewrite <-Permutation_middle. by constructor.
  - set_solver.
  - apply keeps_fresh.
    eapply keeps_trans; [eapply keeps_mono; [| |exact K1]; set_solver|].
    eapply keeps_mono; [| |apply frame_keeps; exact F2]; [|set_solver].
    rewrite !entries_app, entries_cons. done.
  - rewrite B2. by destruct r.
Qed.

Lemma addLimitOrder_spec s ps ls e o :
  get_slice r (sBook s) = ps → Forall2 (level_rep (is_bid r) s) ps ls →
  sorted_side r ls → heap_ok s → NoDup ps →
  NoDup (eOid e :: oids (entries ls)) → nil_ptr ∉ oids (entries ls) →
  sOrders s !! eOid e = Some o → order_is (is_bid r) price o e →
  oNext o = nil_ptr → oPrev o = nil_ptr →
  (∀ v, v ∈ ls → vPrice v = price → vol (vQueue v) + eRem e < 2 ^ 64) →
  rest_post s ps e ls (addLimitOrder (eOid e) r (is_bid r) s).
Proof.
  intros Hps Hrep Hsorted Hh Hndp Hnd Hnil Ho Ris Hnx Hpv Hvol.
  destruct (split_at_price r price ls Hsorted) as (ls1 & ls2 & -> & H1 & H2).
  subst ps. unfold addLimitOrder. go_step.
  replace (oPrice o) with price by (symmetry; apply Ris). cbn zeta. go_step.
  erewrite bind_Ok by (by eapply search_level). cbn beta.
  erewrite bind_Ok by (by eapply price_at_Ok). cbn beta.
  pose proof Hrep as (psa & psb & Ha & Hb & Eps)%Forall2_app_inv_r.
  pose proof (insert_entry_here r price e ls2 H2) as Hins.
  rewrite Eps in Hndp |- *.
  destruct ls2 as [|v ls3].
  { apply (rest_new_level s psa psb ls1 [] e o); auto. by rewrite insert_entry_before, Hins. }
  destruct (Z.eqb_spec (vPrice v) price) as [Hv|Hv].
  2:{ apply (rest_new_level s psa psb ls1 (v :: ls3) e o); auto.
      by rewrite insert_entry_before, Hins. }
  pose proof Hb as (lp & psb' & Hlp & Hb' & ->)%Forall2_cons_inv_r.
  pose proof (Forall2_length _ _ _ Ha) as Hlen. destruct v as [pv q]; simpl in Hv; subst pv.
  erewrite bind_Ok; [|apply slice_at_Ok; rewrite Eps, <-Hlen; by apply list_lookup_middle].
  destruct (rest_at_level s psa lp psb' ls1 q ls3 e o) as (s2 & -> & R2 & F2 & B2); auto.
  { by rewrite <-Eps. }
  { apply (Hvol (mkLevel price q)); [set_solver|done]. }
  exists s2, (psa ++ lp :: psb'). split_and!; auto.
  - by rewrite insert_entry_before, Hins.
  - eapply keeps_mono; [| |apply frame_keeps; exact F2]; set_solver.
  - rewrite B2, <-Eps. by destruct r.
Qed.
End rest.

(** ** The representation of a whole book *)

Record Rep (s : St) (b : book) : Prop := {
  rep_side r : Forall2 (level_rep (is_bid r) s) (get_slice r (sBook s)) (levels r b);
  rep_index : orders (sBook s) = bIndex b;
  rep_ptrs : NoDup (bids (sBook s) ++ asks (sBook s));
  rep_heap : heap_ok s;
}.

Lemma rep_ptrs_side s b r :
  Rep s b → NoDup (get_slice r (sBook s) ++ get_slice (opp r) (sBook s)).
Proof. intros HR. pose proof (rep_ptrs _ _ HR). destruct r; simpl; [done|]. by rewrite (comm app). Qed.

Lemma rep_nil s b r : Rep s b → nil_ptr ∉ oids (entries (levels r b)).
Proof.
  intros HR Hin. eapply levels_rep_brk in Hin; [|apply (rep_heap _ _ HR)|apply (rep_side _ _ HR)].
  unfold nil_ptr in Hin. lia.
Qed.

(** Replacing one side of the book, the other being out of reach. *)
Lemma Rep_update_side r s s' b touched ps' ls' idx :
  Rep s b →
  keeps touched (get_slice r (sBook s)) s s' →
  oids (entries (levels (opp r) b)) ## touched →
  Forall2 (level_rep (is_bid r) s') ps' ls' →
  NoDup ps' → (∀ p, p ∈ ps' → p ∈ get_slice r (sBook s) ∨ p = sBrk s) →
  sBook s' = set_slice r ps' (mkOrderBook (bids (sBook s)) (asks (sBook s)) idx) →
  Rep s' (set_bIndex idx (set_levels r ls' b)).
Proof.
  intros HR K Hd Hrep Hnd Hps Hb.
  pose proof (rep_ptrs_side s b r HR) as (_ & Hdis & Hnd2)%NoDup_app.
  pose proof (rep_heap _ _ HR) as Hh.
  assert (Hopp : Forall2 (level_rep (is_bid (opp r)) s') (get_slice (opp r) (sBook s)) (levels (opp r) b)).
  { eapply levels_rep_keeps; [exact K|done| |done|apply (rep_side _ _ HR)]. set_solver. }
  assert (Hall : NoDup (ps' ++ get_slice (opp r) (sBook s))).
  { apply NoDup_app. split_and!; auto. intros p Hp Hq. destruct (Hps p Hp) as [?| ->].
    - by eapply Hdis.
    - eapply levels_rep_brk in Hq; [|exact Hh|apply (rep_side _ _ HR)]. lia. }
  split.
  - intros r'. rewrite Hb. destruct r, r'; simpl in *; auto.
  - rewrite Hb. by destruct r.
  - rewrite Hb. destruct r; simpl in *; [done|]. by rewrite (comm app).
  - by apply (keeps_heap _ _ _ _ K).
Qed.

(** Orders that neither rest in [b] nor are in [ps] are not written. *)
Definition untouched (b : book) (ps : list ptr) (s s' : St) : Prop :=
  (sBrk s <= sBrk s')%N ∧
  ∀ q, (q < sBrk s)%N → q ∉ ps → q ∉ oids (entries (bBids b) ++ entries (bAsks b)) →
    sOrders s' !! q = sOrders s !! q.

Lemma untouched_refl b ps s : untouched b ps s s.
Proof. by split. Qed.

Lemma keeps_untouched b r ps touched ls s s' :
  keeps touched ls s s' → (∀ q, q ∈ touched → q ∈ ps ∨ q ∈ oids (entries (levels r b))) →
  untouched b ps s s'.
Proof.
  intros K Ht. split; [apply (keeps_brk _ _ _ _ K)|]. intros q Hq Hps Hb.
  apply (keeps_orders _ _ _ _ K); [|done]. intros [?|Hin]%Ht; [done|]. apply Hb.
  rewrite oids_app, elem_of_app. destruct r; auto.
Qed.

Lemma untouched_trans b ps s1 s2 s3 :
  untouched b ps s1 s2 → untouched b ps s2 s3 → untouched b ps s1 s3.
Proof.
  intros [H1 U1] [H2 U2]. split; [lia|]. intros q Hq Hps Hb.
  rewrite U2, U1 by (done || lia). done.
Qed.

(** ** [Process] *)

Lemma NoDup_suffix {A} (l k : list A) : l `suffix_of` k → NoDup k → NoDup l.
Proof. intros [k' ->] (_ & _ & ?)%NoDup_app. done. Qed.
Lemma elem_of_suffix {A} (l k : list A) x : l `suffix_of` k → x ∈ l → x ∈ k.
Proof. intros [k' ->] ?. set_solver. Qed.

Section process.
Context (s : St) (b : book) (p : ptr) (id : string) (side ty price qty now : Z).
Context (HR : Rep s b) (Hwf : wf b).
Context (Ho : sOrders s !! p = Some (new_order_struct id side ty price qty now)).
Context (Hp : p ∉ oids (entries (levels Bids b) ++ entries (levels Asks b))).
Context (Hqty : 0 <= qty < 2 ^ 64).

Lemma new_order_taker : taker_ok (new_order_struct id side ty price qty now) qty.
Proof using Hqty. clear -Hqty. unfold taker_ok; simpl. lia. Qed.

Lemma fresh_side r : p ∉ oids (entries (levels r b)).
Proof using Hp. clear -Hp. rewrite oids_app, elem_of_app in Hp. destruct r; simpl in *; tauto. Qed.

(** Matching against the opposite side. *)
Lemma match_refines r fuel fs rem ls :
  (length (entries (levels (opp r) b)) < fuel)%nat →
  fill_levels (crosses side ty price) qty (levels (opp r) b) = (fs, rem, ls) →
  ∃ s', matchOrder fuel p (opp r) s = Ok (trade_of id <$> fs, s') ∧
    Rep s' (set_bIndex (drop_filled fs (bIndex b)) (set_levels (opp r) ls b)) ∧
    sOrders s' !! p = Some (set_oFilledQty (qty - rem) (new_order_struct id side ty price qty now)) ∧
    untouched b [p] s s'.
Proof using All.
  intros Hfuel Hfill.
  pose proof (wf_oids_side b (opp r) Hwf) as (Hnd & Hdis & _)%NoDup_app.
  pose proof (rep_ptrs_side s b (opp r) HR) as (Hndp & _ & _)%NoDup_app.
  destruct (match_levels_spec (opp r) p (levels (opp r) b) fuel s _ _ qty [] fs rem ls eq_refl
    (rep_side _ _ HR (opp r)) Hndp Hnd (rep_nil _ _ _ HR) (wf_levels _ Hwf _) Ho
    (fresh_side _) new_order_taker Hfuel Hfill) as (s' & ps' & E & Hrep & Hsuf & F & Ht & B).
  exists s'. split; [exact E|]. split; [|split; [done|]].
  2:{ eapply (keeps_untouched b (opp r)); [apply frame_keeps; exact F|].
      intros q. rewrite elem_of_cons. intros [->|?]; [left; apply elem_of_cons; auto|auto]. }
  eapply Rep_update_side; [done|apply frame_keeps; exact F| |exact Hrep| | |].
  - pose proof (fresh_side (opp (opp r))). set_solver.
  - by eapply NoDup_suffix.
  - intros q Hq. left. by eapply elem_of_suffix.
  - rewrite B. unfold book_drop. by rewrite (rep_index _ _ HR).
Qed.

(** The rest of the order rests on its own side. *)
Lemma rest_refines r s1 b1 rem :
  Rep s1 b1 → levels r b1 = levels r b → (is_bid r = (side =? Buy)) →
  oids (entries (levels (opp r) b1)) `suffix_of` oids (entries (levels (opp r) b)) →
  sOrders s1 !! p = Some (set_oFilledQty (qty - rem) (new_order_struct id side ty price qty now)) →
  0 < rem <= qty →
  (∀ v, v ∈ levels r b → vPrice v = price → vol (vQueue v) + qty < 2 ^ 64) →
  ∃ s', addLimitOrder p r (is_bid r) s1 = Ok (tt, s') ∧
    Rep s' (set_bIndex (<[id := p]> (bIndex b1))
      (set_levels r (insert_entry r price (mkEntry p id rem) (levels r b1)) b1)) ∧
    untouched b [p] s1 s'.
Proof using All.
  intros HR1 Elv Hside Hsuf Ho1 Hrem Hfits.
  pose proof (wf_oids_side b r Hwf) as (Hnd & Hdis & _)%NoDup_app.
  pose proof (rep_ptrs_side s1 b1 r HR1) as (Hndp & _ & _)%NoDup_app.
  edestruct (addLimitOrder_spec r price s1 (get_slice r (sBook s1)) (levels r b1) (mkEntry p id rem))
    as (s2 & ps2 & E & Hrep & Hnd2 & Hin & K & B);
    [done|apply (rep_side _ _ HR1)| |apply (rep_heap _ _ HR1)|done| |by eapply rep_nil
    |exact Ho1| |done|done| |].
  - rewrite Elv. apply (wf_sorted _ Hwf).
  - rewrite Elv. constructor; [apply fresh_side|done].
  - unfold order_is; simpl. split_and!; auto; lia.
  - rewrite Elv. intros v Hv Hpr. specialize (Hfits v Hv Hpr). simpl. lia.
  - exists s2. split; [exact E|]. split.
    2:{ eapply (keeps_untouched b r); [exact K|]. rewrite Elv.
        intros q. rewrite elem_of_cons. intros [->|?]; [left; apply elem_of_cons; auto|auto]. }
    eapply Rep_update_side; [done|exact K| |exact Hrep|done|exact Hin|].
    + rewrite Elv. pose proof (fresh_side (opp r)). intros q Hq1 Hq2.
      eapply elem_of_suffix in Hq1; [|done]. set_solver.
    + rewrite B. by rewrite (rep_index _ _ HR1).
Qed.

Lemma Process_spec fuel trades b' :
  (length (entries (levels (opp (side_of side)) b)) < fuel)%nat →
  fits side price qty b →
  spec_process p id side ty price qty b = (trades, b') →
  ∃ s', Process fuel p s = Ok (trades, s') ∧ Rep s' b' ∧ untouched b [p] s s'.
Proof using All.
  intros Hfuel Hfits Hspec. unfold Process, spec_process in *. go_step.
  change (oQuantity (new_order_struct id side ty price qty now)) with qty.
  destruct (Z.eqb_spec qty 0) as [->|Hq]; [simplify_eq; exists s; split_and!; [done|done|apply untouched_refl]|].
  destruct (fill_levels (crosses side ty price) qty (levels (opp (side_of side)) b))
    as [[fs rem] ls] eqn:Hfill.
  destruct (match_refines _ fuel fs rem ls Hfuel Hfill) as (s1 & E1 & HR1 & Ho1 & U1).
  pose proof (fill_levels_rem _ _ _ _ _ _ Hfill (wf_levels _ Hwf _) ltac:(lia)) as Hrem.
  pose proof (fill_levels_oids _ _ _ _ _ _ Hfill) as Hsuf.
  assert (Hbody : ∃ s', (trades ← matchOrder fuel p (opp (side_of side));
      o ← load_order p;
      (if (0 <? RemainingQty o) && (oType o =? LimitOrder) then
         addLimitOrder p (side_of side) (is_bid (side_of side)) else mret tt);;
      mret trades) s = Ok (trades, s') ∧ Rep s' b' ∧ untouched b [p] s s').
  2:{ change (oSide (new_order_struct id side ty price qty now)) with side.
      unfold side_of in Hbody. destruct (side =? Buy); exact Hbody. }
  rewrite (bind_Ok _ _ _ _ _ E1). go_step. unfold RemainingQty; simpl.
  rewrite wrap64_id by (unfold is_u64; lia). replace (qty - (qty - rem)) with rem by lia.
  destruct ((0 <? rem) && (ty =? LimitOrder)) eqn:Hrest; simplify_eq; [|by exists s1].
  destruct (rest_refines (side_of side) _ _ rem HR1) as (s2 & E2 & HR2 & U2); auto.
  - by destruct (side_of side).
  - unfold side_of. by destruct (side =? Buy).
  - by destruct (side_of side).
  - lia.
  - exists s2. rewrite (bind_Ok _ _ _ _ _ E2). split_and!; [done|done|].
    by eapply untouched_trans.
Qed.

Lemma Process_refines fuel trades b' :
  (length (entries (levels (opp (side_of side)) b)) < fuel)%nat →
  fits side price qty b →
  spec_process p id side ty price qty b = (trades, b') →
  ∃ s', Process fuel p s = Ok (trades, s') ∧ Rep s' b'.
Proof using All.
  intros H1 H2 H3. destruct (Process_spec _ _ _ H1 H2 H3) as (s' & ? & ? & _). eauto.
Qed.
End process.

(** ** [Cancel] *)

Lemma removeLimitLevel_spec r s lsa v lsb :
  Forall2 (level_rep (is_bid r) s) (get_slice r (sBook s)) (lsa ++ v :: lsb) →
  sorted_side r (lsa ++ v :: lsb) →
  removeLimitLevel r (vPrice v) (is_bid r) s =
    Ok (tt, with_book (set_slice r (slice_remove (length lsa) (get_slice r (sBook s))) (sBook s)) s).
Proof.
  intros Hrep Hs. destruct (sorted_side_mid _ _ _ _ Hs) as [H1 H2].
  unfold removeLimitLevel. go_step.
  erewrite bind_Ok by (by eapply search_level). cbn beta.
  erewrite bind_Ok by (by eapply price_at_Ok). cbn beta iota. rewrite Z.eqb_refl. go_step. done.
Qed.

(** The index points at a resting order, and this is where it is. *)
Lemma locate s b r e :
  Rep s b → e ∈ entries (levels r b) →
  ∃ lsa price q1 q2 lsb psa lp psb,
    levels r b = lsa ++ mkLevel price (q1 ++ e :: q2) :: lsb ∧
    get_slice r (sBook s) = psa ++ lp :: psb ∧ length psa = length lsa ∧
    Forall2 (level_rep (is_bid r) s) psa lsa ∧
    level_rep (is_bid r) s lp (mkLevel price (q1 ++ e :: q2)) ∧
    Forall2 (level_rep (is_bid r) s) psb lsb.
Proof.
  intros HR (v & He & Hv)%list_elem_of_bind.
  apply list_elem_of_split in Hv as (lsa & lsb & Elv), He as (q1 & q2 & Eq).
  pose proof (rep_side _ _ HR r) as Hrep. rewrite Elv in Hrep.
  apply Forall2_app_inv_r in Hrep as (psa & psb' & Ha & Hb & Eps).
  apply Forall2_cons_inv_r in Hb as (lp & psb & Hlp & Hb & ->).
  exists lsa, (vPrice v), q1, q2, lsb, psa, lp, psb. rewrite <-Eq.
  split_and!; auto; try (by destruct v). by eapply Forall2_length.
Qed.

(** The state [Cancel] reaches before it looks for an empty level. *)
Lemma cancel_unlink s b r e lsa price q1 q2 lsb psa lp psb :
  Rep s b → wf b →
  levels r b = lsa ++ mkLevel price (q1 ++ e :: q2) :: lsb →
  get_slice r (sBook s) = psa ++ lp :: psb → length psa = length lsa →
  Forall2 (level_rep (is_bid r) s) psa lsa →
  level_rep (is_bid r) s lp (mkLevel price (q1 ++ e :: q2)) →
  Forall2 (level_rep (is_bid r) s) psb lsb →
  ∃ s' o, RemoveOrder lp (eOid e) s = Ok (tt, s') ∧
    sOrders s' !! eOid e = Some o ∧ oID o = eId e ∧ (oSide o =? Buy) = is_bid r ∧
    Forall2 (level_rep (is_bid r) s') (psa ++ lp :: psb) (lsa ++ mkLevel price (q1 ++ q2) :: lsb) ∧
    frame (oids (entries (levels r b))) (psa ++ lp :: psb) s s' ∧ sBook s' = sBook s.
Proof.
  intros HR Hwf Elv Eps Hlen Ha Hlp Hb.
  pose proof (wf_oids_side b r Hwf) as (Hnd & _ & _)%NoDup_app.
  pose proof (rep_nil _ _ r HR) as Hnil.
  pose proof (rep_ptrs_side s b r HR) as (Hndp & _ & _)%NoDup_app. rewrite Eps in Hndp.
  rewrite Elv, entries_app, entries_cons, !oids_app in Hnd, Hnil.
  rewrite Elv, entries_app, entries_cons, !oids_app. simpl vQueue in *.
  apply NoDup_app in Hnd as (_ & Hda & Hnd). apply NoDup_app in Hnd as (Hq & Hdq & _).
  rewrite !elem_of_app in Hnil.
  destruct (RemoveOrder_spec (is_bid r) s lp price q1 e q2)
    as (s1 & o & E1 & R1 & F1 & B1 & Ho & Ho1); auto.
  pose proof Hlp as (_ & _ & _ & _ & _ & _ & _ & Hseg).
  destruct (dseg_lookup _ _ _ _ _ _ _ e Hseg) as (o' & Ho' & (Hid & Hside & _) & _);
    [simpl; set_solver|]. simplify_eq.
  eexists s1, _. split_and!; [done|exact Ho1|done|done| |
    eapply frame_mono; [| |exact F1]; set_solver|done].
  apply Forall2_app; [|constructor; [done|]].
  - eapply levels_rep_frame; [exact F1| | |done].
    + apply NoDup_app in Hndp as (_ & Hn & _). set_solver.
    + set_solver.
  - eapply levels_rep_frame; [exact F1| | |done].
    + apply NoDup_app in Hndp as (_ & _ & Hn). apply NoDup_cons in Hn. set_solver.
    + set_solver.
Qed.

(** The end of [Cancel]: an emptied level is dropped from its slice. *)
Lemma cancel_finish s s2 b r e lsa price q1 q2 lsb psa lp psb :
  Rep s b → wf b →
  levels r b = lsa ++ mkLevel price (q1 ++ e :: q2) :: lsb →
  get_slice r (sBook s) = psa ++ lp :: psb → length psa = length lsa →
  Forall2 (level_rep (is_bid r) s2) (psa ++ lp :: psb) (lsa ++ mkLevel price (q1 ++ q2) :: lsb) →
  frame (oids (entries (levels r b))) (psa ++ lp :: psb) s s2 →
  sBook s2 = mkOrderBook (bids (sBook s)) (asks (sBook s)) (delete (eId e) (bIndex b)) →
  ∃ s', ((if vol (q1 ++ q2) =? 0 then removeLimitLevel r price (is_bid r) else mret tt);;
         mret true) s2 = Ok (true, s') ∧
    Rep s' (set_bIndex (delete (eId e) (bIndex b))
             (set_levels r (lsa ++ nonempty_level price (q1 ++ q2) ++ lsb) b)) ∧
    sOrders s' = sOrders s2 ∧ sBrk s' = sBrk s2.
Proof.
  intros HR Hwf Elv Eps Hlen Hrep F2 B.
  pose proof (wf_oids_side b r Hwf) as (_ & Hdis & _)%NoDup_app.
  pose proof (rep_ptrs_side s b r HR) as (Hndp & _ & _)%NoDup_app. rewrite Eps in Hndp.
  pose proof (wf_remove_pos _ _ _ _ _ _ _ _ Hwf Elv) as Hpos.
  assert (Eps2 : get_slice r (sBook s2) = psa ++ lp :: psb)
    by (rewrite <-Eps, B; by destruct r).
  destruct (q1 ++ q2) as [|e' q'] eqn:Eq.
  - simpl.
    rewrite (bind_Ok _ _ _ _ _ (removeLimitLevel_spec r s2 lsa (mkLevel price []) lsb
      ltac:(by rewrite Eps2) ltac:(eapply sorted_side_prices; [|apply (wf_sorted _ Hwf r)];
        rewrite Elv, !fmap_app; done))).
    eexists; split; [reflexivity|]. split; [|done].
    rewrite Eps2, <-Hlen, slice_remove_app.
    eapply Rep_update_side; [done| | | | | |].
    + rewrite Eps. eapply keeps_trans; [apply frame_keeps; exact F2|]. apply frame_keeps, frame_with_book.
    + intros p Hp1 Hp2. by eapply Hdis.
    + apply Forall2_app_inv in Hrep as [? Hrep]; [|done]. apply Forall2_cons in Hrep as [_ ?].
      by apply Forall2_app.
    + rewrite <-Permutation_middle in Hndp. by apply NoDup_cons in Hndp as [_ ?].
    + rewrite Eps. set_solver.
    + simpl. by rewrite B.
  - pose proof (vol_pos _ Hpos ltac:(done)). replace (vol (e' :: q') =? 0) with false by lia.
    eexists; split; [reflexivity|]. split; [|done].
    eapply Rep_update_side; [done| | |exact Hrep|done| |].
    + rewrite Eps. by apply frame_keeps.
    + intros p Hp1 Hp2. by eapply Hdis.
    + rewrite Eps. auto.
    + rewrite B. rewrite <-Eps. by destruct r.
Qed.

Lemma Cancel_spec s b id ok b' :
  Rep s b → wf b → spec_cancel id b = (ok, b') →
  ∃ s', Cancel id s = Ok (ok, s') ∧ Rep s' b' ∧ untouched b [] s s'.
Proof.
  intros HR Hwf Hspec. unfold Cancel, spec_cancel in *. go_step. rewrite (rep_index _ _ HR).
  destruct (bIndex b !! id) as [oid|] eqn:Hidx;
    [|simplify_eq; exists s; split_and!; [done|done|apply untouched_refl]].
  destruct (wf_index _ Hwf _ _ Hidx) as (r & e & He & <- & <-). simplify_eq.
  destruct (locate s b r e HR He)
    as (lsa & price & q1 & q2 & lsb & psa & lp & psb & Elv & Eps & Hlen & Ha & Hlp & Hb).
  pose proof Hlp as (lim & Hlim & _ & _ & _ & _ & _ & Hseg).
  destruct (dseg_lookup _ _ _ _ _ _ _ e Hseg) as (o & Ho & Ris & Hlimit); [set_solver|].
  go_step. rewrite Hlimit.
  assert (lp ≠ nil_ptr) as Hnn.
  { intros ->. apply elem_of_dom_2, (heap_limits _ (rep_heap _ _ HR)) in Hlim.
    unfold nil_ptr in Hlim. lia. }
  apply N.eqb_neq in Hnn. rewrite Hnn.
  destruct (cancel_unlink s b r e lsa price q1 q2 lsb psa lp psb)
    as (s1 & o1 & E1 & Ho1 & Hid & Hside & Hrep & F & B); auto.
  rewrite (bind_Ok _ _ _ _ _ E1). go_step. rewrite Hid, Hside. go_step.
  pose proof Hrep as (_ & Hrep')%Forall2_app_inv; [|done].
  apply Forall2_cons in Hrep' as [(lim1 & Hlim1 & Hpr & Hvol & _) _]. simpl in Hpr, Hvol.
  go_step. rewrite Hvol, Hpr, (remove_both_sides b r e lsa price q1 q2 lsb Hwf Elv).
  destruct (cancel_finish s (with_index (delete (eId e) (orders (sBook s1))) s1) b r e
    lsa price q1 q2 lsb psa lp psb) as (s3 & E3 & HR3 & HO3 & HB3); auto.
  - eapply frame_trans; [exact F|apply frame_with_book].
  - simpl. by rewrite B, (rep_index _ _ HR).
  - exists s3. split; [by destruct r|]. split; [done|].
    pose proof (keeps_untouched b r [] _ _ _ _ (frame_keeps _ _ _ _ F) ltac:(auto)) as [Ub Uo].
    split; [by rewrite HB3|]. intros q Hq Hps Hb3. rewrite HO3. by apply Uo.
Qed.

Lemma Cancel_refines s b id ok b' :
  Rep s b → wf b → spec_cancel id b = (ok, b') →
  ∃ s', Cancel id s = Ok (ok, s') ∧ Rep s' b'.
Proof.
  intros H1 H2 H3. destruct (Cancel_spec _ _ _ _ _ H1 H2 H3) as (s' & ? & ? & _). eauto.
Qed.

(** ** [GetDepth] *)

Lemma depth_loop_spec r s ls n : ∀ i,
  Forall2 (level_rep (is_bid r) s) (get_slice r (sBook s)) ls →
  (i + n <= length ls)%nat →
  depth_loop r n i s = Ok (spec_depth n (drop i ls), s).
Proof.
  induction n as [|n IH]; intros i Hrep Hlen; [done|]. simpl.
  destruct (lookup_lt_is_Some_2 ls i ltac:(lia)) as [v Hv].
  destruct (Forall2_lookup_r _ _ _ _ _ Hrep Hv) as (p & Hp & lim & Hlim & Hpr & Hvol & _).
  erewrite bind_Ok by (by apply slice_at_Ok). go_step.
  rewrite (bind_Ok _ _ _ _ _ (IH (i + 1)%nat Hrep ltac:(lia))).
  unfold spec_depth. rewrite (drop_S _ _ _ Hv), Hpr, Hvol. by rewrite Nat.add_1_r.
Qed.

Lemma spec_depth_min n ls : spec_depth (Nat.min (length ls) n) ls = spec_depth n ls.
Proof.
  unfold spec_depth. destruct (decide (length ls <= n)%nat).
  - rewrite Nat.min_l by lia. by rewrite !take_ge by lia.
  - by rewrite Nat.min_r by lia.
Qed.

Lemma GetDepth_refines s b depth :
  Rep s b → 0 <= depth <= max_levels →
  GetDepth depth s = Ok ((spec_depth (Z.to_nat depth) (bBids b),
                          spec_depth (Z.to_nat depth) (bAsks b)), s).
Proof.
  intros HR Hd. unfold GetDepth. replace ((depth <? 0) || (max_levels <? depth)) with false by lia.
  assert (Hr : ∀ r, depth_loop r (Nat.min (length (get_slice r (sBook s))) (Z.to_nat depth)) 0 s
    = Ok (spec_depth (Z.to_nat depth) (levels r b), s)).
  { intros r. pose proof (rep_side _ _ HR r) as Hrep. rewrite (Forall2_length _ _ _ Hrep).
    rewrite (depth_loop_spec r s (levels r b)) by (auto; lia).
    rewrite drop_0. by rewrite spec_depth_min. }
  go_step. rewrite (bind_Ok _ _ _ _ _ (Hr Bids)). go_step.
  by rewrite (bind_Ok _ _ _ _ _ (Hr Asks)).
Qed.

Lemma GetDepth_panics s depth : ¬ 0 <= depth <= max_levels → GetDepth depth s = Panic.
Proof. intros H. unfold GetDepth. by replace ((depth <? 0) || (max_levels <? depth)) with true by lia. Qed.
