(* ===== verification/BookSim.v ===== *)
(** * Running the order book

    The states a process reaches by placing and cancelling orders, and the
    fact that all of them represent a well-formed book.  [place] is what the
    API does with an accepted order: allocate it ([NewOrder]) and [Process]
    it. *)

From stdpp Require Import prelude gmap strings list fin_maps sorting.
From Stdlib Require Import ZArith Lia.
From S2P Require Import Prelude GoSort Order LevelQueue OrderBook BookSpec BookInv BookFlow BookRefine.

Local Open Scope Z_scope.

Definition place (fuel : nat) (now : Z) (id : string) (side ty price qty : Z) :
    M (ptr * list Trade) :=
  p ← NewOrder id side ty price qty now;
  ts ← Process fuel p;
  mret (p, ts).

(** ** Allocation *)

Lemma keeps_alloc_order ps ls o s :
  keeps ps ls s (mkSt (<[sBrk s := o]> (sOrders s)) (sLimits s) (N.succ (sBrk s)) (sBook s)).
Proof.
  split; simpl; auto; [| |lia].
  - intros p Hp Hb. rewrite lookup_insert_ne; [done|lia].
  - intros [? Ho Hl]. split; simpl; [lia| |].
    + intros p. rewrite dom_insert_L. intros [->%elem_of_singleton|Hp]%elem_of_union; [lia|].
      specialize (Ho p Hp). lia.
    + intros p Hp. specialize (Hl p Hp). lia.
Qed.

Lemma Rep_keeps s s' b : Rep s b → keeps [] [] s s' → sBook s' = sBook s → Rep s' b.
Proof.
  intros HR K B. split.
  - intros r. rewrite B.
    eapply levels_rep_keeps; [exact K|apply (rep_heap _ _ HR)| | |apply (rep_side _ _ HR)];
      set_solver.
  - rewrite B. apply (rep_index _ _ HR).
  - rewrite B. apply (rep_ptrs _ _ HR).
  - apply (keeps_heap _ _ _ _ K), (rep_heap _ _ HR).
Qed.

Lemma brk_fresh s b : Rep s b → sBrk s ∉ oids (entries (bBids b) ++ entries (bAsks b)).
Proof.
  intros HR. rewrite oids_app, elem_of_app.
  intros [Hin|Hin]; eapply levels_rep_brk in Hin;
    try apply (rep_heap _ _ HR); try apply (rep_side _ _ HR Bids); try apply (rep_side _ _ HR Asks); lia.
Qed.

(** The orders at rest are among the orders allocated. *)
Lemma entries_bound s b r : Rep s b → wf b → (length (entries (levels r b)) <= size (sOrders s))%nat.
Proof.
  intros HR Hwf. pose proof (wf_oids_side b r Hwf) as (Hnd & _ & _)%NoDup_app.
  rewrite <-(length_fmap eOid), <-size_dom.
  rewrite <-(size_list_to_set (C := gset ptr)) by done. apply subseteq_size.
  intros p Hp%elem_of_list_to_set.
  apply list_elem_of_fmap in Hp as (e & -> & (v & He & Hv)%list_elem_of_bind).
  apply list_elem_of_lookup in Hv as [i Hi].
  destruct (Forall2_lookup_r _ _ _ _ _ (rep_side _ _ HR r) Hi) as (lp & _ & (lim & _ & _ & _ & _ & _ & _ & Hseg)).
  destruct (dseg_lookup _ _ _ _ _ _ _ e Hseg He) as (o & Ho & _). by eapply elem_of_dom_2.
Qed.

(** ** Placing an order *)

Lemma place_refines s b fuel now id side ty price qty :
  Rep s b → wf b → is_u64 qty → fits side price qty b → (size (sOrders s) < fuel)%nat →
  ∃ s', place fuel now id side ty price qty s =
      Ok ((sBrk s, fst (spec_process (sBrk s) id side ty price qty b)), s') ∧
    Rep s' (snd (spec_process (sBrk s) id side ty price qty b)) ∧
    wf (snd (spec_process (sBrk s) id side ty price qty b)).
Proof.
  intros HR Hwf Hq Hfits Hfuel. unfold place, NewOrder, alloc_order. go_step.
  set (s1 := mkSt _ _ _ _).
  assert (HR1 : Rep s1 b) by (eapply Rep_keeps; [exact HR|apply keeps_alloc_order|done]).
  pose proof (brk_fresh s b HR) as Hfresh.
  destruct (spec_process (sBrk s) id side ty price qty b) as [ts b'] eqn:Hspec.
  destruct (Process_refines s1 b (sBrk s) id side ty price qty now) with (fuel := fuel)
    (trades := ts) (b' := b') as (s2 & E2 & HR2); auto.
  - simpl. apply lookup_insert_eq.
  - pose proof (entries_bound s b (opp (side_of side)) HR Hwf). lia.
  - exists s2. rewrite (bind_Ok _ _ _ _ _ E2). split_and!; [done|done|].
    replace b' with (snd (spec_process (sBrk s) id side ty price qty b)) by by rewrite Hspec.
    apply spec_process_wf; auto. apply Hq.
Qed.

(** ** Reachable states *)

(** There is room for [qty] more at [price]: the [TotalVolume] of that level
    does not wrap around. *)
Definition level_room (s : St) (side price qty : Z) : Prop :=
  ∀ lp lim, lp ∈ get_slice (side_of side) (sBook s) → sLimits s !! lp = Some lim →
    lPrice lim = price → lTotalVolume lim + qty < 2 ^ 64.

Lemma level_room_fits s b side price qty :
  Rep s b → level_room s side price qty → fits side price qty b.
Proof.
  intros HR Hroom v Hv Hp. apply list_elem_of_lookup in Hv as [i Hi].
  destruct (Forall2_lookup_r _ _ _ _ _ (rep_side _ _ HR _) Hi)
    as (lp & Hlp & (lim & Hlim & Hpr & Hvol & _)).
  rewrite <-Hvol. apply (Hroom lp); auto; [|congruence]. apply list_elem_of_lookup. eauto.
Qed.

Inductive reachable : St → Prop :=
  | reach_init : reachable init_state
  | reach_place s fuel now id side ty price qty out s' :
      reachable s → is_u64 qty → level_room s side price qty →
      (size (sOrders s) < fuel)%nat →
      place fuel now id side ty price qty s = Ok (out, s') → reachable s'
  | reach_cancel s id ok s' :
      reachable s → Cancel id s = Ok (ok, s') → reachable s'.

Lemma init_Rep : Rep init_state empty_book.
Proof.
  split; simpl; [by intros []; constructor|done|constructor|].
  split; simpl; [lia| |]; intros p; rewrite dom_empty_L; set_solver.
Qed.

Lemma reachable_rep s : reachable s → ∃ b, Rep s b ∧ wf b.
Proof.
  induction 1 as [|s fuel now id side ty price qty out s' _ (b & HR & Hwf) Hq Hroom Hfuel E
                  |s id ok s' _ (b & HR & Hwf) E].
  - exists empty_book. split; [apply init_Rep|apply empty_book_wf].
  - destruct (place_refines s b fuel now id side ty price qty) as (s1 & E1 & HR1 & Hwf1);
      eauto using level_room_fits.
    rewrite E in E1. simplify_eq. eauto.
  - destruct (spec_cancel id b) as [ok' b'] eqn:Hspec.
    destruct (Cancel_refines _ _ _ _ _ HR Hwf Hspec) as (s1 & E1 & HR1).
    rewrite E in E1. simplify_eq. exists b'. split; [done|].
    replace b' with (snd (spec_cancel id b)) by by rewrite Hspec. by apply spec_cancel_wf.
Qed.
