(* ===== verification/BookProps.v ===== *)
(** * What the order book guarantees

    The properties of pkg/orderbook, stated of the pointer code ([place],
    [Cancel], [GetDepth], [AddOrder], [RemoveOrder]) on states
    that represent a well-formed book, and on every state reachable from
    [NewOrderBook].  [Rep s b] says that the heap [s] holds the book [b]. *)

From stdpp Require Import prelude gmap strings list fin_maps sorting.
From Stdlib Require Import ZArith Lia.
From S2P Require Import Prelude GoSort Order LevelQueue OrderBook BookSpec BookInv BookFlow BookRefine BookSim.

Local Open Scope Z_scope.

(** ** A book to run the theorems on

    Two asks at 100 and one at 101, and one bid at 99. *)

Definition run_place (id : string) (side ty price qty : Z) (s : St) : St :=
  match place 100 0 id side ty price qty s with Ok (_, s') => s' | _ => s end.
Definition book_place (s : St) (id : string) (side ty price qty : Z) (b : book) : book :=
  snd (spec_process (sBrk s) id side ty price qty b).

Definition fits_check (side price qty : Z) (b : book) : bool :=
  forallb (λ v, negb (vPrice v =? price) || (vol (vQueue v) + qty <? 2 ^ 64))
    (levels (side_of side) b).

Lemma fits_check_sound side price qty b : fits_check side price qty b = true → fits side price qty b.
Proof.
  intros H v Hv Hp. unfold fits_check in H. rewrite forallb_forall in H.
  apply list_elem_of_In in Hv. specialize (H v Hv).
  replace (vPrice v =? price) with true in H by lia. cbn in H. lia.
Qed.

Lemma run_place_Rep s b id side ty price qty :
  Rep s b ∧ wf b → is_u64 qty → fits_check side price qty b = true → (size (sOrders s) < 100)%nat →
  Rep (run_place id side ty price qty s) (book_place s id side ty price qty b) ∧
  wf (book_place s id side ty price qty b).
Proof.
  intros [HR Hwf] Hq Hf%fits_check_sound Hs. unfold run_place, book_place.
  destruct (place_refines s b 100 0 id side ty price qty) as (s' & -> & ? & ?); auto.
Qed.

Definition ex1 : St := run_place "ask-1" Sell LimitOrder 100 10 init_state.
Definition ex2 : St := run_place "ask-2" Sell LimitOrder 100 5 ex1.
Definition ex3 : St := run_place "ask-3" Sell LimitOrder 101 7 ex2.
Definition ex4 : St := run_place "bid-1" Buy LimitOrder 99 20 ex3.
Definition exb1 : book := book_place init_state "ask-1" Sell LimitOrder 100 10 empty_book.
Definition exb2 : book := book_place ex1 "ask-2" Sell LimitOrder 100 5 exb1.
Definition exb3 : book := book_place ex2 "ask-3" Sell LimitOrder 101 7 exb2.
Definition exb4 : book := book_place ex3 "bid-1" Buy LimitOrder 99 20 exb3.

Ltac concrete := vm_compute; repeat first [split | reflexivity | discriminate | lia].

Lemma ex1_Rep : Rep ex1 exb1 ∧ wf exb1.
Proof. apply run_place_Rep; [split; [apply init_Rep|apply empty_book_wf]|concrete..]. Qed.
Lemma ex2_Rep : Rep ex2 exb2 ∧ wf exb2.
Proof. apply run_place_Rep; [apply ex1_Rep|concrete..]. Qed.
Lemma ex3_Rep : Rep ex3 exb3 ∧ wf exb3.
Proof. apply run_place_Rep; [apply ex2_Rep|concrete..]. Qed.
Lemma ex4_Rep : Rep ex4 exb4 ∧ wf exb4.
Proof. apply run_place_Rep; [apply ex3_Rep|concrete..]. Qed.

(** The total quantity of a list of trades. *)
Definition traded (ts : list Trade) : Z := foldr (λ t, Z.add (tQuantity t)) 0 ts.

Lemma traded_fills id fs : traded (trade_of id <$> fs) = fill_sum fs.
Proof. induction fs as [|f fs IH]; [done|]. cbn. f_equal. exact IH. Qed.

(** What [place] returned determines the abstract step it took. *)
Lemma place_inv s b fuel now id side ty price qty p ts s' :
  Rep s b → wf b → is_u64 qty → fits side price qty b → (size (sOrders s) < fuel)%nat →
  place fuel now id side ty price qty s = Ok ((p, ts), s') →
  p = sBrk s ∧ ts = fst (spec_process p id side ty price qty b) ∧
  Rep s' (snd (spec_process p id side ty price qty b)) ∧
  wf (snd (spec_process p id side ty price qty b)).
Proof.
  intros HR Hwf Hq Hf Hs E.
  destruct (place_refines s b fuel now id side ty price qty) as (s1 & E1 & HR1 & Hwf1); auto.
  rewrite E in E1. by simplify_eq.
Qed.

(** The fills behind the trades of an order. *)
Lemma spec_process_fills p id side ty price qty b :
  wf b → is_u64 qty →
  ∃ fs, fst (spec_process p id side ty price qty b) = trade_of id <$> fs ∧
    fs = greedy qty (take_while (λ pe, crosses side ty price pe.1)
                       (flat (levels (opp (side_of side)) b))) ∧
    Forall (λ f, crosses side ty price (fPrice f) = true ∧ 0 < fQty f <= eRem (fEntry f)) fs.
Proof.
  intros Hwf Hq. unfold spec_process. destruct (Z.eqb_spec qty 0) as [->|].
  { exists []. rewrite greedy_done by lia. split_and!; [done..|constructor]. }
  destruct (fill_levels _ qty _) as [[fs rem] ls] eqn:Hfill. exists fs. cbn [fst].
  split_and!; [done| |by eapply fill_levels_qty; [|apply (wf_levels _ Hwf)]].
  eapply fill_levels_greedy; [exact Hfill|apply (wf_levels _ Hwf)|apply Hq].
Qed.

Lemma flat_pos (P : Z → bool) ls :
  Forall level_ok ls → Forall (λ pe, 0 < eRem pe.2) (take_while (λ pe, P pe.1) (flat ls)).
Proof.
  intros Hok. assert (Hall : Forall (λ pe, 0 < eRem pe.2) (flat ls)).
  { induction Hok as [|v ls [_ Hv] _ IH]; [constructor|]. rewrite flat_cons.
    apply Forall_app. split; [|done]. by apply Forall_fmap. }
  induction Hall as [|pe l Hpe _ IH]; [constructor|]. cbn. destruct (P pe.1); by constructor.
Qed.

(** C1: [NewOrder] followed by [Process] is total on a well-formed book: it
    does not panic, its loops end within a fuel larger than the number of
    orders ever allocated, and it returns the trades and leaves the book of
    the price-time priority specification, which is well formed again. *)
Theorem place_correct s b fuel now id side ty price qty :
  Rep s b → wf b → is_u64 qty → fits side price qty b → (size (sOrders s) < fuel)%nat →
  ∃ s', place fuel now id side ty price qty s =
      Ok ((sBrk s, fst (spec_process (sBrk s) id side ty price qty b)), s') ∧
    Rep s' (snd (spec_process (sBrk s) id side ty price qty b)) ∧
    wf (snd (spec_process (sBrk s) id side ty price qty b)).
Proof. apply place_refines. Qed.

Lemma place_correct_witness :
  ∃ s', place 10 0 "buy" Buy LimitOrder 101 18 ex4 =
      Ok ((sBrk ex4, [mkTrade "ask-1" "buy" 100 10; mkTrade "ask-2" "buy" 100 5;
                      mkTrade "ask-3" "buy" 101 3]), s') ∧
    Rep s' (book_place ex4 "buy" Buy LimitOrder 101 18 exb4).
Proof.
  destruct (place_correct ex4 exb4 10 0 "buy" Buy LimitOrder 101 18) as (s' & E & HR & _);
    [apply ex4_Rep|apply ex4_Rep|concrete|apply fits_check_sound; concrete|concrete|].
  exists s'. split; [exact E|exact HR].
Defined.

(** C5: [Cancel] is total on a well-formed book: it does not panic, returns
    whether the id was in the index, and leaves the specification's book,
    which is well formed again. *)
Theorem cancel_correct s b id :
  Rep s b → wf b →
  ∃ s', Cancel id s = Ok (fst (spec_cancel id b), s') ∧
    Rep s' (snd (spec_cancel id b)) ∧ wf (snd (spec_cancel id b)).
Proof.
  intros HR Hwf. destruct (spec_cancel id b) as [ok b'] eqn:E.
  destruct (Cancel_refines s b id ok b' HR Hwf E) as (s' & ? & ?). exists s'.
  split_and!; [done..|]. replace b' with (snd (spec_cancel id b)) by by rewrite E.
  by apply spec_cancel_wf.
Qed.

Lemma cancel_correct_witness :
  ∃ s', Cancel "ask-1" ex4 = Ok (true, s') ∧ Rep s' (snd (spec_cancel "ask-1" exb4)).
Proof.
  destruct (cancel_correct ex4 exb4 "ask-1") as (s' & E & HR & _); [apply ex4_Rep..|].
  exists s'. split; [exact E|exact HR].
Defined.

(** C2: Price-time priority.  The trades of an accepted order serve a prefix
    of the resting orders of the opposite side that cross its price, best
    price first and oldest first within a price; every maker but the last is
    filled completely, and in total as much is traded as the order asks for
    or the crossing orders offer. *)
Theorem price_time_priority s b fuel now id side ty price qty p ts s' :
  Rep s b → wf b → is_u64 qty → fits side price qty b → (size (sOrders s) < fuel)%nat →
  place fuel now id side ty price qty s = Ok ((p, ts), s') →
  let makers := take_while (λ pe, crosses side ty price pe.1)
                  (flat (levels (opp (side_of side)) b)) in
  ((λ t, (tPrice t, tMakerOrderID t)) <$> ts) =
    take (length ts) ((λ pe, (pe.1, eId pe.2)) <$> makers) ∧
  Forall (λ t, tTakerOrderID t = id) ts ∧
  (∀ i t pe, ts !! i = Some t → is_Some (ts !! S i) → makers !! i = Some pe →
     tQuantity t = eRem pe.2) ∧
  traded ts = Z.min qty (vol (snd <$> makers)).
Proof.
  intros HR Hwf Hq Hf Hs E makers.
  destruct (place_inv _ _ _ _ _ _ _ _ _ _ _ _ HR Hwf Hq Hf Hs E) as (_ & -> & _).
  destruct (spec_process_fills p id side ty price qty b Hwf Hq) as (fs & -> & Efs & _).
  pose proof (flat_pos (crosses side ty price) _ (wf_levels _ Hwf (opp (side_of side)))) as Hpos.
  fold makers in Efs, Hpos. pose proof (greedy_prefix qty makers Hpos) as Hpre.
  pose proof (greedy_sum qty makers Hpos ltac:(apply Hq)) as Hsum.
  rewrite Efs. clear Efs.
  split_and!.
  - rewrite length_fmap, <-fmap_take, <-Hpre, <-!list_fmap_compose. done.
  - by apply Forall_fmap, Forall_true.
  - intros i t pe Ht [t' Ht'] Hm. rewrite list_lookup_fmap in Ht, Ht'.
    destruct (greedy qty makers !! i) as [f|] eqn:Hfi; simplify_eq/=.
    destruct (greedy qty makers !! S i) as [g|] eqn:Hgi; simplify_eq/=.
    rewrite (greedy_full _ _ _ _ _ Hpos Hfi Hgi). f_equal.
    assert (Hl : ((λ f, (fPrice f, fEntry f)) <$> greedy qty makers) !! i = Some (fPrice f, fEntry f))
      by by rewrite list_lookup_fmap, Hfi.
    rewrite Hpre in Hl. apply lookup_take_Some in Hl as [Hl _]. by simplify_eq.
  - by rewrite traded_fills.
Qed.

Lemma price_time_priority_witness :
  traded [mkTrade "ask-1" "buy" 100 10; mkTrade "ask-2" "buy" 100 5;
    mkTrade "ask-3" "buy" 101 3] = Z.min 18 22.
Proof.
  eapply (price_time_priority ex4 exb4 100 0 "buy" Buy LimitOrder 101 18 _ _
    (run_place "buy" Buy LimitOrder 101 18 ex4) (proj1 ex4_Rep) (proj2 ex4_Rep));
    [concrete|apply fits_check_sound; concrete|concrete|vm_compute; reflexivity].
Defined.

(** C7: Conservation of quantity.  What an order trades leaves the opposite
    side, exactly; the rest of a limit order comes to rest on its own side,
    and the rest of a market order is dropped. *)
Theorem quantity_conserved s b fuel now id side ty price qty p ts s' :
  Rep s b → wf b → is_u64 qty → fits side price qty b → (size (sOrders s) < fuel)%nat →
  place fuel now id side ty price qty s = Ok ((p, ts), s') →
  ∃ b', Rep s' b' ∧
    let r := side_of side in
    0 <= traded ts <= qty ∧
    side_vol (levels (opp r) b) = side_vol (levels (opp r) b') + traded ts ∧
    side_vol (levels r b') =
      side_vol (levels r b) + (if ty =? LimitOrder then qty - traded ts else 0).
Proof.
  intros HR Hwf Hq Hf Hs E.
  destruct (place_inv _ _ _ _ _ _ _ _ _ _ _ _ HR Hwf Hq Hf Hs E) as (_ & -> & HR' & _).
  eexists; split; [exact HR'|]. cbv zeta. unfold spec_process.
  destruct (Z.eqb_spec qty 0) as [->|Hne]; [cbn; destruct (ty =? LimitOrder); lia|].
  destruct (fill_levels _ qty _) as [[fs rem] ls] eqn:Hfill. cbn [fst snd].
  pose proof (fill_levels_sum _ _ _ _ _ _ Hfill) as [Hsum1 Hsum2].
  pose proof (fill_levels_rem _ _ _ _ _ _ Hfill (wf_levels _ Hwf _) ltac:(apply Hq)) as Hrem.
  rewrite traded_fills. split; [lia|].
  destruct (side_of side); cbn [levels opp set_levels set_bIndex bBids bAsks] in *;
    destruct (ty =? LimitOrder); (destruct (Z.ltb_spec 0 rem));
    cbn [andb levels set_levels set_bIndex bBids bAsks]; rewrite ?side_vol_insert; cbn [eRem]; lia.
Qed.

Lemma quantity_conserved_witness :
  ∃ b', Rep (run_place "buy" Buy LimitOrder 100 18 ex4) b' ∧
    side_vol (bAsks exb4) = side_vol (bAsks b') + 15 ∧ side_vol (bBids b') = side_vol (bBids exb4) + 3.
Proof.
  destruct (quantity_conserved ex4 exb4 100 0 "buy" Buy LimitOrder 100 18 (sBrk ex4)
    [mkTrade "ask-1" "buy" 100 10; mkTrade "ask-2" "buy" 100 5]
    (run_place "buy" Buy LimitOrder 100 18 ex4) (proj1 ex4_Rep) (proj2 ex4_Rep))
    as (b' & HR & _ & H1 & H2);
    [concrete|apply fits_check_sound; concrete|concrete|vm_compute; reflexivity|].
  exists b'. split; [exact HR|]. split; [exact H1|exact H2].
Defined.

(** A limit order never trades through its price: a buy trades at its
    limit or below, a sell at its limit or above; and every trade is for a
    positive quantity. *)
Theorem limit_price_respected s b fuel now id side price qty p ts s' :
  Rep s b → wf b → is_u64 qty → fits side price qty b → (size (sOrders s) < fuel)%nat →
  place fuel now id side LimitOrder price qty s = Ok ((p, ts), s') →
  Forall (λ t, 0 < tQuantity t ∧ (side = Buy → tPrice t <= price) ∧
               (side = Sell → price <= tPrice t)) ts.
Proof.
  intros HR Hwf Hq Hf Hs E.
  destruct (place_inv _ _ _ _ _ _ _ _ _ _ _ _ HR Hwf Hq Hf Hs E) as (_ & -> & _).
  destruct (spec_process_fills p id side LimitOrder price qty b Hwf Hq) as (fs & -> & _ & Hfs).
  apply Forall_fmap. eapply Forall_impl; [exact Hfs|]. intros f [Hc Hqty]. cbn.
  unfold crosses, LimitOrder, Buy, Sell in Hc. cbn in Hc. split; [lia|].
  unfold Buy, Sell. split; intros ->; cbn in Hc; lia.
Qed.

Lemma limit_price_respected_witness :
  Forall (λ t, 0 < tQuantity t ∧ (Buy = Buy → tPrice t <= 100) ∧ (Buy = Sell → 100 <= tPrice t))
    [mkTrade "ask-1" "buy" 100 10; mkTrade "ask-2" "buy" 100 5].
Proof.
  apply (limit_price_respected ex4 exb4 100 0 "buy" Buy 100 18 (sBrk ex4) _
    (run_place "buy" Buy LimitOrder 100 18 ex4) (proj1 ex4_Rep) (proj2 ex4_Rep));
    [concrete|apply fits_check_sound; concrete|concrete|vm_compute; reflexivity].
Defined.

(** Placing an order that does not trade and cancelling it again restores
    the book: [Cancel] reports success and the state represents the same book
    as before. *)
Theorem place_cancel_roundtrip s b fuel now id side price qty p s' :
  Rep s b → wf b → is_u64 qty → 0 < qty → fits side price qty b → (size (sOrders s) < fuel)%nat →
  orders (sBook s) !! id = None →
  place fuel now id side LimitOrder price qty s = Ok ((p, []), s') →
  ∃ s'', Cancel id s' = Ok (true, s'') ∧ Rep s'' b.
Proof.
  intros HR Hwf Hq Hpos Hf Hs Hid E.
  destruct (place_inv _ _ _ _ _ _ _ _ _ _ _ _ HR Hwf Hq Hf Hs E) as (-> & Hts & HR' & Hwf').
  rewrite (rep_index _ _ HR) in Hid.
  eapply Cancel_refines; [exact HR'|exact Hwf'|].
  apply place_cancel_inverse; auto. by apply brk_fresh.
Qed.

Lemma place_cancel_roundtrip_witness :
  ∃ s'', Cancel "low" (run_place "low" Buy LimitOrder 98 4 ex4) = Ok (true, s'') ∧ Rep s'' exb4.
Proof.
  apply (place_cancel_roundtrip ex4 exb4 100 0 "low" Buy 98 4 (sBrk ex4)
    (run_place "low" Buy LimitOrder 98 4 ex4) (proj1 ex4_Rep) (proj2 ex4_Rep));
    [concrete|lia|apply fits_check_sound; concrete|concrete|vm_compute; reflexivity..].
Defined.

(** ** All reachable states *)

Lemma fits_level_room s b side price qty :
  Rep s b → fits side price qty b → level_room s side price qty.
Proof.
  intros HR Hf lp lim Hlp Hlim Hp. apply list_elem_of_lookup in Hlp as [i Hi].
  destruct (Forall2_lookup_l _ _ _ _ _ (rep_side _ _ HR _) Hi)
    as (v & Hv & lim' & Hlim' & Hpr & Hvol & _).
  simplify_eq. rewrite Hvol. apply Hf; [by eapply list_elem_of_lookup_2|congruence].
Qed.

Lemma reachable_run_place s b id side ty price qty :
  Rep s b ∧ wf b → reachable s → is_u64 qty → fits_check side price qty b = true →
  (size (sOrders s) < 100)%nat → reachable (run_place id side ty price qty s).
Proof.
  intros [HR Hwf] Hr Hq Hf%fits_check_sound Hs. unfold run_place.
  destruct (place_refines s b 100 0 id side ty price qty) as (s' & E & _ & _); auto.
  rewrite E. eapply reach_place; [..|exact E]; eauto using fits_level_room.
Qed.

Lemma ex4_reachable : reachable ex4.
Proof.
  apply (reachable_run_place _ exb3); [apply ex3_Rep| |concrete..].
  apply (reachable_run_place _ exb2); [apply ex2_Rep| |concrete..].
  apply (reachable_run_place _ exb1); [apply ex1_Rep| |concrete..].
  apply (reachable_run_place _ empty_book); [|constructor|concrete..].
  split; [apply init_Rep|apply empty_book_wf].
Qed.

Lemma spec_depth_sorted r n ls :
  sorted_side r ls →
  StronglySorted (λ x y, better r (plPrice x) (plPrice y) = true) (spec_depth n ls).
Proof.
  intros Hs. unfold spec_depth. revert n. induction Hs as [|v ls Hs IH Hv]; intros [|n];
    cbn; [constructor..|]. constructor; [apply IH|]. apply Forall_fmap.
  apply Forall_take. exact Hv.
Qed.

Lemma elem_of_spec_depth n ls pl :
  pl ∈ spec_depth n ls → ∃ v, v ∈ ls ∧ plPrice pl = vPrice v ∧ plVolume pl = vol (vQueue v).
Proof.
  intros (v & -> & Hv)%list_elem_of_fmap. exists v. split; [|done].
  by apply elem_of_take in Hv as (i & Hi & _); apply list_elem_of_lookup_2 in Hi.
Qed.

(** C6: The depth snapshot of every reachable book.  For every depth whose
    levels fit in the address space (for any other [make] panics) it has at
    most [depth] levels a side, bids strictly descending and asks strictly
    ascending, every bid strictly below every ask, and every volume positive
    and within [uint64]. *)
Theorem depth_of_reachable s depth :
  reachable s →
  (¬ 0 <= depth <= max_levels → GetDepth depth s = Panic) ∧
  (0 <= depth <= max_levels →
   ∃ bd ad, GetDepth depth s = Ok ((bd, ad), s) ∧
    Z.of_nat (length bd) <= depth ∧ Z.of_nat (length ad) <= depth ∧
    StronglySorted (λ x y, plPrice y < plPrice x) bd ∧
    StronglySorted (λ x y, plPrice x < plPrice y) ad ∧
    (∀ x y, x ∈ bd → y ∈ ad → plPrice x < plPrice y) ∧
    Forall (λ x, 0 < plVolume x < 2 ^ 64) (bd ++ ad)).
Proof.
  intros (b & HR & Hwf)%reachable_rep. split; [apply GetDepth_panics|]. intros Hd.
  do 2 eexists. split; [by apply GetDepth_refines|]. split_and!.
  1,2: unfold spec_depth; rewrite length_fmap, length_take; lia.
  - eapply StronglySorted_mono; [|apply (spec_depth_sorted Bids), (wf_sorted _ Hwf Bids)].
    cbn; lia.
  - eapply StronglySorted_mono; [|apply (spec_depth_sorted Asks), (wf_sorted _ Hwf Asks)].
    cbn; lia.
  - intros x y (v & Hv & -> & _)%elem_of_spec_depth (w & Hw & -> & _)%elem_of_spec_depth.
    by apply (wf_uncrossed _ Hwf).
  - assert (Hside : ∀ r n, Forall (λ x, 0 < plVolume x < 2 ^ 64) (spec_depth n (levels r b)));
      [|apply Forall_app; split; [apply (Hside Bids)|apply (Hside Asks)]].
    intros r n. apply Forall_forall. intros x (v & Hv & _ & ->)%elem_of_spec_depth.
    pose proof (wf_levels _ Hwf r) as Hok. rewrite Forall_forall in Hok.
    destruct (Hok v Hv) as [Hne Hpos]. split; [by apply vol_pos|].
    apply list_elem_of_lookup in Hv as [i Hi].
    by destruct (Forall2_lookup_r _ _ _ _ _ (rep_side _ _ HR r) Hi) as (lp & _ & lim & _ & _ & _ & ? & _).
Qed.

Lemma depth_of_reachable_witness :
  ∃ bd ad, GetDepth 1 ex4 = Ok ((bd, ad), ex4) ∧
    Forall (λ x, 0 < plVolume x < 2 ^ 64) (bd ++ ad).
Proof.
  destruct (depth_of_reachable ex4 1 ex4_reachable) as [_ Hok].
  destruct Hok as (bd & ad & E & _ & _ & _ & _ & _ & H); [by vm_compute|].
  exists bd, ad. split; [exact E|exact H].
Defined.

(** The snapshot is exact: on a state that represents [b], [GetDepth]
    returns, for the first [depth] levels of each side, the price and the sum
    of the remaining quantities of the orders resting there. *)
Theorem depth_exact s b depth :
  Rep s b → 0 <= depth <= max_levels →
  GetDepth depth s =
    Ok (((λ v, mkPriceLevel (vPrice v) (vol (vQueue v))) <$> take (Z.to_nat depth) (bBids b),
         (λ v, mkPriceLevel (vPrice v) (vol (vQueue v))) <$> take (Z.to_nat depth) (bAsks b)), s).
Proof. apply GetDepth_refines. Qed.

Lemma depth_exact_witness :
  GetDepth 20 ex4 = Ok (([mkPriceLevel 99 20], [mkPriceLevel 100 15; mkPriceLevel 101 7]), ex4).
Proof. rewrite (depth_exact ex4 exb4 20 (proj1 ex4_Rep)); [vm_compute; reflexivity|by vm_compute]. Defined.

(** ** Unique ids

    Runs in which an order is only placed under an id that no active order
    has. *)
Inductive unique_run : St → Prop :=
  | unique_init : unique_run init_state
  | unique_place s fuel now id side ty price qty out s' :
      unique_run s → is_u64 qty → level_room s side price qty →
      (size (sOrders s) < fuel)%nat → orders (sBook s) !! id = None →
      place fuel now id side ty price qty s = Ok (out, s') → unique_run s'
  | unique_cancel s id ok s' :
      unique_run s → Cancel id s = Ok (ok, s') → unique_run s'.

Lemma unique_run_complete s : unique_run s → ∃ b, Rep s b ∧ wf b ∧ index_complete b.
Proof.
  induction 1 as [|s fuel now id side ty price qty [p ts] s' _ (b & HR & Hwf & Hc) Hq Hroom Hs Hid E
                  |s id ok s' _ (b & HR & Hwf & Hc) E].
  - exists empty_book. split_and!; [apply init_Rep|apply empty_book_wf|].
    intros [] e []%not_elem_of_nil.
  - eapply place_inv in E as (_ & _ & HR' & Hwf'); eauto using level_room_fits.
    eexists; split_and!; [exact HR'|exact Hwf'|]. apply process_index_complete; auto.
    by rewrite <-(rep_index _ _ HR).
  - destruct (spec_cancel id b) as [ok' b'] eqn:Hspec.
    destruct (Cancel_refines _ _ _ _ _ HR Hwf Hspec) as (s1 & E1 & HR1). simplify_eq.
    rewrite E in E1. simplify_eq.
    replace b' with (snd (spec_cancel id b)) in * by by rewrite Hspec.
    eexists; split_and!; [exact HR1|by apply spec_cancel_wf|by apply cancel_index_complete].
Qed.

(** C37: When ids are not reused while active, every resting order can be
    cancelled by its id: [Cancel] succeeds and removes exactly that order. *)
Theorem every_order_cancellable s :
  unique_run s →
  ∃ b, Rep s b ∧ ∀ r e, e ∈ entries (levels r b) →
    ∃ s' b', Cancel (eId e) s = Ok (true, s') ∧ Rep s' b' ∧
      ∀ r' e', e' ∈ entries (levels r' b') ↔ e' ∈ entries (levels r' b) ∧ eOid e' ≠ eOid e.
Proof.
  intros (b & HR & Hwf & Hc)%unique_run_complete. exists b. split; [done|]. intros r e He.
  pose proof (Hc _ _ He) as Hi.
  destruct (Cancel_refines s b (eId e) true (snd (spec_cancel (eId e) b)) HR Hwf) as (s' & ? & ?).
  { unfold spec_cancel. by rewrite Hi. }
  exists s', (snd (spec_cancel (eId e) b)). split_and!; [done..|].
  intros r' e'. by apply elem_of_spec_cancel.
Qed.

Lemma every_order_cancellable_witness :
  ∃ b, Rep ex1 b ∧ ∀ r e, e ∈ entries (levels r b) →
    ∃ s' b', Cancel (eId e) ex1 = Ok (true, s') ∧ Rep s' b' ∧
      ∀ r' e', e' ∈ entries (levels r' b') ↔ e' ∈ entries (levels r' b) ∧ eOid e' ≠ eOid e.
Proof.
  apply (every_order_cancellable ex1).
  apply (unique_place init_state 100 0 "ask-1" Sell LimitOrder 100 10 (1%N, []));
    [constructor|concrete| |concrete|reflexivity|vm_compute; reflexivity].
  intros lp lim Hlp. by apply not_elem_of_nil in Hlp.
Defined.

(** ** Price levels *)

(** [AddOrder] appends the order to the tail of the level's doubly linked
    queue: the links, head, tail and [TotalVolume] are those of the longer
    queue, and no other order or level changes. *)
Theorem add_order_appends bid s lp o price q e :
  level_rep bid s lp (mkLevel price q) →
  sOrders s !! eOid e = Some o → order_is bid price o e →
  oNext o = nil_ptr → oPrev o = nil_ptr →
  NoDup (oids (q ++ [e])) → nil_ptr ∉ oids q → vol q + eRem e < 2 ^ 64 →
  ∃ s', AddOrder lp (eOid e) s = Ok (tt, s') ∧
    level_rep bid s' lp (mkLevel price (q ++ [e])) ∧
    frame (oids (q ++ [e])) [lp] s s' ∧ sBook s' = sBook s.
Proof. apply AddOrder_spec. Qed.

(** A level without orders and an order that is not queued yet. *)
Definition ex_order : Order := new_order_struct "a" Sell LimitOrder 100 10 0.
Definition ex_unlinked : St :=
  mkSt {[2%N := ex_order]} {[1%N := mkLimit 100 0 nil_ptr nil_ptr]} 3%N NewOrderBook.

Lemma add_order_appends_witness :
  ∃ s', AddOrder 1%N 2%N ex_unlinked = Ok (tt, s') ∧
    level_rep false s' 1%N (mkLevel 100 [mkEntry 2%N "a" 10]) ∧
    frame [2%N] [1%N] ex_unlinked s' ∧ sBook s' = NewOrderBook.
Proof.
  apply (add_order_appends false ex_unlinked 1%N ex_order 100 [] (mkEntry 2%N "a" 10)).
  - eexists. split; [reflexivity|]. split_and!; done.
  - reflexivity.
  - unfold order_is; cbn. split_and!; done.
  - reflexivity.
  - reflexivity.
  - apply NoDup_singleton.
  - apply not_elem_of_nil.
  - reflexivity.
Defined.

(** [RemoveOrder] unlinks an order from anywhere in the queue: head,
    middle or tail.  The neighbours are relinked, the volume drops by what
    the order had left, the order's own links are cleared, and no other order
    or level changes. *)
Theorem remove_order_unlinks bid s lp price q1 e q2 :
  level_rep bid s lp (mkLevel price (q1 ++ e :: q2)) →
  NoDup (oids (q1 ++ e :: q2)) → nil_ptr ∉ oids (q1 ++ e :: q2) →
  ∃ s' o, RemoveOrder lp (eOid e) s = Ok (tt, s') ∧
    level_rep bid s' lp (mkLevel price (q1 ++ q2)) ∧
    frame (oids (q1 ++ e :: q2)) [lp] s s' ∧ sBook s' = sBook s ∧
    sOrders s !! eOid e = Some o ∧
    sOrders s' !! eOid e =
      Some (set_oPrev nil_ptr (set_oNext nil_ptr (set_oLimit nil_ptr o))).
Proof. apply RemoveOrder_spec. Qed.

Lemma ex2_level :
  level_rep false ex2 2%N (mkLevel 100 [mkEntry 1%N "ask-1" 10; mkEntry 3%N "ask-2" 5]).
Proof.
  pose proof (rep_side _ _ (proj1 ex2_Rep) Asks) as H.
  assert (E1 : get_slice Asks (sBook ex2) = [2%N]) by (vm_compute; reflexivity).
  assert (E2 : levels Asks exb2 = [mkLevel 100 [mkEntry 1%N "ask-1" 10; mkEntry 3%N "ask-2" 5]])
    by (vm_compute; reflexivity).
  rewrite E1, E2 in H. by apply Forall2_cons in H as [H _].
Qed.

Lemma remove_order_unlinks_witness :
  ∃ s' o, RemoveOrder 2%N 3%N ex2 = Ok (tt, s') ∧
    level_rep false s' 2%N (mkLevel 100 [mkEntry 1%N "ask-1" 10]) ∧
    frame [1%N; 3%N] [2%N] ex2 s' ∧ sBook s' = sBook ex2 ∧
    sOrders ex2 !! 3%N = Some o ∧
    sOrders s' !! 3%N = Some (set_oPrev nil_ptr (set_oNext nil_ptr (set_oLimit nil_ptr o))).
Proof.
  apply (remove_order_unlinks false ex2 2%N 100 [mkEntry 1%N "ask-1" 10]
    (mkEntry 3%N "ask-2" 5) []).
  - exact ex2_level.
  - apply (bool_decide_unpack _). vm_compute. exact I.
  - apply (bool_decide_unpack _). vm_compute. exact I.
Defined.

(** ** Where the guarantees end

    The hypotheses of the theorems above are needed: these runs violate one
    of them each. *)

(** Sells of 1, 2^63 and 2^63 at one price, then a market buy of 1. *)
Definition ex_wrap : St :=
  run_place "m" Buy MarketOrder 0 1
    (run_place "c" Sell LimitOrder 100 (2 ^ 63)
      (run_place "b" Sell LimitOrder 100 (2 ^ 63)
        (run_place "a" Sell LimitOrder 100 1 init_state))).

(** [TotalVolume] is a [uint64] that may wrap.  Three sells of 1, 2^63 and
    2^63 at one price leave it at 1; a market buy of 1 brings it to 0, and
    the level is dropped although two orders rest on it. *)
Theorem volume_wrap_drops_orders :
  GetDepth 20 ex_wrap = Ok (([], []), ex_wrap) ∧
  RemainingQty <$> (orders (sBook ex_wrap) !! "b" ≫= λ p, sOrders ex_wrap !! p) = Some (2 ^ 63).
Proof. split; vm_compute; reflexivity. Qed.

(** An order that comes to rest without trading. *)
Lemma spec_process_rests p id side price qty b :
  wf b → 0 < qty → fst (spec_process p id side LimitOrder price qty b) = [] →
  snd (spec_process p id side LimitOrder price qty b) =
    set_bIndex (<[id := p]> (bIndex b))
      (set_levels (side_of side)
        (insert_entry (side_of side) price (mkEntry p id qty) (levels (side_of side) b)) b).
Proof.
  intros Hwf Hq. unfold spec_process. destruct (Z.eqb_spec qty 0); [lia|].
  destruct (fill_levels _ qty _) as [[fs rem] ls] eqn:Hfill. cbn [fst snd].
  intros ->%fmap_nil_inv. destruct (fill_levels_none _ _ _ _ _ Hfill (wf_levels _ Hwf _)) as [-> ->].
  replace (0 <? qty) with true by lia. cbn [andb Z.eqb LimitOrder drop_filled foldl].
  by destruct b, (side_of side).
Qed.

(** Ids are not checked for reuse.  When an order rests under [id] and a
    second limit order under the same id comes to rest, one [Cancel id]
    succeeds, the first order still rests, and no [Cancel] finds it any more. *)
Theorem duplicate_id_uncancellable s b fuel now id side price qty p s' r e :
  Rep s b → wf b → is_u64 qty → 0 < qty → fits side price qty b → (size (sOrders s) < fuel)%nat →
  e ∈ entries (levels r b) → eId e = id →
  place fuel now id side LimitOrder price qty s = Ok ((p, []), s') →
  ∃ s'' b'', Cancel id s' = Ok (true, s'') ∧ Rep s'' b'' ∧ e ∈ entries (levels r b'') ∧
    Cancel id s'' = Ok (false, s'').
Proof.
  intros HR Hwf Hq Hpos Hf Hs He Hid E.
  destruct (place_inv _ _ _ _ _ _ _ _ _ _ _ _ HR Hwf Hq Hf Hs E) as (-> & Hts & HR' & Hwf').
  rewrite (spec_process_rests _ _ _ _ _ _ Hwf Hpos (eq_sym Hts)) in HR', Hwf'.
  set (b1 := set_bIndex _ _) in *.
  assert (Hi : bIndex b1 !! id = Some (sBrk s)) by apply lookup_insert_eq.
  destruct (Cancel_refines s' b1 id true (snd (spec_cancel id b1)) HR' Hwf') as (s'' & EC & HR'').
  { unfold spec_cancel. by rewrite Hi. }
  exists s'', (snd (spec_cancel id b1)). split_and!; [done..| |].
  - apply (elem_of_spec_cancel _ _ _ _ _ Hi). split.
    + destruct (slice_ref_cases (side_of side) r) as [->| ->];
        [|by subst b1; destruct (side_of side)].
      subst b1. cbn. assert (e ∈ entries (insert_entry (side_of side) price
        (mkEntry (sBrk s) id qty) (levels (side_of side) b))); [|by destruct (side_of side)].
      rewrite entries_insert. by apply elem_of_cons; right.
    + intros Heq. apply (brk_fresh s b HR). rewrite <-Heq, oids_app, elem_of_app.
      destruct r; [left|right]; by apply list_elem_of_fmap_2.
  - unfold Cancel. go_step. rewrite (rep_index _ _ HR''). unfold spec_cancel. rewrite Hi. cbn.
    by rewrite lookup_delete_eq.
Qed.

Lemma duplicate_id_uncancellable_witness :
  ∃ s'' b'', Cancel "ask-1" (run_place "ask-1" Sell LimitOrder 103 7 ex4) = Ok (true, s'') ∧
    Rep s'' b'' ∧ mkEntry 1%N "ask-1" 10 ∈ entries (bAsks b'') ∧
    Cancel "ask-1" s'' = Ok (false, s'').
Proof.
  apply (duplicate_id_uncancellable ex4 exb4 100 0 "ask-1" Sell 103 7 (sBrk ex4)
    (run_place "ask-1" Sell LimitOrder 103 7 ex4) Asks (mkEntry 1%N "ask-1" 10)
    (proj1 ex4_Rep) (proj2 ex4_Rep));
    [concrete|lia|apply fits_check_sound; concrete|concrete| |reflexivity|vm_compute; reflexivity].
  assert (E : entries (levels Asks exb4) =
    [mkEntry 1%N "ask-1" 10; mkEntry 3%N "ask-2" 5; mkEntry 4%N "ask-3" 7])
    by (vm_compute; reflexivity).
  rewrite E. constructor.
Defined.

Lemma fill_levels_ext cross cross' rem ls :
  (∀ x, cross x = cross' x) → fill_levels cross rem ls = fill_levels cross' rem ls.
Proof.
  intros Hx. revert rem. induction ls as [|v ls IH]; intros rem; [done|]. cbn. rewrite Hx.
  destruct (rem <=? 0); [done|]. destruct (negb _); [done|].
  destruct (fill_queue _ _ _) as [[fs r1] [|e q]]; [|done]. by rewrite IH.
Qed.

(** The limit price of an order whose [Side] is neither [Buy] nor [Sell]
    is ignored in matching: the trades are those of a market sell. *)
Theorem unknown_side_trades_as_market s b fuel now id side price qty :
  Rep s b → wf b → is_u64 qty → fits side price qty b → (size (sOrders s) < fuel)%nat →
  side ≠ Buy → side ≠ Sell →
  ∃ ts s1 s2, place fuel now id side LimitOrder price qty s = Ok ((sBrk s, ts), s1) ∧
    place fuel now id Sell MarketOrder price qty s = Ok ((sBrk s, ts), s2).
Proof.
  intros HR Hwf Hq Hf Hs HB HS.
  assert (Hr : side_of side = Asks) by (unfold side_of; by replace (side =? Buy) with false by lia).
  destruct (place_refines s b fuel now id side LimitOrder price qty) as (s1 & E1 & _); auto.
  destruct (place_refines s b fuel now id Sell MarketOrder price qty) as (s2 & E2 & _); auto.
  { intros v. change (side_of Sell) with Asks. rewrite <-Hr. apply Hf. }
  do 3 eexists. split; [exact E1|]. rewrite E2. do 3 f_equal. unfold spec_process.
  destruct (qty =? 0); [done|]. rewrite Hr. change (side_of Sell) with Asks.
  rewrite (fill_levels_ext (crosses side LimitOrder price) (crosses Sell MarketOrder price)).
  - by destruct (fill_levels _ _ _) as [[fs rem] ls].
  - intros x. unfold crosses. replace (side =? Buy) with false by lia.
    by replace (side =? Sell) with false by lia.
Qed.

Lemma unknown_side_trades_as_market_witness :
  ∃ ts s1 s2, place 100 0 "odd" 2 LimitOrder 1000 4 ex4 = Ok ((sBrk ex4, ts), s1) ∧
    place 100 0 "odd" Sell MarketOrder 1000 4 ex4 = Ok ((sBrk ex4, ts), s2).
Proof.
  apply (unknown_side_trades_as_market ex4 exb4 100 0 "odd" 2 1000 4 (proj1 ex4_Rep) (proj2 ex4_Rep));
    [concrete|apply fits_check_sound; concrete|concrete|done|done].
Defined.
