(* ===== verification/GoBytes.v ===== *)
(** * Go byte slices, decimal numbers and the formatting verbs the code uses

    [bytes.IndexByte], slicing with its bounds check, [strconv.Atoi] and the
    verbs [%d] and [%03d] of [fmt.Sprintf].  Go strings and byte slices are
    both lists of characters; an [int] is a 64-bit integer. *)

From stdpp Require Import prelude list strings.
From Stdlib Require Import ZArith Lia Ascii.
From S2P Require Import Prelude.

Local Open Scope Z_scope.

Abbreviation bytes := (list ascii).

(** A string literal as bytes. *)
Definition str (s : string) : bytes := String.list_ascii_of_string s.

Definition len {A} (l : list A) : Z := Z.of_nat (length l).

(** ** Searching and slicing *)

Fixpoint index_of (c : ascii) (l : bytes) : option nat :=
  match l with
  | [] => None
  | x :: l' => if decide (x = c) then Some O else S <$> index_of c l'
  end.

(** [bytes.IndexByte]: -1 when the byte does not occur. *)
Definition IndexByte (l : bytes) (c : ascii) : Z :=
  match index_of c l with Some i => Z.of_nat i | None => -1 end.

(** [l[i:j]]. *)
Definition slice (l : bytes) (i j : Z) : res bytes :=
  if (0 <=? i) && (i <=? j) && (j <=? len l) then Ok (take (Z.to_nat (j - i)) (drop (Z.to_nat i) l))
  else Panic.
(** [l[i:]]. *)
Definition slice_from (l : bytes) (i : Z) : res bytes := slice l i (len l).

Lemma index_of_app c l1 l2 :
  c ∉ l1 → index_of c (l1 ++ c :: l2) = Some (length l1).
Proof.
  induction l1 as [|x l1 IH]; intros Hn; cbn.
  - by rewrite decide_True.
  - apply not_elem_of_cons in Hn as [Hne Hn]. rewrite decide_False by congruence. by rewrite IH.
Qed.

Lemma index_of_None c l : index_of c l = None ↔ c ∉ l.
Proof.
  induction l as [|x l IH]; cbn; [split; [intros _; apply not_elem_of_nil|done]|].
  rewrite not_elem_of_cons, <-IH. destruct (decide (x = c)) as [->|Hne]; [naive_solver|].
  rewrite fmap_None. naive_solver.
Qed.

Lemma index_of_Some c l i :
  index_of c l = Some i → ∃ l1 l2, l = l1 ++ c :: l2 ∧ (c ∉ l1) ∧ length l1 = i.
Proof.
  revert i. induction l as [|x l IH]; intros i H; cbn in H; [done|].
  destruct (decide (x = c)) as [->|Hne]; simplify_eq.
  - exists [], l. split_and!; [done|apply not_elem_of_nil|done].
  - apply fmap_Some in H as (j & Hj & ->). destruct (IH _ Hj) as (l1 & l2 & -> & Hn & <-).
    exists (x :: l1), l2. split_and!; [done|by apply not_elem_of_cons|done].
Qed.

Lemma len_app {A} (l1 l2 : list A) : len (l1 ++ l2) = len l1 + len l2.
Proof. unfold len. rewrite length_app. lia. Qed.
Lemma len_cons {A} (x : A) l : len (x :: l) = 1 + len l.
Proof. unfold len. cbn [length]. lia. Qed.
Lemma len_nonneg {A} (l : list A) : 0 <= len l.
Proof. unfold len. lia. Qed.

(** The middle of a list, by its position. *)
Lemma slice_mid l1 l2 l3 i j :
  i = len l1 → j = len l1 + len l2 → slice (l1 ++ l2 ++ l3) i j = Ok l2.
Proof.
  intros -> ->. unfold slice. rewrite !len_app.
  pose proof (len_nonneg l1). pose proof (len_nonneg l2). pose proof (len_nonneg l3).
  replace ((0 <=? len l1) && (len l1 <=? len l1 + len l2) &&
           (len l1 + len l2 <=? len l1 + (len l2 + len l3))) with true by (symmetry; lia).
  replace (len l1 + len l2 - len l1) with (len l2) by lia. unfold len. rewrite !Nat2Z.id.
  by rewrite drop_app_length, take_app_length.
Qed.

Lemma slice_from_app l1 l2 i : i = len l1 → slice_from (l1 ++ l2) i = Ok l2.
Proof.
  intros ->. unfold slice_from. rewrite <-(app_nil_r l2) at 1.
  apply slice_mid; [done|]. apply len_app.
Qed.

(** ** Decimal numbers *)

Definition code (c : ascii) : Z := Z.of_N (N_of_ascii c).

Definition digit_val (c : ascii) : option Z :=
  if (48 <=? code c) && (code c <=? 57) then Some (code c - 48) else None.

(** Left to right, without bounds. *)
Fixpoint digits_val (acc : Z) (l : bytes) : option Z :=
  match l with
  | [] => Some acc
  | c :: l' => d ← digit_val c; digits_val (acc * 10 + d) l'
  end.

Definition in_int64 (z : Z) : option Z :=
  if (- 2 ^ 63 <=? z) && (z <? 2 ^ 63) then Some z else None.

(** [strconv.Atoi]: an optional sign, at least one digit, in range. *)
Definition Atoi (l : bytes) : option Z :=
  match l with
  | [] => None
  | c :: l' =>
      if decide (c = "-"%char) then
        match l' with [] => None | _ => n ← digits_val 0 l'; in_int64 (- n) end
      else if decide (c = "+"%char) then
        match l' with [] => None | _ => n ← digits_val 0 l'; in_int64 n end
      else n ← digits_val 0 l; in_int64 n
  end.

(** The decimal digits of a natural number below [10 ^ fuel]. *)
Definition digit_char (d : Z) : ascii := ascii_of_N (Z.to_N (48 + d)).

Fixpoint digits (fuel : nat) (n : Z) : bytes :=
  match fuel with
  | O => []
  | S fuel' => if n <? 10 then [digit_char n] else digits fuel' (n / 10) ++ [digit_char (n mod 10)]
  end.

(** [fmt.Sprintf] with [%d]: twenty digits are enough for 64 bits. *)
Definition fmt_d (n : Z) : bytes :=
  if n <? 0 then "-"%char :: digits 20 (- n) else digits 20 n.

(** [fmt.Sprintf] with [%0wd]: zeros fill up to width [w], after the sign. *)
Definition zeros (k : Z) : bytes := replicate (Z.to_nat k) "0"%char.
Definition fmt_0d (w n : Z) : bytes :=
  if n <? 0 then "-"%char :: (let ds := digits 20 (- n) in zeros (w - 1 - len ds) ++ ds)
  else (let ds := digits 20 n in zeros (w - len ds) ++ ds).

Lemma digit_val_char d : 0 <= d < 10 → digit_val (digit_char d) = Some d.
Proof.
  intros Hd. unfold digit_val, digit_char, code.
  rewrite N_ascii_embedding by lia. rewrite Z2N.id by lia.
  replace ((48 <=? 48 + d) && (48 + d <=? 57)) with true by (symmetry; lia). f_equal. lia.
Qed.

Lemma digit_val_range c d : digit_val c = Some d → 0 <= d < 10.
Proof. unfold digit_val. case_match eqn:E; [|done]. intros [= <-]. lia. Qed.

Lemma digits_val_ge acc l n : 0 <= acc → digits_val acc l = Some n → acc <= n.
Proof.
  revert acc. induction l as [|c l IH]; intros acc Ha; cbn; [by intros [= <-]|]. intros (d & Hd & Hl)%bind_Some.
  apply digit_val_range in Hd. apply IH in Hl; lia.
Qed.

Lemma digits_val_app acc l1 l2 :
  digits_val acc (l1 ++ l2) = digits_val acc l1 ≫= λ n, digits_val n l2.
Proof.
  revert acc. induction l1 as [|c l1 IH]; intros acc; [done|]. cbn.
  destruct (digit_val c); [|done]. cbn. apply IH.
Qed.

Lemma digits_val_digits fuel n : 0 <= n < 10 ^ Z.of_nat fuel → (0 < fuel)%nat →
  digits_val 0 (digits fuel n) = Some n.
Proof.
  revert n. induction fuel as [|fuel IH]; intros n Hn Hf; [lia|]. cbn [digits].
  destruct (Z.ltb_spec n 10).
  - cbn. by rewrite digit_val_char by lia.
  - rewrite Nat2Z.inj_succ, Z.pow_succ_r in Hn by lia.
    destruct fuel as [|fuel]; [cbn in Hn; lia|].
    rewrite digits_val_app, IH.
    + cbn [mbind option_bind digits_val]. rewrite digit_val_char by (apply Z.mod_pos_bound; lia).
      cbn. f_equal. pose proof (Z.div_mod n 10). lia.
    + split; [apply Z.div_pos; lia|]. apply Z.div_lt_upper_bound; lia.
    + lia.
Qed.

Definition is_digit (c : ascii) : Prop := 48 <= code c <= 57.

Lemma digit_char_digit d : 0 <= d < 10 → is_digit (digit_char d).
Proof.
  intros Hd. unfold is_digit, digit_char, code. rewrite N_ascii_embedding by lia. lia.
Qed.

Lemma digits_are_digits fuel n : 0 <= n → Forall is_digit (digits fuel n).
Proof.
  revert n. induction fuel as [|fuel IH]; intros n Hn; cbn; [constructor|].
  destruct (Z.ltb_spec n 10); [repeat constructor; try apply digit_char_digit; lia|].
  apply Forall_app. split; [apply IH, Z.div_pos; lia|].
  repeat constructor; apply digit_char_digit, Z.mod_pos_bound; lia.
Qed.

Lemma digits_nonempty fuel n : (0 < fuel)%nat → digits fuel n ≠ [].
Proof.
  destruct fuel; [lia|]. intros _. cbn. destruct (n <? 10); [done|].
  intros E. by apply app_eq_nil in E as [_ ?].
Qed.

(** A number formatted with [%d] reads back. *)
Lemma Atoi_fmt_d n : is_int64 n → Atoi (fmt_d n) = Some n.
Proof.
  intros Hn. unfold is_int64 in Hn. unfold fmt_d. destruct (Z.ltb_spec n 0).
  - unfold Atoi. rewrite decide_True by done.
    destruct (digits 20 (- n)) as [|c l] eqn:E; [by apply digits_nonempty in E; [|lia]|].
    rewrite <-E, digits_val_digits by lia. cbn -[Z.pow]. unfold in_int64.
    rewrite Z.opp_involutive. by replace ((- 2 ^ 63 <=? n) && (n <? 2 ^ 63)) with true by lia.
  - pose proof (digits_are_digits 20 n ltac:(lia)) as Hd.
    destruct (digits 20 n) as [|c l] eqn:E; [by apply digits_nonempty in E; [|lia]|].
    unfold Atoi. apply Forall_cons in Hd as [Hc _].
    rewrite !decide_False by (intros ->; unfold is_digit, code in Hc; cbn in Hc; lia).
    rewrite <-E, digits_val_digits by lia. cbn -[Z.pow]. unfold in_int64.
    by replace ((- 2 ^ 63 <=? n) && (n <? 2 ^ 63)) with true by lia.
Qed.

(** ** Padding *)

Lemma digits_val_zeros k l : digits_val 0 (zeros k ++ l) = digits_val 0 l.
Proof. unfold zeros. induction (Z.to_nat k) as [|n IH]; [done|]. exact IH. Qed.

(** A number below [10 ^ k] has at most [k] digits. *)
Lemma len_digits_below fuel k n :
  0 <= n < 10 ^ Z.of_nat k → (0 < k)%nat → len (digits fuel n) <= Z.of_nat k.
Proof.
  revert k n. induction fuel as [|fuel IH]; intros k n Hn Hk; [change (len (digits 0 n)) with 0; lia|]. cbn [digits].
  destruct (Z.ltb_spec n 10); [rewrite len_cons; change (len []) with 0; lia|].
  destruct k as [|k]; [lia|]. rewrite Nat2Z.inj_succ, Z.pow_succ_r in Hn by lia.
  destruct k as [|k]; [cbn in Hn; lia|].
  rewrite len_app. change (len [_]) with 1.
  assert (len (digits fuel (n / 10)) <= Z.of_nat (S k)); [|lia].
  apply IH; [|lia]. split; [apply Z.div_pos; lia|]. apply Z.div_lt_upper_bound; lia.
Qed.

Lemma fmt_0d_width k n :
  0 <= n < 10 ^ Z.of_nat k → n < 10 ^ 20 → (0 < k)%nat →
  len (fmt_0d (Z.of_nat k) n) = Z.of_nat k ∧ digits_val 0 (fmt_0d (Z.of_nat k) n) = Some n.
Proof.
  intros Hn Hm Hk. unfold fmt_0d. replace (n <? 0) with false by lia. cbv zeta.
  pose proof (len_digits_below 20 k n Hn Hk). split.
  - rewrite len_app. unfold zeros, len at 1. rewrite length_replicate. lia.
  - rewrite digits_val_zeros. by apply digits_val_digits; [lia|lia].
Qed.
