(* ===== verification/GoJson.v ===== *)
(** * encoding/json

    What the services use of Go's encoding/json: the text of a value as
    [Encoder.Encode] and [Marshal] write it, with its escapes; the first value
    of a text as [Decoder.Decode] reads it, trailing text left alone; and the
    decoding of an object into the fields of a struct.  A string is a list of
    bytes; what is not UTF-8 is replaced as Go replaces it.  A number is kept
    as its literal. *)

From stdpp Require Import prelude list strings.
From Stdlib Require Import ZArith Lia Ascii.
From S2P Require Import Prelude GoBytes.

Local Open Scope Z_scope.

(** ** UTF-8 *)

Definition byte (z : Z) : ascii := ascii_of_N (Z.to_N z).
Definition between (a b : Z) (c : ascii) : bool := (a <=? code c) && (code c <=? b).
Definition is_cont (c : ascii) : bool := between 128 191 c.

(** The number of bytes of the rune the text starts with, as
    [utf8.DecodeRune] finds it; [None] when they are not UTF-8. *)
Definition rune_len (l : bytes) : option nat :=
  match l with
  | [] => None
  | c :: l' =>
      if code c <? 128 then Some 1%nat
      else
        match l' with
        | [] => None
        | c1 :: l1 =>
            if between 194 223 c then if is_cont c1 then Some 2%nat else None
            else
              match l1 with
              | [] => None
              | c2 :: l2 =>
                  if between 224 239 c then
                    let low := if code c =? 224 then 160 else 128 in
                    let high := if code c =? 237 then 159 else 191 in
                    if between low high c1 && is_cont c2 then Some 3%nat else None
                  else if between 240 244 c then
                    let low := if code c =? 240 then 144 else 128 in
                    let high := if code c =? 244 then 143 else 191 in
                    match l2 with
                    | [] => None
                    | c3 :: _ => if between low high c1 && is_cont c2 && is_cont c3 then Some 4%nat else None
                    end
                  else None
              end
        end
  end.

(** Runes one after the other. *)
Inductive valid_utf8 : bytes → Prop :=
  | valid_nil : valid_utf8 []
  | valid_rune l n : rune_len l = Some n → valid_utf8 (drop n l) → valid_utf8 l.

(** Strings that the encoder leaves as they are. *)
Definition text_ok (s : string) : Prop := valid_utf8 (str s).

(** [utf8.EncodeRune], for runes that are not surrogates. *)
Definition encode_rune (r : Z) : bytes :=
  if r <? 128 then [byte r]
  else if r <? 2048 then [byte (192 + r / 64); byte (128 + r mod 64)]
  else if r <? 65536 then [byte (224 + r / 4096); byte (128 + r / 64 mod 64); byte (128 + r mod 64)]
  else [byte (240 + r / 262144); byte (128 + r / 4096 mod 64); byte (128 + r / 64 mod 64); byte (128 + r mod 64)].
Definition replacement : Z := 65533.

(** ** Strings *)

Definition hex_char (d : Z) : ascii := if d <? 10 then byte (48 + d) else byte (87 + d).
Definition u_escape (r : Z) : bytes :=
  str "\u" ++ [hex_char (r / 4096); hex_char (r / 256 mod 16); hex_char (r / 16 mod 16); hex_char (r mod 16)].

(** A character below 128; with the escapes for HTML that are on by default. *)
Definition escape_ascii (c : ascii) : bytes :=
  let n := code c in
  if (n =? 34) || (n =? 92) then [byte 92; c]
  else if n =? 8 then str "\b"
  else if n =? 12 then str "\f"
  else if n =? 10 then str "\n"
  else if n =? 13 then str "\r"
  else if n =? 9 then str "\t"
  else if (n <? 32) || (n =? 60) || (n =? 62) || (n =? 38) then u_escape n
  else [c].

Definition line_separator (l : bytes) : option Z :=
  match l with
  | c :: c1 :: c2 :: _ =>
      if (code c =? 226) && (code c1 =? 128) && (code c2 =? 168) then Some 8232
      else if (code c =? 226) && (code c1 =? 128) && (code c2 =? 169) then Some 8233
      else None
  | _ => None
  end.

Fixpoint quote_loop (fuel : nat) (l : bytes) : bytes :=
  match fuel, l with
  | S fuel', c :: l' =>
      if code c <? 128 then escape_ascii c ++ quote_loop fuel' l'
      else
        match rune_len l with
        | None => u_escape replacement ++ quote_loop fuel' l'
        | Some n =>
            match line_separator l with
            | Some r => u_escape r ++ quote_loop fuel' (drop n l)
            | None => take n l ++ quote_loop fuel' (drop n l)
            end
        end
  | _, _ => []
  end.
Definition quote (s : bytes) : bytes := byte 34 :: quote_loop (length s) s ++ [byte 34].

Definition hex_val (c : ascii) : option Z :=
  if between 48 57 c then Some (code c - 48)
  else if between 97 102 c then Some (code c - 87)
  else if between 65 70 c then Some (code c - 55)
  else None.

(** [getu4]: the four digits of an escape. *)
Definition hex4 (l : bytes) : option (Z * bytes) :=
  match l with
  | a :: b :: c :: d :: rest =>
      a ← hex_val a; b ← hex_val b; c ← hex_val c; d ← hex_val d;
      Some (a * 4096 + b * 256 + c * 16 + d, rest)
  | _ => None
  end.

(** The second half of a surrogate pair. *)
Definition low_surrogate (l : bytes) : option (Z * bytes) :=
  match l with
  | c :: u :: rest =>
      if (code c =? 92) && (code u =? 117) then
        '(r, rest) ← hex4 rest;
        if (56320 <=? r) && (r <=? 57343) then Some (r, rest) else None
      else None
  | _ => None
  end.

(** The rune of an escape and what follows it. *)
Definition escaped_rune (l : bytes) : option (Z * bytes) :=
  '(r, rest) ← hex4 l;
  if (55296 <=? r) && (r <=? 57343) then
    match (if r <=? 56319 then low_surrogate rest else None) with
    | Some (r2, rest2) => Some (65536 + (r - 55296) * 1024 + (r2 - 56320), rest2)
    | None => Some (replacement, rest)
    end
  else Some (r, rest).

Definition simple_escape (c : ascii) : option ascii :=
  let n := code c in
  if (n =? 34) || (n =? 92) || (n =? 47) then Some c
  else if n =? 98 then Some (byte 8)
  else if n =? 102 then Some (byte 12)
  else if n =? 110 then Some (byte 10)
  else if n =? 114 then Some (byte 13)
  else if n =? 116 then Some (byte 9)
  else None.

(** After the opening quote: the string, and what follows the closing one. *)
Fixpoint unquote_loop (fuel : nat) (l : bytes) : option (bytes * bytes) :=
  match fuel, l with
  | S fuel', c :: l' =>
      let continue piece rest := '(s, r) ← unquote_loop fuel' rest; Some (piece ++ s, r) in
      if code c =? 34 then Some ([], l')
      else if code c =? 92 then
        match l' with
        | [] => None
        | e :: l'' =>
            if code e =? 117 then '(r, rest) ← escaped_rune l''; continue (encode_rune r) rest
            else d ← simple_escape e; continue [d] l''
        end
      else if code c <? 32 then None
      else if code c <? 128 then continue [c] l'
      else
        match rune_len l with
        | Some n => continue (take n l) (drop n l)
        | None => continue (encode_rune replacement) l'
        end
  | _, _ => None
  end.

(** ** Values *)

Inductive json :=
  | JNull
  | JBool (b : bool)
  | JNum (literal : bytes)
  | JStr (s : bytes)
  | JArr (elements : list json)
  | JObj (members : list (bytes * json)).

Fixpoint commas (ps : list bytes) : bytes :=
  match ps with
  | [] => []
  | [p] => p
  | p :: ps' => p ++ byte 44 :: commas ps'
  end.

Fixpoint print (v : json) : bytes :=
  match v with
  | JNull => str "null"
  | JBool b => if b then str "true" else str "false"
  | JNum literal => literal
  | JStr s => quote s
  | JArr elements => str "[" ++ commas (map print elements) ++ str "]"
  | JObj members => str "{" ++ commas (map (λ m, quote m.1 ++ byte 58 :: print m.2) members) ++ str "}"
  end.

(** [Encoder.Encode] ends a value with a newline. *)
Definition Encode (v : json) : bytes := print v ++ [byte 10].

(** ** Parsing *)

Definition is_space (c : ascii) : bool := (code c =? 32) || (code c =? 9) || (code c =? 13) || (code c =? 10).
Fixpoint skip (l : bytes) : bytes :=
  match l with
  | c :: l' => if is_space c then skip l' else l
  | [] => []
  end.

Fixpoint expect (word l : bytes) : option bytes :=
  match word, l with
  | [], _ => Some l
  | w :: word', c :: l' => if decide (w = c) then expect word' l' else None
  | _, [] => None
  end.

(** Digits from the front. *)
Fixpoint span_digits (l : bytes) : bytes * bytes :=
  match l with
  | c :: l' => if between 48 57 c then let '(d, r) := span_digits l' in (c :: d, r) else ([], l)
  | [] => ([], [])
  end.
Definition some_digits (l : bytes) : option (bytes * bytes) :=
  match span_digits l with ([], _) => None | p => Some p end.

(** The parts of a number: sign, integer part, fraction, exponent. *)
Definition scan_sign (l : bytes) : bytes * bytes :=
  match l with
  | c :: l' => if code c =? 45 then ([c], l') else ([], l)
  | [] => ([], [])
  end.
Definition scan_int (l : bytes) : option (bytes * bytes) :=
  match l with
  | c :: l' => if code c =? 48 then Some ([c], l') else some_digits l
  | [] => None
  end.
Definition scan_frac (l : bytes) : option (bytes * bytes) :=
  match l with
  | c :: l' => if code c =? 46 then '(d, r) ← some_digits l'; Some (c :: d, r) else Some ([], l)
  | [] => Some ([], [])
  end.
Definition scan_exp (l : bytes) : option (bytes * bytes) :=
  match l with
  | c :: l' =>
      if (code c =? 101) || (code c =? 69) then
        let '(s, l'') :=
          match l' with
          | x :: l'' => if (code x =? 43) || (code x =? 45) then ([x], l'') else ([], l')
          | [] => ([], [])
          end in
        '(d, r) ← some_digits l''; Some (c :: s ++ d, r)
      else Some ([], l)
  | [] => Some ([], [])
  end.
Definition parse_number (l : bytes) : option (bytes * bytes) :=
  let '(s, l) := scan_sign l in
  '(i, l) ← scan_int l;
  '(f, l) ← scan_frac l;
  '(e, l) ← scan_exp l;
  Some (s ++ i ++ f ++ e, l).

Definition max_depth : Z := 10000.

(** The value a text starts with, and the rest.  [depth] counts the arrays
    and objects that are open. *)
Fixpoint parse_value (fuel : nat) (depth : Z) (l : bytes) : option (json * bytes) :=
  match fuel with
  | O => None
  | S fuel' =>
      match skip l with
      | [] => None
      | c :: l' =>
          let n := code c in
          if n =? 123 then
            if max_depth <? depth + 1 then None
            else
              match skip l' with
              | x :: r => if code x =? 125 then Some (JObj [], r)
                          else '(ms, r) ← parse_members fuel' (depth + 1) l'; Some (JObj ms, r)
              | [] => None
              end
          else if n =? 91 then
            if max_depth <? depth + 1 then None
            else
              match skip l' with
              | x :: r => if code x =? 93 then Some (JArr [], r)
                          else '(vs, r) ← parse_elements fuel' (depth + 1) l'; Some (JArr vs, r)
              | [] => None
              end
          else if n =? 34 then '(s, r) ← unquote_loop (length l') l'; Some (JStr s, r)
          else if n =? 116 then r ← expect (str "rue") l'; Some (JBool true, r)
          else if n =? 102 then r ← expect (str "alse") l'; Some (JBool false, r)
          else if n =? 110 then r ← expect (str "ull") l'; Some (JNull, r)
          else '(lit, r) ← parse_number (c :: l'); Some (JNum lit, r)
      end
  end
with parse_elements (fuel : nat) (depth : Z) (l : bytes) : option (list json * bytes) :=
  match fuel with
  | O => None
  | S fuel' =>
      '(v, r) ← parse_value fuel' depth l;
      match skip r with
      | x :: r => if code x =? 44 then '(vs, r) ← parse_elements fuel' depth r; Some (v :: vs, r)
                  else if code x =? 93 then Some ([v], r)
                  else None
      | [] => None
      end
  end
with parse_members (fuel : nat) (depth : Z) (l : bytes) : option (list (bytes * json) * bytes) :=
  match fuel with
  | O => None
  | S fuel' =>
      match skip l with
      | q :: l' =>
          if code q =? 34 then
            '(k, r) ← unquote_loop (length l') l';
            match skip r with
            | x :: r =>
                if code x =? 58 then
                  '(v, r) ← parse_value fuel' depth r;
                  match skip r with
                  | x :: r => if code x =? 44 then '(ms, r) ← parse_members fuel' depth r; Some ((k, v) :: ms, r)
                              else if code x =? 125 then Some ([(k, v)], r)
                              else None
                  | [] => None
                  end
                else None
            | [] => None
            end
          else None
      | [] => None
      end
  end.

(** The value [Decoder.Decode] reads. *)
Definition read_value (l : bytes) : option json := fst <$> parse_value (S (length l)) 0 l.

(** A text that is one value and nothing else. *)
Definition parse_text (l : bytes) : option json :=
  '(v, r) ← parse_value (S (length l)) 0 l;
  match skip r with [] => Some v | _ => None end.

(** The members of an object after its opening brace, each value with its
    text, which a type with an [UnmarshalJSON] of its own is given. *)
Fixpoint raw_members (fuel : nat) (depth : Z) (l : bytes) : option (list (bytes * (json * bytes)) * bytes) :=
  match fuel with
  | O => None
  | S fuel' =>
      match skip l with
      | q :: l' =>
          if code q =? 34 then
            '(k, r) ← unquote_loop (length l') l';
            match skip r with
            | x :: r =>
                if code x =? 58 then
                  '(v, r1) ← parse_value fuel' depth r;
                  let raw := take (length (skip r) - length r1) (skip r) in
                  match skip r1 with
                  | x :: r2 => if code x =? 44 then '(ms, r3) ← raw_members fuel' depth r2; Some ((k, (v, raw)) :: ms, r3)
                               else if code x =? 125 then Some ([(k, (v, raw))], r2)
                               else None
                  | [] => None
                  end
                else None
            | [] => None
            end
          else None
      | [] => None
      end
  end.

(** ** Structs *)

(** [foldName]: upper case, where the two letters outside ASCII that fold
    into it count too (long s, and the Kelvin sign). *)
Fixpoint fold_name (fuel : nat) (l : bytes) : bytes :=
  match fuel with
  | O => []
  | S fuel' =>
      match l with
      | [] => []
      | c :: l' =>
          if between 97 122 c then byte (code c - 32) :: fold_name fuel' l'
          else
            match expect [byte 197; byte 191] l with
            | Some r => byte 83 :: fold_name fuel' r
            | None =>
                match expect [byte 226; byte 132; byte 170] l with
                | Some r => byte 75 :: fold_name fuel' r
                | None => c :: fold_name fuel' l'
                end
            end
      end
  end.
Definition folded (l : bytes) : bytes := fold_name (length l) l.

(** A field: its name, and how a value is stored into it; [None] is a type
    error. *)
Definition field_of (V S : Type) : Type := bytes * (V → option (S → S)).
Definition field (S : Type) : Type := field_of json S.

(** The field a key addresses: by its exact name, or else folded. *)
Definition find_field {V S} (fields : list (field_of V S)) (key : bytes) : option (V → option (S → S)) :=
  match list_find (λ f, f.1 = key) fields with
  | Some (_, f) => Some f.2
  | None =>
      match list_find (λ f, folded f.1 = folded key) fields with
      | Some (_, f) => Some f.2
      | None => None
      end
  end.

(** Members in order; later ones win, unknown ones are ignored. *)
Fixpoint store_members {V S} (fields : list (field_of V S)) (ms : list (bytes * V)) (s : S) : option S :=
  match ms with
  | [] => Some s
  | (k, v) :: ms' =>
      match find_field fields k with
      | None => store_members fields ms' s
      | Some set => f ← set v; store_members fields ms' (f s)
      end
  end.

(** [null] stores nothing, into a struct as into a field. *)
Definition decode_struct {S} (fields : list (field S)) (zero : S) (v : json) : option S :=
  match v with
  | JNull => Some zero
  | JObj ms => store_members fields ms zero
  | _ => None
  end.

(** [json.Unmarshal] into a struct with such fields. *)
Definition unmarshal_struct {S} (fields : list (field_of (json * bytes) S)) (zero : S) (l : bytes) : option S :=
  v ← parse_text l;
  match v with
  | JNull => Some zero
  | JObj [] => Some zero
  | JObj _ => '(ms, _) ← raw_members (length l) 1 (drop 1 (skip l)); store_members fields ms zero
  | _ => None
  end.
(** A field whose type has no method of its own. *)
Definition plain {S} (f : field S) : field_of (json * bytes) S := (f.1, λ v, f.2 v.1).

Definition string_field {S} (name : string) (set : string → S → S) : field S :=
  (str name, λ v, match v with
                  | JNull => Some id
                  | JStr s => Some (set (String.string_of_list_ascii s))
                  | _ => None
                  end).
(** [int], by [strconv.ParseInt]. *)
Definition int_field {S} (name : string) (set : Z → S → S) : field S :=
  (str name, λ v, match v with
                  | JNull => Some id
                  | JNum lit => set <$> Atoi lit
                  | _ => None
                  end).
(** [strconv.ParseUint]: digits only, below 2^64. *)
Definition parse_uint (lit : bytes) : option Z :=
  match lit with
  | [] => None
  | _ => n ← digits_val 0 lit; if n <? 2 ^ 64 then Some n else None
  end.
Definition uint_field {S} (name : string) (set : Z → S → S) : field S :=
  (str name, λ v, match v with
                  | JNull => Some id
                  | JNum lit => set <$> parse_uint lit
                  | _ => None
                  end).

(** Values of Go types. *)
Definition j_string (s : string) : json := JStr (str s).
Definition j_int (n : Z) : json := JNum (fmt_d n).
Definition j_key (k : string) (v : json) : bytes * json := (str k, v).
