(* ===== verification/JsonProps.v ===== *)
(** * The round trip through JSON

    A value whose strings are UTF-8 and whose numbers are JSON numbers is read
    back from its text, whatever follows it; what is read from any text has
    only UTF-8 strings. *)

From stdpp Require Import prelude list strings.
From Stdlib Require Import ZArith Lia Ascii.
From S2P Require Import Prelude GoBytes GoJson.

Local Open Scope Z_scope.

(** ** Bytes and runes *)

Lemma code_range c : 0 <= code c < 256.
Proof. unfold code. pose proof (N_ascii_bounded c). lia. Qed.

Lemma code_byte z : 0 <= z < 256 → code (byte z) = z.
Proof. intros Hz. unfold code, byte. rewrite N_ascii_embedding by lia. lia. Qed.

Lemma byte_code c : byte (code c) = c.
Proof. unfold code, byte. rewrite N2Z.id. apply ascii_N_embedding. Qed.

Lemma code_inj c d : code c = code d → c = d.
Proof. intros E. by rewrite <- (byte_code c), <- (byte_code d), E. Qed.

(** The length of a rune does not depend on what follows it. *)
Lemma rune_len_app l n rest :
  rune_len l = Some n → rune_len (take n l ++ rest) = Some n ∧ (1 ≤ n ≤ length l)%nat.
Proof.
  unfold rune_len. destruct l as [|c l]; [done|]. destruct (code c <? 128) eqn:E0.
  { intros [= <-]. cbn [take app length]. rewrite E0. split; [done|lia]. }
  destruct l as [|c1 l]; [done|]. destruct (between 194 223 c) eqn:E1.
  { destruct (is_cont c1) eqn:E2; [|done]. intros [= <-]. cbn [take app length]. rewrite E0, E1, E2. split; [done|lia]. }
  destruct l as [|c2 l]; [done|]. destruct (between 224 239 c) eqn:E3.
  { cbv zeta. destruct (_ && _) eqn:E2; [|done]. intros [= <-]. cbn [take app length]. rewrite E0, E1, E3, E2.
    split; [done|lia]. }
  destruct (between 240 244 c) eqn:E4; [|done]. destruct l as [|c3 l]; [done|].
  cbv zeta. destruct (_ && _ && _) eqn:E2; [|done]. intros [= <-]. cbn [take app length].
  rewrite E0, E1, E3, E4, E2. split; [done|lia].
Qed.

Lemma line_separator_rune l n r :
  rune_len l = Some n → line_separator l = Some r →
  n = 3%nat ∧ l = encode_rune r ++ drop 3 l ∧ (r = 8232 ∨ r = 8233).
Proof.
  unfold line_separator. destruct l as [|c [|c1 [|c2 l]]]; try done. intros Hn Hr.
  assert (Hc : code c = 226 ∧ code c1 = 128 ∧ (code c2 = 168 ∧ r = 8232 ∨ code c2 = 169 ∧ r = 8233)).
  { destruct (Z.eqb_spec (code c) 226), (Z.eqb_spec (code c1) 128), (Z.eqb_spec (code c2) 168),
      (Z.eqb_spec (code c2) 169); naive_solver. }
  destruct Hc as (H0 & H1 & H2). rewrite <- (byte_code c), <- (byte_code c1), <- (byte_code c2), H0, H1.
  rewrite <- (byte_code c), <- (byte_code c1), <- (byte_code c2), H0, H1 in Hn.
  destruct H2 as [[H2 ->]|[H2 ->]]; rewrite H2 in *; (split; [by injection Hn|]); split; auto.
Qed.

(** ** Strings *)

Lemma unquote_escape c fuel rest :
  code c < 128 →
  unquote_loop (S fuel) (escape_ascii c ++ rest) = '(s, r) ← unquote_loop fuel rest; Some (c :: s, r).
Proof. intros Hc. destruct c as [[] [] [] [] [] [] [] []]; first [by vm_compute in Hc | reflexivity]. Qed.

Lemma escape_nonempty c : (1 ≤ length (escape_ascii c))%nat.
Proof. destruct c as [[] [] [] [] [] [] [] []]; vm_compute; lia. Qed.

Lemma unquote_separator r fuel rest :
  r = 8232 ∨ r = 8233 →
  unquote_loop (S fuel) (u_escape r ++ rest) = '(s, t) ← unquote_loop fuel rest; Some (encode_rune r ++ s, t).
Proof. intros [-> | ->]; reflexivity. Qed.

Lemma unquote_rune l n fuel rest :
  rune_len l = Some n → match l with c :: _ => 128 <= code c | [] => False end →
  unquote_loop (S fuel) (take n l ++ rest) = '(s, t) ← unquote_loop fuel rest; Some (take n l ++ s, t).
Proof.
  intros Hn Hc. destruct (rune_len_app l n rest Hn) as [Hr Hlen].
  assert (Hlt : length (take n l) = n) by (rewrite length_take; lia).
  destruct l as [|c l]; [done|]. destruct n as [|n]; [lia|]. cbn [take app] in *.
  cbn [unquote_loop].
  replace (code c =? 34) with false by lia. replace (code c =? 92) with false by lia.
  replace (code c <? 32) with false by lia. replace (code c <? 128) with false by lia.
  rewrite Hr. cbn [length] in Hlt. cbn [take drop]. rewrite take_app_length', drop_app_length' by lia.
  reflexivity.
Qed.

Lemma unquote_quote s fuel fuel' rest :
  valid_utf8 s → (length s ≤ fuel)%nat → (length (quote_loop fuel s) < fuel')%nat →
  unquote_loop fuel' (quote_loop fuel s ++ byte 34 :: rest) = Some (s, rest).
Proof.
  intros Hv. revert fuel fuel'. induction Hv as [|l n Hn Hv IH]; intros fuel fuel' Hf Hf'.
  { destruct fuel'; [lia|]. by destruct fuel. }
  destruct (rune_len_app l n [] Hn) as [_ Hlen]. destruct l as [|c l]; [done|].
  destruct fuel as [|fuel]; [cbn in Hf; lia|]. destruct fuel' as [|fuel']; [lia|].
  cbn [quote_loop] in *. destruct (Z.ltb_spec (code c) 128) as [Hc|Hc].
  - assert (n = 1%nat) as ->.
    { unfold rune_len in Hn. rewrite (proj2 (Z.ltb_lt _ _) Hc) in Hn. by injection Hn. }
    rewrite <- app_assoc, unquote_escape by done. pose proof (escape_nonempty c).
    rewrite length_app in Hf'. change (drop 1 (c :: l)) with l in *. cbn [length] in *. rewrite (IH fuel fuel'); [done|lia..].
  - rewrite Hn in *. destruct (line_separator (c :: l)) as [r|] eqn:Hsep.
    + destruct (line_separator_rune _ _ _ Hn Hsep) as (-> & Hl & Hr). rewrite Hl at 2.
      rewrite <- app_assoc, unquote_separator by done. rewrite length_app in Hf'.
      assert (length (u_escape r) = 6%nat) by (by destruct Hr as [-> | ->]).
      rewrite (IH fuel fuel'); [done| |lia]. rewrite length_drop. cbn [length] in *. lia.
    + rewrite <- app_assoc, unquote_rune by done. rewrite length_app, length_take in Hf'.
      rewrite (IH fuel fuel'); [| |lia].
      * cbn [mbind option_bind]. by rewrite take_drop.
      * rewrite length_drop. cbn [length] in *. lia.
Qed.

(** ** Numbers *)

(** A character that cannot continue a number. *)
Definition ends_number (c : ascii) : bool :=
  negb (between 48 57 c || (code c =? 46) || (code c =? 101) || (code c =? 69) || (code c =? 43) || (code c =? 45)).
Definition stops (rest : bytes) : Prop := match rest with c :: _ => ends_number c = true | [] => True end.

Lemma stops_head c rest : stops (c :: rest) →
  between 48 57 c = false ∧ code c ≠ 46 ∧ code c ≠ 101 ∧ code c ≠ 69 ∧ code c ≠ 43 ∧ code c ≠ 45.
Proof.
  unfold stops, ends_number. rewrite negb_true_iff, !orb_false_iff, !Z.eqb_neq. tauto.
Qed.

Lemma span_digits_stop rest : stops rest → span_digits rest = ([], rest).
Proof. destruct rest as [|c rest]; [done|]. intros (Hc & _)%stops_head. cbn. by rewrite Hc. Qed.

Lemma span_digits_app l d r rest :
  stops rest → span_digits l = (d, r) → span_digits (l ++ rest) = (d, r ++ rest).
Proof.
  intros Hs. revert d r. induction l as [|c l IH]; intros d r; cbn.
  { intros [= <- <-]. by apply span_digits_stop. }
  destruct (between 48 57 c); [|by intros [= <- <-]].
  destruct (span_digits l) as [d' r'] eqn:E. intros [= <- <-]. by rewrite (IH _ _ eq_refl).
Qed.

Lemma some_digits_app l d r rest :
  stops rest → some_digits l = Some (d, r) → some_digits (l ++ rest) = Some (d, r ++ rest).
Proof.
  intros Hs. unfold some_digits. destruct (span_digits l) as [d' r'] eqn:E.
  rewrite (span_digits_app _ _ _ _ Hs E). by destruct d'; intros [= <- <-].
Qed.

Lemma scan_sign_app l s r rest :
  stops rest → scan_sign l = (s, r) → scan_sign (l ++ rest) = (s, r ++ rest).
Proof.
  intros Hs. destruct l as [|c l]; cbn.
  - intros [= <- <-]. destruct rest as [|c rest]; [done|]. apply stops_head in Hs as (_ & _ & _ & _ & _ & H).
    cbn. by rewrite (proj2 (Z.eqb_neq _ _) H).
  - by destruct (code c =? 45); intros [= <- <-].
Qed.

Lemma scan_int_app l s r rest :
  stops rest → scan_int l = Some (s, r) → scan_int (l ++ rest) = Some (s, r ++ rest).
Proof.
  intros Hs. destruct l as [|c l]; [done|]. cbn [scan_int app]. destruct (code c =? 48); [by intros [= <- <-]|].
  apply (some_digits_app (c :: l)), Hs.
Qed.

Lemma scan_frac_app l s r rest :
  stops rest → scan_frac l = Some (s, r) → scan_frac (l ++ rest) = Some (s, r ++ rest).
Proof.
  intros Hs. destruct l as [|c l]; cbn [scan_frac app].
  - intros [= <- <-]. destruct rest as [|c rest]; [done|]. apply stops_head in Hs as (_ & H & _).
    cbn. by rewrite (proj2 (Z.eqb_neq _ _) H).
  - destruct (code c =? 46); [|by intros [= <- <-]]. destruct (some_digits l) as [[d' r']|] eqn:E; [|done].
    cbn. intros [= <- <-]. by rewrite (some_digits_app _ _ _ _ Hs E).
Qed.

Lemma scan_exp_app l s r rest :
  stops rest → scan_exp l = Some (s, r) → scan_exp (l ++ rest) = Some (s, r ++ rest).
Proof.
  intros Hs. destruct l as [|c l]; cbn [scan_exp app].
  - intros [= <- <-]. destruct rest as [|c rest]; [done|]. apply stops_head in Hs as (_ & _ & H1 & H2 & _).
    cbn. by rewrite (proj2 (Z.eqb_neq _ _) H1), (proj2 (Z.eqb_neq _ _) H2).
  - destruct ((code c =? 101) || (code c =? 69)); [|by intros [= <- <-]].
    destruct l as [|x l]; [done|]. cbn [app].
    destruct ((code x =? 43) || (code x =? 45)).
    + destruct (some_digits l) as [[d' r']|] eqn:E; [|done].
      cbn. intros [= <- <-]. by rewrite (some_digits_app _ _ _ _ Hs E).
    + destruct (some_digits (x :: l)) as [[d' r']|] eqn:E; [|done].
      cbn. intros [= <- <-]. change (x :: l ++ rest) with ((x :: l) ++ rest). by rewrite (some_digits_app _ _ _ _ Hs E).
Qed.

Lemma parse_number_app l lit r rest :
  stops rest → parse_number l = Some (lit, r) → parse_number (l ++ rest) = Some (lit, r ++ rest).
Proof.
  intros Hs. unfold parse_number. destruct (scan_sign l) as [s l1] eqn:E1. rewrite (scan_sign_app _ _ _ _ Hs E1).
  destruct (scan_int l1) as [[i l2]|] eqn:E2; [|done]. rewrite (scan_int_app _ _ _ _ Hs E2). cbn [mbind option_bind].
  destruct (scan_frac l2) as [[f l3]|] eqn:E3; [|done]. rewrite (scan_frac_app _ _ _ _ Hs E3). cbn [mbind option_bind].
  destruct (scan_exp l3) as [[e l4]|] eqn:E4; [|done]. rewrite (scan_exp_app _ _ _ _ Hs E4). cbn [mbind option_bind].
  by intros [= <- <-].
Qed.

Definition number_ok (lit : bytes) : Prop := parse_number lit = Some (lit, []).

(** The decimal text of an integer is a number. *)
Lemma span_digits_all l : Forall is_digit l → span_digits l = (l, []).
Proof.
  induction 1 as [|c l Hc _ IH]; [done|]. cbn. unfold is_digit in Hc.
  replace (between 48 57 c) with true by (unfold between; lia). by rewrite IH.
Qed.

Lemma digits_head fuel n : 0 < n < 10 ^ Z.of_nat fuel → ∃ c l, digits fuel n = c :: l ∧ code c ≠ 48.
Proof.
  revert n. induction fuel as [|fuel IH]; intros n Hn; [cbn in Hn; lia|]. cbn [digits].
  destruct (Z.ltb_spec n 10).
  - eexists _, []. split; [done|]. unfold digit_char, code. rewrite N_ascii_embedding by lia. lia.
  - rewrite Nat2Z.inj_succ, Z.pow_succ_r in Hn by lia.
    destruct (IH (n / 10)) as (c & l & -> & Hc).
    + split; [apply Z.div_str_pos; lia|apply Z.div_lt_upper_bound; lia].
    + eexists c, _. done.
Qed.

Lemma scan_int_digits n : 0 <= n < 10 ^ 20 → scan_int (digits 20 n) = Some (digits 20 n, []).
Proof.
  intros Hn. destruct (decide (n = 0)) as [->|H0]; [reflexivity|].
  destruct (digits_head 20 n) as (c & l & E & Hc); [change (Z.of_nat 20) with 20; lia|].
  pose proof (digits_are_digits 20 n ltac:(lia)) as Hd. rewrite E in *. unfold scan_int, some_digits.
  rewrite (proj2 (Z.eqb_neq _ _) Hc). by rewrite (span_digits_all _ Hd).
Qed.

Lemma number_ok_fmt n : - 10 ^ 20 < n < 10 ^ 20 → number_ok (fmt_d n).
Proof.
  intros Hn. unfold number_ok, fmt_d, parse_number. destruct (Z.ltb_spec n 0).
  - cbn [scan_sign]. replace (code "-" =? 45) with true by done.
    rewrite scan_int_digits by lia. cbn. by rewrite !app_nil_r.
  - assert (E : scan_sign (digits 20 n) = ([], digits 20 n)).
    { pose proof (digits_are_digits 20 n ltac:(lia)) as Hd. destruct (digits 20 n) as [|c l]; [done|].
      apply Forall_cons in Hd as [Hc _]. unfold is_digit in Hc. cbn. by replace (code c =? 45) with false by lia. }
    rewrite E, scan_int_digits by lia. cbn. by rewrite !app_nil_r.
Qed.

(** ** Values *)

Section json_nested.
Context (P : json → Prop) (Hnull : P JNull) (Hbool : ∀ b, P (JBool b)) (Hnum : ∀ lit, P (JNum lit))
  (Hstr : ∀ s, P (JStr s)) (Harr : ∀ vs, Forall P vs → P (JArr vs))
  (Hobj : ∀ ms, Forall (λ m, P m.2) ms → P (JObj ms)).

(** Induction over the values inside arrays and objects. *)
Fixpoint json_nested (v : json) : P v :=
  match v with
  | JNull => Hnull
  | JBool b => Hbool b
  | JNum lit => Hnum lit
  | JStr s => Hstr s
  | JArr vs => Harr vs ((fix all (vs : list json) : Forall P vs :=
                           match vs with
                           | [] => Forall_nil_2 _
                           | v :: vs' => Forall_cons_2 _ _ _ (json_nested v) (all vs')
                           end) vs)
  | JObj ms => Hobj ms ((fix all (ms : list (bytes * json)) : Forall (λ m, P m.2) ms :=
                           match ms with
                           | [] => Forall_nil_2 _
                           | m :: ms' => Forall_cons_2 _ _ _ (json_nested m.2) (all ms')
                           end) ms)
  end.
End json_nested.

Fixpoint height (v : json) : Z :=
  match v with
  | JArr vs => 1 + foldr Z.max 0 (map height vs)
  | JObj ms => 1 + foldr Z.max 0 (map (λ m, height m.2) ms)
  | _ => 0
  end.

(** Values that survive. *)
Fixpoint json_ok (v : json) : Prop :=
  match v with
  | JNum lit => number_ok lit
  | JStr s => valid_utf8 s
  | JArr vs => foldr and True (map json_ok vs)
  | JObj ms => foldr and True (map (λ m, valid_utf8 m.1 ∧ json_ok m.2) ms)
  | _ => True
  end.

(** A text that does not start with a space. *)
Definition sharp (l : bytes) : Prop := match l with c :: _ => is_space c = false | [] => False end.

Lemma skip_sharp l rest : sharp l → skip (l ++ rest) = l ++ rest.
Proof. destruct l as [|c l]; [done|]. cbn. by intros ->. Qed.

Lemma skip_cons c l : is_space c = false → skip (c :: l) = c :: l.
Proof. cbn. by intros ->. Qed.

Lemma number_head lit : number_ok lit → ∃ c l, lit = c :: l ∧ (between 48 57 c = true ∨ code c = 45).
Proof.
  unfold number_ok, parse_number. destruct lit as [|c l]; [done|]. intros H. exists c, l. split; [done|].
  cbn [scan_sign] in H. destruct (Z.eqb_spec (code c) 45); [by right|]. left.
  cbn [scan_int] in H. destruct (Z.eqb_spec (code c) 48); [unfold between; lia|].
  unfold some_digits in H. cbn [span_digits] in H. by destruct (between 48 57 c).
Qed.

Lemma print_head v : json_ok v → ∃ c l, print v = c :: l ∧ is_space c = false ∧ code c ≠ 93.
Proof.
  destruct v as [|[]|lit|s|vs|ms]; try (intros _; by eexists _, _).
  intros (c & l & -> & Hc)%number_head. exists c, l. split; [done|]. unfold is_space, between in *. split; lia.
Qed.

(** What a value's text looks like to the parser, by its first character. *)
Lemma parse_quoted fuel depth s rest :
  valid_utf8 s → parse_value (S fuel) depth (quote s ++ rest) = Some (JStr s, rest).
Proof.
  intros Hs. unfold quote. cbn [app]. rewrite <- app_assoc. cbn [app]. cbn [parse_value].
  rewrite skip_cons by done. rewrite code_byte by lia. cbn [Z.eqb Pos.eqb].
  rewrite unquote_quote; [done|done|lia|rewrite length_app; cbn; lia].
Qed.

Lemma parse_num fuel depth lit rest :
  number_ok lit → stops rest → parse_value (S fuel) depth (lit ++ rest) = Some (JNum lit, rest).
Proof.
  intros Hl Hs. destruct (number_head lit Hl) as (c & l & E & Hc). cbn [parse_value].
  rewrite skip_sharp by (rewrite E; cbn; unfold is_space, between in *; lia).
  rewrite E. cbn [app].
  rewrite !(proj2 (Z.eqb_neq (code c) _)) by (unfold between in *; lia).
  change (c :: l ++ rest) with ((c :: l) ++ rest). rewrite <- E, (parse_number_app _ _ _ _ Hs Hl). done.
Qed.

Definition survives (v : json) : Prop := json_ok v → ∀ fuel depth rest,
  (length (print v) < fuel)%nat → depth + height v <= max_depth → stops rest →
  parse_value fuel depth (print v ++ rest) = Some (v, rest).

Lemma parse_elements_print vs v fuel depth rest :
  Forall survives (v :: vs) → foldr and True (map json_ok (v :: vs)) →
  (S (length (commas (map print (v :: vs)))) < fuel)%nat →
  depth + foldr Z.max 0 (map height (v :: vs)) <= max_depth →
  parse_elements fuel depth (commas (map print (v :: vs)) ++ byte 93 :: rest) = Some (v :: vs, rest).
Proof.
  revert v fuel. induction vs as [|v' vs IH]; intros v fuel [Hv Hvs]%Forall_cons [Hok Hoks] Hf Hd;
    (destruct fuel as [|fuel]; [lia|]); cbn [parse_elements].
  - cbn [map commas foldr] in *. rewrite Hv; [|done|lia|lia|done]. cbn [mbind option_bind].
    by rewrite skip_cons.
  - change (commas (map print (v :: v' :: vs))) with (print v ++ byte 44 :: commas (map print (v' :: vs))) in *.
    change (foldr Z.max 0 (map height (v :: v' :: vs)))
      with (Z.max (height v) (foldr Z.max 0 (map height (v' :: vs)))) in Hd.
    rewrite length_app in Hf. cbn [length] in Hf. rewrite <- app_assoc. cbn [app].
    rewrite Hv; [|done|lia|lia|done]. cbn [mbind option_bind]. rewrite skip_cons by done.
    rewrite code_byte by lia. cbn [Z.eqb Pos.eqb]. by rewrite IH by (done || lia).
Qed.

(** A member up to its value. *)
Lemma parse_key fuel depth k l :
  valid_utf8 k →
  parse_members (S fuel) depth (quote k ++ byte 58 :: l) =
  '(v, r) ← parse_value fuel depth l;
  match skip r with
  | x :: r => if code x =? 44 then '(ms, r) ← parse_members fuel depth r; Some ((k, v) :: ms, r)
              else if code x =? 125 then Some ([(k, v)], r)
              else None
  | [] => None
  end.
Proof.
  intros Hk. unfold quote. cbn [app]. rewrite <- app_assoc. cbn [app parse_members].
  rewrite skip_cons by done. rewrite code_byte by lia. cbn [Z.eqb Pos.eqb].
  rewrite unquote_quote by (done || rewrite ?length_app; cbn [length]; lia). cbn [mbind option_bind].
  rewrite skip_cons by done. rewrite code_byte by lia. reflexivity.
Qed.

Lemma parse_members_print ms m fuel depth rest :
  Forall (λ m, survives m.2) (m :: ms) → foldr and True (map (λ m, valid_utf8 m.1 ∧ json_ok m.2) (m :: ms)) →
  (S (length (commas (map (λ m, quote m.1 ++ byte 58 :: print m.2) (m :: ms)))) < fuel)%nat →
  depth + foldr Z.max 0 (map (λ m, height m.2) (m :: ms)) <= max_depth →
  parse_members fuel depth (commas (map (λ m, quote m.1 ++ byte 58 :: print m.2) (m :: ms)) ++ byte 125 :: rest) =
  Some (m :: ms, rest).
Proof.
  set (member := λ m : bytes * json, quote m.1 ++ byte 58 :: print m.2). revert m fuel.
  induction ms as [|m' ms IH]; intros [k v] fuel [Hv Hms]%Forall_cons [[Hk Hok] Hoks] Hf Hd;
    (destruct fuel as [|fuel]; [lia|]); cbn [fst snd] in *.
  - cbn [map commas foldr] in *. unfold member in *. cbn [fst snd] in *. rewrite length_app in Hf. cbn [length] in Hf.
    rewrite <- app_assoc. cbn [app]. rewrite parse_key by done.
    rewrite Hv; [|done|lia|lia|done]. cbn [mbind option_bind]. by rewrite skip_cons.
  - change (commas (map member ((k, v) :: m' :: ms))) with (member (k, v) ++ byte 44 :: commas (map member (m' :: ms))) in *.
    change (foldr Z.max 0 (map (λ m, height m.2) ((k, v) :: m' :: ms)))
      with (Z.max (height v) (foldr Z.max 0 (map (λ m, height m.2) (m' :: ms)))) in Hd.
    unfold member in Hf at 1. unfold member at 1. cbn [fst snd] in *. rewrite !length_app in Hf. cbn [length] in Hf.
    rewrite <- !app_assoc. cbn [app]. rewrite parse_key by done.
    rewrite Hv; [|done|lia|lia|done]. cbn [mbind option_bind]. rewrite skip_cons by done.
    rewrite code_byte by lia. cbn [Z.eqb Pos.eqb]. by rewrite IH by (done || lia).
Qed.

Lemma json_survives v : survives v.
Proof.
  induction v as [|b|lit|s|vs Hvs|ms Hms] using json_nested; intros Hok fuel depth rest Hf Hd Hs;
    (destruct fuel as [|fuel]; [lia|]).
  - reflexivity.
  - by destruct b.
  - by apply parse_num.
  - by apply parse_quoted.
  - cbn [print]. unfold str at 1. cbn [String.list_ascii_of_string app]. rewrite <- app_assoc.
    cbn [parse_value]. rewrite skip_cons by done. change (code "[" =? 123) with false. change (code "[" =? 91) with true.
    cbn [height] in Hd. destruct vs as [|v vs].
    { cbn [map foldr] in Hd. replace (max_depth <? depth + 1) with false by lia. reflexivity. }
    destruct (print_head v) as (c & l & E & Hsp & Hc); [by destruct Hok|].
    assert (0 <= foldr Z.max 0 (map height (v :: vs))).
    { generalize (map height (v :: vs)). clear. intros hs. induction hs; cbn; lia. }
    replace (max_depth <? depth + 1) with false by lia.
    assert (Ht : ∃ t, commas (map print (v :: vs)) = c :: t).
    { destruct vs; cbn [map commas]; rewrite E; by eexists. }
    pose proof (parse_elements_print vs v fuel (depth + 1) rest Hvs Hok) as Hp.
    destruct Ht as [t Ht]. rewrite Ht in *. change (str "]" ++ rest) with (byte 93 :: rest). cbn [app].
    rewrite skip_cons by done. rewrite (proj2 (Z.eqb_neq _ _) Hc). cbn [app] in Hp. rewrite Hp; [done| |lia].
    cbn [print] in Hf. rewrite Ht, !length_app in Hf. cbn in Hf |- *. lia.
  - cbn [print]. unfold str at 1. cbn [String.list_ascii_of_string app]. rewrite <- app_assoc.
    cbn [parse_value]. rewrite skip_cons by done. change (code "{" =? 123) with true.
    cbn [height] in Hd. destruct ms as [|m ms].
    { cbn [map foldr] in Hd. replace (max_depth <? depth + 1) with false by lia. reflexivity. }
    assert (0 <= foldr Z.max 0 (map (λ m, height m.2) (m :: ms))).
    { generalize (map (λ m, height m.2) (m :: ms)). clear. intros hs. induction hs; cbn; lia. }
    replace (max_depth <? depth + 1) with false by lia.
    pose proof (parse_members_print ms m fuel (depth + 1) rest Hms Hok) as Hp.
    cbn [print] in Hf. rewrite !length_app in Hf. unfold str in Hf. cbn [String.list_ascii_of_string length] in Hf.
    assert (Ht : ∃ t, commas (map (λ m, quote m.1 ++ byte 58 :: print m.2) (m :: ms)) = byte 34 :: t).
    { destruct ms; cbn [map commas]; unfold quote; by eexists. }
    destruct Ht as [t Ht]. rewrite Ht in *. change (str "}" ++ rest) with (byte 125 :: rest). cbn [app].
    rewrite skip_cons by done. change (code (byte 34) =? 125) with false. cbn [app] in Hp. rewrite Hp; [done| |lia].
    cbn [length] in Hf |- *. lia.
Qed.

(** ** Values with their texts *)

(** Without the texts it is [parse_members]. *)
Lemma raw_members_parse fuel depth l :
  parse_members fuel depth l =
  option_map (λ p : list (bytes * (json * bytes)) * bytes, (map (λ m, (m.1, m.2.1)) p.1, p.2)) (raw_members fuel depth l).
Proof.
  revert l. induction fuel as [|fuel IH]; intros l; [done|]. cbn [parse_members raw_members].
  destruct (skip l) as [|q l']; [done|]. destruct (code q =? 34); [|done].
  destruct (unquote_loop (length l') l') as [[k r]|]; [|done]. cbn [mbind option_bind].
  destruct (skip r) as [|x r1]; [done|]. destruct (code x =? 58); [|done].
  destruct (parse_value fuel depth r1) as [[v r2]|]; [|done]. cbn [mbind option_bind].
  destruct (skip r2) as [|y r3]; [done|]. destruct (code y =? 44).
  - rewrite IH. by destruct (raw_members fuel depth r3) as [[ms r4]|].
  - by destruct (code y =? 125).
Qed.

(** A member up to its value. *)
Lemma raw_key fuel depth k v rest :
  valid_utf8 k → json_ok v → (length (print v) < fuel)%nat → depth + height v <= max_depth → stops rest →
  raw_members (S fuel) depth (quote k ++ byte 58 :: print v ++ rest) =
  match skip rest with
  | x :: r => if code x =? 44 then '(ms, r) ← raw_members fuel depth r; Some ((k, (v, print v)) :: ms, r)
              else if code x =? 125 then Some ([(k, (v, print v))], r)
              else None
  | [] => None
  end.
Proof.
  intros Hk Hv Hf Hd Hs. unfold quote. cbn [app]. rewrite <- app_assoc. cbn [app raw_members].
  rewrite skip_cons by done. rewrite code_byte by lia. cbn [Z.eqb Pos.eqb].
  rewrite unquote_quote by (done || rewrite ?length_app; cbn [length]; lia). cbn [mbind option_bind].
  rewrite skip_cons by done. rewrite code_byte by lia. cbn [Z.eqb Pos.eqb]. rewrite json_survives by done.
  cbn [mbind option_bind]. destruct (print_head v Hv) as (c & t & E & Hc & _).
  assert (Hsk : skip (print v ++ rest) = print v ++ rest) by (apply skip_sharp; by rewrite E).
  rewrite Hsk, length_app, Nat.add_sub, take_app_length. done.
Qed.

Definition with_text (m : bytes * json) : bytes * (json * bytes) := (m.1, (m.2, print m.2)).

Lemma raw_members_print ms m fuel depth rest :
  foldr and True (map (λ m, valid_utf8 m.1 ∧ json_ok m.2) (m :: ms)) →
  (S (length (commas (map (λ m, quote m.1 ++ byte 58 :: print m.2) (m :: ms)))) < fuel)%nat →
  depth + foldr Z.max 0 (map (λ m, height m.2) (m :: ms)) <= max_depth →
  raw_members fuel depth (commas (map (λ m, quote m.1 ++ byte 58 :: print m.2) (m :: ms)) ++ byte 125 :: rest) =
  Some (with_text <$> m :: ms, rest).
Proof.
  set (member := λ m : bytes * json, quote m.1 ++ byte 58 :: print m.2). revert m fuel.
  induction ms as [|m' ms IH]; intros [k v] fuel [[Hk Hok] Hoks] Hf Hd;
    (destruct fuel as [|fuel]; [lia|]); cbn [fst snd] in *.
  - cbn [map commas foldr] in *. unfold member in *. cbn [fst snd] in *. rewrite length_app in Hf. cbn [length] in Hf.
    rewrite <- app_assoc. cbn [app]. rewrite raw_key by (done || lia). by rewrite skip_cons.
  - change (commas (map member ((k, v) :: m' :: ms))) with (member (k, v) ++ byte 44 :: commas (map member (m' :: ms))) in *.
    change (foldr Z.max 0 (map (λ m, height m.2) ((k, v) :: m' :: ms)))
      with (Z.max (height v) (foldr Z.max 0 (map (λ m, height m.2) (m' :: ms)))) in Hd.
    unfold member in Hf at 1. unfold member at 1. cbn [fst snd] in *. rewrite !length_app in Hf. cbn [length] in Hf.
    rewrite <- !app_assoc. cbn [app]. rewrite raw_key by (done || lia). rewrite skip_cons by done.
    rewrite code_byte by lia. cbn [Z.eqb Pos.eqb]. by rewrite IH by (done || lia).
Qed.

(** ** Whole texts *)

Lemma read_print v rest :
  json_ok v → height v <= max_depth → stops rest → read_value (print v ++ rest) = Some v.
Proof.
  intros Hok Hh Hs. unfold read_value. rewrite json_survives; [done|done| |lia|done]. rewrite length_app. lia.
Qed.

Lemma read_Encode v : json_ok v → height v <= max_depth → read_value (Encode v) = Some v.
Proof. intros. by apply read_print. Qed.

(** ** What is read is UTF-8 *)

Definition is_rune (r : Z) : Prop := 0 <= r < 1114112 ∧ ¬ (55296 <= r < 57344).

Ltac solve_between :=
  unfold is_cont, between; rewrite ?code_byte by (Z.to_euclidean_division_equations; lia);
  apply andb_true_iff; rewrite ?Z.leb_le; Z.to_euclidean_division_equations; lia.

Lemma rune_len_encode r rest :
  is_rune r → rune_len (encode_rune r ++ rest) = Some (length (encode_rune r)).
Proof.
  intros [Hr Hs]. unfold encode_rune.
  destruct (Z.ltb_spec r 128) as [H1|H1].
  { cbn [app rune_len length]. rewrite code_byte by lia. by replace (r <? 128) with true by lia. }
  destruct (Z.ltb_spec r 2048) as [H2|H2].
  { cbn [app rune_len length]. rewrite code_byte by (Z.to_euclidean_division_equations; lia).
    replace (192 + r / 64 <? 128) with false by (Z.to_euclidean_division_equations; lia).
    replace (between 194 223 _) with true by (symmetry; solve_between).
    by replace (is_cont _) with true by (symmetry; solve_between). }
  destruct (Z.ltb_spec r 65536) as [H3|H3].
  { cbn [app rune_len length]. rewrite code_byte by (Z.to_euclidean_division_equations; lia).
    replace (224 + r / 4096 <? 128) with false by (Z.to_euclidean_division_equations; lia).
    replace (between 194 223 _) with false
      by (unfold between; rewrite code_byte; Z.to_euclidean_division_equations; lia).
    replace (between 224 239 _) with true by (symmetry; solve_between). cbv zeta.
    replace (between _ _ (byte (128 + r / 64 mod 64))) with true.
    2:{ symmetry. unfold between. rewrite code_byte by (Z.to_euclidean_division_equations; lia).
        destruct (Z.eqb_spec (224 + r / 4096) 224), (Z.eqb_spec (224 + r / 4096) 237);
          apply andb_true_iff; rewrite !Z.leb_le; Z.to_euclidean_division_equations; lia. }
    by replace (is_cont _) with true by (symmetry; solve_between). }
  cbn [app rune_len length]. rewrite code_byte by (Z.to_euclidean_division_equations; lia).
  replace (240 + r / 262144 <? 128) with false by (Z.to_euclidean_division_equations; lia).
  replace (between 194 223 _) with false
    by (unfold between; rewrite code_byte; Z.to_euclidean_division_equations; lia).
  replace (between 224 239 _) with false
    by (unfold between; rewrite code_byte; Z.to_euclidean_division_equations; lia).
  replace (between 240 244 _) with true by (symmetry; solve_between). cbv zeta.
  replace (between _ _ (byte (128 + r / 4096 mod 64))) with true.
  2:{ symmetry. unfold between. rewrite code_byte by (Z.to_euclidean_division_equations; lia).
      destruct (Z.eqb_spec (240 + r / 262144) 240), (Z.eqb_spec (240 + r / 262144) 244);
        apply andb_true_iff; rewrite !Z.leb_le; Z.to_euclidean_division_equations; lia. }
  replace (is_cont (byte (128 + r / 64 mod 64))) with true by (symmetry; solve_between).
  by replace (is_cont _) with true by (symmetry; solve_between).
Qed.

Lemma valid_encode r s : is_rune r → valid_utf8 s → valid_utf8 (encode_rune r ++ s).
Proof.
  intros Hr Hs. eapply valid_rune; [by apply rune_len_encode|]. by rewrite drop_app_length.
Qed.

Lemma valid_take l n s : rune_len l = Some n → valid_utf8 s → valid_utf8 (take n l ++ s).
Proof.
  intros Hn Hs. destruct (rune_len_app l n s Hn) as [Hr Hlen]. eapply valid_rune; [exact Hr|].
  by rewrite drop_app_length' by (rewrite length_take; lia).
Qed.

Lemma valid_ascii c s : code c < 128 → valid_utf8 s → valid_utf8 (c :: s).
Proof.
  intros Hc Hs. eapply (valid_rune (c :: s) 1); [|done]. cbn. by rewrite (proj2 (Z.ltb_lt _ _) Hc).
Qed.

Lemma hex_val_range c d : hex_val c = Some d → 0 <= d < 16.
Proof. unfold hex_val, between. repeat case_match; intros ?; simplify_eq; lia. Qed.

Lemma hex4_range l r rest : hex4 l = Some (r, rest) → 0 <= r < 65536.
Proof.
  unfold hex4. destruct l as [|a [|b [|c [|d l]]]]; try done.
  destruct (hex_val a) eqn:Ea, (hex_val b) eqn:Eb, (hex_val c) eqn:Ec, (hex_val d) eqn:Ed; try done. cbn.
  intros [= <- _]. apply hex_val_range in Ea, Eb, Ec, Ed. lia.
Qed.

Lemma escaped_rune_ok l r rest : escaped_rune l = Some (r, rest) → is_rune r.
Proof.
  unfold escaped_rune. destruct (hex4 l) as [[r0 rest0]|] eqn:E; [|done]. apply hex4_range in E. cbn [mbind option_bind].
  destruct ((55296 <=? r0) && (r0 <=? 57343)) eqn:Es; [|intros [= <- _]; unfold is_rune; lia].
  destruct (r0 <=? 56319) eqn:Eh; [|intros [= <- _]; unfold is_rune, replacement; lia].
  destruct (low_surrogate rest0) as [[r2 rest2]|] eqn:El; intros [= <- _]; [|unfold is_rune, replacement; lia].
  unfold low_surrogate in El. destruct rest0 as [|c [|u rest0]]; try done. destruct ((code c =? 92) && (code u =? 117)); [|done].
  destruct (hex4 rest0) as [[r3 rest3]|] eqn:E3; cbn [mbind option_bind] in El; [|done]. apply hex4_range in E3.
  destruct ((56320 <=? r3) && (r3 <=? 57343)) eqn:E4; [|done]. injection El as <- _. unfold is_rune. lia.
Qed.

Lemma simple_escape_ascii e d : simple_escape e = Some d → code d < 128.
Proof.
  unfold simple_escape. repeat case_match; intros ?; simplify_eq; rewrite ?code_byte by lia; lia.
Qed.

Lemma unquote_valid fuel l s r : unquote_loop fuel l = Some (s, r) → valid_utf8 s.
Proof.
  revert l s r. induction fuel as [|fuel IH]; intros l s r; [done|]. destruct l as [|c l]; [done|]. cbn [unquote_loop].
  assert (Hgo : ∀ piece rest, (∀ t, valid_utf8 t → valid_utf8 (piece ++ t)) →
    ('(s, r) ← unquote_loop fuel rest; Some (piece ++ s, r)) = Some (s, r) → valid_utf8 s).
  { intros piece rest Hpiece. destruct (unquote_loop fuel rest) as [[t r']|] eqn:E; [|done]. cbn.
    intros [= <- _]. by eapply Hpiece, IH. }
  destruct (code c =? 34); [intros [= <- _]; constructor|].
  destruct (code c =? 92).
  { destruct l as [|e l]; [done|]. destruct (code e =? 117).
    - destruct (escaped_rune l) as [[x rest]|] eqn:E; [|done]. cbn [mbind option_bind]. apply Hgo. intros t.
      by apply valid_encode, (escaped_rune_ok _ _ _ E).
    - destruct (simple_escape e) as [d|] eqn:E; [|done]. cbn [mbind option_bind]. apply Hgo. intros t.
      by apply valid_ascii, (simple_escape_ascii _ _ E). }
  destruct (code c <? 32); [done|]. destruct (Z.ltb_spec (code c) 128).
  { apply Hgo. intros t. by apply valid_ascii. }
  destruct (rune_len (c :: l)) as [n|] eqn:E; apply Hgo; intros t; [by apply valid_take|].
  apply valid_encode. unfold is_rune, replacement. lia.
Qed.

(** Every string of a value, keys included, is UTF-8. *)
Fixpoint all_utf8 (v : json) : Prop :=
  match v with
  | JStr s => valid_utf8 s
  | JArr vs => foldr and True (map all_utf8 vs)
  | JObj ms => foldr and True (map (λ m, valid_utf8 m.1 ∧ all_utf8 m.2) ms)
  | _ => True
  end.

Lemma parse_utf8 fuel :
  (∀ depth l v r, parse_value fuel depth l = Some (v, r) → all_utf8 v) ∧
  (∀ depth l vs r, parse_elements fuel depth l = Some (vs, r) → all_utf8 (JArr vs)) ∧
  (∀ depth l ms r, parse_members fuel depth l = Some (ms, r) → all_utf8 (JObj ms)).
Proof.
  induction fuel as [|fuel (IHv & IHe & IHm)]; [done|]. split_and!.
  - intros depth l v r. cbn [parse_value]. destruct (skip l) as [|c l']; [done|].
    destruct (code c =? 123).
    { destruct (max_depth <? _); [done|]. destruct (skip l') as [|x r']; [done|].
      destruct (code x =? 125); [by intros [= <- _]|].
      destruct (parse_members _ _ _) as [[ms r'']|] eqn:E; [|done]. intros [= <- _]. by eapply IHm. }
    destruct (code c =? 91).
    { destruct (max_depth <? _); [done|]. destruct (skip l') as [|x r']; [done|].
      destruct (code x =? 93); [by intros [= <- _]|].
      destruct (parse_elements _ _ _) as [[ms r'']|] eqn:E; [|done]. intros [= <- _]. by eapply IHe. }
    destruct (code c =? 34).
    { destruct (unquote_loop _ _) as [[s r']|] eqn:E; [|done]. intros [= <- _]. by eapply unquote_valid. }
    destruct (code c =? 116); [destruct (expect _ _); [|done]; by intros [= <- _]|].
    destruct (code c =? 102); [destruct (expect _ _); [|done]; by intros [= <- _]|].
    destruct (code c =? 110); [destruct (expect _ _); [|done]; by intros [= <- _]|].
    destruct (parse_number _) as [[lit r']|]; [|done]. by intros [= <- _].
  - intros depth l vs r. cbn [parse_elements]. destruct (parse_value _ _ _) as [[v r1]|] eqn:E; [|done].
    cbn [mbind option_bind]. destruct (skip r1) as [|x r2]; [done|]. apply IHv in E. destruct (code x =? 44).
    + destruct (parse_elements _ _ _) as [[vs' r3]|] eqn:E'; [|done]. intros [= <- _]. split; [done|]. by eapply IHe.
    + destruct (code x =? 93); [|done]. intros [= <- _]. done.
  - intros depth l ms r. cbn [parse_members]. destruct (skip l) as [|q l']; [done|]. destruct (code q =? 34); [|done].
    destruct (unquote_loop _ _) as [[k r0]|] eqn:Ek; [|done]. cbn [mbind option_bind]. apply unquote_valid in Ek.
    destruct (skip r0) as [|x r0']; [done|]. destruct (code x =? 58); [|done].
    destruct (parse_value _ _ _) as [[v r1]|] eqn:E; [|done]. cbn [mbind option_bind]. apply IHv in E.
    destruct (skip r1) as [|y r2]; [done|]. destruct (code y =? 44).
    + destruct (parse_members _ _ _) as [[ms' r3]|] eqn:E'; [|done]. intros [= <- _]. split; [done|]. by eapply IHm.
    + destruct (code y =? 125); [|done]. intros [= <- _]. done.
Qed.

Lemma read_utf8 l v : read_value l = Some v → all_utf8 v.
Proof.
  unfold read_value. destruct (parse_value _ _ _) as [[v' r]|] eqn:E; [|done]. intros [= <-].
  by eapply (proj1 (parse_utf8 _)).
Qed.
