(* ===== verification/Http.v ===== *)
(** * net/http and net/url

    What the services use of Go's HTTP server: percent-encoding of path
    segments, the cleaning of paths, and [http.ServeMux] for patterns of a
    method and literal segments, with or without a trailing slash: how routes
    are registered, when registering panics, and which route, redirect or
    error a request meets.  Paths are the escaped paths of requests (as
    [URL.EscapedPath] gives them); hosts and CONNECT requests, which are not
    cleaned, are left out. *)

From stdpp Require Import prelude list strings.
From Stdlib Require Import ZArith Lia Ascii.
From S2P Require Import Prelude GoBytes GoJson.

Local Open Scope Z_scope.

(** ** Percent-encoding *)

(** [shouldEscape] for a path segment. *)
Definition unreserved (c : ascii) : bool :=
  between 97 122 c || between 65 90 c || between 48 57 c ||
  bool_decide (c ∈ str "-_.~$&+=:@").
Definition upper_hex (d : Z) : ascii := if d <? 10 then byte (48 + d) else byte (55 + d).

(** [url.PathEscape]. *)
Definition PathEscape (s : bytes) : bytes :=
  s ≫= λ c, if unreserved c then [c] else [byte 37; upper_hex (code c / 16); upper_hex (code c mod 16)].

(** [url.PathUnescape]; [None] for a malformed escape. *)
Fixpoint PathUnescape (l : bytes) : option bytes :=
  match l with
  | [] => Some []
  | c :: l' =>
      if code c =? 37 then
        match l' with
        | a :: b :: l'' => a ← hex_val a; b ← hex_val b; s ← PathUnescape l''; Some (byte (a * 16 + b) :: s)
        | _ => None
        end
      else s ← PathUnescape l'; Some (c :: s)
  end.

(** ** Paths *)

Definition slash : ascii := byte 47.

(** [strings.Split(path, "/")]. *)
Fixpoint split_path (cur : bytes) (l : bytes) : list bytes :=
  match l with
  | [] => [cur]
  | c :: l' => if decide (c = slash) then cur :: split_path [] l' else split_path (cur ++ [c]) l'
  end.

(** The elements that [path.Clean] keeps of a rooted path, the last one
    first. *)
Definition clean_step (acc : list bytes) (seg : bytes) : list bytes :=
  if decide (seg = [] ∨ seg = str ".") then acc
  else if decide (seg = str "..") then tail acc
  else seg :: acc.
Definition clean_segments (p : bytes) : list bytes := reverse (foldl clean_step [] (split_path [] p)).

Definition ends_in_slash (p : bytes) : bool := bool_decide (last p = Some slash).

Definition join_segments (segs : list bytes) : bytes := segs ≫= λ s, slash :: s.

(** [cleanPath]: the segments, and whether a slash ends the path. *)
Definition cleaned (p : bytes) : list bytes * bool := (clean_segments p, ends_in_slash p).
Definition path_text (segs : list bytes) (trailing : bool) : bytes :=
  match segs with
  | [] => [slash]
  | _ => join_segments segs ++ (if trailing then [slash] else [])
  end.

(** ** Patterns *)

(** "METHOD /a/b" or "METHOD /a/b/"; no method matches all of them. *)
Record pattern := mkPattern { pMethod : string; pSegments : list bytes; pMulti : bool }.
#[global] Instance pattern_eq_dec : EqDecision pattern.
Proof. solve_decision. Defined.

(** The pattern a string denotes. *)
Definition parse_pattern (method : string) (path : string) : pattern :=
  let segs := filter (λ s, s ≠ []) (split_path [] (str path)) in
  mkPattern method segs (ends_in_slash (str path)).

(** How the requests of two patterns relate. *)
Inductive relationship := Equivalent | MoreGeneral | MoreSpecific | Disjoint | Overlaps.
#[global] Instance relationship_eq_dec : EqDecision relationship.
Proof. solve_decision. Defined.

Definition compare_methods (a b : string) : relationship :=
  if decide (a = b) then Equivalent
  else if decide (a = "") then MoreGeneral
  else if decide (b = "") then MoreSpecific
  else if decide (a = "GET" ∧ b = "HEAD") then MoreGeneral
  else if decide (a = "HEAD" ∧ b = "GET") then MoreSpecific
  else Disjoint.

Fixpoint is_prefix (a b : list bytes) : bool :=
  match a, b with
  | [], _ => true
  | x :: a', y :: b' => bool_decide (x = y) && is_prefix a' b'
  | _, [] => false
  end.

Definition compare_paths (p q : pattern) : relationship :=
  let a := pSegments p in
  let b := pSegments q in
  match pMulti p, pMulti q with
  | false, false => if decide (a = b) then Equivalent else Disjoint
  | true, false => if is_prefix a b && (length a <? length b)%nat then MoreGeneral else Disjoint
  | false, true => if is_prefix b a && (length b <? length a)%nat then MoreSpecific else Disjoint
  | true, true =>
      if decide (a = b) then Equivalent
      else if is_prefix a b then MoreGeneral
      else if is_prefix b a then MoreSpecific
      else Disjoint
  end.

Definition combine (m p : relationship) : relationship :=
  match m, p with
  | Equivalent, r | r, Equivalent => r
  | Disjoint, _ | _, Disjoint => Disjoint
  | MoreGeneral, MoreGeneral => MoreGeneral
  | MoreSpecific, MoreSpecific => MoreSpecific
  | _, _ => Overlaps
  end.

Definition conflicts (p q : pattern) : bool :=
  match combine (compare_methods (pMethod p) (pMethod q)) (compare_paths p q) with
  | Equivalent | Overlaps => true
  | _ => false
  end.

(** ** The mux *)

(** The routes in the order they were registered. *)
Definition mux (H : Type) : Type := list (pattern * H).
(** A node of the routing tree: the segments its routes have still to
    match. *)
Definition routes (H : Type) : Type := list (list bytes * (pattern * H)).

Section mux.
Context {H : Type}.

(** [HandleFunc] panics when the pattern conflicts with one that is there. *)
Definition HandleFunc (method path : string) (h : H) (m : mux H) : res (mux H) :=
  let p := parse_pattern method path in
  if existsb (λ r, conflicts p r.1) m then Panic else Ok (m ++ [(p, h)]).

Definition leaf (multi : bool) (rs : routes H) : option (pattern * H) :=
  match list_find (λ r, r.1 = [] ∧ pMulti r.2.1 = multi) rs with
  | Some (_, r) => Some r.2
  | None => None
  end.
Definition child (seg : bytes) (rs : routes H) : routes H :=
  rs ≫= λ r, match r.1 with
             | s :: segs => if decide (s = seg) then [(segs, r.2)] else []
             | [] => []
             end.

(** [matchPath]: the literal child first, then a trailing slash here. *)
Fixpoint match_path (rs : routes H) (path : list bytes) : option (pattern * H) :=
  match path with
  | [] => leaf false rs
  | seg :: path' =>
      match match_path (child seg rs) path' with
      | Some r => Some r
      | None => leaf true rs
      end
  end.

(** The segments of a request's path; a trailing slash is one of its own. *)
Definition unescaped (s : bytes) : bytes := default s (PathUnescape s).
Definition request_segments (segs : list bytes) (trailing : bool) : list bytes :=
  (unescaped <$> segs) ++ (if trailing || bool_decide (segs = []) then [[slash]] else []).

Definition for_method (method : string) (m : mux H) : routes H :=
  (λ r, (pSegments r.1, r)) <$> filter (λ r, pMethod r.1 = method) m.

(** [matchMethodAndPath]. *)
Definition match_route (m : mux H) (method : string) (path : list bytes) : option (pattern * H) :=
  match match_path (for_method method m) path with
  | Some r => Some r
  | None =>
      match (if decide (method = "HEAD") then match_path (for_method "GET" m) path else None) with
      | Some r => Some r
      | None => match_path (for_method "" m) path
      end
  end.

(** [exactMatch]. *)
Definition exact (r : option (pattern * H)) (trailing : bool) (path : list bytes) : bool :=
  match r with
  | None => false
  | Some (p, _) => negb (pMulti p) || trailing && (length (pSegments p) + 1 =? length path)%nat
  end.

Inductive outcome := Serve (h : H) | Redirect (path : bytes) | MethodNotAllowed | NotFound.

Definition matching_methods (m : mux H) (path : list bytes) : bool :=
  existsb (λ r, bool_decide (pMethod r.1 ≠ "") &&
              match match_path (for_method (pMethod r.1) m) path with Some _ => true | None => false end) m.

(** [findHandler]. *)
Definition dispatch (m : mux H) (method : string) (escaped : bytes) : outcome :=
  let '(segs, trailing) := cleaned escaped in
  let trailing := trailing || bool_decide (segs = []) in
  let path := request_segments segs trailing in
  let r := match_route m method path in
  let slashed := request_segments segs true in
  if negb (exact r trailing path) && negb trailing && exact (match_route m method slashed) true slashed then
    Redirect (path_text segs true)
  else if decide (path_text segs trailing ≠ escaped) then Redirect (path_text segs trailing)
  else
    match r with
    | Some (_, h) => Serve h
    | None =>
        if matching_methods m path || negb trailing && matching_methods m slashed then MethodNotAllowed
        else NotFound
    end.
End mux.
Arguments outcome _ : clear implicits.

(** ** Requests and responses *)

(** The method, the escaped path and the body. *)
Record http_request := mkHttpRequest { hMethod : string; hTarget : bytes; hBody : bytes }.

(** A status and a body; a redirect; a request that is left to [ServeWs]. *)
Inductive http_response :=
  | Replied (status : Z) (body : bytes)
  | Moved (path : bytes)
  | Upgraded.

(** [http.Error]. *)
Definition http_error (text : string) (code : Z) : http_response := Replied code (str text ++ [byte 10]).

(** A response to HEAD has no body. *)
Definition written (method : string) (r : http_response) : http_response :=
  match r with
  | Replied status body => if decide (method = "HEAD") then Replied status [] else r
  | _ => r
  end.
