(* ===== verification/FixParser.v ===== *)
(** * The FIX message parser

    pkg/fix/parser.go.  A [Message] holds the raw bytes and the boundaries of
    the values in them; [Parse] fills it in place, also partly when it
    returns an error, so the operations run in the monad over [Message]. *)

From stdpp Require Import prelude list strings.
From Stdlib Require Import ZArith Lia Ascii.
From S2P Require Import Prelude GoBytes.

Local Open Scope Z_scope.

Definition SOH : ascii := ascii_of_N 1.
Definition EQ : ascii := "="%char.
#[global] Arguments SOH : simpl never.
#[global] Arguments EQ : simpl never.

Record TagValue := mkTagValue { Tag : Z; Start : Z; End_ : Z }.
Record Message := mkMessage { raw : bytes; tags : list TagValue }.

#[global] Instance TagValue_eq_dec : EqDecision TagValue.
Proof. solve_decision. Defined.
#[global] Instance Message_eq_dec : EqDecision Message.
Proof. solve_decision. Defined.

Definition NewMessage : Message := mkMessage [] [].

Definition set_raw (data : bytes) (m : Message) : Message := mkMessage data (tags m).
Definition set_tags (ts : list TagValue) (m : Message) : Message := mkMessage (raw m) ts.

(** The loop of [Parse].  An error is [Some] of its text, [nil] is [None]. *)
Fixpoint parse_loop (fuel : nat) (data : bytes) (idx : Z) : GoM Message (option string) :=
  if idx <? len data then
    match fuel with
    | O => nofuel
    | S fuel' =>
        rest ← lift (slice_from data idx);
        let eqIdx := IndexByte rest EQ in
        if eqIdx =? -1 then mret None
        else
          let eqIdx := eqIdx + idx in
          tag ← lift (slice data idx eqIdx);
          match Atoi tag with
          | None => mret (Some "invalid tag format")
          | Some tagVal =>
              rest ← lift (slice_from data eqIdx);
              let sohIdx := IndexByte rest SOH in
              let sohIdx := if sohIdx =? -1 then len data - eqIdx else sohIdx in
              let sohIdx := sohIdx + eqIdx in
              modify (λ m, set_tags (tags m ++ [mkTagValue tagVal (eqIdx + 1) sohIdx]) m);;
              parse_loop fuel' data (sohIdx + 1)
          end
    end
  else mret None.

Definition Parse (data : bytes) : GoM Message (option string) :=
  modify (set_raw data);;
  modify (set_tags []);;
  parse_loop (length data) data 0.

(** [for i := range m.tags]: the first tag that matches. *)
Fixpoint find_tag (tag : Z) (ts : list TagValue) : option TagValue :=
  match ts with
  | [] => None
  | t :: ts' => if Tag t =? tag then Some t else find_tag tag ts'
  end.

(** [nil, false] is [None]. *)
Definition GetField (m : Message) (tag : Z) : res (option bytes) :=
  match find_tag tag (tags m) with
  | Some t => v ← slice (raw m) (Start t) (End_ t); mret (Some v)
  | None => mret None
  end.

(** [GetString] copies the value; a missing tag is the empty string and [false]. *)
Definition GetString (m : Message) (tag : Z) : res (bytes * bool) :=
  val ← GetField m tag;
  match val with
  | None => mret (([] : bytes), false)
  | Some v => mret (v, true)
  end.

(** The integer loop of [GetInt], on 64-bit integers. *)
Fixpoint int_loop (acc : Z) (val : bytes) : Z * option string :=
  match val with
  | [] => (acc, None)
  | b :: val' =>
      if (code b <? 48) || (57 <? code b) then (0, Some "invalid integer value")
      else int_loop (wrap_int64 (wrap_int64 (acc * 10) + (code b - 48))) val'
  end.

Definition GetInt (m : Message) (tag : Z) : res (Z * option string) :=
  val ← GetField m tag;
  match val with
  | None => mret (0, Some "tag not found")
  | Some v => mret (int_loop 0 v)
  end.

(** ** Fields as text

    The reference: a message is a sequence of fields [tag=value] that each
    end in SOH. *)

Record field := mkField { fTag : Z; fVal : bytes }.
#[global] Instance field_eq_dec : EqDecision field.
Proof. solve_decision. Defined.

(** A value that survives: it has no SOH in it. *)
Definition field_ok (f : field) : Prop := is_int64 (fTag f) ∧ SOH ∉ fVal f.

Definition enc_field (f : field) : bytes := fmt_d (fTag f) ++ EQ :: fVal f ++ [SOH].
Definition encode (fs : list field) : bytes := fs ≫= enc_field.

(** What [Parse] made of a message: its fields in order. *)
Definition tag_fields (m : Message) : res (list field) :=
  foldr (λ t k, v ← slice (raw m) (Start t) (End_ t);
                fs ← k;
                mret (mkField (Tag t) v :: fs)) (mret []) (tags m).

Definition lookup_field (tag : Z) (fs : list field) : option bytes :=
  fVal <$> List.find (λ f, fTag f =? tag) fs.

(** [covers data ts k]: read from offset [k] on, the boundaries [ts] cut
    [data] into tags, values and separators, up to a tail without [=]. *)
Inductive covers : bytes → Z → list TagValue → Prop :=
  | covers_end data k : EQ ∉ data → covers data k []
  | covers_last tag val k t :
      EQ ∉ tag → SOH ∉ val → Atoi tag = Some (Tag t) →
      Start t = k + len tag + 1 → End_ t = Start t + len val →
      covers (tag ++ EQ :: val) k [t]
  | covers_cons tag val rest k t ts :
      EQ ∉ tag → SOH ∉ val → Atoi tag = Some (Tag t) →
      Start t = k + len tag + 1 → End_ t = Start t + len val →
      covers rest (End_ t + 1) ts →
      covers (tag ++ EQ :: val ++ SOH :: rest) k (t :: ts).

(** ** The loop, one field at a time *)

Lemma parse_loop_end fuel data idx m : len data <= idx → parse_loop fuel data idx m = Ok (None, m).
Proof. intros H. destruct fuel; cbn; by replace (idx <? len data) with false by lia. Qed.

Lemma IndexByte_app c l1 l2 : c ∉ l1 → IndexByte (l1 ++ c :: l2) c = len l1.
Proof. intros H. unfold IndexByte. by rewrite index_of_app. Qed.

Lemma IndexByte_None c l : c ∉ l → IndexByte l c = -1.
Proof. intros H%index_of_None. unfold IndexByte. by rewrite H. Qed.

Lemma field_assoc (pre tag val rest : bytes) :
  pre ++ tag ++ EQ :: val ++ SOH :: rest = (pre ++ tag ++ EQ :: val ++ [SOH]) ++ rest.
Proof. rewrite <-!app_assoc. cbn. by rewrite <-!app_assoc. Qed.

Section step.
Context (fuel : nat) (pre tag : bytes) (m : Message).

(** Up to the tag: [k] is what the loop does with a tag that ends in [=]. *)
Lemma parse_tag r2 :
  EQ ∉ tag →
  parse_loop (S fuel) (pre ++ tag ++ EQ :: r2) (len pre) m =
    match Atoi tag with
    | None => Ok (Some "invalid tag format", m)
    | Some z =>
        let data := pre ++ tag ++ EQ :: r2 in
        let eqIdx := len pre + len tag in
        let soh := IndexByte (EQ :: r2) SOH in
        let sohIdx := (if soh =? -1 then len data - eqIdx else soh) + eqIdx in
        parse_loop fuel data (sohIdx + 1)
          (set_tags (tags m ++ [mkTagValue z (eqIdx + 1) sohIdx]) m)
    end.
Proof using.
  intros Heq. cbn [parse_loop].
  pose proof (len_nonneg tag). pose proof (len_nonneg r2).
  replace (len pre <? len (pre ++ tag ++ EQ :: r2)) with true
    by (rewrite !len_app, len_cons; lia).
  erewrite bind_Ok by (apply lift_Ok, slice_from_app; done). cbn beta.
  rewrite IndexByte_app by done. replace (len tag =? -1) with false by lia. cbv zeta.
  erewrite bind_Ok by (apply lift_Ok, slice_mid; [done|lia]). cbn beta.
  destruct (Atoi tag) as [z|]; [|done].
  erewrite bind_Ok; [|apply lift_Ok; rewrite (app_assoc pre); apply slice_from_app; rewrite len_app; lia].
  cbn beta. go_step. by rewrite (Z.add_comm (len tag)).
Qed.

(** A whole field. *)
Lemma parse_field val rest z :
  EQ ∉ tag → SOH ∉ val → Atoi tag = Some z →
  parse_loop (S fuel) (pre ++ tag ++ EQ :: val ++ SOH :: rest) (len pre) m =
  parse_loop fuel ((pre ++ tag ++ EQ :: val ++ [SOH]) ++ rest)
    (len (pre ++ tag ++ EQ :: val ++ [SOH]))
    (set_tags (tags m ++ [mkTagValue z (len pre + len tag + 1) (len pre + len tag + 1 + len val)]) m).
Proof using.
  intros Heq Hsoh Hz. rewrite parse_tag, Hz by done. cbv zeta.
  change (EQ :: val ++ SOH :: rest) with ((EQ :: val) ++ SOH :: rest).
  rewrite IndexByte_app by (by apply not_elem_of_cons).
  rewrite len_cons. pose proof (len_nonneg val). replace (1 + len val =? -1) with false by lia.
  f_equal.
  - apply field_assoc.
  - rewrite !len_app, len_cons, len_app. change (len [SOH]) with 1. lia.
  - do 3 f_equal. f_equal. lia.
Qed.

(** A last field without a closing SOH. *)
Lemma parse_last val z :
  EQ ∉ tag → SOH ∉ val → Atoi tag = Some z →
  parse_loop (S fuel) (pre ++ tag ++ EQ :: val) (len pre) m =
  Ok (None, set_tags (tags m ++ [mkTagValue z (len pre + len tag + 1)
                                   (len pre + len tag + 1 + len val)]) m).
Proof using.
  intros Heq Hsoh Hz. rewrite parse_tag, Hz by done. cbv zeta.
  rewrite IndexByte_None by (by apply not_elem_of_cons). rewrite Z.eqb_refl.
  rewrite parse_loop_end by lia. do 5 f_equal. rewrite !len_app, len_cons. f_equal. lia.
Qed.
End step.

(** A tail without [=] is ignored. *)
Lemma parse_no_eq fuel pre rest m :
  EQ ∉ rest → (length rest <= fuel)%nat →
  parse_loop fuel (pre ++ rest) (len pre) m = Ok (None, m).
Proof.
  intros Hn Hf. destruct rest as [|c rest]; [rewrite app_nil_r; apply parse_loop_end; lia|].
  destruct fuel as [|fuel]; [cbn in Hf; lia|]. cbn [parse_loop]. pose proof (len_nonneg rest).
  replace (len pre <? len (pre ++ c :: rest)) with true by (rewrite len_app, len_cons; lia).
  erewrite bind_Ok by (apply lift_Ok, slice_from_app; done). cbn beta.
  by rewrite IndexByte_None.
Qed.

(** ** Totality, bounds, and what is accepted *)

(** The boundaries lie in the data and enclose a value without SOH. *)
Definition in_bounds (data : bytes) (t : TagValue) : Prop :=
  ∃ l1 v l3, data = l1 ++ v ++ l3 ∧ (SOH ∉ v) ∧ Start t = len l1 ∧ End_ t = Start t + len v.

Lemma parse_loop_spec fuel pre rest m :
  (length rest <= fuel)%nat →
  ∃ err ts, parse_loop fuel (pre ++ rest) (len pre) m = Ok (err, set_tags (tags m ++ ts) m) ∧
    Forall (in_bounds (pre ++ rest)) ts ∧
    (err = None ∧ covers rest (len pre) ts ∨ err = Some "invalid tag format").
Proof.
  revert pre rest m. induction fuel as [|fuel IH]; intros pre rest m Hf.
  { destruct rest; [|cbn in Hf; lia]. exists None, [].
    rewrite app_nil_r, parse_loop_end, app_nil_r by lia.
    split_and!; [by destruct m|constructor|left]. split; [done|]. constructor. apply not_elem_of_nil. }
  destruct (index_of EQ rest) as [i|] eqn:Hi.
  2:{ exists None, []. apply index_of_None in Hi. split_and!; [|constructor|left; split; [done|by constructor]].
      rewrite app_nil_r, parse_no_eq by done. by destruct m. }
  apply index_of_Some in Hi as (tag & r2 & -> & Htag & _).
  destruct (Atoi tag) as [z|] eqn:Hz.
  2:{ exists (Some "invalid tag format"), []. rewrite parse_tag, Hz, app_nil_r by done.
      split_and!; [by destruct m|constructor|by right]. }
  destruct (index_of SOH r2) as [j|] eqn:Hj.
  2:{ apply index_of_None in Hj. rewrite (parse_last _ _ _ _ _ _ Htag Hj Hz).
      do 2 eexists. split; [done|]. split.
      - constructor; [|constructor]. exists (pre ++ tag ++ [EQ]), r2, [].
        rewrite app_nil_r, !len_app, <-!app_assoc. change (len [EQ]) with 1. cbn.
        split_and!; [done|done|lia|lia].
      - left. split; [done|]. by constructor. }
  apply index_of_Some in Hj as (val & r3 & -> & Hval & _).
  rewrite (parse_field _ _ _ _ _ _ _ Htag Hval Hz).
  destruct (IH (pre ++ tag ++ EQ :: val ++ [SOH]) r3
    (set_tags (tags m ++ [mkTagValue z (len pre + len tag + 1) (len pre + len tag + 1 + len val)]) m))
    as (err & ts & E & Hb & Hc).
  { rewrite !length_app in Hf. cbn in Hf. rewrite length_app in Hf. cbn in Hf. lia. }
  exists err, (mkTagValue z (len pre + len tag + 1) (len pre + len tag + 1 + len val) :: ts).
  rewrite E. cbn. rewrite <-app_assoc. split; [done|].
  rewrite <-field_assoc in Hb.
  split.
  - constructor; [|done]. exists (pre ++ tag ++ [EQ]), val, (SOH :: r3).
    rewrite !len_app, <-!app_assoc. change (len [EQ]) with 1. cbn. split_and!; [done|done|lia|lia].
  - destruct Hc as [[-> Hc]| ->]; [left|by right]. split; [done|]. constructor; auto; cbn.
    replace (len pre + len tag + 1 + len val + 1) with (len (pre ++ tag ++ EQ :: val ++ [SOH])); [done|].
    rewrite !len_app, len_cons, len_app. change (len [SOH]) with 1. lia.
Qed.

Lemma in_bounds_slice data t :
  in_bounds data t → ∃ v, slice data (Start t) (End_ t) = Ok v ∧ SOH ∉ v.
Proof.
  intros (l1 & v & l3 & -> & Hv & HS & HE). exists v. split; [|done].
  apply slice_mid; [done|]. rewrite HE, HS. done.
Qed.

Lemma Parse_spec data m :
  ∃ err ts, Parse data m = Ok (err, mkMessage data ts) ∧ Forall (in_bounds data) ts ∧
    (err = None ∧ covers data 0 ts ∨ err = Some "invalid tag format").
Proof.
  destruct (parse_loop_spec (length data) [] data (mkMessage data [])) as (err & ts & E & ?); [done|].
  exists err, ts. split; [|done]. unfold Parse. do 2 go_step. exact E.
Qed.

(** Accepting is exactly being cut into fields. *)
Lemma covers_parse data ts fuel pre m :
  covers data (len pre) ts → (length data <= fuel)%nat →
  parse_loop fuel (pre ++ data) (len pre) m = Ok (None, set_tags (tags m ++ ts) m).
Proof.
  intros Hc. remember (len pre) as k eqn:Hk. revert fuel pre m Hk.
  induction Hc as [data k Hn|tag val k [z st en] Ht Hv Hz HS HE|tag val rest k [z st en] ts Ht Hv Hz HS HE _ IH];
    intros fuel pre m -> Hf; cbn [Tag Start End_] in *.
  - rewrite parse_no_eq, app_nil_r by done. by destruct m.
  - destruct fuel as [|fuel]; [rewrite length_app in Hf; cbn in Hf; lia|]. subst st en.
    by rewrite (parse_last _ _ _ _ _ _ Ht Hv Hz).
  - rewrite !length_app in Hf. cbn in Hf. rewrite length_app in Hf. cbn in Hf.
    destruct fuel as [|fuel]; [lia|]. subst st en. rewrite (parse_field _ _ _ _ _ _ _ Ht Hv Hz).
    assert (Hk : len pre + len tag + 1 + len val + 1 = len (pre ++ tag ++ EQ :: val ++ [SOH])).
    { rewrite !len_app, len_cons, len_app. change (len [SOH]) with 1. lia. }
    rewrite <-Hk at 1. rewrite IH; [cbn; by rewrite <-app_assoc|done|lia].
Qed.

(** ** Reading fields back *)

(** A tag of the table and the field it denotes. *)
Definition field_at (data : bytes) (t : TagValue) (f : field) : Prop :=
  Tag t = fTag f ∧ slice data (Start t) (End_ t) = Ok (fVal f).

Lemma tag_fields_at data ts fs :
  Forall2 (field_at data) ts fs → tag_fields (mkMessage data ts) = Ok fs.
Proof.
  unfold tag_fields; cbn. induction 1 as [|t f ts fs [Ht Hs] _ IH]; [done|].
  cbn. rewrite Hs. cbn. rewrite IH. cbn. rewrite Ht. by destruct f.
Qed.

Lemma tag_fields_inv m fs : tag_fields m = Ok fs → Forall2 (field_at (raw m)) (tags m) fs.
Proof.
  unfold tag_fields. revert fs. induction (tags m) as [|t ts IH]; intros fs H; cbn in H.
  - injection H as <-. constructor.
  - destruct (slice (raw m) (Start t) (End_ t)) as [v| |] eqn:Hs; [|done..]. cbn in H.
    destruct (foldr _ _ ts) as [fs'| |]; [|done..]. cbn in H. injection H as <-.
    constructor; [done|]. by apply IH.
Qed.

(** [GetField] finds the first field with the tag. *)
Lemma GetField_lookup m fs tag :
  tag_fields m = Ok fs → GetField m tag = Ok (lookup_field tag fs).
Proof.
  intros H%tag_fields_inv. unfold GetField, lookup_field.
  induction H as [|t f ts fs [Ht Hs] _ IH]; [done|]. cbn. rewrite Ht.
  destruct (fTag f =? tag); [|exact IH]. cbn. by rewrite Hs.
Qed.

(** After [Parse] every boundary can be read. *)
Lemma in_bounds_fields data ts :
  Forall (in_bounds data) ts →
  ∃ fs, tag_fields (mkMessage data ts) = Ok fs ∧ Forall (λ f, SOH ∉ fVal f) fs.
Proof.
  intros H. assert (∃ fs, Forall2 (field_at data) ts fs ∧ Forall (λ f, SOH ∉ fVal f) fs) as (fs & ? & ?).
  { induction H as [|t ts Ht _ (fs & IH1 & IH2)]; [by exists []|].
    destruct (in_bounds_slice _ _ Ht) as (v & Hs & Hv).
    exists (mkField (Tag t) v :: fs). split; constructor; done. }
  exists fs. split; [|done]. by apply tag_fields_at.
Qed.

Lemma lookup_field_ok tag fs v :
  Forall (λ f, SOH ∉ fVal f) fs → lookup_field tag fs = Some v → SOH ∉ v.
Proof.
  intros Hfs H. apply fmap_Some in H as (f & Hf & ->). apply List.find_some in Hf as [Hf _].
  rewrite Forall_forall in Hfs. apply Hfs. by apply list_elem_of_In.
Qed.

(** ** Encoded messages parse back *)

Lemma is_digit_ne c x : is_digit c → code x < 48 ∨ 57 < code x → c ≠ x.
Proof. intros H ? ->. unfold is_digit in H. lia. Qed.

Lemma digits_not_elem c fuel n : code c < 48 ∨ 57 < code c → 0 <= n → c ∉ digits fuel n.
Proof.
  intros Hc Hn Hin. pose proof (digits_are_digits fuel n Hn) as Hd. rewrite Forall_forall in Hd.
  by apply (is_digit_ne c c (Hd _ Hin) Hc).
Qed.

Lemma fmt_d_not_elem c n : code c < 48 ∨ 57 < code c → c ≠ "-"%char → c ∉ fmt_d n.
Proof.
  intros Hc Hne. unfold fmt_d. destruct (Z.ltb_spec n 0).
  - apply not_elem_of_cons. split; [done|]. apply digits_not_elem; [done|lia].
  - by apply digits_not_elem.
Qed.

Lemma fmt_d_EQ n : EQ ∉ fmt_d n.
Proof. apply fmt_d_not_elem; [right; by vm_compute|done]. Qed.
Lemma fmt_d_SOH n : SOH ∉ fmt_d n.
Proof. apply fmt_d_not_elem; [left; by vm_compute|done]. Qed.

Lemma parse_loop_encode fuel pre fs m :
  Forall field_ok fs → (length (encode fs) <= fuel)%nat →
  ∃ ts, parse_loop fuel (pre ++ encode fs) (len pre) m = Ok (None, set_tags (tags m ++ ts) m) ∧
    Forall2 (field_at (pre ++ encode fs)) ts fs.
Proof.
  intros Hok. revert fuel pre m. induction Hok as [|[z v] fs [Hz Hv] Hok IH]; intros fuel pre m Hf.
  - exists []. cbn. rewrite app_nil_r, parse_loop_end, app_nil_r by lia. split; [by destruct m|constructor].
  - cbn [fTag fVal] in *.
    assert (E : encode (mkField z v :: fs) = fmt_d z ++ EQ :: v ++ SOH :: encode fs).
    { unfold encode; cbn. unfold enc_field; cbn. rewrite <-app_assoc; cbn. by rewrite <-app_assoc. }
    rewrite E in *. rewrite !length_app in Hf. cbn in Hf. rewrite length_app in Hf. cbn in Hf.
    destruct fuel as [|fuel]; [lia|].
    rewrite (parse_field _ _ _ _ _ _ _ (fmt_d_EQ z) Hv (Atoi_fmt_d z Hz)).
    edestruct (IH fuel (pre ++ fmt_d z ++ EQ :: v ++ [SOH])) as (ts & -> & HF); [lia|].
    eexists (_ :: ts). cbn. rewrite <-app_assoc. split; [done|]. rewrite <-field_assoc in HF.
    constructor; [|exact HF]. split; [done|]. cbn [Start End_ fVal].
    assert (Hd : pre ++ fmt_d z ++ EQ :: v ++ SOH :: encode fs =
      (pre ++ fmt_d z ++ [EQ]) ++ v ++ SOH :: encode fs) by (by rewrite <-!app_assoc).
    rewrite Hd. apply slice_mid; rewrite !len_app; change (len [EQ]) with 1; lia.
Qed.

Lemma Parse_encode fs m :
  Forall field_ok fs →
  ∃ m', Parse (encode fs) m = Ok (None, m') ∧ tag_fields m' = Ok fs.
Proof.
  intros Hok.
  destruct (parse_loop_encode (length (encode fs)) [] fs (mkMessage (encode fs) []) Hok)
    as (ts & E & HF); [done|].
  exists (mkMessage (encode fs) ts). split; [|by apply tag_fields_at].
  unfold Parse. do 2 go_step. exact E.
Qed.

(** ** Integers *)

Lemma wrap_int64_mod x y : x mod 2 ^ 64 = y mod 2 ^ 64 → wrap_int64 x = wrap_int64 y.
Proof.
  intros H. unfold wrap_int64. f_equal.
  rewrite <-(Z.add_mod_idemp_l x), H, Z.add_mod_idemp_l by lia. done.
Qed.

Lemma wrap_int64_rep x : wrap_int64 x mod 2 ^ 64 = x mod 2 ^ 64.
Proof.
  unfold wrap_int64. rewrite Zminus_mod_idemp_l. f_equal. lia.
Qed.

Lemma wrap_int64_step a d :
  wrap_int64 (wrap_int64 (wrap_int64 a * 10) + d) = wrap_int64 (a * 10 + d).
Proof.
  apply wrap_int64_mod. rewrite <-Z.add_mod_idemp_l, wrap_int64_rep by lia.
  rewrite <-Z.mul_mod_idemp_l, wrap_int64_rep, Z.mul_mod_idemp_l, Z.add_mod_idemp_l by lia. done.
Qed.

(** [GetInt]'s loop computes the decimal value modulo 2^64, or fails. *)
Lemma int_loop_spec a val :
  int_loop (wrap_int64 a) val =
    match digits_val a val with
    | Some n => (wrap_int64 n, None)
    | None => (0, Some "invalid integer value")
    end.
Proof.
  revert a. induction val as [|c val IH]; intros a; [done|]. cbn [int_loop digits_val].
  unfold digit_val. destruct ((48 <=? code c) && (code c <=? 57)) eqn:E.
  - replace ((code c <? 48) || (57 <? code c)) with false by lia. cbn [mbind option_bind].
    rewrite wrap_int64_step. apply IH.
  - by replace ((code c <? 48) || (57 <? code c)) with true by lia.
Qed.
