(* ===== verification/FixSession.v ===== *)
(** * FIX sessions

    pkg/fix/session.go: the message formatter and the request/response loop
    of one connection.  The clock is an input: [ts] is the formatted UTC time
    and [nano] the reading of [UnixNano].  What the loop writes to the
    connection is kept in the session state, in order. *)

From stdpp Require Import prelude list strings.
From Stdlib Require Import ZArith Lia Ascii.
From S2P Require Import Prelude GoBytes FixParser.

Local Open Scope Z_scope.

(** ** [formatFIXMessage] *)

(** [for i := 0; i < len(fullMsg); i++ { sum += int(fullMsg[i]) }]. *)
Fixpoint sum_loop (sum : Z) (l : bytes) : Z :=
  match l with [] => sum | c :: l' => sum_loop (wrap_int64 (sum + code c)) l' end.

Definition formatFIXMessage (ts msgType : bytes) (seqNum : Z) (sender target body : bytes) : bytes :=
  let head := str "35=" ++ msgType ++ SOH :: str "49=" ++ sender ++ SOH :: str "56=" ++ target ++
              SOH :: str "34=" ++ fmt_d seqNum ++ SOH :: str "52=" ++ ts ++ [SOH] in
  let raw := if bool_decide (body = []) then head else head ++ body ++ [SOH] in
  let length := len raw in
  let header := str "8=FIX.4.2" ++ SOH :: str "9=" ++ fmt_d length ++ [SOH] in
  let fullMsg := header ++ raw in
  let sum := sum_loop 0 fullMsg in
  let checksum := str "10=" ++ fmt_0d 3 (Z.rem sum 256) ++ [SOH] in
  fullMsg ++ checksum.

(** ** The connection loop *)

Record Session := mkSession { sMsg : Message; sSeqNum : Z; sOut : list bytes }.

(** Run an operation on the session's message. *)
Definition on_msg {A} (f : GoM Message A) : GoM Session A := λ s,
  match f (sMsg s) with
  | Ok (a, m) => Ok (a, mkSession m (sSeqNum s) (sOut s))
  | Panic => Panic
  | NoFuel => NoFuel
  end.

(** [val, _ := msg.GetString(tag)]. *)
Definition get_string (tag : Z) : GoM Session (bytes * bool) := λ s,
  lift (GetString (sMsg s) tag) s.

(** [conn.Write]; its result is ignored. *)
Definition conn_write (w : bytes) : GoM Session unit :=
  modify (λ s, mkSession (sMsg s) (sSeqNum s) (sOut s ++ [w])).
(** [seqNum++]. *)
Definition incr_seq : GoM Session unit :=
  modify (λ s, mkSession (sMsg s) (wrap_int64 (sSeqNum s + 1)) (sOut s)).

(** What an iteration of the loop sees: the context is done, the read failed
    (or reached the end), or a packet with the clock readings made for it. *)
Inductive event :=
  | CtxDone
  | ReadError
  | Packet (data ts : bytes) (nano : Z).

(** Format, write, and advance the sequence number. *)
Definition respond (ts msgType sender target body : bytes) : GoM Session unit :=
  seqNum ← gets sSeqNum;
  conn_write (formatFIXMessage ts msgType seqNum sender target body);;
  incr_seq.

Definition exec_body (orderID symbol side price qty : bytes) (nano : Z) : bytes :=
  str "37=exec-" ++ orderID ++ SOH :: str "11=" ++ orderID ++
  SOH :: str "17=trade-" ++ fmt_d nano ++
  SOH :: str "150=2" ++ SOH :: str "39=2" ++
  SOH :: str "55=" ++ symbol ++ SOH :: str "54=" ++ side ++
  SOH :: str "38=" ++ qty ++ SOH :: str "44=" ++ price.

(** The switch on the message type. *)
Definition dispatch (ts : bytes) (nano : Z) (msgType senderCompID : bytes) : GoM Session unit :=
  if bool_decide (msgType = str "A") then
    respond ts (str "A") (str "ENGINE") senderCompID (str "98=0" ++ SOH :: str "108=30")
  else if bool_decide (msgType = str "0") then
    respond ts (str "0") (str "ENGINE") senderCompID []
  else if bool_decide (msgType = str "D") then
    orderID ← get_string 11;
    symbol ← get_string 55;
    side ← get_string 54;
    price ← get_string 44;
    qty ← get_string 38;
    respond ts (str "8") (str "ENGINE") senderCompID
      (exec_body orderID.1 symbol.1 side.1 price.1 qty.1 nano)
  else mret tt.

(** One iteration; [false] means that the handler returned. *)
Definition iteration (e : event) : GoM Session bool :=
  match e with
  | CtxDone | ReadError => mret false
  | Packet data ts nano =>
      err ← on_msg (Parse data);
      match err with
      | Some _ => mret true
      | None =>
          msgType ← get_string 35;
          if negb msgType.2 then mret true
          else
            senderCompID ← get_string 49;
            targetCompID ← get_string 56;
            dispatch ts nano msgType.1 senderCompID.1;;
            mret true
      end
  end.

Definition new_session : Session := mkSession NewMessage 1 [].

(** [handleConnection] on the events of a connection. *)
Fixpoint connection_loop (es : list event) : GoM Session unit :=
  match es with
  | [] => mret tt
  | e :: es' =>
      continue ← iteration e;
      if (continue : bool) then connection_loop es' else mret tt
  end.

Definition handleConnection (es : list event) : res (list bytes) :=
  match connection_loop es new_session with
  | Ok (_, s) => Ok (sOut s)
  | Panic => Panic
  | NoFuel => NoFuel
  end.

(** ** The protocol: which reply a message gets *)

Definition get (tag : Z) (fs : list field) : bytes := default [] (lookup_field tag fs).

Definition reply_head (ty : string) (ts : bytes) (seq : Z) (fs : list field) : list field :=
  [mkField 35 (str ty); mkField 49 (str "ENGINE"); mkField 56 (get 49 fs);
   mkField 34 (fmt_d seq); mkField 52 ts].

Definition reply (ts : bytes) (nano seq : Z) (fs : list field) : option (list field) :=
  mt ← lookup_field 35 fs;
  if bool_decide (mt = str "A") then
    Some (reply_head "A" ts seq fs ++ [mkField 98 (str "0"); mkField 108 (str "30")])
  else if bool_decide (mt = str "0") then Some (reply_head "0" ts seq fs)
  else if bool_decide (mt = str "D") then
    Some (reply_head "8" ts seq fs ++
      [mkField 37 (str "exec-" ++ get 11 fs); mkField 11 (get 11 fs);
       mkField 17 (str "trade-" ++ fmt_d nano); mkField 150 (str "2"); mkField 39 (str "2");
       mkField 55 (get 55 fs); mkField 54 (get 54 fs); mkField 38 (get 38 fs);
       mkField 44 (get 44 fs)])
  else None.

(** Header and trailer around the fields of a message: version, length of
    what follows the header, and checksum of everything before the trailer. *)
Definition byte_sum (l : bytes) : Z := foldr (λ c, Z.add (code c)) 0 l.
Definition enveloped (fs : list field) : list field :=
  let hdr := [mkField 8 (str "FIX.4.2"); mkField 9 (fmt_d (len (encode fs)))] in
  (hdr ++ fs) ++ [mkField 10 (fmt_0d 3 (byte_sum (encode (hdr ++ fs)) mod 256))].

(** ** Formatting *)

Lemma code_bounds c : 0 <= code c < 256.
Proof. unfold code. pose proof (N_ascii_bounded c). lia. Qed.

Lemma byte_sum_bounds l : 0 <= byte_sum l <= 255 * len l.
Proof.
  induction l as [|c l IH]; [done|]. cbn [byte_sum foldr]. rewrite len_cons.
  pose proof (code_bounds c). unfold byte_sum in IH. lia.
Qed.

Lemma sum_loop_spec s l : 0 <= s → s + 255 * len l < 2 ^ 63 → sum_loop s l = s + byte_sum l.
Proof.
  revert s. induction l as [|c l IH]; intros s Hs Hb; cbn [sum_loop byte_sum foldr]; [lia|].
  rewrite len_cons in Hb. pose proof (code_bounds c). pose proof (len_nonneg l).
  rewrite wrap_int64_id by (unfold is_int64; lia). rewrite IH by lia. unfold byte_sum. lia.
Qed.

Lemma encode_cons f fs : encode (f :: fs) = enc_field f ++ encode fs.
Proof. done. Qed.
Lemma encode_app fs gs : encode (fs ++ gs) = encode fs ++ encode gs.
Proof. apply bind_app. Qed.

Lemma enc_field_app tag v l : enc_field (mkField tag v) ++ l = fmt_d tag ++ EQ :: v ++ SOH :: l.
Proof. unfold enc_field; cbn [fTag fVal]. rewrite <-app_assoc; cbn [app]. by rewrite <-app_assoc. Qed.

Lemma len_digits fuel n : len (digits fuel n) <= Z.of_nat fuel.
Proof.
  revert n. induction fuel as [|fuel IH]; intros n; [done|]. cbn [digits].
  destruct (n <? 10); [rewrite len_cons; change (len []) with 0; lia|].
  rewrite len_app. change (len [_]) with 1. specialize (IH (n / 10)). lia.
Qed.

Lemma len_fmt_d n : len (fmt_d n) <= 21.
Proof.
  unfold fmt_d. destruct (n <? 0); [rewrite len_cons; pose proof (len_digits 20 (- n))|
    pose proof (len_digits 20 n)]; lia.
Qed.

Lemma len_enc_field tag v : len (enc_field (mkField tag v)) <= 23 + len v.
Proof.
  unfold enc_field; cbn [fTag fVal]. rewrite len_app, len_cons, len_app.
  change (len [SOH]) with 1. pose proof (len_fmt_d tag). lia.
Qed.

(** The body handed to the formatter is a list of fields without its last SOH. *)
Definition body_of (bf : list field) (body : bytes) : Prop :=
  bf = [] ∧ body = [] ∨ body ≠ [] ∧ encode bf = body ++ [SOH].

Lemma formatFIXMessage_encode ts mt seq snd tgt body bf :
  body_of bf body →
  let fs := [mkField 35 mt; mkField 49 snd; mkField 56 tgt; mkField 34 (fmt_d seq); mkField 52 ts] ++ bf in
  len (encode fs) < 2 ^ 54 →
  formatFIXMessage ts mt seq snd tgt body = encode (enveloped fs).
Proof.
  intros Hbody fs Hlen. unfold formatFIXMessage.
  set (head := str "35=" ++ _). set (raw := if bool_decide _ then head else _).
  assert (Hhead : head ++ encode bf = encode fs).
  { subst head fs. rewrite encode_app, !encode_cons, <-!app_assoc.
    rewrite !enc_field_app. cbn [encode mbind list_bind app].
    repeat (rewrite <-app_assoc; cbn [app]). reflexivity. }
  assert (Hraw : raw = encode fs).
  { rewrite <-Hhead. subst raw. destruct Hbody as [[-> ->]|[Hne ->]].
    - rewrite bool_decide_true by done. cbn. by rewrite app_nil_r.
    - by rewrite bool_decide_false by done. }
  rewrite Hraw. set (hdr := str "8=FIX.4.2" ++ _).
  assert (Hhdr : ∀ l, hdr ++ l = encode [mkField 8 (str "FIX.4.2"); mkField 9 (fmt_d (len (encode fs)))] ++ l).
  { intros l. subst hdr. rewrite !encode_cons, <-!app_assoc, !enc_field_app. cbn [encode mbind list_bind app].
    repeat (rewrite <-app_assoc; cbn [app]). reflexivity. }
  unfold enveloped. set (H89 := [mkField 8 _; mkField 9 _]) in *.
  rewrite (encode_app (H89 ++ fs)), (encode_app H89), Hhdr.
  assert (Hsum : Z.rem (sum_loop 0 (encode H89 ++ encode fs)) 256 =
                 byte_sum (encode H89 ++ encode fs) mod 256).
  { rewrite sum_loop_spec; [|lia|].
    - cbn [Z.add]. apply Z.rem_mod_nonneg; [apply byte_sum_bounds|lia].
    - rewrite len_app. subst H89. rewrite !encode_cons, !len_app. change (len (encode [])) with 0.
      pose proof (len_enc_field 8 (str "FIX.4.2")).
      pose proof (len_enc_field 9 (fmt_d (len (encode fs)))).
      pose proof (len_fmt_d (len (encode fs))). change (len (str "FIX.4.2")) with 7 in *. lia. }
  rewrite Hsum, encode_cons, enc_field_app. reflexivity.
Qed.

(** ** Values of a parsed message *)

Lemma field_len m fs f : tag_fields m = Ok fs → f ∈ fs → len (fVal f) <= len (raw m).
Proof.
  intros H%tag_fields_inv Hf. apply list_elem_of_lookup in Hf as [i Hi].
  destruct (Forall2_lookup_r _ _ _ _ _ H Hi) as (t & _ & _ & Hs). unfold slice in Hs.
  destruct (_ && _); [|done]. injection Hs as <-. unfold len.
  rewrite length_take, length_drop. lia.
Qed.

Lemma get_len m fs tag : tag_fields m = Ok fs → len (get tag fs) <= len (raw m).
Proof.
  intros H. unfold get, lookup_field.
  destruct (List.find _ fs) as [f|] eqn:E; cbn; [|apply len_nonneg].
  apply List.find_some in E as [E _]. eapply field_len; [done|]. by apply list_elem_of_In.
Qed.

Lemma get_ok fs tag : Forall (λ f, SOH ∉ fVal f) fs → SOH ∉ get tag fs.
Proof.
  intros H. unfold get. destruct (lookup_field tag fs) as [v|] eqn:E; cbn.
  - by eapply lookup_field_ok.
  - apply not_elem_of_nil.
Qed.

Lemma GetString_get m fs tag :
  tag_fields m = Ok fs →
  GetString m tag = Ok (get tag fs, bool_decide (is_Some (lookup_field tag fs))).
Proof.
  intros H. unfold GetString, get. rewrite (GetField_lookup _ _ _ H). cbn.
  by destruct (lookup_field tag fs).
Qed.

Lemma get_string_Ok s fs tag :
  tag_fields (sMsg s) = Ok fs →
  get_string tag s = Ok ((get tag fs, bool_decide (is_Some (lookup_field tag fs))), s).
Proof. intros H. unfold get_string. by apply lift_Ok, GetString_get. Qed.

(** ** One iteration implements the protocol *)

Lemma len_encode B fs : Forall (λ f, len (fVal f) <= B) fs → len (encode fs) <= (23 + B) * len fs.
Proof.
  induction 1 as [|[z v] fs Hf _ IH]; [change (len (encode [])) with 0; change (len (@nil field)) with 0; lia|]. cbn [fVal] in Hf.
  rewrite encode_cons, len_app, len_cons. pose proof (len_enc_field z v). lia.
Qed.

Ltac len_solve :=
  first
    [ lia
    | rewrite len_app; change (len (str "exec-")) with 5; lia
    | rewrite len_app; change (len (str "trade-")) with 6; lia
    | by vm_compute ].

Section iteration.
Context (data ts : bytes) (nano : Z) (ms : list TagValue) (fs : list field).
Hypothesis Hdata : len data <= 4096.
Hypothesis Hts : len ts <= 64.
Hypothesis Hfs : tag_fields (mkMessage data ms) = Ok fs.

Lemma get_short tag : len (get tag fs) <= 4096.
Proof using Hdata Hfs. pose proof (get_len _ _ tag Hfs). cbn [raw] in *. lia. Qed.

(** Every value of a reply is short. *)
Lemma reply_short seq r : reply ts nano seq fs = Some r → Forall (λ f, len (fVal f) <= 4160) r.
Proof using Hdata Hts Hfs.
  unfold reply, reply_head. intros H. apply bind_Some in H as (mt & _ & H).
  pose proof (len_fmt_d seq). pose proof (len_fmt_d nano).
  pose proof (get_short 49). pose proof (get_short 11). pose proof (get_short 55).
  pose proof (get_short 54). pose proof (get_short 38). pose proof (get_short 44).
  repeat case_bool_decide; simplify_eq; cbn [app];
    repeat (apply Forall_cons; split; [cbn [fVal]; len_solve|]);
    constructor.
Qed.

Lemma respond_encode s m ty body bf :
  let r := reply_head ty ts (sSeqNum s) fs ++ bf in
  sMsg s = m → body_of bf body → Forall (λ f, len (fVal f) <= 4160) r → len r <= 100 →
  respond ts (str ty) (str "ENGINE") (get 49 fs) body s =
    Ok (tt, mkSession m (wrap_int64 (sSeqNum s + 1)) (sOut s ++ [encode (enveloped r)])).
Proof using.
  intros r <- Hb Hr Hl. unfold respond. go_step.
  rewrite (formatFIXMessage_encode _ _ _ _ _ _ bf Hb); [done|].
  pose proof (len_encode 4160 r Hr). subst r. unfold reply_head in *. lia.
Qed.

Lemma exec_body_of orderID symbol side price qty n :
  body_of [mkField 37 (str "exec-" ++ orderID); mkField 11 orderID;
       mkField 17 (str "trade-" ++ fmt_d n); mkField 150 (str "2"); mkField 39 (str "2");
       mkField 55 symbol; mkField 54 side; mkField 38 qty; mkField 44 price]
    (exec_body orderID symbol side price qty n).
Proof using.
  right. split; [done|]. unfold exec_body. rewrite !encode_cons, !enc_field_app.
  repeat (rewrite <-app_assoc; cbn [app]). reflexivity.
Qed.

Lemma dispatch_spec s mt :
  sMsg s = mkMessage data ms → lookup_field 35 fs = Some mt →
  dispatch ts nano mt (get 49 fs) s =
    Ok (tt, match reply ts nano (sSeqNum s) fs with
            | Some r => mkSession (sMsg s) (wrap_int64 (sSeqNum s + 1)) (sOut s ++ [encode (enveloped r)])
            | None => s
            end).
Proof using Hdata Hts Hfs.
  intros Hm Hmt. pose proof (reply_short (sSeqNum s)) as Hshort. unfold dispatch, reply in *.
  rewrite Hmt in *. cbn [mbind option_bind] in *.
  assert (Hf : tag_fields (sMsg s) = Ok fs) by by rewrite Hm.
  case_bool_decide; [|case_bool_decide; [|case_bool_decide; [|by destruct s]]].
  - apply respond_encode; [done|right; split; [done|reflexivity]|by apply Hshort|done].
  - rewrite <-(app_nil_r (reply_head _ _ _ _)).
    apply respond_encode; [done|by left|rewrite app_nil_r; by apply Hshort|done].
  - do 5 (erewrite bind_Ok by (by apply get_string_Ok); cbn beta). cbn [fst].
    apply respond_encode; [done|apply exec_body_of|by apply Hshort|done].
Qed.
End iteration.

(** The session after a packet whose fields are [fs]. *)
Definition session_after (ts : bytes) (nano : Z) (err : option string) (fs : list field)
    (m : Message) (s : Session) : Session :=
  match err, reply ts nano (sSeqNum s) fs with
  | None, Some r => mkSession m (wrap_int64 (sSeqNum s + 1)) (sOut s ++ [encode (enveloped r)])
  | _, _ => mkSession m (sSeqNum s) (sOut s)
  end.

Lemma iteration_spec data ts nano s :
  len data <= 4096 → len ts <= 64 →
  ∃ err m fs, Parse data (sMsg s) = Ok (err, m) ∧ tag_fields m = Ok fs ∧
    Forall (λ f, SOH ∉ fVal f) fs ∧
    iteration (Packet data ts nano) s = Ok (true, session_after ts nano err fs m s).
Proof.
  intros Hd Ht. destruct (Parse_spec data (sMsg s)) as (err & ms & EP & Hb & _).
  destruct (in_bounds_fields _ _ Hb) as (fs & Hfs & Hsoh).
  exists err, (mkMessage data ms), fs. split_and!; [done..|]. cbn [iteration].
  set (s1 := mkSession (mkMessage data ms) (sSeqNum s) (sOut s)).
  assert (E1 : on_msg (Parse data) s = Ok (err, s1)) by (unfold on_msg; by rewrite EP).
  rewrite (bind_Ok _ _ _ _ _ E1). unfold session_after. destruct err as [e|]; [done|].
  assert (Hg : ∀ tag, get_string tag s1 =
    Ok ((get tag fs, bool_decide (is_Some (lookup_field tag fs))), s1))
    by (intros tag; by apply get_string_Ok).
  rewrite (bind_Ok _ _ _ _ _ (Hg 35)). cbn [fst snd]. unfold get at 1.
  destruct (lookup_field 35 fs) as [mt|] eqn:Hmt.
  - rewrite bool_decide_true by eauto. cbn [negb].
    rewrite (bind_Ok _ _ _ _ _ (Hg 49)), (bind_Ok _ _ _ _ _ (Hg 56)). cbn [fst default].
    rewrite (bind_Ok _ _ _ _ _ (dispatch_spec data ts nano ms fs Hd Ht Hfs s1 mt eq_refl Hmt)).
    cbn [sSeqNum s1]. by destruct (reply ts nano (sSeqNum s) fs).
  - rewrite bool_decide_false by (by intros [? ?]). cbn. unfold reply. by rewrite Hmt.
Qed.

(** ** Replies are well formed *)

Lemma fmt_0d_SOH w n : SOH ∉ fmt_0d w n.
Proof.
  assert (Hz : ∀ k, SOH ∉ zeros k).
  { intros k [H _]%elem_of_replicate. done. }
  assert (Hd : ∀ n, 0 <= n → SOH ∉ digits 20 n).
  { intros. apply digits_not_elem; [left; by vm_compute|done]. }
  unfold fmt_0d. destruct (Z.ltb_spec n 0).
  - apply not_elem_of_cons. split; [done|]. apply not_elem_of_app. auto with lia.
  - apply not_elem_of_app. auto.
Qed.

Ltac field_solve :=
  split; [unfold is_int64; cbn [fTag]; lia|]; cbn [fVal];
  first
    [ assumption | by apply get_ok | apply fmt_d_SOH | apply fmt_0d_SOH
    | apply not_elem_of_app; split; [|first [by apply get_ok | apply fmt_d_SOH]]
    | idtac ];
  try by (apply (bool_decide_unpack _); vm_compute).

Lemma reply_ok ts nano seq fs r :
  SOH ∉ ts → Forall (λ f, SOH ∉ fVal f) fs → reply ts nano seq fs = Some r → Forall field_ok r.
Proof.
  intros Hts Hfs H. unfold reply, reply_head in H. apply bind_Some in H as (mt & _ & H).
  repeat case_bool_decide; simplify_eq; cbn [app];
    repeat (apply Forall_cons; split; [field_solve|]); constructor.
Qed.

Lemma enveloped_ok fs : Forall field_ok fs → Forall field_ok (enveloped fs).
Proof.
  intros H. unfold enveloped. rewrite !Forall_app. split_and!; [|done|].
  - repeat (apply Forall_cons; split; [field_solve|]); constructor.
  - apply Forall_cons. split; [field_solve|constructor].
Qed.

(** ** The listener

    [Start] and [Stop].  What the accept loop sees is a sequence of events: a
    connection, a failed [Accept], or a call of [Stop] (by the owner or by
    the goroutine that waits for the context) in between. *)

Record SessionServer := mkSessionServer {
  port : string;
  listener : option bool;   (** [None] before [Listen]; [Some open] after *)
  active : bool;
}.

Definition NewSessionServer (p : string) : SessionServer := mkSessionServer p None false.

Definition Stop (s : SessionServer) : SessionServer :=
  mkSessionServer (port s) (match listener s with Some _ => Some false | None => None end) false.

Inductive accept_event := Accepted | AcceptFailed | Stopped.
#[global] Instance accept_event_eq_dec : EqDecision accept_event.
Proof. solve_decision. Defined.

(** The number of connections handed to [handleConnection], and whether the
    loop has returned. *)
Fixpoint accept_loop (es : list accept_event) (s : SessionServer) (handled : nat) :
    SessionServer * nat * bool :=
  match es with
  | [] => (s, handled, false)
  | Accepted :: es' => accept_loop es' s (S handled)
  | AcceptFailed :: es' => if active s then accept_loop es' s handled else (s, handled, true)
  | Stopped :: es' => accept_loop es' (Stop s) handled
  end.

(** [Start]: [listened] is whether [net.Listen] succeeded; the error, or the
    state of the accept loop. *)
Definition Start (listened : bool) (es : list accept_event) (s : SessionServer) :
    string + (SessionServer * nat * bool) :=
  if listened then
    inr (accept_loop es (mkSessionServer (port s) (Some true) true) 0)
  else inl ("failed to bind FIX server to port " +:+ port s).

Lemma accept_loop_inactive es s n :
  active s = false →
  let '(s', n', returned) := accept_loop es s n in
  active s' = false ∧ (returned = true ↔ AcceptFailed ∈ es).
Proof.
  revert s n. induction es as [|[| |] es IH]; intros s n Hs; cbn.
  - split; [done|]. split; [done|intros H; by apply not_elem_of_nil in H].
  - specialize (IH s (S n) Hs). destruct (accept_loop es s (S n)) as [[s' n'] ret].
    rewrite elem_of_cons. naive_solver.
  - rewrite Hs. split; [done|]. rewrite elem_of_cons. naive_solver.
  - specialize (IH (Stop s) n eq_refl). destruct (accept_loop es (Stop s) n) as [[s' n'] ret].
    rewrite elem_of_cons. naive_solver.
Qed.

(** While the server is active, failed accepts do not end the loop. *)
Lemma accept_loop_active es s n :
  active s = true → Stopped ∉ es →
  accept_loop es s n = (s, (n + length (filter (Accepted =.) es))%nat, false).
Proof.
  revert n. induction es as [|[| |] es IH]; intros n Hs Hn; cbn [accept_loop].
  - cbn. by rewrite Nat.add_0_r.
  - apply not_elem_of_cons in Hn as [_ Hn]. rewrite IH by done.
    rewrite filter_cons_True by done. cbn. by rewrite Nat.add_succ_r.
  - apply not_elem_of_cons in Hn as [_ Hn]. rewrite Hs, IH by done.
    by rewrite filter_cons_False.
  - apply not_elem_of_cons in Hn as [Hn _]. done.
Qed.
