(* ===== verification/FixProps.v ===== *)
(** * What the FIX gateway guarantees

    The properties of pkg/fix: the parser is total and memory safe on any
    input and inverts the encoding of fields, the formatter emits messages
    with a correct length and checksum, and a session answers each packet by
    the protocol of [reply] with consecutive sequence numbers. *)

From stdpp Require Import prelude list strings.
From Stdlib Require Import ZArith Lia Ascii.
From S2P Require Import Prelude GoBytes FixParser FixSession.

Local Open Scope Z_scope.

(** ** The parser *)

(** [Parse] is total on every byte slice: it does not panic and ends; it
    forgets what the message held before; the only error is an invalid tag;
    and afterwards [GetField] cannot panic for any tag, also after an error,
    and never returns a value that contains a separator. *)
Theorem parse_total data :
  ∃ err m', (∀ m, Parse data m = Ok (err, m')) ∧
    (err = None ∨ err = Some "invalid tag format") ∧
    ∀ tag, ∃ v, GetField m' tag = Ok v ∧ ∀ x, v = Some x → SOH ∉ x.
Proof.
  destruct (Parse_spec data NewMessage) as (err & ts & E & Hb & Herr).
  destruct (in_bounds_fields _ _ Hb) as (fs & Hfs & Hsoh).
  exists err, (mkMessage data ts). split_and!.
  - intros m. exact E.
  - destruct Herr as [[-> _]| ->]; auto.
  - intros tag. exists (lookup_field tag fs). split; [by apply GetField_lookup|].
    intros x. by apply lookup_field_ok.
Qed.

(** What [Parse] accepts: it returns no error exactly when the data is a
    sequence of [tag=value] texts with numeric tags, separated by SOH, with
    the last separator optional and a tail without [=] ignored; the table it
    builds are the boundaries of those values. *)
Theorem parse_accepts data m m' :
  Parse data m = Ok (None, m') ↔ raw m' = data ∧ covers data 0 (tags m').
Proof.
  split.
  - destruct (Parse_spec data m) as (err & ts & E & _ & H). rewrite E. intros [= -> <-].
    by destruct H as [[_ H]|].
  - intros [Hr Hc]. unfold Parse. do 2 go_step.
    rewrite (covers_parse data (tags m') (length data) [] _ Hc) by done. cbn. rewrite <-Hr.
    by destruct m'.
Qed.

(** C22: Round trip: the encoding of any list of fields whose values have no
    SOH parses without error to exactly those fields, in order, and
    [GetString] returns the value of the first field with the tag. *)
Theorem parse_encode_roundtrip fs m :
  Forall field_ok fs →
  ∃ m', Parse (encode fs) m = Ok (None, m') ∧ tag_fields m' = Ok fs ∧
    ∀ tag, GetString m' tag = Ok (default [] (lookup_field tag fs),
                                  bool_decide (is_Some (lookup_field tag fs))).
Proof.
  intros Hok. destruct (Parse_encode fs m Hok) as (m' & E & Hfs). exists m'.
  split_and!; [done..|]. intros tag. by apply GetString_get.
Qed.

Definition ex_logon : list field :=
  [mkField 8 (str "FIX.4.2"); mkField 35 (str "A"); mkField 49 (str "CLIENT1");
   mkField 56 (str "ENGINE"); mkField 34 (str "1")].

Ltac fields_ok :=
  repeat (apply Forall_cons; split;
    [split; [unfold is_int64; cbn [fTag]; lia|apply (bool_decide_unpack _); vm_compute; exact I]|]);
  constructor.

Lemma parse_encode_roundtrip_witness :
  ∃ m', Parse (encode ex_logon) NewMessage = Ok (None, m') ∧ tag_fields m' = Ok ex_logon ∧
    ∀ tag, GetString m' tag = Ok (default [] (lookup_field tag ex_logon),
                                  bool_decide (is_Some (lookup_field tag ex_logon))).
Proof. apply (parse_encode_roundtrip ex_logon NewMessage). fields_ok. Defined.

(** [GetInt] reads a decimal value modulo 2^64, as a signed 64-bit
    integer: exact below 2^63, silently wrapped above, 0 for an empty value;
    anything but digits is an error, and so is a missing tag. *)
Theorem get_int_value m fs tag :
  tag_fields m = Ok fs →
  GetInt m tag = Ok (match lookup_field tag fs with
                     | None => (0, Some "tag not found")
                     | Some v =>
                         match digits_val 0 v with
                         | Some n => (wrap_int64 n, None)
                         | None => (0, Some "invalid integer value")
                         end
                     end).
Proof.
  intros H. unfold GetInt. rewrite (GetField_lookup _ _ _ H). cbn [mbind res_bind].
  destruct (lookup_field tag fs) as [v|]; [|done].
  change (int_loop 0 v) with (int_loop (wrap_int64 0) v). by rewrite int_loop_spec.
Qed.

(** A message with one field, [38=18446744073709551617]. *)
Definition ex_qty : Message :=
  mkMessage (str "38=18446744073709551617") [mkTagValue 38 3 23].

Lemma get_int_value_witness : GetInt ex_qty 38 = Ok (1, None).
Proof.
  rewrite (get_int_value ex_qty [mkField 38 (str "18446744073709551617")] 38);
    vm_compute; reflexivity.
Defined.

(** ** The formatter *)

(** What [formatFIXMessage] emits parses back without error to the
    version, the body length, the standard header, the body's fields and the
    checksum, in this order; the length is the number of bytes between the
    length field and the checksum field, and the checksum the sum of all
    bytes before the checksum field modulo 256, in three digits. *)
Theorem format_parses ts mt seq snd tgt body bf m :
  body_of bf body → SOH ∉ ts → SOH ∉ mt → SOH ∉ snd → SOH ∉ tgt → Forall field_ok bf →
  let fs := [mkField 35 mt; mkField 49 snd; mkField 56 tgt; mkField 34 (fmt_d seq);
             mkField 52 ts] ++ bf in
  let hdr := [mkField 8 (str "FIX.4.2"); mkField 9 (fmt_d (len (encode fs)))] in
  len (encode fs) < 2 ^ 54 →
  ∃ m' sum, Parse (formatFIXMessage ts mt seq snd tgt body) m = Ok (None, m') ∧
    tag_fields m' = Ok (hdr ++ fs ++ [mkField 10 sum]) ∧
    raw m' = encode hdr ++ encode fs ++ encode [mkField 10 sum] ∧
    len sum = 3 ∧ digits_val 0 sum = Some (byte_sum (encode hdr ++ encode fs) mod 256).
Proof.
  intros Hb Hts Hmt Hs Ht Hbf fs hdr Hlen.
  rewrite (formatFIXMessage_encode _ _ _ _ _ _ bf Hb Hlen). fold fs.
  assert (Hok : Forall field_ok (enveloped fs)).
  { apply enveloped_ok. subst fs. apply Forall_app. split; [|done].
    repeat (apply Forall_cons; split; [field_solve|]); constructor. }
  destruct (Parse_encode _ m Hok) as (m' & E & Hf).
  assert (Hraw : raw m' = encode (enveloped fs)).
  { destruct (Parse_spec (encode (enveloped fs)) m) as (err & ts' & E' & _).
    rewrite E in E'. by simplify_eq. }
  set (c := byte_sum (encode hdr ++ encode fs) mod 256).
  assert (Hc : 0 <= c < 10 ^ Z.of_nat 3) by (pose proof (Z.mod_pos_bound
    (byte_sum (encode hdr ++ encode fs)) 256 ltac:(lia)); subst c; lia).
  destruct (fmt_0d_width 3 c Hc) as [Hl Hd]; [lia..|].
  exists m', (fmt_0d 3 c). split_and!; [done| | |done|done].
  - rewrite Hf. unfold enveloped. by rewrite encode_app, <-!app_assoc.
  - rewrite Hraw. unfold enveloped. rewrite (encode_app (_ ++ fs)), (encode_app _ fs).
    by rewrite <-!app_assoc.
Qed.

Lemma format_parses_witness :
  ∃ m' (sum : bytes), Parse (formatFIXMessage (str "20240102-03:04:05.006") (str "0") 7 (str "ENGINE")
                     (str "CLIENT1") []) NewMessage = Ok (None, m') ∧
    len sum = 3 ∧ lookup_field 9 <$> (match tag_fields m' with Ok fs => Some fs | _ => None end)
                  = Some (Some (str "56")).
Proof.
  destruct (format_parses (str "20240102-03:04:05.006") (str "0") 7 (str "ENGINE")
    (str "CLIENT1") [] [] NewMessage) as (m' & sum & E & Hf & _ & Hl & _);
    [by left|by (apply (bool_decide_unpack _); vm_compute)..|constructor|by vm_compute|].
  exists m', sum. split; [exact E|]. split; [exact Hl|]. rewrite Hf. vm_compute. reflexivity.
Defined.

(** ** Sessions *)

(** What the theorems assume of a packet: a read fills at most the 4096 bytes
    of the buffer, and the clock's text has no separator in it. *)
Definition packet_ok (e : event) : Prop :=
  match e with
  | Packet data ts _ => len data <= 4096 ∧ len ts <= 64 ∧ SOH ∉ ts
  | _ => True
  end.

(** C23: One iteration of [handleConnection] implements the protocol: it does
    not panic; a packet that does not parse, or whose message type asks for
    no reply, changes neither the output nor the sequence number; otherwise
    exactly one message is written, which parses without error to the
    enveloped reply of the protocol, and the sequence number advances by one. *)
Theorem iteration_implements_protocol data ts nano s m :
  packet_ok (Packet data ts nano) →
  ∃ err m' fs, Parse data (sMsg s) = Ok (err, m') ∧ tag_fields m' = Ok fs ∧
    match err, reply ts nano (sSeqNum s) fs with
    | None, Some r =>
        ∃ w m'', iteration (Packet data ts nano) s =
            Ok (true, mkSession m' (wrap_int64 (sSeqNum s + 1)) (sOut s ++ [w])) ∧
          Parse w m = Ok (None, m'') ∧ tag_fields m'' = Ok (enveloped r)
    | _, _ =>
        iteration (Packet data ts nano) s = Ok (true, mkSession m' (sSeqNum s) (sOut s))
    end.
Proof.
  intros (Hd & Ht & Hsoh). destruct (iteration_spec data ts nano s Hd Ht)
    as (err & m' & fs & EP & Hfs & Hok & ->). exists err, m', fs. split_and!; [done..|].
  unfold session_after. destruct err as [e|]; [done|].
  destruct (reply ts nano (sSeqNum s) fs) as [r|] eqn:Hr; [|done].
  destruct (Parse_encode (enveloped r) m) as (m'' & E & Hf).
  { by eapply enveloped_ok, reply_ok. }
  by exists (encode (enveloped r)), m''.
Qed.

Definition ex_ts : bytes := str "20240102-03:04:05.006".

Lemma ex_packet_ok : packet_ok (Packet (encode ex_logon) ex_ts 5).
Proof. split_and!; [by vm_compute..|]. by (apply (bool_decide_unpack _); vm_compute). Qed.

Lemma iteration_implements_protocol_witness :
  ∃ err m' fs, Parse (encode ex_logon) NewMessage = Ok (err, m') ∧ tag_fields m' = Ok fs ∧
    match err, reply ex_ts 5 1 fs with
    | None, Some r =>
        ∃ w m'', iteration (Packet (encode ex_logon) ex_ts 5) new_session =
            Ok (true, mkSession m' 2 [w]) ∧
          Parse w NewMessage = Ok (None, m'') ∧ tag_fields m'' = Ok (enveloped r)
    | _, _ => iteration (Packet (encode ex_logon) ex_ts 5) new_session =
                Ok (true, mkSession m' 1 [])
    end.
Proof.
  exact (iteration_implements_protocol (encode ex_logon) ex_ts 5 new_session NewMessage ex_packet_ok).
Defined.

(** The [i]-th message of a session. *)
Definition numbered (i : nat) (w : bytes) : Prop :=
  ∃ m fs, Parse w NewMessage = Ok (None, m) ∧ tag_fields m = Ok fs ∧
    lookup_field 34 fs = Some (fmt_d (Z.of_nat i + 1)) ∧
    lookup_field 49 fs = Some (str "ENGINE").

Definition session_ok (s : Session) : Prop :=
  sSeqNum s = len (sOut s) + 1 ∧ ∀ i w, sOut s !! i = Some w → numbered i w.

Lemma reply_numbered ts nano seq fs r :
  reply ts nano seq fs = Some r →
  lookup_field 34 (enveloped r) = Some (fmt_d seq) ∧
  lookup_field 49 (enveloped r) = Some (str "ENGINE").
Proof.
  unfold reply. intros H. apply bind_Some in H as (mt & _ & H).
  repeat case_bool_decide; simplify_eq; done.
Qed.

Lemma iteration_session_ok e s :
  packet_ok e → session_ok s → len (sOut s) + 2 < 2 ^ 63 →
  ∃ c s', iteration e s = Ok (c, s') ∧ session_ok s' ∧ len (sOut s') <= len (sOut s) + 1.
Proof.
  intros He [Hseq Hout] Hb. destruct e as [| |data ts nano];
    [exists false, s; split_and!; [done|done|lia]..|].
  destruct He as (Hd & Ht & Hsoh).
  destruct (iteration_spec data ts nano s Hd Ht) as (err & m' & fs & EP & Hfs & Hok & ->).
  do 2 eexists. split; [done|]. unfold session_after.
  assert (Hsame : session_ok (mkSession m' (sSeqNum s) (sOut s)) ∧
    len (sOut (mkSession m' (sSeqNum s) (sOut s))) <= len (sOut s) + 1) by (split; [done|cbn; lia]).
  destruct err as [e|]; [done|]. destruct (reply ts nano (sSeqNum s) fs) as [r|] eqn:Hr; [|done].
  clear Hsame. pose proof (len_nonneg (sOut s)). unfold session_ok. cbn [sSeqNum sOut].
  rewrite len_app. change (len [_]) with 1. split; [split|lia].
  - rewrite wrap_int64_id; [lia|]. unfold is_int64. lia.
  - intros i w Hi. apply lookup_app_Some in Hi as [Hi|[Hi1 Hi2]]; [by apply Hout|].
    apply list_lookup_singleton_Some in Hi2 as [Hi2 <-].
    destruct (Parse_encode (enveloped r) NewMessage) as (m & E & Hf);
      [by eapply enveloped_ok, reply_ok|].
    destruct (reply_numbered _ _ _ _ _ Hr) as [H34 H49].
    exists m, (enveloped r). split_and!; [done|done| |done].
    rewrite H34, Hseq. do 3 f_equal. unfold len. lia.
Qed.

(** A whole connection: for every sequence of reads the handler runs
    without panicking, writes at most one message per read, and the messages
    carry the sequence numbers 1, 2, 3, ... without gap or repetition, each
    of them parseable and sent by ENGINE. *)
Theorem session_sequence es :
  Forall packet_ok es → len es + 2 < 2 ^ 63 →
  ∃ out, handleConnection es = Ok out ∧ len out <= len es ∧
    ∀ i w, out !! i = Some w → numbered i w.
Proof.
  intros Hes Hb.
  assert (Hrun : ∀ s, session_ok s → len (sOut s) + len es + 2 < 2 ^ 63 →
    ∃ s', connection_loop es s = Ok (tt, s') ∧ session_ok s' ∧ len (sOut s') <= len (sOut s) + len es).
  { clear Hb. induction Hes as [|e es He _ IH]; intros s Hs Hb; cbn [connection_loop].
    { exists s. pose proof (len_nonneg (sOut s)). split_and!; [done|done|change (len []) with 0; lia]. }
    rewrite len_cons in *. pose proof (len_nonneg es).
    destruct (iteration_session_ok e s He Hs) as (c & s1 & E & Hs1 & Hl1); [lia|].
    rewrite (bind_Ok _ _ _ _ _ E). destruct c; [|exists s1; split_and!; [done|done|lia]].
    destruct (IH s1 Hs1) as (s2 & E2 & Hs2 & Hl2); [lia|]. exists s2. split_and!; [done|done|lia]. }
  destruct (Hrun new_session) as (s' & E & [_ Hout] & Hl); [split; [done|]| |].
  { intros i w H. done. }
  { change (len (sOut new_session)) with 0. lia. }
  exists (sOut s'). unfold handleConnection. rewrite E. split_and!; [done|exact Hl|done].
Qed.

Lemma session_sequence_witness :
  ∃ out, handleConnection [Packet (encode ex_logon) ex_ts 5; Packet (str "junk") ex_ts 6;
                           Packet (encode ex_logon) ex_ts 7; ReadError] = Ok out ∧
    len out <= 4 ∧ ∀ i w, out !! i = Some w → numbered i w.
Proof.
  apply (session_sequence [Packet (encode ex_logon) ex_ts 5; Packet (str "junk") ex_ts 6;
                           Packet (encode ex_logon) ex_ts 7; ReadError]); [|by vm_compute].
  repeat (apply Forall_cons; split;
    [first [exact I | split_and!; [by vm_compute..|by (apply (bool_decide_unpack _); vm_compute)]]|]).
  constructor.
Defined.

(** A New Order Single is acknowledged to its sender with its own order
    id, symbol, side, quantity and price, unchanged: whatever bytes the
    client puts into these fields, the execution report has them as the
    values of the same tags, and they cannot add or replace a field. *)
Theorem new_order_acknowledged data ts nano s m m' fs :
  packet_ok (Packet data ts nano) →
  Parse data (sMsg s) = Ok (None, m') → tag_fields m' = Ok fs →
  lookup_field 35 fs = Some (str "D") →
  ∃ w m'' gs, iteration (Packet data ts nano) s =
      Ok (true, mkSession m' (wrap_int64 (sSeqNum s + 1)) (sOut s ++ [w])) ∧
    Parse w m = Ok (None, m'') ∧ tag_fields m'' = Ok gs ∧ len gs = 17 ∧
    lookup_field 35 gs = Some (str "8") ∧ lookup_field 56 gs = Some (get 49 fs) ∧
    ∀ tag, tag ∈ [11; 38; 44; 54; 55] → lookup_field tag gs = Some (get tag fs).
Proof.
  intros (Hd & Ht & Hsoh) EP Hfs H35.
  destruct (iteration_spec data ts nano s Hd Ht) as (err & m1 & fs1 & EP1 & Hfs1 & Hok & ->).
  rewrite EP in EP1. simplify_eq. rewrite Hfs in Hfs1. simplify_eq. unfold session_after.
  assert (Hr : ∃ r, reply ts nano (sSeqNum s) fs1 = Some r ∧ len (enveloped r) = 17 ∧
    lookup_field 35 (enveloped r) = Some (str "8") ∧ lookup_field 56 (enveloped r) = Some (get 49 fs1) ∧
    ∀ tag, tag ∈ [11; 38; 44; 54; 55] → lookup_field tag (enveloped r) = Some (get tag fs1)).
  { unfold reply. rewrite H35. cbn [mbind option_bind].
    rewrite 2!bool_decide_false by done. rewrite bool_decide_true by done.
    eexists. split_and!; [done..|]. intros tag Htag.
    repeat (apply elem_of_cons in Htag as [->|Htag]; [done|]). by apply not_elem_of_nil in Htag. }
  destruct Hr as (r & Hr & Hrest). rewrite Hr.
  destruct (Parse_encode (enveloped r) m) as (m'' & E & Hf).
  { by eapply enveloped_ok, reply_ok. }
  by exists (encode (enveloped r)), m'', (enveloped r).
Qed.

Definition ex_fix_order : list field :=
  [mkField 35 (str "D"); mkField 49 (str "C1"); mkField 11 (str "o-1"); mkField 55 (str "BTC");
   mkField 54 (str "1"); mkField 44 (str "100"); mkField 38 (str "5")].
Definition ex_fix_order_msg : Message :=
  match Parse (encode ex_fix_order) NewMessage with Ok (_, m) => m | _ => NewMessage end.

Lemma new_order_acknowledged_witness :
  ∃ w m'' gs, iteration (Packet (encode ex_fix_order) ex_ts 9) new_session =
      Ok (true, mkSession ex_fix_order_msg 2 [w]) ∧
    Parse w NewMessage = Ok (None, m'') ∧ tag_fields m'' = Ok gs ∧ len gs = 17 ∧
    lookup_field 35 gs = Some (str "8") ∧ lookup_field 56 gs = Some (str "C1") ∧
    ∀ tag, tag ∈ [11; 38; 44; 54; 55] → lookup_field tag gs = Some (get tag ex_fix_order).
Proof.
  apply (new_order_acknowledged (encode ex_fix_order) ex_ts 9 new_session NewMessage ex_fix_order_msg ex_fix_order).
  - split_and!; [by vm_compute..|by (apply (bool_decide_unpack _); vm_compute)].
  - vm_compute. reflexivity.
  - vm_compute. reflexivity.
  - vm_compute. reflexivity.
Defined.

(** ** Framing *)

Lemma lookup_field_app tag fs gs v :
  lookup_field tag fs = Some v → lookup_field tag (fs ++ gs) = Some v.
Proof.
  unfold lookup_field. induction fs as [|f fs IH]; cbn; [done|].
  by destruct (fTag f =? tag).
Qed.

(** A read is taken for one message.  When a logon or heartbeat arrives in
    one read together with further messages [gs], the session writes the
    reply to the first and nothing for the others. *)
Theorem coalesced_messages_lost fs gs ts nano s mt snd :
  Forall field_ok (fs ++ gs) → len (encode (fs ++ gs)) <= 4096 → len ts <= 64 →
  lookup_field 35 fs = Some mt → mt = str "A" ∨ mt = str "0" → lookup_field 49 fs = Some snd →
  ∃ r m1 m2, reply ts nano (sSeqNum s) fs = Some r ∧
    iteration (Packet (encode fs) ts nano) s =
      Ok (true, mkSession m1 (wrap_int64 (sSeqNum s + 1)) (sOut s ++ [encode (enveloped r)])) ∧
    iteration (Packet (encode (fs ++ gs)) ts nano) s =
      Ok (true, mkSession m2 (wrap_int64 (sSeqNum s + 1)) (sOut s ++ [encode (enveloped r)])).
Proof.
  intros Hok Hlen Ht H35 Hmt H49.
  assert (Hone : ∀ hs, Forall field_ok (fs ++ hs) → len (encode (fs ++ hs)) <= 4096 →
    ∃ r m, reply ts nano (sSeqNum s) fs = Some r ∧
      iteration (Packet (encode (fs ++ hs)) ts nano) s =
      Ok (true, mkSession m (wrap_int64 (sSeqNum s + 1)) (sOut s ++ [encode (enveloped r)]))).
  { intros hs Hhs Hl. destruct (iteration_spec (encode (fs ++ hs)) ts nano s Hl Ht)
      as (err & m & fs' & EP & Hfs' & _ & ->).
    destruct (Parse_encode _ (sMsg s) Hhs) as (m1 & EP1 & Hf1). rewrite EP in EP1. simplify_eq.
    rewrite Hf1 in Hfs'. simplify_eq. unfold session_after.
    assert (Hsame : reply ts nano (sSeqNum s) (fs ++ hs) = reply ts nano (sSeqNum s) fs).
    { unfold reply, reply_head, get.
      rewrite (lookup_field_app 35 fs hs _ H35), (lookup_field_app 49 fs hs _ H49), H35, H49.
      cbn [mbind option_bind]. by destruct Hmt as [-> | ->]. }
    rewrite Hsame. unfold reply. rewrite H35. cbn [mbind option_bind].
    destruct Hmt as [-> | ->]; do 2 eexists; done. }
  destruct (Hone gs Hok Hlen) as (r & m2 & Hr & E2).
  destruct (Hone []) as (r' & m1 & Hr' & E1); rewrite ?app_nil_r.
  - by apply Forall_app in Hok as [Hok _].
  - rewrite encode_app, len_app in Hlen. pose proof (len_nonneg (encode gs)). lia.
  - rewrite app_nil_r in E1. rewrite Hr in Hr'. simplify_eq. by exists r', m1, m2.
Qed.

Lemma coalesced_messages_lost_witness :
  ∃ r m1 m2, reply ex_ts 5 1 ex_logon = Some r ∧
    iteration (Packet (encode ex_logon) ex_ts 5) new_session =
      Ok (true, mkSession m1 2 [encode (enveloped r)]) ∧
    iteration (Packet (encode (ex_logon ++ ex_fix_order)) ex_ts 5) new_session =
      Ok (true, mkSession m2 2 [encode (enveloped r)]).
Proof.
  apply (coalesced_messages_lost ex_logon ex_fix_order ex_ts 5 new_session (str "A") (str "CLIENT1"));
    [unfold ex_logon, ex_fix_order; cbn [app]; fields_ok|by vm_compute|by vm_compute|reflexivity|by left|reflexivity].
Defined.

(** ** The listener *)

(** The accept loop of [Start].  Until [Stop] is called every connection is
    handled and no failed [Accept] ends the loop; after [Stop] the loop
    returns exactly when an [Accept] fails, as it must on the closed
    listener. *)
Theorem accept_loop_lifecycle es1 es2 s n :
  active s = true → Stopped ∉ es1 →
  accept_loop es1 s n = (s, (n + length (filter (Accepted =.) es1))%nat, false) ∧
  (accept_loop (es1 ++ Stopped :: es2) s n).2 = bool_decide (AcceptFailed ∈ es2).
Proof.
  intros Hs Hn. split; [by apply accept_loop_active|].
  revert n. induction es1 as [|[| |] es1 IH]; intros n; cbn.
  - pose proof (accept_loop_inactive es2 (Stop s) n eq_refl) as H.
    destruct (accept_loop es2 (Stop s) n) as [[s' n'] ret]. destruct H as [_ H]. cbn.
    destruct ret; symmetry; [apply bool_decide_true|apply bool_decide_false]; naive_solver.
  - apply not_elem_of_cons in Hn as [_ Hn]. by apply IH.
  - apply not_elem_of_cons in Hn as [_ Hn]. rewrite Hs. by apply IH.
  - apply not_elem_of_cons in Hn as [Hn _]. done.
Qed.

Lemma accept_loop_lifecycle_witness :
  accept_loop [Accepted; AcceptFailed; Accepted] (mkSessionServer "10443" (Some true) true) 0 =
    (mkSessionServer "10443" (Some true) true, 2%nat, false) ∧
  (accept_loop [Accepted; AcceptFailed; Accepted; Stopped; AcceptFailed]
     (mkSessionServer "10443" (Some true) true) 0).2 = true.
Proof.
  exact (accept_loop_lifecycle [Accepted; AcceptFailed; Accepted] [AcceptFailed]
    (mkSessionServer "10443" (Some true) true) 0 eq_refl
    ltac:(apply (bool_decide_unpack _); vm_compute; exact I)).
Defined.
