(* ===== verification/Hub.v ===== *)
(** * The market-data hub

    pkg/api/hub.go: a goroutine that owns the set of WebSocket clients and
    hands every broadcast to the buffered channel of each client, dropping a
    client whose buffer is full; a reader goroutine per client that asks for
    removal when its connection fails; and a writer goroutine per client that
    drains the channel.  The goroutines are interleaved: [reachable]
    closes the empty hub under their steps; the messages are of any type, the
    hub only passes them on. *)

From stdpp Require Import prelude gmap list fin_maps fin_sets sets.
From Stdlib Require Import ZArith Lia.
From S2P Require Import Prelude GoChan.

Section hub.
Context {msg : Type}.

(** [make(chan []byte, 256)]. *)
Definition send_cap : nat := 256.

(** ** Clients and the hub *)

(** Where the goroutines of a client are: a reader that failed is blocked on
    [c.hub.unregister <- c] until the hub takes the request. *)
Inductive reader := Reading | Unregistering | ReaderDone.
#[global] Instance reader_eq_dec : EqDecision reader.
Proof. solve_decision. Defined.

Record Client := mkClient {
  send : chan msg;
  cReader : reader;
  cWriting : bool;
  cWritten : list msg;   (** what the writer has passed to the connection *)
  cSince : nat;          (** broadcasts made before the client registered *)
}.

(** [clients] is the hub's map; [conns] are all clients ever created, by
    address; [log] are the messages broadcast so far. *)
Record Hub := mkHub {
  clients : gset N;
  conns : gmap N Client;
  log : list msg;
}.

Definition NewHub : Hub := mkHub ∅ ∅ [].

Definition set_send (c : chan msg) (cl : Client) : Client :=
  mkClient c (cReader cl) (cWriting cl) (cWritten cl) (cSince cl).
Definition set_reader (r : reader) (cl : Client) : Client :=
  mkClient (send cl) r (cWriting cl) (cWritten cl) (cSince cl).
Definition set_writing (b : bool) (cl : Client) : Client :=
  mkClient (send cl) (cReader cl) b (cWritten cl) (cSince cl).

Definition put (a : N) (cl : Client) (h : Hub) : Hub := mkHub (clients h) (<[a := cl]> (conns h)) (log h).
Definition get_client (a : N) : GoM Hub Client := λ h, from_option_panic (conns h !! a) h.

(** The cases of [Run]. *)
Definition run_register (a : N) : GoM Hub unit :=
  modify (λ h, mkHub ({[a]} ∪ clients h) (conns h) (log h)).

Definition delete_client (a : N) : GoM Hub unit :=
  modify (λ h, mkHub (clients h ∖ {[a]}) (conns h) (log h)).

Definition close_send (a : N) : GoM Hub unit :=
  cl ← get_client a;
  c ← lift (close_chan (send cl));
  modify (put a (set_send c cl)).

Definition run_unregister (a : N) : GoM Hub unit :=
  registered ← gets (λ h, bool_decide (a ∈ clients h));
  if (registered : bool) then
    delete_client a;;
    close_send a
  else mret tt.

(** The body of [for client := range h.clients]. *)
Definition offer (m : msg) (a : N) : GoM Hub unit :=
  cl ← get_client a;
  r ← lift (try_send send_cap m (send cl));
  if (r.1 : bool) then modify (put a (set_send r.2 cl))
  else
    close_send a;;
    delete_client a.

(** The range loop, in the order [ord] Go's map iteration happens to take. *)
Fixpoint offer_all (m : msg) (ord : list N) : GoM Hub unit :=
  match ord with
  | [] => mret tt
  | a :: ord' => offer m a;; offer_all m ord'
  end.

Definition run_broadcast (m : msg) (ord : list N) : GoM Hub unit :=
  modify (λ h, mkHub (clients h) (conns h) (log h ++ [m]));;
  offer_all m ord.

(** [ServeWs] once the connection is upgraded: a new client, registered by a
    rendezvous with the hub, and its two pumps started. *)
Definition ServeWs (a : N) : GoM Hub unit :=
  modify (λ h, put a (mkClient new_chan Reading true [] (length (log h))) h);;
  run_register a.

(** The reader's connection fails, and the hub takes its request. *)
Definition readPump_fails (a : N) : GoM Hub unit :=
  cl ← get_client a;
  modify (put a (set_reader Unregistering cl)).
Definition readPump_unregisters (a : N) : GoM Hub unit :=
  run_unregister a;;
  cl ← get_client a;
  modify (put a (set_reader ReaderDone cl)).

(** The writer takes the next message: [ok] tells whether the connection
    accepts it.  On a closed and drained channel the range loop ends. *)
Definition writePump_next (a : N) (ok : bool) : GoM Hub unit :=
  cl ← get_client a;
  match cBuf (send cl) with
  | m :: buf =>
      modify (put a (mkClient (mkChan buf (cClosed (send cl))) (cReader cl) ok
                       (if ok then cWritten cl ++ [m] else cWritten cl) (cSince cl)))
  | [] => if cClosed (send cl) then modify (put a (set_writing false cl)) else mret tt
  end.

(** ** Interleavings *)

Inductive action :=
  | Serve (a : N)
  | ReadFails (a : N)
  | Unregister (a : N)
  | Broadcast (m : msg) (ord : list N)
  | WriteNext (a : N) (ok : bool).

(** When the goroutine that performs the action can do so. *)
Definition enabled (act : action) (h : Hub) : Prop :=
  match act with
  | Serve a => conns h !! a = None
  | ReadFails a => ∃ cl, conns h !! a = Some cl ∧ cReader cl = Reading
  | Unregister a => ∃ cl, conns h !! a = Some cl ∧ cReader cl = Unregistering
  | Broadcast m ord => ord ≡ₚ elements (clients h)
  | WriteNext a ok => ∃ cl, conns h !! a = Some cl ∧ cWriting cl = true ∧
      (cBuf (send cl) ≠ [] ∨ cClosed (send cl) = true)
  end.

Definition perform (act : action) : GoM Hub unit :=
  match act with
  | Serve a => ServeWs a
  | ReadFails a => readPump_fails a
  | Unregister a => readPump_unregisters a
  | Broadcast m ord => run_broadcast m ord
  | WriteNext a ok => writePump_next a ok
  end.

Inductive reachable : Hub → Prop :=
  | reach_new : reachable NewHub
  | reach_step h act h' :
      reachable h → enabled act h → perform act h = Ok (tt, h') → reachable h'.

(** ** The invariant *)

(** Of a client, given whether it is in the map and what was broadcast: its
    channel is open exactly while it is in the map and holds no more than its
    capacity; what it got and has yet to get is a run of the broadcasts from
    its registration on, complete up to the present while it is in the map. *)
Record client_ok (registered : bool) (l : list msg) (cl : Client) : Prop := {
  ok_open : cClosed (send cl) = negb registered;
  ok_cap : length (cBuf (send cl)) <= send_cap;
  ok_run : cWriting cl = true → cWritten cl ++ cBuf (send cl) `prefix_of` drop (cSince cl) l;
  ok_now : cWriting cl = true → registered = true →
    cWritten cl ++ cBuf (send cl) = drop (cSince cl) l;
  ok_written : cWritten cl `prefix_of` drop (cSince cl) l;
  ok_since : cSince cl <= length l;
}.

Definition registered (h : Hub) (a : N) : bool := bool_decide (a ∈ clients h).

Record hub_ok (h : Hub) : Prop := {
  hub_clients a : a ∈ clients h → is_Some (conns h !! a);
  hub_client a cl : conns h !! a = Some cl → client_ok (registered h a) (log h) cl;
}.

(** ** What each case does to a client *)

Lemma drop_snoc {A} n (l : list A) x : n <= length l → drop n (l ++ [x]) = drop n l ++ [x].
Proof. intros H. by apply drop_app_le. Qed.

Lemma prefix_drop_snoc {A} n (k l : list A) x :
  n <= length l → k `prefix_of` drop n l → k `prefix_of` drop n (l ++ [x]).
Proof. intros H Hp. rewrite drop_snoc by done. by apply prefix_app_r. Qed.

Lemma client_ok_sent l m cl :
  client_ok true l cl → length (cBuf (send cl)) < send_cap →
  client_ok true (l ++ [m]) (set_send (mkChan (cBuf (send cl) ++ [m]) false) cl).
Proof.
  intros [Ho Hc Hr Hn Hw Hs] Hlt. split; cbn.
  - done.
  - rewrite length_app. cbn. lia.
  - intros W. rewrite drop_snoc, app_assoc by done. by rewrite Hn.
  - intros W _. rewrite drop_snoc, app_assoc by done. by rewrite Hn.
  - by apply prefix_drop_snoc.
  - rewrite length_app. lia.
Qed.

Lemma client_ok_later l m cl : client_ok false l cl → client_ok false (l ++ [m]) cl.
Proof.
  intros [Ho Hc Hr Hn Hw Hs]. split; auto.
  - intros W. apply prefix_drop_snoc; auto.
  - done.
  - by apply prefix_drop_snoc.
  - rewrite length_app. lia.
Qed.

Lemma client_ok_closed l cl :
  client_ok true l cl → client_ok false l (set_send (mkChan (cBuf (send cl)) true) cl).
Proof. intros [Ho Hc Hr Hn Hw Hs]. by split. Qed.

Lemma client_ok_new l : client_ok true l (mkClient new_chan Reading true [] (length l)).
Proof.
  split; cbn; try done; try lia.
  - intros _. apply prefix_nil.
  - intros _ _. by rewrite drop_ge.
  - apply prefix_nil.
Qed.

Lemma client_ok_reader r l b cl : client_ok b l cl → client_ok b l (set_reader r cl).
Proof. intros [Ho Hc Hr Hn Hw Hs]. by split. Qed.

Lemma client_ok_next b l cl m buf ok :
  client_ok b l cl → cWriting cl = true → cBuf (send cl) = m :: buf →
  client_ok b l (mkClient (mkChan buf (cClosed (send cl))) (cReader cl) ok
                   (if ok then cWritten cl ++ [m] else cWritten cl) (cSince cl)).
Proof.
  intros [Ho Hc Hr Hn Hw Hs] W Hb. rewrite Hb in *. specialize (Hr W).
  assert (Hsplit : (cWritten cl ++ [m]) ++ buf = cWritten cl ++ m :: buf) by by rewrite <-app_assoc.
  split; cbn in *; [done|lia|..].
  - intros ->. by rewrite Hsplit.
  - intros -> Hreg. rewrite Hsplit. auto.
  - destruct ok; [|done]. etrans; [|exact Hr]. rewrite <-Hsplit. by apply prefix_app_r.
  - done.
Qed.
(** ** The steps keep the invariant and do not panic *)

Lemma get_client_Ok h a cl : conns h !! a = Some cl → get_client a h = Ok (cl, h).
Proof. intros H. unfold get_client. by rewrite H. Qed.
#[local] Hint Resolve get_client_Ok : go.

Lemma close_send_Ok h a cl :
  conns h !! a = Some cl → cClosed (send cl) = false →
  close_send a h = Ok (tt, put a (set_send (mkChan (cBuf (send cl)) true) cl) h).
Proof.
  intros H Hc. unfold close_send. go_step. by go_step.
Qed.

Lemma registered_put h a cl b : registered (put a cl h) b = registered h b.
Proof. done. Qed.

Lemma registered_delete h cs b a :
  registered (mkHub (clients h ∖ {[a]}) cs (log h)) b = if decide (b = a) then false else registered h b.
Proof.
  unfold registered; cbn. destruct (decide (b = a)) as [->|Hne].
  - apply bool_decide_false. set_solver.
  - apply bool_decide_ext. set_solver.
Qed.

(** A client is replaced by one that is as good. *)
Lemma hub_ok_put h a cl :
  hub_ok h → client_ok (registered h a) (log h) cl → hub_ok (put a cl h).
Proof.
  intros [Hd Hc] Hcl. split.
  - intros b Hb. cbn in *. destruct (decide (a = b)) as [->|]; [rewrite lookup_insert_eq; eauto|].
    rewrite lookup_insert_ne by done. auto.
  - intros b cl' Hb. rewrite registered_put. cbn in *.
    apply lookup_insert_Some in Hb as [[-> ->]|[_ Hb]]; auto.
Qed.

(** A client leaves, closed. *)
Lemma hub_ok_leave h a cl :
  hub_ok h → client_ok false (log h) cl →
  hub_ok (mkHub (clients h ∖ {[a]}) (<[a := cl]> (conns h)) (log h)).
Proof.
  intros [Hd Hc] Hcl. split.
  - intros b Hb. cbn in *. rewrite lookup_insert_ne by set_solver. apply Hd. set_solver.
  - intros b cl' Hb. rewrite registered_delete. cbn in *.
    apply lookup_insert_Some in Hb as [[-> ->]|[Hne Hb]].
    + by rewrite decide_True.
    + rewrite decide_False by done. auto.
Qed.

Lemma unregister_ok h a :
  hub_ok h → is_Some (conns h !! a) →
  ∃ h', run_unregister a h = Ok (tt, h') ∧ hub_ok h' ∧ is_Some (conns h' !! a).
Proof.
  intros Hok [cl Hcl]. unfold run_unregister. go_step.
  case_bool_decide as Hreg; [|exists h; eauto]. unfold delete_client. go_step.
  pose proof (hub_client _ Hok _ _ Hcl) as Hc. unfold registered in Hc.
  rewrite bool_decide_true in Hc by done.
  rewrite (close_send_Ok _ a cl) by (done || apply Hc).
  eexists. split; [done|]. split; [|cbn; rewrite lookup_insert_eq; eauto].
  apply (hub_ok_leave h); [done|]. by apply client_ok_closed.
Qed.

(** The state in the middle of a broadcast: [ord] has yet to be served. *)
Record offering (m : msg) (l : list msg) (ord : list N) (h : Hub) : Prop := {
  off_log : log h = l ++ [m];
  off_nodup : NoDup ord;
  off_ord a : a ∈ ord → a ∈ clients h;
  off_clients a : a ∈ clients h → is_Some (conns h !! a);
  off_client a cl : conns h !! a = Some cl →
    client_ok (registered h a) (if bool_decide (a ∈ ord) then l else l ++ [m]) cl;
}.

Lemma offering_served m l a ord h cl' :
  offering m l (a :: ord) h → client_ok true (l ++ [m]) cl' → offering m l ord (put a cl' h).
Proof.
  intros [Hl [Ha Hnd]%NoDup_cons Ho Hd Hc] Hcl. split; cbn; auto.
  - intros b Hb. apply Ho. by apply elem_of_cons; right.
  - intros b Hb. destruct (decide (a = b)) as [->|]; [rewrite lookup_insert_eq; eauto|].
    rewrite lookup_insert_ne by done. auto.
  - intros b cl Hb. rewrite registered_put.
    apply lookup_insert_Some in Hb as [[<- <-]|[Hne Hb]].
    + rewrite (bool_decide_false (a ∈ ord)) by done. unfold registered.
      rewrite bool_decide_true by (apply Ho; apply elem_of_cons; auto). done.
    + specialize (Hc _ _ Hb). erewrite (bool_decide_ext (b ∈ ord)); [exact Hc|].
      rewrite elem_of_cons. naive_solver.
Qed.

Lemma offering_dropped m l a ord h cl' :
  offering m l (a :: ord) h → client_ok false (l ++ [m]) cl' →
  offering m l ord (mkHub (clients h ∖ {[a]}) (<[a := cl']> (conns h)) (log h)).
Proof.
  intros [Hl [Ha Hnd]%NoDup_cons Ho Hd Hc] Hcl. split; cbn; auto.
  - intros b Hb. apply elem_of_difference. split; [apply Ho; by apply elem_of_cons; right|].
    intros ->%elem_of_singleton. done.
  - intros b [Hb Hne]%elem_of_difference. rewrite lookup_insert_ne by set_solver. auto.
  - intros b cl Hb. rewrite registered_delete.
    apply lookup_insert_Some in Hb as [[<- <-]|[Hne Hb]].
    + by rewrite decide_True, (bool_decide_false (a ∈ ord)).
    + rewrite decide_False by done. specialize (Hc _ _ Hb).
      erewrite (bool_decide_ext (b ∈ ord)); [exact Hc|]. rewrite elem_of_cons. naive_solver.
Qed.

Lemma offer_step m l a ord h :
  offering m l (a :: ord) h → ∃ h', offer m a h = Ok (tt, h') ∧ offering m l ord h'.
Proof.
  intros Hoff. assert (Hreg : a ∈ clients h) by (apply (off_ord _ _ _ _ Hoff), elem_of_cons; auto).
  destruct (off_clients _ _ _ _ Hoff _ Hreg) as [cl Hcl].
  pose proof (off_client _ _ _ _ Hoff _ _ Hcl) as Hc. unfold registered in Hc.
  rewrite !bool_decide_true in Hc by (done || apply elem_of_cons; auto).
  pose proof (ok_open _ _ _ Hc) as Hopen. cbn in Hopen.
  unfold offer. go_step. unfold try_send. rewrite Hopen.
  destruct (Nat.ltb_spec (length (cBuf (send cl))) send_cap) as [Hlt|Hge].
  - go_step. cbn [fst snd]. eexists. split; [done|]. eapply offering_served; [done|].
    by apply client_ok_sent.
  - go_step. cbn [fst]. rewrite (bind_Ok _ _ _ _ _ (close_send_Ok _ _ _ Hcl Hopen)).
    eexists. split; [done|]. apply (offering_dropped m l a ord h); [done|].
    by apply client_ok_later, client_ok_closed.
Qed.

Lemma offer_all_ok m l ord h :
  offering m l ord h → ∃ h', offer_all m ord h = Ok (tt, h') ∧ offering m l [] h'.
Proof.
  revert h. induction ord as [|a ord IH]; intros h Hoff; [by exists h|]. cbn [offer_all].
  destruct (offer_step _ _ _ _ _ Hoff) as (h1 & E & Hoff1).
  rewrite (bind_Ok _ _ _ _ _ E). by apply IH.
Qed.

Lemma broadcast_ok h m ord :
  hub_ok h → ord ≡ₚ elements (clients h) →
  ∃ h', run_broadcast m ord h = Ok (tt, h') ∧ hub_ok h' ∧ log h' = log h ++ [m].
Proof.
  intros [Hd Hc] Hord. unfold run_broadcast. go_step.
  set (h1 := mkHub (clients h) (conns h) (log h ++ [m])).
  assert (Hin : ∀ a, a ∈ ord ↔ a ∈ clients h) by (intros a; rewrite Hord; apply elem_of_elements).
  destruct (offer_all_ok m (log h) ord h1) as (h2 & E & [Hl _ _ Hd2 Hc2]).
  { split; cbn; auto.
    - rewrite Hord. apply NoDup_elements.
    - intros a. apply Hin.
    - intros a cl Hcl. specialize (Hc _ _ Hcl). unfold registered in *. cbn.
      rewrite (bool_decide_ext (a ∈ ord) (a ∈ clients h)) by apply Hin.
      case_bool_decide; [done|]. by apply client_ok_later. }
  exists h2. split_and!; [done| |done]. split; [done|]. intros a cl Hcl. rewrite Hl.
  specialize (Hc2 _ _ Hcl). rewrite bool_decide_false in Hc2 by apply not_elem_of_nil. done.
Qed.

Lemma perform_ok h act :
  hub_ok h → enabled act h → ∃ h', perform act h = Ok (tt, h') ∧ hub_ok h'.
Proof.
  intros Hok. destruct act as [a|a|a|m ord|a ok]; cbn [enabled perform].
  - intros Hnew. unfold ServeWs, run_register. go_step. eexists. split; [done|].
    destruct Hok as [Hd Hc]. split; cbn.
    + intros b [->%elem_of_singleton|Hb]%elem_of_union; [rewrite lookup_insert_eq; eauto|].
      rewrite lookup_insert_ne by (intros ->; specialize (Hd _ Hb); rewrite Hnew in Hd; by destruct Hd).
      auto.
    + intros b cl Hb. unfold registered; cbn.
      apply lookup_insert_Some in Hb as [[<- <-]|[Hne Hb]].
      * rewrite bool_decide_true by set_solver. apply client_ok_new.
      * rewrite (bool_decide_ext _ (b ∈ clients h)) by set_solver. by apply Hc.
  - intros (cl & Hcl & _). unfold readPump_fails. go_step. eexists. split; [done|].
    apply hub_ok_put; [done|]. by apply client_ok_reader, (hub_client _ Hok).
  - intros (cl & Hcl & _). unfold readPump_unregisters.
    destruct (unregister_ok h a Hok) as (h1 & E & Hok1 & [cl1 Hcl1]); [eauto|].
    rewrite (bind_Ok _ _ _ _ _ E). go_step. eexists. split; [done|].
    apply hub_ok_put; [done|]. by apply client_ok_reader, (hub_client _ Hok1).
  - intros Hord. destruct (broadcast_ok h m ord Hok Hord) as (h' & ? & ? & _). eauto.
  - intros (cl & Hcl & W & Hbuf). unfold writePump_next. go_step.
    pose proof (hub_client _ Hok _ _ Hcl) as Hc.
    destruct (cBuf (send cl)) as [|m buf] eqn:Hb.
    + destruct Hbuf as [Hbuf|Hbuf]; [done|]. rewrite Hbuf. eexists. split; [done|].
      apply hub_ok_put; [done|]. destruct Hc. by split.
    + eexists. split; [done|]. apply hub_ok_put; [done|]. by apply client_ok_next.
Qed.

Lemma NewHub_ok : hub_ok NewHub.
Proof. split; cbn; [set_solver|intros a cl Hcl; by rewrite lookup_empty in Hcl]. Qed.

Lemma reachable_ok h : reachable h → hub_ok h.
Proof.
  induction 1 as [|h act h' _ IH Hen E]; [apply NewHub_ok|].
  destruct (perform_ok h act IH Hen) as (h1 & E1 & ?). rewrite E in E1. by simplify_eq.
Qed.
End hub.

Arguments Client : clear implicits.
Arguments Hub : clear implicits.
Arguments action : clear implicits.
