(* ===== verification/HubProps.v ===== *)
(** * What the market-data hub guarantees

    The properties of pkg/api/hub.go over all interleavings of the hub, the
    readers and the writers: the channels are used safely, clients get every
    broadcast in order and without gaps until they are dropped, and a slow
    client costs nobody else a message. *)

From stdpp Require Import prelude gmap list fin_maps fin_sets sets.
From Stdlib Require Import ZArith Lia.
From S2P Require Import Prelude GoChan Hub.

Section props.
Context {msg : Type}.
Implicit Types (h : Hub msg) (cl : Client msg) (m : msg).

(** What a broadcast makes of a client. *)
Definition after_broadcast (m : msg) (registered : bool) (cl : Client msg) : Client msg :=
  if registered then
    if (length (cBuf (send cl)) <? send_cap) then set_send (mkChan (cBuf (send cl) ++ [m]) false) cl
    else set_send (mkChan (cBuf (send cl)) true) cl
  else cl.

Definition stays (cl : Client msg) : bool := length (cBuf (send cl)) <? send_cap.

(** One turn of the range loop touches one client. *)
Lemma offer_effect m l a ord h cl :
  offering m l (a :: ord) h → conns h !! a = Some cl →
  offer m a h = Ok (tt, mkHub (if stays cl then clients h else clients h ∖ {[a]})
                          (<[a := after_broadcast m true cl]> (conns h)) (log h)).
Proof.
  intros Hoff Hcl. assert (Hreg : a ∈ clients h) by (apply (off_ord _ _ _ _ Hoff), elem_of_cons; auto).
  pose proof (off_client _ _ _ _ Hoff _ _ Hcl) as Hc. unfold registered in Hc.
  rewrite !bool_decide_true in Hc by (done || apply elem_of_cons; auto).
  pose proof (ok_open _ _ _ Hc) as Hopen. cbn in Hopen.
  unfold offer. rewrite (bind_Ok _ _ _ _ _ (get_client_Ok _ _ _ Hcl)). unfold try_send, after_broadcast, stays.
  rewrite Hopen. destruct (length (cBuf (send cl)) <? send_cap).
  - go_step. done.
  - go_step. cbn [fst]. by rewrite (bind_Ok _ _ _ _ _ (close_send_Ok _ _ _ Hcl Hopen)).
Qed.

Lemma offer_all_effect m l ord h h' :
  offering m l ord h → offer_all m ord h = Ok (tt, h') →
  ∀ a cl, conns h !! a = Some cl →
    conns h' !! a = Some (after_broadcast m (bool_decide (a ∈ ord)) cl) ∧
    (a ∈ clients h' ↔ a ∈ clients h ∧ (a ∈ ord → stays cl = true)).
Proof.
  revert h. induction ord as [|x ord IH]; intros h Hoff E a cl Hcl; cbn [offer_all] in E.
  { injection E as <-. rewrite bool_decide_false by apply not_elem_of_nil. split; [done|].
    split; [intros ?; split; [done|intros Hin; by apply not_elem_of_nil in Hin]|tauto]. }
  destruct (off_clients _ _ _ _ Hoff x) as [clx Hx]; [apply (off_ord _ _ _ _ Hoff), elem_of_cons; auto|].
  pose proof (offer_effect _ _ _ _ _ _ Hoff Hx) as E1.
  destruct (offer_step _ _ _ _ _ Hoff) as (h1 & E1' & Hoff1). rewrite E1 in E1'. simplify_eq.
  rewrite (bind_Ok _ _ _ _ _ E1) in E. pose proof (off_nodup _ _ _ _ Hoff) as [Hn _]%NoDup_cons.
  destruct (decide (x = a)) as [->|Hne].
  - simplify_eq. destruct (IH _ Hoff1 E a (after_broadcast m true cl)) as [H1 H2].
    { apply lookup_insert_eq. }
    rewrite (bool_decide_false (a ∈ ord)) in H1 by done. cbn [after_broadcast] in H1.
    rewrite (bool_decide_true (a ∈ a :: ord)) by (apply elem_of_cons; auto). split; [done|].
    rewrite H2. cbn [clients]. pose proof (off_ord _ _ _ _ Hoff a ltac:(apply elem_of_cons; auto)).
    split.
    + intros [H3 _]. split; [done|]. intros _. destruct (stays cl); [done|set_solver].
    + intros [H4 H3]. rewrite H3 by (apply elem_of_cons; auto). split; [exact H4|]. by intros ?.
  - destruct (IH _ Hoff1 E a cl) as [H1 H2]; [cbn [conns]; by rewrite lookup_insert_ne|].
    rewrite (bool_decide_ext (a ∈ x :: ord) (a ∈ ord)) by (rewrite elem_of_cons; naive_solver).
    split; [done|]. rewrite H2. cbn [clients]. rewrite elem_of_cons.
    destruct (stays clx); [naive_solver|]. rewrite elem_of_difference, elem_of_singleton. naive_solver.
Qed.

(** C12: No interleaving of the hub's goroutines panics: from every reachable
    state every step that a goroutine can take runs to its end.  In
    particular no channel is closed twice and nothing is sent on a closed
    channel, although readers, full buffers and repeated requests all ask for
    the same client's removal. *)
Theorem hub_never_panics h act :
  reachable h → enabled act h → ∃ h', perform act h = Ok (tt, h') ∧ reachable h'.
Proof.
  intros Hr He. destruct (perform_ok h act (reachable_ok h Hr) He) as (h' & E & _).
  exists h'. split; [done|]. by eapply reach_step.
Qed.

(** C13: In-order delivery without gaps.  In every reachable state, what a
    client was sent is a prefix of the messages broadcast since it
    registered; and as long as it is registered and its writer runs, what it
    was sent together with what is buffered for it is all of them.  No buffer
    exceeds its 256 slots. *)
Theorem hub_delivers_in_order h a cl :
  reachable h → conns h !! a = Some cl →
  cWritten cl `prefix_of` drop (cSince cl) (log h) ∧
  (a ∈ clients h → cWriting cl = true →
     cWritten cl ++ cBuf (send cl) = drop (cSince cl) (log h)) ∧
  length (cBuf (send cl)) <= 256.
Proof.
  intros Hr Hcl. pose proof (hub_client _ (reachable_ok h Hr) _ _ Hcl) as [Ho Hc Hrun Hn Hw Hs].
  split_and!; [done| |done]. intros Ha W. apply Hn; [done|]. by apply bool_decide_true.
Qed.

(** What one broadcast does, in whatever order the map is ranged over: a
    registered client with room gets the message and stays, a registered
    client whose buffer is full keeps its buffer, is closed and removed, and
    every other client is untouched. *)
Theorem broadcast_effect h m ord h' :
  reachable h → ord ≡ₚ elements (clients h) → run_broadcast m ord h = Ok (tt, h') →
  log h' = log h ++ [m] ∧
  ∀ a cl, conns h !! a = Some cl →
    conns h' !! a = Some (after_broadcast m (registered h a) cl) ∧
    (a ∈ clients h' ↔ a ∈ clients h ∧ length (cBuf (send cl)) < 256).
Proof.
  intros Hr Hord E. pose proof (reachable_ok h Hr) as Hok. split.
  { destruct (broadcast_ok h m ord Hok Hord) as (h1 & E1 & _ & Hl). rewrite E in E1. by simplify_eq. }
  unfold run_broadcast in E. erewrite bind_Ok in E by done. cbn beta in E.
  destruct Hok as [Hd Hc].
  assert (Hin : ∀ a, a ∈ ord ↔ a ∈ clients h) by (intros a; rewrite Hord; apply elem_of_elements).
  assert (Hoff : offering m (log h) ord (mkHub (clients h) (conns h) (log h ++ [m]))).
  { split; cbn; auto.
    - rewrite Hord. apply NoDup_elements.
    - intros a. apply Hin.
    - intros a cl Hcl. specialize (Hc _ _ Hcl). unfold registered in *. cbn.
      rewrite (bool_decide_ext (a ∈ ord) (a ∈ clients h)) by apply Hin.
      case_bool_decide; [done|]. by apply client_ok_later. }
  intros a cl Hcl. destruct (offer_all_effect _ _ _ _ _ Hoff E a cl Hcl) as [H1 H2].
  rewrite (bool_decide_ext (a ∈ ord) (a ∈ clients h)) in H1 by apply Hin. split; [done|].
  rewrite H2. cbn [clients]. unfold stays. rewrite Nat.ltb_lt, Hin. unfold send_cap. tauto.
Qed.
End props.

(** ** A run of the hub

    Two clients connect, a message is broadcast, and the first one's reader
    fails. *)
Definition ex_perform (act : action nat) (h : Hub nat) : Hub nat :=
  match perform act h with Ok (_, h') => h' | _ => h end.
Definition ex_hub1 : Hub nat := ex_perform (Serve 1%N) NewHub.
Definition ex_hub2 : Hub nat := ex_perform (Serve 2%N) ex_hub1.
Definition ex_hub3 : Hub nat := ex_perform (Broadcast 7 (elements (clients ex_hub2))) ex_hub2.

Lemma ex_step h act : reachable h → enabled act h → reachable (ex_perform act h).
Proof.
  intros Hr He. unfold ex_perform. destruct (perform_ok h act (reachable_ok h Hr) He) as (h' & E & _).
  rewrite E. by eapply reach_step.
Qed.

Lemma ex_hub3_reachable : reachable ex_hub3.
Proof.
  apply ex_step; [|apply Permutation_refl]. apply ex_step; [|by vm_compute]. apply ex_step; [constructor|by vm_compute].
Qed.

Lemma hub_never_panics_witness :
  ∃ h', perform (ReadFails 1%N) ex_hub3 = Ok (tt, h') ∧ reachable h'.
Proof.
  apply (hub_never_panics ex_hub3 (ReadFails 1%N) ex_hub3_reachable).
  eexists. split; vm_compute; reflexivity.
Defined.

Lemma hub_delivers_in_order_witness :
  [] `prefix_of` [7] ∧ (2%N ∈ clients ex_hub3 → true = true → [] ++ [7] = [7]) ∧ 1 <= 256.
Proof.
  apply (hub_delivers_in_order ex_hub3 2%N (mkClient (mkChan [7] false) Reading true [] 0)
    ex_hub3_reachable). vm_compute. reflexivity.
Defined.

Lemma broadcast_effect_witness :
  log (ex_perform (Broadcast 8 (elements (clients ex_hub3))) ex_hub3) = [7; 8].
Proof.
  destruct (broadcast_effect ex_hub3 8 (elements (clients ex_hub3))
    (ex_perform (Broadcast 8 (elements (clients ex_hub3))) ex_hub3) ex_hub3_reachable) as [H _];
    [reflexivity|vm_compute; reflexivity|exact H].
Defined.
