(* ===== verification/Server.v ===== *)
(** * The API server and its matching loop

    pkg/api/server.go.  HTTP handlers put requests into [inputChan] and wait
    on a result channel of their own; one goroutine, [runMatchingLoop], owns
    the book: it serves the requests in order and, on a ticker, publishes the
    depth.  A handler is split where it waits: what it does up to sending the
    request, and what it does with the response.

    A handler gets the decoded body, or [None] when decoding failed: [Wire] has
    the JSON, [Routes] the mux, [Api] the whole path of a request, and
    [Telemetry] the loop with its metrics.  Left to the environment: the clock
    and the ticker.  Of the hub, the server uses its [broadcast] channel, into
    which the loop sends and which blocks it when it is full; [events] records
    what was sent, in order.  [Platform] has the hub's side of the channel. *)

From stdpp Require Import prelude gmap strings list fin_maps.
From Stdlib Require Import ZArith Lia Ascii.
From S2P Require Import Prelude GoSort Order LevelQueue OrderBook.

Local Open Scope Z_scope.

(** ** Data *)

Definition PlaceRequest : Z := 0.
Definition CancelRequest : Z := 1.

Record OrderRequest := mkOrderRequest {
  rType : Z;
  rOrder : ptr;
  rCancelID : string;
  rResult : N;   (** the address of the result channel *)
}.

Record Response := mkResponse { Success : bool; Trades : list Trade; Error : string }.

(** The payloads [broadcastEvent] is called with. *)
Inductive payload :=
  | TradesData (trades : list Trade)
  | DepthData (bids asks : list PriceLevel).
Record WSMessage := mkWSMessage { wsType : string; wsData : payload }.

Record Server := mkServer {
  ob : St;                                     (** the heap with the order book *)
  inputChan : list OrderRequest;
  results : gmap N (list Response);            (** the result channels *)
  nextChan : N;
  broadcast : list WSMessage;                  (** the contents of [s.hub.broadcast] *)
  events : list WSMessage;                     (** what was ever sent into it *)
  depthCache : list PriceLevel * list PriceLevel;
  bookChanged : bool;                          (** the local of the matching loop *)
}.

Definition NewServer : Server := mkServer init_state [] ∅ 0%N [] [] ([], []) false.

Definition with_ob (s : St) (sv : Server) : Server :=
  mkServer s (inputChan sv) (results sv) (nextChan sv) (broadcast sv) (events sv) (depthCache sv) (bookChanged sv).
Definition with_input (q : list OrderRequest) (sv : Server) : Server :=
  mkServer (ob sv) q (results sv) (nextChan sv) (broadcast sv) (events sv) (depthCache sv) (bookChanged sv).
Definition with_results (m : gmap N (list Response)) (sv : Server) : Server :=
  mkServer (ob sv) (inputChan sv) m (nextChan sv) (broadcast sv) (events sv) (depthCache sv) (bookChanged sv).
Definition with_events (ms es : list WSMessage) (sv : Server) : Server :=
  mkServer (ob sv) (inputChan sv) (results sv) (nextChan sv) ms es (depthCache sv) (bookChanged sv).
Definition with_cache (c : list PriceLevel * list PriceLevel) (sv : Server) : Server :=
  mkServer (ob sv) (inputChan sv) (results sv) (nextChan sv) (broadcast sv) (events sv) c (bookChanged sv).
Definition with_changed (b : bool) (sv : Server) : Server :=
  mkServer (ob sv) (inputChan sv) (results sv) (nextChan sv) (broadcast sv) (events sv) (depthCache sv) b.

Abbreviation SM := (GoM Server).

(** Run an operation of the order book. *)
Definition on_book {A} (f : M A) : SM A := λ sv,
  match f (ob sv) with
  | Ok (a, s) => Ok (a, with_ob s sv)
  | Panic => Panic
  | NoFuel => NoFuel
  end.

(** ** Channels *)

(** [make(chan Response, 1)]. *)
Definition make_result : SM N := λ sv,
  Ok (nextChan sv,
      mkServer (ob sv) (inputChan sv) (<[nextChan sv := []]> (results sv)) (N.succ (nextChan sv))
        (broadcast sv) (events sv) (depthCache sv) (bookChanged sv)).

(** [req.Result <- resp], on a channel of capacity 1: a second response would
    block the loop for ever. *)
Definition send_result (c : N) (resp : Response) : SM unit := λ sv,
  match results sv !! c with
  | Some [] => Ok (tt, with_results (<[c := [resp]]> (results sv)) sv)
  | _ => NoFuel
  end.

(** [resp := <-resChan]; an empty channel blocks. *)
Definition recv_result (c : N) : SM Response := λ sv,
  match results sv !! c with
  | Some (resp :: rest) => Ok (resp, with_results (<[c := rest]> (results sv)) sv)
  | _ => NoFuel
  end.

(** [s.inputChan <- req]; a full buffer blocks the handler. *)
Definition input_cap : nat := Z.to_nat 100000.
Definition send_input (req : OrderRequest) : SM unit := λ sv,
  if (length (inputChan sv) <? input_cap)%nat then Ok (tt, with_input (inputChan sv ++ [req]) sv)
  else NoFuel.

(** [s.hub.broadcast <- bytes], on a channel of capacity 4096 that the hub
    receives from; a full buffer blocks the loop. *)
Definition broadcast_cap : nat := 4096.
Definition send_broadcast (msg : WSMessage) : SM unit := λ sv,
  if (length (broadcast sv) <? broadcast_cap)%nat
  then Ok (tt, with_events (broadcast sv ++ [msg]) (events sv ++ [msg]) sv)
  else NoFuel.

(** [case message := <-h.broadcast] of the hub's goroutine, as the server sees
    it: a message leaves the channel, if there is one. *)
Definition hub_receive : SM unit := modify (λ sv, with_events (tail (broadcast sv)) (events sv) sv).

(** ** The matching loop *)

(** [json.Marshal] does not fail on the messages the loop makes. *)
Definition broadcastEvent (evtType : string) (data : payload) : SM unit :=
  send_broadcast (mkWSMessage evtType data).

(** [s.ob.Process]: the number of orders ever allocated bounds the loops. *)
Definition process_order (p : ptr) : SM (list Trade) :=
  on_book (λ s, Process (S (size (sOrders s))) p s).

Definition serve_request (req : OrderRequest) : SM unit :=
  if rType req =? PlaceRequest then
    trades ← process_order (rOrder req);
    send_result (rResult req) (mkResponse true trades "");;
    modify (with_changed true);;
    (if (0 <? length trades)%nat then broadcastEvent "trade" (TradesData trades) else mret tt)
  else if rType req =? CancelRequest then
    success ← on_book (Cancel (rCancelID req));
    (if (success : bool) then
       send_result (rResult req) (mkResponse true [] "");;
       modify (with_changed true)
     else send_result (rResult req) (mkResponse false [] "order not found"))
  else mret tt.

(** [case req := <-s.inputChan]; [false] when there is nothing to receive. *)
Definition loop_receive : SM bool := λ sv,
  match inputChan sv with
  | [] => Ok (false, sv)
  | req :: q => (serve_request req;; mret true) (with_input q sv)
  end.

(** [case <-ticker.C]. *)
Definition loop_tick : SM unit :=
  changed ← gets bookChanged;
  if (changed : bool) then
    depth ← on_book (GetDepth 50);
    modify (with_cache depth);;
    broadcastEvent "depth" (DepthData depth.1 depth.2);;
    modify (with_changed false)
  else mret tt.

(** ** The handlers *)

Record placeOrderReq := mkPlaceOrderReq {
  pID : string; pSide : Z; pType : Z; pPrice : Z; pQuantity : Z }.

(** What a handler has done when it reaches its wait: answered with an HTTP
    error, or sent a request whose response comes on the given channel. *)
Inductive handler_state :=
  | HttpError (text : string) (code : Z)
  | Waiting (c : N).

Definition StatusOK : Z := 200.
Definition StatusBadRequest : Z := 400.
Definition StatusNotFound : Z := 404.

(** [now] is the time [NewOrder] stamps the order with. *)
Definition handlePlaceOrder (now : Z) (decoded : option placeOrderReq) : SM handler_state :=
  match decoded with
  | None => mret (HttpError "invalid request body" StatusBadRequest)
  | Some body =>
      if bool_decide (pID body = "") || (pQuantity body =? 0) then
        mret (HttpError "missing required fields" StatusBadRequest)
      else
        order ← on_book (NewOrder (pID body) (pSide body) (pType body) (pPrice body) (pQuantity body) now);
        resChan ← make_result;
        send_input (mkOrderRequest PlaceRequest order "" resChan);;
        mret (Waiting resChan)
  end.

(** [strings.Split(path, "/")]. *)
Fixpoint split_slash (cur : list ascii) (l : list ascii) : list string :=
  match l with
  | [] => [String.string_of_list_ascii cur]
  | c :: l' =>
      if decide (c = "/"%char) then String.string_of_list_ascii cur :: split_slash [] l'
      else split_slash (cur ++ [c]) l'
  end.
Definition Split (path : string) : list string := split_slash [] (String.list_ascii_of_string path).

Definition handleCancelOrder (path : string) : SM handler_state :=
  let parts := Split path in
  if (length parts <? 5)%nat then mret (HttpError "missing order ID" StatusBadRequest)
  else
    orderID ← from_option_panic (parts !! 4%nat);
    resChan ← make_result;
    send_input (mkOrderRequest CancelRequest nil_ptr orderID resChan);;
    mret (Waiting resChan).

(** The rest of the two handlers: the status and the response they write. *)
Definition finishPlaceOrder (c : N) : SM (Z * Response) :=
  resp ← recv_result c;
  mret (StatusOK, resp).
Definition finishCancelOrder (c : N) : SM (Z * Response) :=
  resp ← recv_result c;
  mret (if Success resp then StatusOK else StatusNotFound, resp).

Definition handleGetOrderBook : SM (list PriceLevel * list PriceLevel) := gets depthCache.
