(* ===== verification/ServerInv.v ===== *)
(** * The matching loop serves requests one at a time

    The specification of the server's loop over the abstract book, the
    invariant that ties the server to it, and the proof that the handlers and
    the loop keep it.  Requests are answered in the order they were sent,
    each exactly once, as if by sequential calls of the order book. *)

From stdpp Require Import prelude gmap strings list fin_maps.
From Stdlib Require Import ZArith Lia.
From S2P Require Import Prelude GoSort Order LevelQueue OrderBook BookSpec BookInv BookFlow BookRefine BookSim Server.

Local Open Scope Z_scope.

(** ** Specification *)

Definition place_response (ts : list Trade) : Response := mkResponse true ts "".
Definition cancel_response (ok : bool) : Response :=
  if ok then mkResponse true [] "" else mkResponse false [] "order not found".

(** The response to a request and the book after it, with the orders in [h]. *)
Definition spec_request (h : gmap ptr Order) (req : OrderRequest) (b : book) : Response * book :=
  if rType req =? PlaceRequest then
    match h !! rOrder req with
    | Some o =>
        let '(ts, b') := spec_process (rOrder req) (oID o) (oSide o) (oType o) (oPrice o) (oQuantity o) b in
        (place_response ts, b')
    | None => (place_response [], b)
    end
  else
    let '(ok, b') := spec_cancel (rCancelID req) b in (cancel_response ok, b').

Fixpoint spec_requests (h : gmap ptr Order) (reqs : list OrderRequest) (b : book) :
    list Response * book :=
  match reqs with
  | [] => ([], b)
  | req :: reqs' =>
      let '(resp, b1) := spec_request h req b in
      let '(resps, b2) := spec_requests h reqs' b1 in
      (resp :: resps, b2)
  end.

(** What a request makes the loop broadcast at once. *)
Definition trade_events (resp : Response) : list WSMessage :=
  match Trades resp with [] => [] | ts => [mkWSMessage "trade" (TradesData ts)] end.

Definition book_depth (b : book) : list PriceLevel * list PriceLevel :=
  (spec_depth 50 (bBids b), spec_depth 50 (bAsks b)).

(** ** Invariant *)

Definition resting (b : book) : list ptr := oids (entries (bBids b) ++ entries (bAsks b)).

(** An order that a handler has made and the loop has not seen. *)
Definition pending_order (s : St) (b : book) (p : ptr) : Prop :=
  (p < sBrk s)%N ∧ (p ∉ resting b) ∧
  ∃ id side ty price qty now,
    sOrders s !! p = Some (new_order_struct id side ty price qty now) ∧ is_u64 qty.

Definition is_place (req : OrderRequest) : Prop := rType req = PlaceRequest.
#[global] Instance is_place_dec req : Decision (is_place req) := Z.eq_dec _ _.
Definition placed (q : list OrderRequest) : list ptr := rOrder <$> filter is_place q.

Record queue_ok (s : St) (b : book) (res : gmap N (list Response)) (q : list OrderRequest) : Prop := {
  q_types : Forall (λ req, rType req = PlaceRequest ∨ rType req = CancelRequest) q;
  q_placed : NoDup (placed q);
  q_order p : p ∈ placed q → pending_order s b p;
  q_results : NoDup (rResult <$> q);
  q_result c : c ∈ rResult <$> q → res !! c = Some [];
}.

Record server_ok (sv : Server) (b : book) : Prop := {
  so_rep : Rep (ob sv) b;
  so_wf : wf b;
  so_cache : bookChanged sv = false → depthCache sv = book_depth b;
  so_queue : queue_ok (ob sv) b (results sv) (inputChan sv);
  so_next c : is_Some (results sv !! c) → (c < nextChan sv)%N;
  so_broadcast : (length (broadcast sv) ≤ broadcast_cap)%nat;
}.

(** The broadcast channel has room for these messages; for another one. *)
Definition room_for (sv : Server) (ms : list WSMessage) : Prop := (length (broadcast sv ++ ms) ≤ broadcast_cap)%nat.
#[global] Instance room_for_dec sv ms : Decision (room_for sv ms) := decide (_ ≤ _)%nat.
Definition sendable (sv : Server) : Prop := (length (broadcast sv) < broadcast_cap)%nat.

(** The quantity in the book and in the queue, which bounds every level. *)
Definition queued_qty (h : gmap ptr Order) (q : list OrderRequest) : Z :=
  foldr (λ req n, (if decide (is_place req) then
                     match h !! rOrder req with Some o => oQuantity o | None => 0 end else 0) + n) 0 q.
Definition total_qty (h : gmap ptr Order) (q : list OrderRequest) (b : book) : Z :=
  side_vol (bBids b) + side_vol (bAsks b) + queued_qty h q.

(** ** Orders and quantities of the abstract book *)

Lemma resting_side b q : q ∈ resting b ↔ ∃ r, q ∈ oids (entries (levels r b)).
Proof.
  unfold resting. rewrite oids_app, elem_of_app. split.
  - intros [H|H]; [by exists Bids|by exists Asks].
  - intros [[] H]; auto.
Qed.

Lemma process_resting p id side ty price qty b q :
  q ∈ resting (snd (spec_process p id side ty price qty b)) → q = p ∨ q ∈ resting b.
Proof.
  rewrite !resting_side. intros [r Hq]. unfold spec_process in Hq.
  set (r0 := side_of side) in *. clearbody r0.
  destruct (qty =? 0); [eauto|].
  destruct (fill_levels _ qty _) as [[fs rem] ls] eqn:Hfill. cbn [snd] in Hq.
  pose proof (fill_levels_oids _ _ _ _ _ _ Hfill) as Hsuf.
  set (b1 := set_bIndex (drop_filled fs (bIndex b)) (set_levels (opp r0) ls b)) in Hq.
  assert (Hb1 : ∀ r, q ∈ oids (entries (levels r b1)) → ∃ r, q ∈ oids (entries (levels r b))).
  { intros r' Hr'. destruct (slice_ref_cases (opp r0) r') as [->| ->].
    - exists (opp r0). eapply elem_of_suffix; [exact Hsuf|].
      subst b1. by destruct r0.
    - exists r0. subst b1. by destruct r0. }
  destruct (_ && _); [|eauto].
  destruct (slice_ref_cases r0 r) as [->| ->].
  - assert (Hq' : q ∈ oids (entries (insert_entry r0 price (mkEntry p id rem)
      (levels r0 b1)))) by by destruct r0.
    unfold oids in Hq'. rewrite entries_insert in Hq'. apply elem_of_cons in Hq' as [->|Hq']; eauto.
  - right. apply (Hb1 (opp r0)). by destruct r0.
Qed.

Lemma cancel_resting id b q : q ∈ resting (snd (spec_cancel id b)) → q ∈ resting b.
Proof.
  rewrite !resting_side. intros [r Hq]. exists r.
  destruct (bIndex b !! id) as [oid|] eqn:Hi.
  - apply list_elem_of_fmap in Hq as (e & -> & He).
    destruct (proj1 (elem_of_spec_cancel _ _ _ r e Hi) He) as [He' _].
    by apply list_elem_of_fmap_2.
  - unfold spec_cancel in Hq. by rewrite Hi in Hq.
Qed.

Lemma side_vol_nonneg b r : wf b → 0 <= side_vol (levels r b).
Proof.
  intros Hwf. unfold side_vol. apply vol_nonneg, Forall_forall. intros e (v & He & Hv)%list_elem_of_bind.
  pose proof (wf_levels _ Hwf r) as Hok. rewrite Forall_forall in Hok.
  destruct (Hok _ Hv) as [_ Hpos]. rewrite Forall_forall in Hpos. specialize (Hpos _ He). lia.
Qed.

Lemma process_vol p id side ty price qty b :
  wf b → is_u64 qty →
  let b' := snd (spec_process p id side ty price qty b) in
  side_vol (bBids b') + side_vol (bAsks b') <= side_vol (bBids b) + side_vol (bAsks b) + qty.
Proof.
  intros Hwf Hq. unfold spec_process. destruct (Z.eqb_spec qty 0); [cbn; lia|].
  set (r0 := side_of side). clearbody r0.
  destruct (fill_levels _ qty _) as [[fs rem] ls] eqn:Hfill.
  destruct (fill_levels_sum _ _ _ _ _ _ Hfill) as [H1 H2].
  pose proof (fill_levels_rem _ _ _ _ _ _ Hfill (wf_levels _ Hwf _) ltac:(apply Hq)) as Hrem.
  cbn [snd]. destruct ((0 <? rem) && (ty =? LimitOrder)); destruct r0;
    cbn [levels opp set_levels set_bIndex bBids bAsks] in *;
    rewrite ?side_vol_insert; cbn [eRem]; lia.
Qed.

Lemma level_vol b r v : wf b → v ∈ levels r b → vol (vQueue v) <= side_vol (levels r b).
Proof.
  intros Hwf Hv. pose proof (side_vol_nonneg b r Hwf).
  pose proof (wf_levels _ Hwf r) as Hok. revert Hv Hok. generalize (levels r b).
  induction l as [|w l IH]; intros Hv Hok; [by apply not_elem_of_nil in Hv|].
  rewrite side_vol_cons. apply Forall_cons in Hok as [[_ Hw] Hok].
  assert (0 <= vol (vQueue w)) by (apply vol_nonneg; eapply Forall_impl; [exact Hw|]; cbn; lia).
  assert (0 <= side_vol l).
  { unfold side_vol. apply vol_nonneg, Forall_forall. intros e (u & He & Hu)%list_elem_of_bind.
    rewrite Forall_forall in Hok. destruct (Hok _ Hu) as [_ Hp]. rewrite Forall_forall in Hp.
    specialize (Hp _ He). lia. }
  apply elem_of_cons in Hv as [->|Hv]; [lia|]. specialize (IH Hv Hok). lia.
Qed.

(** ** Serving one request *)

Lemma fits_total b side price qty :
  wf b → side_vol (bBids b) + side_vol (bAsks b) + qty < 2 ^ 64 → fits side price qty b.
Proof.
  intros Hwf Hb v Hv _. pose proof (level_vol _ _ _ Hwf Hv) as Hl.
  pose proof (side_vol_nonneg b Bids Hwf). pose proof (side_vol_nonneg b Asks Hwf).
  destruct (side_of side); cbn [levels] in *; lia.
Qed.

Lemma queued_qty_nonneg s b res q : queue_ok s b res q → 0 <= queued_qty (sOrders s) q.
Proof.
  intros [_ _ Ho _ _]. induction q as [|req q IH]; [done|]. cbn [queued_qty foldr].
  assert (Hq : 0 <= queued_qty (sOrders s) q).
  { apply IH. intros p Hp. apply Ho. unfold placed in *. rewrite filter_cons.
    destruct (decide (is_place req)); [|done]. by apply elem_of_cons; right. }
  unfold queued_qty in Hq. destruct (decide (is_place req)) as [Hpl|]; [|lia].
  destruct (Ho (rOrder req)) as (_ & _ & id & side & ty & price & qty & now & E & Hu).
  { unfold placed. rewrite filter_cons_True by done. by apply elem_of_cons; left. }
  rewrite E. unfold is_u64 in Hu. cbn. lia.
Qed.

Lemma placed_cons_place req q : is_place req → placed (req :: q) = rOrder req :: placed q.
Proof. intros H. unfold placed. by rewrite filter_cons_True. Qed.
Lemma placed_cons_other req q : ¬ is_place req → placed (req :: q) = placed q.
Proof. intros H. unfold placed. by rewrite filter_cons_False. Qed.

Lemma pending_kept s s' b b' ps p :
  untouched b ps s s' → (∀ x, x ∈ resting b' → x ∈ ps ∨ x ∈ resting b) → p ∉ ps →
  pending_order s b p → pending_order s' b' p.
Proof.
  intros [Hbrk U] Hr Hp (Hlt & Hn & id & side & ty & price & qty & now & E & Hu).
  split_and!; [lia|intros [?|?]%Hr; done|].
  exists id, side, ty, price, qty, now. split; [|done]. by rewrite U.
Qed.

(** The rest of the queue after its first request was served. *)
Lemma queue_ok_tail s s' b b' res req q resp ps :
  queue_ok s b res (req :: q) → untouched b ps s s' →
  (∀ x, x ∈ resting b' → x ∈ ps ∨ x ∈ resting b) →
  (∀ x, x ∈ ps → is_place req ∧ x = rOrder req) →
  queue_ok s' b' (<[rResult req := resp]> res) q ∧
  ∀ p, p ∈ placed q → sOrders s' !! p = sOrders s !! p.
Proof.
  intros [Ht Hnd Ho Hrn Hr] U Hb Hps.
  assert (Hin : ∀ p, p ∈ placed q → p ∈ placed (req :: q) ∧ p ∉ ps).
  { intros p Hp. destruct (decide (is_place req)) as [Hpl|Hpl].
    - rewrite placed_cons_place in * by done. apply NoDup_cons in Hnd as [Hn _].
      split; [by apply elem_of_cons; right|]. by intros [_ ->]%Hps.
    - rewrite placed_cons_other in * by done. split; [done|]. by intros [? _]%Hps. }
  split.
  - split.
    + by apply Forall_cons in Ht as [_ ?].
    + destruct (decide (is_place req)) as [Hpl|Hpl];
        [rewrite placed_cons_place in Hnd by done; by apply NoDup_cons in Hnd as [_ ?]|
         by rewrite placed_cons_other in Hnd].
    + intros p [Hp Hnp]%Hin. eapply pending_kept; eauto.
    + rewrite fmap_cons in Hrn. by apply NoDup_cons in Hrn as [_ ?].
    + intros c Hc. rewrite fmap_cons in Hrn. apply NoDup_cons in Hrn as [Hn _].
      rewrite lookup_insert_ne by (intros <-; done). apply Hr. by apply elem_of_cons; right.
  - intros p Hp. destruct (Hin p Hp) as [Hp' Hnp]. destruct (Ho _ Hp') as (Hlt & Hnr & _).
    by apply (proj2 U).
Qed.

Record served (sv sv' : Server) (b' : book) (req : OrderRequest) (q : list OrderRequest)
    (resp : Response) : Prop := {
  sv_ok : server_ok sv' b';
  sv_input : inputChan sv' = q;
  sv_results : results sv' = <[rResult req := [resp]]> (results sv);
  sv_events : events sv' = events sv ++ trade_events resp;
  sv_orders p : p ∈ placed q → sOrders (ob sv') !! p = sOrders (ob sv) !! p;
  sv_cache : depthCache sv' = depthCache sv;
  sv_changed : bookChanged sv' = bookChanged sv || Success resp;
}.

Lemma on_book_Ok {A} (f : M A) sv a s :
  f (ob sv) = Ok (a, s) → on_book f sv = Ok (a, with_ob s sv).
Proof. intros E. unfold on_book. by rewrite E. Qed.

(** [broadcastEvent] when the channel has room. *)
Lemma broadcast_Ok sv ty data :
  sendable sv → broadcastEvent ty data sv =
    Ok (tt, with_events (broadcast sv ++ [mkWSMessage ty data]) (events sv ++ [mkWSMessage ty data]) sv).
Proof. intros H. unfold broadcastEvent, send_broadcast. by rewrite (proj2 (Nat.ltb_lt _ _) H). Qed.
Lemma broadcast_blocks sv ty data : ¬ sendable sv → broadcastEvent ty data sv = NoFuel.
Proof. intros H%Nat.nlt_ge. unfold broadcastEvent, send_broadcast. by rewrite (proj2 (Nat.ltb_ge _ _) H). Qed.

Lemma room_one sv m : room_for sv [m] ↔ sendable sv.
Proof. unfold room_for, sendable. rewrite length_app. cbn [length]. lia. Qed.
Lemma room_none sv b : server_ok sv b → room_for sv [].
Proof. intros H. unfold room_for. rewrite app_nil_r. apply H. Qed.

Lemma serve_place sv b req q :
  server_ok sv b → inputChan sv = req :: q → is_place req →
  total_qty (sOrders (ob sv)) (req :: q) b < 2 ^ 64 →
  let '(resp, b') := spec_request (sOrders (ob sv)) req b in
  if decide (room_for sv (trade_events resp))
  then ∃ sv', loop_receive sv = Ok (true, sv') ∧ served sv sv' b' req q resp ∧
    broadcast sv' = broadcast sv ++ trade_events resp
  else loop_receive sv = NoFuel.
Proof.
  intros Hok Hin Hpl Htot. pose proof (room_none _ _ Hok) as Hnone. destruct Hok as [HR Hwf Hcache Hq Hnext Hbc]. rewrite Hin in Hq.
  destruct (q_order _ _ _ _ Hq (rOrder req)) as (Hlt & Hn & id & side & ty & price & qty & now & Ho & Hu).
  { rewrite placed_cons_place by done. by apply elem_of_cons; left. }
  assert (Hqn : 0 <= queued_qty (sOrders (ob sv)) q).
  { apply queued_qty_nonneg with (b := b) (res := <[rResult req := []]> (results sv)).
    refine (proj1 (queue_ok_tail _ _ _ b _ _ _ [] [] Hq (untouched_refl _ _ _) _ _)); auto.
    intros x Hx. by apply not_elem_of_nil in Hx. }
  unfold total_qty in Htot. cbn [queued_qty foldr] in Htot. fold (queued_qty (sOrders (ob sv)) q) in Htot.
  rewrite decide_True, Ho in Htot by done. cbn [oQuantity new_order_struct] in Htot.
  unfold spec_request. rewrite Hpl, Ho. cbn [Z.eqb PlaceRequest oID oSide oType oPrice oQuantity new_order_struct].
  destruct (spec_process (rOrder req) id side ty price qty b) as [ts b'] eqn:Hspec.
  destruct (Process_spec (ob sv) b (rOrder req) id side ty price qty now HR Hwf Ho Hn Hu
    (S (size (sOrders (ob sv)))) ts b') as (s' & E & HR' & U); [| |done|].
  { pose proof (entries_bound (ob sv) b (opp (side_of side)) HR Hwf). lia. }
  { apply fits_total; [done|lia]. }
  assert (Hb' : b' = snd (spec_process (rOrder req) id side ty price qty b)) by by rewrite Hspec.
  destruct (queue_ok_tail _ s' _ b' _ _ _ [place_response ts] [rOrder req] Hq U) as [Hq' Hsame].
  { rewrite Hb'. intros x [->|?]%process_resting; [left; by apply elem_of_cons; left|auto]. }
  { intros x ->%list_elem_of_singleton. done. }
  pose proof (q_result _ _ _ _ Hq (rResult req) ltac:(apply elem_of_cons; auto)) as Hres.
  unfold loop_receive. rewrite Hin. unfold serve_request. rewrite Hpl. cbn [Z.eqb PlaceRequest].
  destruct (decide _) as [Hroom|Hfull]; [|].
  2: { apply bind_NoFuel. erewrite bind_Ok by (apply on_book_Ok; exact E). cbn beta.
    erewrite bind_Ok by (unfold send_result; cbn; by rewrite Hres). cbn beta. go_step.
    destruct ts as [|t ts]; [done|]. refine (broadcast_blocks _ _ _ _). intros Hs. apply Hfull, (room_one sv), Hs. }
  eexists. split.
  { rewrite (bind_Ok _ _ _ tt (with_events (broadcast sv ++ trade_events (place_response ts))
      (events sv ++ trade_events (place_response ts)) (with_changed true (with_results (<[rResult req := [place_response ts]]> (results sv))
        (with_ob s' (with_input q sv)))))); [done|].
    erewrite bind_Ok by (apply on_book_Ok; exact E). cbn beta.
    erewrite bind_Ok by (unfold send_result; cbn; by rewrite Hres). cbn beta. go_step.
    destruct ts; [|refine (broadcast_Ok _ _ _ _); apply room_one in Hroom; exact Hroom]. unfold trade_events; cbn. by rewrite !app_nil_r. }
  split; [|done]. split; cbn; auto; [|by rewrite orb_true_r].
  split; cbn; auto.
  - rewrite Hb'. apply spec_process_wf; auto. apply Hu.
  - done.
  - intros c. rewrite lookup_insert_is_Some. intros [<-|[_ ?]]; [|auto]. apply Hnext. eauto.
Qed.

Lemma serve_cancel sv b req q :
  server_ok sv b → inputChan sv = req :: q → rType req = CancelRequest →
  let '(resp, b') := spec_request (sOrders (ob sv)) req b in
  ∃ sv', loop_receive sv = Ok (true, sv') ∧ served sv sv' b' req q resp ∧
    broadcast sv' = broadcast sv ++ trade_events resp.
Proof.
  intros [HR Hwf Hcache Hq Hnext Hbc] Hin Hc. rewrite Hin in Hq.
  unfold spec_request. rewrite Hc. cbn [Z.eqb Pos.eqb PlaceRequest CancelRequest].
  destruct (spec_cancel (rCancelID req) b) as [ok b'] eqn:Hspec.
  destruct (Cancel_spec (ob sv) b (rCancelID req) ok b' HR Hwf Hspec) as (s' & E & HR' & U).
  assert (Hb' : b' = snd (spec_cancel (rCancelID req) b)) by by rewrite Hspec.
  destruct (queue_ok_tail _ s' _ b' _ _ _ [cancel_response ok] [] Hq U) as [Hq' Hsame].
  { rewrite Hb'. intros x ?%cancel_resting. auto. }
  { intros x Hx. by apply not_elem_of_nil in Hx. }
  pose proof (q_result _ _ _ _ Hq (rResult req) ltac:(apply elem_of_cons; auto)) as Hres.
  unfold loop_receive. rewrite Hin. unfold serve_request. rewrite Hc. cbn [Z.eqb Pos.eqb PlaceRequest CancelRequest].
  eexists. split.
  { rewrite (bind_Ok _ _ _ tt (with_changed (bookChanged sv || ok)
      (with_results (<[rResult req := [cancel_response ok]]> (results sv))
        (with_ob s' (with_input q sv))))); [done|].
    erewrite bind_Ok by (apply on_book_Ok; exact E). cbn beta.
    destruct ok; [rewrite orb_true_r|rewrite orb_false_r].
    - erewrite bind_Ok by (unfold send_result; cbn; by rewrite Hres). done.
    - unfold send_result; cbn. rewrite Hres. by destruct sv. }
  split; [|destruct ok; cbn; by rewrite app_nil_r]. split; cbn; auto.
  - split; cbn; auto.
    + rewrite Hb'. by apply spec_cancel_wf.
    + destruct ok; [by rewrite orb_true_r|]. rewrite orb_false_r. intros Hf.
      unfold spec_cancel in Hspec. destruct (bIndex b !! rCancelID req); [done|]. injection Hspec as <-. by apply Hcache.
    + intros c. rewrite lookup_insert_is_Some. intros [<-|[_ ?]]; [|auto]. apply Hnext. eauto.
  - destruct ok; cbn; by rewrite app_nil_r.
  - by destruct ok.
Qed.

(** An iteration that receives a request either serves it or is blocked, and
    it is blocked exactly when its trades do not fit in the channel. *)
Lemma serve_cases sv b req q :
  server_ok sv b → inputChan sv = req :: q →
  total_qty (sOrders (ob sv)) (req :: q) b < 2 ^ 64 →
  let '(resp, b') := spec_request (sOrders (ob sv)) req b in
  if decide (room_for sv (trade_events resp))
  then ∃ sv', loop_receive sv = Ok (true, sv') ∧ served sv sv' b' req q resp ∧
    broadcast sv' = broadcast sv ++ trade_events resp
  else loop_receive sv = NoFuel.
Proof.
  intros Hok Hin Htot. pose proof (q_types _ _ _ _ (so_queue _ _ Hok)) as Ht.
  rewrite Hin in Ht. apply Forall_cons in Ht as [[Ht|Ht] _]; [by apply serve_place|].
  pose proof (serve_cancel sv b req q Hok Hin Ht) as H. unfold spec_request in *. rewrite Ht in *.
  cbn [Z.eqb Pos.eqb PlaceRequest CancelRequest] in *. destruct (spec_cancel _ b) as [ok b'].
  rewrite decide_True; [done|]. destruct ok; exact (room_none _ _ Hok).
Qed.

Lemma serve_ok sv b req q :
  server_ok sv b → sendable sv → inputChan sv = req :: q →
  total_qty (sOrders (ob sv)) (req :: q) b < 2 ^ 64 →
  let '(resp, b') := spec_request (sOrders (ob sv)) req b in
  ∃ sv', loop_receive sv = Ok (true, sv') ∧ served sv sv' b' req q resp ∧
    broadcast sv' = broadcast sv ++ trade_events resp.
Proof.
  intros Hok Hsend Hin Htot. pose proof (serve_cases sv b req q Hok Hin Htot) as H.
  destruct (spec_request _ req b) as [resp b']. rewrite decide_True in H; [done|].
  unfold trade_events. destruct (Trades resp); [by eapply room_none|by apply room_one].
Qed.

(** Serving a request does not add quantity. *)
Lemma remove_side_vol oid ls : Forall level_ok ls → side_vol (remove_entry oid ls) <= side_vol ls.
Proof.
  induction 1 as [|v ls [_ Hv] _ IH]; [done|]. rewrite remove_entry_cons, side_vol_cons.
  assert (Hf : vol (filter (λ e, eOid e ≠ oid) (vQueue v)) <= vol (vQueue v)).
  { induction Hv as [|e q He _ IHq]; [done|]. rewrite filter_cons.
    change (vol (e :: q)) with (eRem e + vol q). destruct (decide _); [|lia].
    change (vol (e :: ?l)) with (eRem e + vol l). lia. }
  unfold side_vol in *. rewrite entries_app, vol_app.
  assert (Hr : entries (remove_from_level oid v) = filter (λ e, eOid e ≠ oid) (vQueue v)).
  { unfold remove_from_level. destruct (filter _ _); [done|]. cbn. by rewrite app_nil_r. }
  rewrite Hr. lia.
Qed.

Lemma queued_qty_ext h h' q :
  (∀ p, p ∈ placed q → h' !! p = h !! p) → queued_qty h' q = queued_qty h q.
Proof.
  induction q as [|req q IH]; intros H; [done|]. cbn [queued_qty foldr].
  fold (queued_qty h q) (queued_qty h' q). destruct (decide (is_place req)) as [Hp|Hp].
  - rewrite placed_cons_place in H by done.
    rewrite (H (rOrder req)) by (apply elem_of_cons; auto). f_equal. apply IH.
    intros p ?. apply H. by apply elem_of_cons; right.
  - rewrite placed_cons_other in H by done. f_equal. by apply IH.
Qed.

Lemma total_qty_served sv sv' b req q :
  server_ok sv b → inputChan sv = req :: q →
  let '(resp, b') := spec_request (sOrders (ob sv)) req b in
  served sv sv' b' req q resp →
  total_qty (sOrders (ob sv')) q b' <= total_qty (sOrders (ob sv)) (req :: q) b.
Proof.
  intros Hok Hin. destruct (spec_request _ req b) as [resp b'] eqn:Hspec. intros Hs.
  unfold total_qty. rewrite (queued_qty_ext _ _ _ (sv_orders _ _ _ _ _ _ Hs)).
  cbn [queued_qty foldr]. fold (queued_qty (sOrders (ob sv)) q).
  pose proof (so_queue _ _ Hok) as Hq. rewrite Hin in Hq. unfold spec_request in Hspec.
  destruct (decide (is_place req)) as [Hp|Hp].
  - rewrite Hp in Hspec. cbn [Z.eqb PlaceRequest] in Hspec.
    destruct (q_order _ _ _ _ Hq (rOrder req)) as (_ & _ & id & side & ty & price & qty & now & E & Hu).
    { rewrite placed_cons_place by done. by apply elem_of_cons; left. }
    rewrite E in *. cbn [oID oSide oType oPrice oQuantity new_order_struct] in *.
    pose proof (process_vol (rOrder req) id side ty price qty b (so_wf _ _ Hok) Hu) as Hv.
    cbv zeta in Hv. destruct (spec_process _ id side ty price qty b) as [ts b1]. simplify_eq.
    cbn [snd] in Hv. lia.
  - destruct (Z.eqb_spec (rType req) PlaceRequest); [done|].
    unfold spec_cancel in Hspec. destruct (bIndex b !! rCancelID req) as [oid|]; simplify_eq; [|lia].
    cbn [bBids bAsks]. pose proof (remove_side_vol oid _ (wf_levels _ (so_wf _ _ Hok) Bids)).
    pose proof (remove_side_vol oid _ (wf_levels _ (so_wf _ _ Hok) Asks)). cbn [levels] in *. lia.
Qed.

Lemma spec_requests_ext h h' q b :
  (∀ p, p ∈ placed q → h' !! p = h !! p) → spec_requests h' q b = spec_requests h q b.
Proof.
  revert b. induction q as [|req q IH]; intros b H; [done|]. cbn [spec_requests].
  assert (E : spec_request h' req b = spec_request h req b).
  { unfold spec_request. destruct (Z.eqb_spec (rType req) PlaceRequest) as [Hp|]; [|done].
    rewrite H; [done|]. rewrite placed_cons_place by done. by apply elem_of_cons; left. }
  rewrite E. destruct (spec_request h req b) as [resp b1].
  rewrite IH; [done|]. intros p Hp. apply H. destruct (decide (is_place req)).
  - rewrite placed_cons_place by done. by apply elem_of_cons; right.
  - by rewrite placed_cons_other.
Qed.

(** ** Serving the whole queue *)

(** Whatever the channel holds, it has room once the hub has received. *)
Lemma hub_receive_ok sv b :
  server_ok sv b →
  ∃ sv', hub_receive sv = Ok (tt, sv') ∧ server_ok sv' b ∧ sendable sv' ∧
    ob sv' = ob sv ∧ inputChan sv' = inputChan sv ∧ results sv' = results sv ∧ nextChan sv' = nextChan sv ∧
    events sv' = events sv ∧ depthCache sv' = depthCache sv ∧ bookChanged sv' = bookChanged sv.
Proof.
  intros [HR Hwf Hcache Hq Hnext Hbc]. eexists. split; [done|].
  assert (Hs : (length (tail (broadcast sv)) < broadcast_cap)%nat).
  { unfold broadcast_cap in *. destruct (broadcast sv); cbn in *; lia. }
  split_and!; try done. split; cbn; auto. lia.
Qed.

(** An iteration of the loop that receives a request, beside a hub that
    receives from its channel. *)
Definition loop_next : SM bool := hub_receive;; loop_receive.

Lemma serve_next sv b req q :
  server_ok sv b → inputChan sv = req :: q →
  total_qty (sOrders (ob sv)) (req :: q) b < 2 ^ 64 →
  let '(resp, b') := spec_request (sOrders (ob sv)) req b in
  ∃ sv', loop_next sv = Ok (true, sv') ∧ served sv sv' b' req q resp.
Proof.
  intros Hok Hin Htot.
  destruct (hub_receive_ok sv b Hok) as (sv0 & E0 & Hok0 & Hsend & Hob & Hin0 & Hres & _ & Hev & Hc & Hch).
  rewrite Hin in Hin0. rewrite <- Hob in Htot |- *. pose proof (serve_ok sv0 b req q Hok0 Hsend Hin0 Htot) as H.
  destruct (spec_request _ req b) as [resp b']. destruct H as (sv' & E & [H1 H2 H3 H4 H5 H6 H7] & _).
  exists sv'. unfold loop_next. rewrite (bind_Ok _ _ _ _ _ E0). split; [done|].
  split; try done; try congruence. intros p Hp. rewrite <- Hob. by apply H5.
Qed.

(** [n] such iterations. *)
Fixpoint loop_receives (n : nat) : SM unit :=
  match n with
  | O => mret tt
  | S n' => loop_next;; loop_receives n'
  end.

Lemma drain sv b :
  server_ok sv b → total_qty (sOrders (ob sv)) (inputChan sv) b < 2 ^ 64 →
  let '(resps, b') := spec_requests (sOrders (ob sv)) (inputChan sv) b in
  ∃ sv', loop_receives (length (inputChan sv)) sv = Ok (tt, sv') ∧
    server_ok sv' b' ∧ inputChan sv' = [] ∧
    Forall2 (λ req resp, results sv' !! rResult req = Some [resp]) (inputChan sv) resps ∧
    (∀ c, c ∉ rResult <$> inputChan sv → results sv' !! c = results sv !! c) ∧
    events sv' = events sv ++ (resps ≫= trade_events).
Proof.
  remember (inputChan sv) as q eqn:Hin. symmetry in Hin. revert sv b Hin.
  induction q as [|req q IH]; intros sv b Hin Hok Htot; cbn [spec_requests length loop_receives].
  { exists sv. split_and!; [done|done|done|constructor|done|cbn; by rewrite app_nil_r]. }
  pose proof (serve_next sv b req q Hok Hin Htot) as Hserve.
  pose proof (λ sv', total_qty_served sv sv' b req q Hok Hin) as Htq.
  destruct (spec_request (sOrders (ob sv)) req b) as [resp b1] eqn:E1.
  destruct Hserve as (sv1 & E & Hs). specialize (Htq sv1 Hs).
  pose proof (IH sv1 b1 (sv_input _ _ _ _ _ _ Hs) (sv_ok _ _ _ _ _ _ Hs) ltac:(lia)) as H.
  rewrite (spec_requests_ext _ _ _ _ (sv_orders _ _ _ _ _ _ Hs)) in H.
  destruct (spec_requests (sOrders (ob sv)) q b1) as [resps b2].
  destruct H as (sv2 & E2 & Hok2 & Hin2 & HF & Hother & Hev).
  pose proof (q_results _ _ _ _ (so_queue _ _ Hok)) as Hnd.
  rewrite Hin, fmap_cons in Hnd. apply NoDup_cons in Hnd as [Hn _].
  exists sv2. split_and!; auto.
  - by rewrite (bind_Ok _ _ _ _ _ E).
  - constructor; [|done]. rewrite Hother, (sv_results _ _ _ _ _ _ Hs) by done.
    apply lookup_insert_eq.
  - intros c. rewrite fmap_cons, not_elem_of_cons. intros [Hc1 Hc2].
    rewrite Hother, (sv_results _ _ _ _ _ _ Hs) by done. by rewrite lookup_insert_ne.
  - rewrite Hev, (sv_events _ _ _ _ _ _ Hs). cbn. by rewrite <-app_assoc.
Qed.

(** ** The ticker *)

Lemma tick_ok sv b :
  server_ok sv b → sendable sv ∨ bookChanged sv = false →
  ∃ sv', loop_tick sv = Ok (tt, sv') ∧ server_ok sv' b ∧ bookChanged sv' = false ∧
    depthCache sv' = book_depth b ∧ inputChan sv' = inputChan sv ∧ results sv' = results sv ∧
    ob sv' = ob sv ∧
    let new := if bookChanged sv then
      [mkWSMessage "depth" (DepthData (book_depth b).1 (book_depth b).2)] else [] in
    events sv' = events sv ++ new ∧ broadcast sv' = broadcast sv ++ new.
Proof.
  intros [HR Hwf Hcache Hq Hnext Hbc] Hsend. unfold loop_tick. go_step.
  destruct (bookChanged sv) eqn:Hch.
  - erewrite bind_Ok by (apply on_book_Ok; apply (GetDepth_refines _ _ 50 HR); by vm_compute). cbn beta.
    destruct Hsend as [Hsend|]; [|done].
    go_step. erewrite bind_Ok by (by apply broadcast_Ok). cbn beta. go_steps. eexists. split; [done|].
    split_and!; [|done..]. split; cbn; auto. rewrite length_app. unfold sendable in *. cbn. lia.
  - exists sv. cbn. rewrite !app_nil_r. split_and!; [done|split; auto|done|auto|done..].
Qed.

(** A tick beside the hub. *)
Definition tick_next : SM unit := hub_receive;; loop_tick.

Lemma tick_next_ok sv b :
  server_ok sv b →
  ∃ sv', tick_next sv = Ok (tt, sv') ∧ server_ok sv' b ∧ bookChanged sv' = false ∧
    depthCache sv' = book_depth b ∧ inputChan sv' = inputChan sv ∧ ob sv' = ob sv.
Proof.
  intros Hok. destruct (hub_receive_ok sv b Hok) as (sv0 & E0 & Hok0 & Hsend & Hob & Hin & _).
  destruct (tick_ok sv0 b Hok0 (or_introl Hsend)) as (sv' & E & Hok' & Hch & Hc & Hin' & _ & Hob' & _).
  exists sv'. unfold tick_next. rewrite (bind_Ok _ _ _ _ _ E0). split_and!; [done..|congruence|congruence].
Qed.

(** A tick that has a depth to publish is blocked by a full channel. *)
Lemma tick_blocks sv b :
  server_ok sv b → ¬ sendable sv → bookChanged sv = true → loop_tick sv = NoFuel.
Proof.
  intros [HR Hwf Hcache Hq Hnext Hbc] Hfull Hch. unfold loop_tick. go_step. rewrite Hch.
  erewrite bind_Ok by (apply on_book_Ok; apply (GetDepth_refines _ _ 50 HR); by vm_compute). cbn beta.
  go_step. by apply bind_NoFuel, broadcast_blocks.
Qed.

(** ** The handlers *)

Lemma send_input_Ok sv req :
  (length (inputChan sv) < input_cap)%nat →
  send_input req sv = Ok (tt, with_input (inputChan sv ++ [req]) sv).
Proof. intros H. unfold send_input. by rewrite (proj2 (Nat.ltb_lt _ _) H). Qed.

Lemma queue_ok_snoc s b res q req :
  queue_ok s b res q → rType req = PlaceRequest ∨ rType req = CancelRequest →
  (is_place req → (rOrder req ∉ placed q) ∧ pending_order s b (rOrder req)) →
  res !! rResult req = None →
  queue_ok s b (<[rResult req := []]> res) (q ++ [req]).
Proof.
  intros [Ht Hnd Ho Hrn Hr] Hty Hp Hfresh.
  assert (Hpl : placed (q ++ [req]) = placed q ++ if decide (is_place req) then [rOrder req] else []).
  { unfold placed. rewrite filter_app, fmap_app. f_equal. rewrite filter_cons, filter_nil.
    by destruct (decide _). }
  assert (Hnr : rResult req ∉ rResult <$> q) by (intros H%Hr; congruence).
  split.
  - apply Forall_app. split; [done|]. by constructor.
  - rewrite Hpl. destruct (decide (is_place req)) as [H|]; [|by rewrite app_nil_r].
    apply NoDup_app. split_and!; [done| |apply NoDup_singleton].
    intros p Hin ->%list_elem_of_singleton. by destruct (Hp H) as [Hno _].
  - intros p. rewrite Hpl, elem_of_app. intros [?|Hin]; [auto|].
    destruct (decide (is_place req)) as [H|]; [|by apply not_elem_of_nil in Hin].
    apply list_elem_of_singleton in Hin as ->. by apply Hp.
  - rewrite fmap_app. apply NoDup_app. split_and!; [done| |apply NoDup_singleton].
    intros c Hin ->%list_elem_of_singleton. done.
  - intros c. rewrite fmap_app, elem_of_app. intros [Hc| ->%list_elem_of_singleton].
    + rewrite lookup_insert_ne by (intros <-; done). auto.
    + by rewrite lookup_insert_eq.
Qed.

Lemma fresh_result sv b : server_ok sv b → results sv !! nextChan sv = None.
Proof.
  intros Hok. destruct (results sv !! nextChan sv) eqn:E; [|done].
  assert ((nextChan sv < nextChan sv)%N) by (apply (so_next _ _ Hok); eauto). lia.
Qed.

(** A handler that makes a new order and sends the request. *)
Lemma place_handler_ok sv b now body :
  server_ok sv b → (length (inputChan sv) < input_cap)%nat → is_u64 (pQuantity body) →
  pID body ≠ "" → pQuantity body ≠ 0 →
  let req := mkOrderRequest PlaceRequest (sBrk (ob sv)) "" (nextChan sv) in
  ∃ sv', handlePlaceOrder now (Some body) sv = Ok (Waiting (nextChan sv), sv') ∧
    server_ok sv' b ∧ inputChan sv' = inputChan sv ++ [req] ∧
    sOrders (ob sv') = <[sBrk (ob sv) := new_order_struct (pID body) (pSide body) (pType body)
                           (pPrice body) (pQuantity body) now]> (sOrders (ob sv)) ∧
    depthCache sv' = depthCache sv ∧ events sv' = events sv ∧ broadcast sv' = broadcast sv ∧
    bookChanged sv' = bookChanged sv.
Proof.
  intros Hok Hcap Hu Hid Hqty req. pose proof (fresh_result _ _ Hok) as Hfr.
  destruct Hok as [HR Hwf Hcache Hq Hnext Hbc].
  unfold handlePlaceOrder. rewrite bool_decide_false by done.
  replace (pQuantity body =? 0) with false by lia. cbn [orb].
  erewrite bind_Ok by (apply on_book_Ok; unfold NewOrder, alloc_order; done). cbn beta.
  erewrite bind_Ok by done. cbn beta.
  erewrite bind_Ok by (by apply send_input_Ok). cbn beta.
  eexists. split; [done|]. split; [|done].
  set (s1 := mkSt _ _ _ _).
  assert (HU : untouched b [] (ob sv) s1).
  { split; [cbn; lia|]. intros p Hp _ _. cbn. rewrite lookup_insert_ne; [done|lia]. }
  split; cbn -[s1]; auto.
  - eapply Rep_keeps; [exact HR|apply keeps_alloc_order|done].
  - apply (queue_ok_snoc s1 b (results sv) (inputChan sv) req); [|by left| |done].
    + destruct Hq as [Ht Hnd Ho Hrn Hr]. split; auto. intros p Hp.
      eapply pending_kept; [exact HU|auto|apply not_elem_of_nil|auto].
    + intros _. split.
      * intros Hin. destruct (q_order _ _ _ _ Hq _ Hin) as [Hlt _]. cbn in Hlt. lia.
      * split; [cbn; lia|]. split; [by apply brk_fresh|].
        do 6 eexists. split; [apply lookup_insert_eq|done].
  - intros c. rewrite lookup_insert_is_Some. intros [<-|[_ Hc]]; [lia|].
    specialize (Hnext c Hc). lia.
Qed.

Lemma cancel_handler_ok sv b path id :
  server_ok sv b → (length (inputChan sv) < input_cap)%nat → Split path !! 4%nat = Some id →
  let req := mkOrderRequest CancelRequest nil_ptr id (nextChan sv) in
  ∃ sv', handleCancelOrder path sv = Ok (Waiting (nextChan sv), sv') ∧
    server_ok sv' b ∧ inputChan sv' = inputChan sv ++ [req] ∧ ob sv' = ob sv ∧
    depthCache sv' = depthCache sv ∧ events sv' = events sv ∧ broadcast sv' = broadcast sv ∧
    bookChanged sv' = bookChanged sv.
Proof.
  intros Hok Hcap Hid req. pose proof (fresh_result _ _ Hok) as Hfr.
  destruct Hok as [HR Hwf Hcache Hq Hnext Hbc]. unfold handleCancelOrder.
  pose proof (lookup_lt_Some _ _ _ Hid) as Hlen. apply Nat.ltb_ge in Hlen as ->.
  erewrite bind_Ok by (by apply from_option_panic_Ok). cbn beta.
  erewrite bind_Ok by done. cbn beta.
  erewrite bind_Ok by (by apply send_input_Ok). cbn beta.
  eexists. split; [done|]. split; [|done]. split; cbn; auto.
  - apply (queue_ok_snoc (ob sv) b (results sv) (inputChan sv) req); [done|by right|done|done].
  - intros c. rewrite lookup_insert_is_Some. intros [<-|[_ Hc]]; [lia|].
    specialize (Hnext c Hc). lia.
Qed.

Lemma NewServer_ok : server_ok NewServer empty_book.
Proof.
  split; cbn; auto using init_Rep, empty_book_wf.
  - split; cbn; [constructor|constructor| |constructor|]; intros x Hx; by apply not_elem_of_nil in Hx.
  - intros c [x Hx]. done.
  - lia.
Qed.
