(* ===== verification/ServerProps.v ===== *)
(** * What the API server guarantees

    The properties of pkg/api/server.go, over all interleavings of handlers,
    loop iterations and ticks, and of the path from an HTTP request to its
    response. *)

From stdpp Require Import prelude gmap strings list fin_maps.
From Stdlib Require Import ZArith Lia Ascii.
From S2P Require Import Prelude GoSort Order LevelQueue OrderBook BookSpec BookInv BookFlow BookRefine BookSim Server ServerInv.

Local Open Scope Z_scope.

(** ** Reachable servers *)

(** The quantities in the book and in the queue add up to less than 2^64. *)
Definition has_room (sv : Server) : Prop :=
  ∀ b, Rep (ob sv) b → total_qty (sOrders (ob sv)) (inputChan sv) b < 2 ^ 64.

Inductive server_reachable : Server → Prop :=
  | sr_new : server_reachable NewServer
  | sr_place sv now decoded h sv' :
      server_reachable sv → (∀ body, decoded = Some body → is_u64 (pQuantity body)) →
      handlePlaceOrder now decoded sv = Ok (h, sv') → server_reachable sv'
  | sr_cancel sv path h sv' :
      server_reachable sv → handleCancelOrder path sv = Ok (h, sv') → server_reachable sv'
  | sr_receive sv more sv' :
      server_reachable sv → has_room sv → loop_receive sv = Ok (more, sv') → server_reachable sv'
  | sr_tick sv sv' :
      server_reachable sv → loop_tick sv = Ok (tt, sv') → server_reachable sv'
  | sr_hub sv sv' :
      server_reachable sv → hub_receive sv = Ok (tt, sv') → server_reachable sv'
  | sr_finish sv c resp sv' :
      server_reachable sv → recv_result c sv = Ok (resp, sv') → server_reachable sv'.

(** Receiving a response leaves the loop's view alone. *)
Lemma recv_ok sv b c resp sv' :
  server_ok sv b → recv_result c sv = Ok (resp, sv') → server_ok sv' b.
Proof.
  intros [HR Hwf Hcache [Ht Hnd Ho Hrn Hr] Hnext Hbc] E. unfold recv_result in E.
  destruct (results sv !! c) as [[|x rest]|] eqn:Hc; [done| |done]. simplify_eq.
  split; cbn; auto.
  - split; auto. intros d Hd. rewrite lookup_insert_ne; [auto|]. intros <-.
    rewrite (Hr _ Hd) in Hc. done.
  - intros d. rewrite lookup_insert_is_Some. intros [<-|[_ ?]]; eauto.
Qed.

Lemma place_handler_cases sv b now decoded h sv' :
  server_ok sv b → (∀ body, decoded = Some body → is_u64 (pQuantity body)) →
  handlePlaceOrder now decoded sv = Ok (h, sv') → server_ok sv' b.
Proof.
  intros Hok Hu E. destruct decoded as [body|]; [|by injection E as <- <-].
  destruct (decide (pID body = "")) as [H1|H1].
  { unfold handlePlaceOrder in E. rewrite bool_decide_true in E by done. by injection E as <- <-. }
  destruct (decide (pQuantity body = 0)) as [H2|H2].
  { unfold handlePlaceOrder in E. rewrite bool_decide_false, H2 in E by done. by injection E as <- <-. }
  destruct (decide (length (inputChan sv) < input_cap)%nat) as [Hcap|Hcap].
  - destruct (place_handler_ok sv b now body Hok Hcap (Hu _ eq_refl) H1 H2) as (sv1 & E1 & Hok1 & _).
    rewrite E in E1. by simplify_eq.
  - exfalso. unfold handlePlaceOrder in E. rewrite bool_decide_false in E by done.
    replace (pQuantity body =? 0) with false in E by lia. cbn -[input_cap Nat.ltb] in E.
    unfold mbind, GoM_bind, send_input, make_result in E. cbn -[input_cap Nat.ltb] in E.
    apply Nat.nlt_ge, Nat.ltb_ge in Hcap. by rewrite Hcap in E.
Qed.

Lemma cancel_handler_cases sv b path h sv' :
  server_ok sv b → handleCancelOrder path sv = Ok (h, sv') → server_ok sv' b.
Proof.
  intros Hok E. unfold handleCancelOrder in E.
  destruct (Nat.ltb_spec (length (Split path)) 5) as [|Hlen]; [by injection E as <- <-|].
  destruct (lookup_lt_is_Some_2 (Split path) 4 ltac:(lia)) as [id Hid].
  destruct (decide (length (inputChan sv) < input_cap)%nat) as [Hcap|Hcap].
  - destruct (cancel_handler_ok sv b path id Hok Hcap Hid) as (sv1 & E1 & Hok1 & _).
    unfold handleCancelOrder in E1. apply Nat.ltb_ge in Hlen. rewrite Hlen, E in E1. by simplify_eq.
  - exfalso. rewrite Hid in E. unfold mbind, GoM_bind, send_input, make_result in E.
    cbn -[input_cap Nat.ltb] in E. apply Nat.nlt_ge, Nat.ltb_ge in Hcap. by rewrite Hcap in E.
Qed.

(** An iteration that receives, on a server with room for its quantities:
    served as specified, or blocked because its trades do not fit. *)
Lemma receive_cases sv b :
  server_ok sv b → has_room sv →
  match loop_receive sv with
  | Ok (more, sv') => more = bool_decide (inputChan sv ≠ []) ∧
      ∃ b' new, server_ok sv' b' ∧ events sv' = events sv ++ new ∧ broadcast sv' = broadcast sv ++ new ∧
        depthCache sv' = depthCache sv ∧ (new = [] ∨ ∃ ts, new = [mkWSMessage "trade" (TradesData ts)])
  | Panic => False
  | NoFuel => ¬ sendable sv
  end.
Proof.
  intros Hok Hroom. destruct (inputChan sv) as [|req q] eqn:Hin.
  { unfold loop_receive. rewrite Hin. split; [done|]. exists b, []. rewrite !app_nil_r. split_and!; auto. }
  pose proof (Hroom b (so_rep _ _ Hok)) as Ht. rewrite Hin in Ht.
  pose proof (serve_cases sv b req q Hok Hin Ht) as H. destruct (spec_request _ req b) as [resp b'].
  destruct (decide _) as [Hr|Hr].
  - destruct H as (sv' & -> & [H1 _ _ H2 _ H4 _] & H3). split; [done|]. exists b', (trade_events resp).
    split_and!; [done..|].
    unfold trade_events. destruct (Trades resp); eauto.
  - rewrite H. intros Hs. apply Hr. unfold trade_events.
    destruct (Trades resp); [by eapply room_none|by apply room_one].
Qed.

(** A tick publishes the depth if there was a change, or is blocked with it. *)
Lemma tick_cases sv b :
  server_ok sv b →
  match loop_tick sv with
  | Ok (_, sv') => server_ok sv' b ∧ depthCache sv' = book_depth b ∧
      let new := if bookChanged sv then
        [mkWSMessage "depth" (DepthData (book_depth b).1 (book_depth b).2)] else [] in
      events sv' = events sv ++ new ∧ broadcast sv' = broadcast sv ++ new
  | Panic => False
  | NoFuel => ¬ sendable sv
  end.
Proof.
  intros Hok. destruct (decide (length (broadcast sv) < broadcast_cap)%nat) as [Hs|Hs].
  { destruct (tick_ok sv b Hok (or_introl Hs)) as (sv' & -> & Hok' & _ & Hc & _ & _ & _ & Hev). done. }
  destruct (bookChanged sv) eqn:Hch.
  - by rewrite (tick_blocks sv b Hok Hs Hch).
  - destruct (tick_ok sv b Hok (or_intror Hch)) as (sv' & -> & Hok' & _ & Hc & _ & _ & _ & Hev).
    by rewrite Hch in Hev.
Qed.

Lemma server_reachable_ok sv : server_reachable sv → ∃ b, server_ok sv b.
Proof.
  induction 1 as [|sv now decoded h sv' _ [b Hok] Hu E|sv path h sv' _ [b Hok] E
                  |sv more sv' _ [b Hok] Hroom E|sv sv' _ [b Hok] E|sv sv' _ [b Hok] E
                  |sv c resp sv' _ [b Hok] E].
  - exists empty_book. apply NewServer_ok.
  - exists b. by eapply place_handler_cases.
  - exists b. by eapply cancel_handler_cases.
  - pose proof (receive_cases sv b Hok Hroom) as H. rewrite E in H. destruct H as (_ & b' & new & Hok' & _). eauto.
  - pose proof (tick_cases sv b Hok) as H. rewrite E in H. destruct H as [Hok' _]. eauto.
  - destruct (hub_receive_ok sv b Hok) as (sv1 & E1 & Hok1 & _). rewrite E in E1. simplify_eq. eauto.
  - exists b. by eapply recv_ok.
Qed.

(** ** The loop *)

(** A server with a resting ask and a queue of two requests. *)
Definition submit (id : string) (side ty price qty : Z) (sv : Server) : Server :=
  match handlePlaceOrder 0 (Some (mkPlaceOrderReq id side ty price qty)) sv with
  | Ok (_, sv') => sv' | _ => sv
  end.
Definition ex_sv1 : Server := submit "ask" Sell LimitOrder 100 10 NewServer.
Definition ex_sv2 : Server := submit "buy" Buy LimitOrder 101 4 ex_sv1.

Lemma submit_ok sv b id side ty price qty :
  server_reachable sv ∧ server_ok sv b → (length (inputChan sv) <? 100)%nat = true → is_u64 qty →
  id ≠ "" → qty ≠ 0 →
  server_reachable (submit id side ty price qty sv) ∧ server_ok (submit id side ty price qty sv) b.
Proof.
  intros [Hr Hok] Hl%Nat.ltb_lt Hu Hid Hq. unfold submit.
  destruct (place_handler_ok sv b 0 (mkPlaceOrderReq id side ty price qty) Hok)
    as (sv' & E & ? & _); auto.
  { unfold input_cap. lia. }
  rewrite E. split; [|done]. eapply sr_place; [exact Hr| |exact E]. by intros body [= <-].
Qed.

Lemma ex_sv2_both : server_reachable ex_sv2 ∧ server_ok ex_sv2 empty_book.
Proof.
  apply submit_ok; [|by vm_compute|by vm_compute|done|done].
  apply submit_ok; [|by vm_compute|by vm_compute|done|done].
  split; [constructor|apply NewServer_ok].
Qed.
Lemma ex_sv2_reachable : server_reachable ex_sv2.
Proof. apply ex_sv2_both. Qed.
Lemma ex_sv2_ok : server_ok ex_sv2 empty_book.
Proof. apply ex_sv2_both. Qed.

(** Only one book can be represented by the empty slices of these examples. *)
Lemma empty_slices_book s b :
  Rep s b → bids (sBook s) = [] → asks (sBook s) = [] → bBids b = [] ∧ bAsks b = [].
Proof.
  intros HR Hb Ha. pose proof (rep_side _ _ HR Bids) as H1. pose proof (rep_side _ _ HR Asks) as H2.
  cbn in H1, H2. rewrite Hb in H1. rewrite Ha in H2.
  split; [by apply Forall2_nil_inv_l in H1|by apply Forall2_nil_inv_l in H2].
Qed.

Lemma ex_sv2_room : has_room ex_sv2.
Proof.
  intros b HR. destruct (empty_slices_book _ _ HR) as [Hb Ha]; [by vm_compute..|].
  unfold total_qty. rewrite Hb, Ha. by vm_compute.
Qed.

(** C4: Requests are served first in, first out, each exactly once.  Draining
    the queue gives every request, on its own channel, the response of the
    sequential specification run in queue order; no other channel is written;
    the book is the specification's; and the trade messages broadcast are
    exactly the non-empty trade lists of the responses, in order.  The hub
    receives beside the loop, so the broadcast channel does not block it. *)
Theorem requests_served_in_order sv b :
  server_ok sv b → total_qty (sOrders (ob sv)) (inputChan sv) b < 2 ^ 64 →
  let '(resps, b') := spec_requests (sOrders (ob sv)) (inputChan sv) b in
  ∃ sv', loop_receives (length (inputChan sv)) sv = Ok (tt, sv') ∧
    server_ok sv' b' ∧ inputChan sv' = [] ∧
    Forall2 (λ req resp, results sv' !! rResult req = Some [resp]) (inputChan sv) resps ∧
    (∀ c, c ∉ rResult <$> inputChan sv → results sv' !! c = results sv !! c) ∧
    events sv' = events sv ++ (resps ≫= trade_events).
Proof. apply drain. Qed.

Lemma requests_served_in_order_witness :
  ∃ sv', loop_receives 2 ex_sv2 = Ok (tt, sv') ∧
    events sv' = [mkWSMessage "trade" (TradesData [mkTrade "ask" "buy" 100 4])].
Proof.
  pose proof (requests_served_in_order ex_sv2 empty_book ex_sv2_ok ltac:(by vm_compute)) as H.
  assert (E : fst (spec_requests (sOrders (ob ex_sv2)) (inputChan ex_sv2) empty_book) =
    [place_response []; place_response [mkTrade "ask" "buy" 100 4]]) by (vm_compute; reflexivity).
  destruct (spec_requests _ _ _) as [resps b']. cbn [fst] in E. subst resps.
  destruct H as (sv' & Hrun & _ & _ & _ & _ & Hev). exists sv'. split; [exact Hrun|exact Hev].
Defined.

(** The depth cache.  In every reachable server in which no change is
    waiting to be published, what [handleGetOrderBook] serves is the current
    top 50 levels of the book; a tick makes this so and broadcasts the new
    depth exactly when there was a change. *)
Theorem depth_cache_current sv :
  server_reachable sv → sendable sv →
  ∃ b, Rep (ob sv) b ∧
    (bookChanged sv = false → handleGetOrderBook sv = Ok (book_depth b, sv)) ∧
    ∃ sv', loop_tick sv = Ok (tt, sv') ∧ ob sv' = ob sv ∧ bookChanged sv' = false ∧
      handleGetOrderBook sv' = Ok (book_depth b, sv') ∧
      GetDepth 50 (ob sv') = Ok (book_depth b, ob sv') ∧
      events sv' = events sv ++ (if bookChanged sv then
        [mkWSMessage "depth" (DepthData (book_depth b).1 (book_depth b).2)] else []).
Proof.
  intros [b Hok]%server_reachable_ok Hsend. exists b. split; [apply Hok|]. split.
  - intros Hf. unfold handleGetOrderBook, gets. by rewrite (so_cache _ _ Hok Hf).
  - destruct (tick_ok sv b Hok (or_introl Hsend)) as (sv' & E & Hok' & Hch & Hc & _ & _ & Hob & Hev & _).
    exists sv'. split_and!; [done..| | |done].
    + unfold handleGetOrderBook, gets. by rewrite Hc.
    + apply (GetDepth_refines _ _ 50); [apply Hok'|by vm_compute].
Qed.

Lemma depth_cache_current_witness :
  ∃ b, Rep (ob ex_sv2) b ∧
    (bookChanged ex_sv2 = false → handleGetOrderBook ex_sv2 = Ok (book_depth b, ex_sv2)) ∧
    ∃ sv', loop_tick ex_sv2 = Ok (tt, sv') ∧ events sv' = events ex_sv2 ++ [].
Proof.
  destruct (depth_cache_current ex_sv2 ex_sv2_reachable ltac:(vm_compute; lia))
    as (b & HR & Hc & sv' & E & _ & _ & _ & _ & Hev).
  exists b. split; [exact HR|]. split; [exact Hc|]. exists sv'. split; [exact E|exact Hev].
Defined.

(** ** The handlers *)

(** [handlePlaceOrder] on every branch: a body that does not decode, an
    empty id and a zero quantity are answered with status 400 and change
    nothing; everything else, whatever its side, type and price, becomes one
    new order and one place request at the end of the queue. *)
Theorem place_handler_branches sv b now decoded :
  server_ok sv b → (length (inputChan sv) < input_cap)%nat →
  match decoded with
  | None => handlePlaceOrder now decoded sv = Ok (HttpError "invalid request body" 400, sv)
  | Some body =>
      is_u64 (pQuantity body) →
      if decide (pID body = "" ∨ pQuantity body = 0) then
        handlePlaceOrder now decoded sv = Ok (HttpError "missing required fields" 400, sv)
      else
        ∃ sv', handlePlaceOrder now decoded sv = Ok (Waiting (nextChan sv), sv') ∧
          server_ok sv' b ∧
          inputChan sv' = inputChan sv ++
            [mkOrderRequest PlaceRequest (sBrk (ob sv)) "" (nextChan sv)] ∧
          sOrders (ob sv') !! sBrk (ob sv) =
            Some (new_order_struct (pID body) (pSide body) (pType body) (pPrice body)
                    (pQuantity body) now)
  end.
Proof.
  intros Hok Hcap. destruct decoded as [body|]; [|done]. intros Hu.
  destruct (decide _) as [Hbad|Hgood].
  - unfold handlePlaceOrder. destruct Hbad as [Hid|Hq].
    + by rewrite bool_decide_true.
    + by rewrite Hq, orb_true_r.
  - destruct (place_handler_ok sv b now body Hok Hcap Hu) as (sv' & E & Hok' & Hin & Ho & _);
      [tauto..|].
    exists sv'. split_and!; [done..|]. rewrite Ho. apply lookup_insert_eq.
Qed.

Lemma ex_sv2_cap : (length (inputChan ex_sv2) < input_cap)%nat.
Proof.
  assert (E : length (inputChan ex_sv2) = 2%nat) by (vm_compute; reflexivity).
  rewrite E. unfold input_cap. lia.
Qed.

Lemma place_handler_branches_witness :
  handlePlaceOrder 0 (Some (mkPlaceOrderReq "" Buy LimitOrder 1 1)) ex_sv2 =
    Ok (HttpError "missing required fields" 400, ex_sv2).
Proof.
  exact (place_handler_branches ex_sv2 empty_book 0 (Some (mkPlaceOrderReq "" Buy LimitOrder 1 1))
    ex_sv2_ok ex_sv2_cap ltac:(by vm_compute)).
Defined.

(** ** From request to response *)

(** A valid order sent to an idle server is answered with status 200 and
    exactly the trades of the price-time priority specification, and the book
    afterwards is the specification's. *)
Theorem place_end_to_end sv b now body :
  server_ok sv b → inputChan sv = [] → is_u64 (pQuantity body) → pID body ≠ "" → pQuantity body ≠ 0 →
  side_vol (bBids b) + side_vol (bAsks b) + pQuantity body < 2 ^ 64 →
  let '(ts, b') := spec_process (sBrk (ob sv)) (pID body) (pSide body) (pType body) (pPrice body)
                     (pQuantity body) b in
  ∃ c sv1 sv2 sv3, handlePlaceOrder now (Some body) sv = Ok (Waiting c, sv1) ∧
    loop_next sv1 = Ok (true, sv2) ∧
    finishPlaceOrder c sv2 = Ok ((200, mkResponse true ts ""), sv3) ∧ server_ok sv3 b' ∧
    inputChan sv3 = [] ∧ depthCache sv3 = depthCache sv ∧ bookChanged sv3 = true.
Proof.
  intros Hok Hin Hu Hid Hq Hroom.
  destruct (place_handler_ok sv b now body Hok) as (sv1 & E1 & Hok1 & Hin1 & Ho & Hc1 & _ & _ & Hb1); auto.
  { rewrite Hin. unfold input_cap. cbn [length]. lia. }
  rewrite Hin in Hin1. cbn [app] in Hin1.
  set (req := mkOrderRequest PlaceRequest _ _ _) in Hin1.
  assert (Hl : sOrders (ob sv1) !! sBrk (ob sv) = Some (new_order_struct (pID body) (pSide body)
    (pType body) (pPrice body) (pQuantity body) now)) by (rewrite Ho; apply lookup_insert_eq).
  pose proof (serve_next sv1 b req [] Hok1 Hin1) as Hserve.
  assert (Htot : total_qty (sOrders (ob sv1)) [req] b < 2 ^ 64).
  { unfold total_qty. cbn [queued_qty foldr]. rewrite decide_True by done. cbn [req rOrder].
    rewrite Hl. cbn [oQuantity new_order_struct]. lia. }
  specialize (Hserve Htot). unfold spec_request in Hserve. cbn [req rType rOrder] in Hserve.
  rewrite Z.eqb_refl, Hl in Hserve. cbn [oID oSide oType oPrice oQuantity new_order_struct] in Hserve.
  destruct (spec_process _ _ _ _ _ _ b) as [ts b'].
  destruct Hserve as (sv2 & E2 & Hs). pose proof (sv_results _ _ _ _ _ _ Hs) as Hr. cbn in Hr.
  assert (E3 : recv_result (nextChan sv) sv2 =
    Ok (place_response ts, with_results (<[nextChan sv := []]> (results sv2)) sv2)).
  { unfold recv_result. by rewrite Hr, lookup_insert_eq. }
  exists (nextChan sv), sv1, sv2. eexists. split_and!; [exact E1|exact E2|..].
  - unfold finishPlaceOrder. rewrite (bind_Ok _ _ _ _ _ E3). done.
  - eapply recv_ok; [apply Hs|exact E3].
  - apply (sv_input _ _ _ _ _ _ Hs).
  - etrans; [apply (sv_cache _ _ _ _ _ _ Hs)|done].
  - etrans; [apply (sv_changed _ _ _ _ _ _ Hs)|apply orb_true_r].
Qed.

Lemma place_end_to_end_witness :
  ∃ c sv1 sv2 sv3, handlePlaceOrder 0 (Some (mkPlaceOrderReq "a" Sell LimitOrder 100 5)) NewServer =
      Ok (Waiting c, sv1) ∧
    loop_next sv1 = Ok (true, sv2) ∧
    finishPlaceOrder c sv2 = Ok ((200, mkResponse true [] ""), sv3) ∧
    server_ok sv3 (mkBook [] [mkLevel 100 [mkEntry 1%N "a" 5]] {["a" := 1%N]}) ∧
    inputChan sv3 = [] ∧ depthCache sv3 = ([], []) ∧ bookChanged sv3 = true.
Proof.
  exact (place_end_to_end NewServer empty_book 0 (mkPlaceOrderReq "a" Sell LimitOrder 100 5)
    NewServer_ok eq_refl ltac:(by vm_compute) ltac:(done) ltac:(done) ltac:(by vm_compute)).
Defined.

(** A cancel sent to an idle server is answered with status 200 when the
    id is active and with status 404 and [order not found] otherwise; the
    book afterwards is the specification's. *)
Theorem cancel_end_to_end sv b path id :
  server_ok sv b → inputChan sv = [] → Split path !! 4%nat = Some id →
  side_vol (bBids b) + side_vol (bAsks b) < 2 ^ 64 →
  ∃ c sv1 sv2 sv3, handleCancelOrder path sv = Ok (Waiting c, sv1) ∧
    loop_next sv1 = Ok (true, sv2) ∧
    finishCancelOrder c sv2 =
      Ok (if bool_decide (is_Some (bIndex b !! id)) then (200, mkResponse true [] "")
          else (404, mkResponse false [] "order not found"), sv3) ∧
    server_ok sv3 (snd (spec_cancel id b)) ∧
    inputChan sv3 = [] ∧ depthCache sv3 = depthCache sv ∧
    bookChanged sv3 = bookChanged sv || bool_decide (is_Some (bIndex b !! id)).
Proof.
  intros Hok Hin Hid Hroom.
  destruct (cancel_handler_ok sv b path id Hok) as (sv1 & E1 & Hok1 & Hin1 & Hob & Hc1 & _ & _ & Hb1); auto.
  { rewrite Hin. unfold input_cap. cbn [length]. lia. }
  rewrite Hin in Hin1. cbn [app] in Hin1.
  set (req := mkOrderRequest CancelRequest _ _ _) in Hin1.
  pose proof (serve_next sv1 b req [] Hok1 Hin1) as Hserve.
  assert (Htot : total_qty (sOrders (ob sv1)) [req] b < 2 ^ 64).
  { unfold total_qty. cbn [queued_qty foldr]. rewrite decide_False by done. lia. }
  specialize (Hserve Htot). unfold spec_request in Hserve. cbn [req rType rCancelID] in Hserve.
  change (CancelRequest =? PlaceRequest) with false in Hserve. cbn iota in Hserve.
  unfold spec_cancel in *.
  assert (Hfin : ∀ ok b', (∃ sv', loop_next sv1 = Ok (true, sv') ∧
      served sv1 sv' b' req [] (cancel_response ok)) →
    ∃ c sv1 sv2 sv3, handleCancelOrder path sv = Ok (Waiting c, sv1) ∧
      loop_next sv1 = Ok (true, sv2) ∧
      finishCancelOrder c sv2 = Ok (if ok then (200, mkResponse true [] "")
        else (404, mkResponse false [] "order not found"), sv3) ∧ server_ok sv3 b' ∧
      inputChan sv3 = [] ∧ depthCache sv3 = depthCache sv ∧ bookChanged sv3 = bookChanged sv || ok).
  { intros ok b' (sv2 & E2 & Hs). pose proof (sv_results _ _ _ _ _ _ Hs) as Hr. cbn in Hr.
    assert (E3 : recv_result (nextChan sv) sv2 =
      Ok (cancel_response ok, with_results (<[nextChan sv := []]> (results sv2)) sv2)).
    { unfold recv_result. by rewrite Hr, lookup_insert_eq. }
    exists (nextChan sv), sv1, sv2. eexists. split_and!; [exact E1|exact E2|..].
    - unfold finishCancelOrder. rewrite (bind_Ok _ _ _ _ _ E3). by destruct ok.
    - eapply recv_ok; [apply Hs|exact E3].
    - apply (sv_input _ _ _ _ _ _ Hs).
    - etrans; [apply (sv_cache _ _ _ _ _ _ Hs)|done].
    - etrans; [apply (sv_changed _ _ _ _ _ _ Hs)|]. rewrite Hb1. by destruct ok. }
  destruct (bIndex b !! id) as [oid|].
  - rewrite bool_decide_true by eauto. apply (Hfin true). exact Hserve.
  - rewrite bool_decide_false by (by intros [? ?]). apply (Hfin false). exact Hserve.
Qed.

Lemma cancel_end_to_end_witness :
  ∃ c sv1 sv2 sv3, handleCancelOrder "/api/v1/orders/x" NewServer = Ok (Waiting c, sv1) ∧
    loop_next sv1 = Ok (true, sv2) ∧
    finishCancelOrder c sv2 = Ok ((404, mkResponse false [] "order not found"), sv3) ∧
    server_ok sv3 empty_book ∧ inputChan sv3 = [] ∧ depthCache sv3 = ([], []) ∧ bookChanged sv3 = false.
Proof.
  exact (cancel_end_to_end NewServer empty_book "/api/v1/orders/x" "x" NewServer_ok eq_refl
    eq_refl ltac:(by vm_compute)).
Defined.

(** ** The cancel path *)

Lemma split_slash_plain cur l : "/"%char ∉ l → split_slash cur l = [String.string_of_list_ascii (cur ++ l)].
Proof.
  revert cur. induction l as [|c l IH]; intros cur Hn; cbn; [by rewrite app_nil_r|].
  apply not_elem_of_cons in Hn as [Hc Hn]. rewrite decide_False by congruence.
  rewrite IH by done. by rewrite <-app_assoc.
Qed.

Lemma split_slash_cut cur l1 l2 :
  "/"%char ∉ l1 →
  split_slash cur (l1 ++ "/"%char :: l2) = String.string_of_list_ascii (cur ++ l1) :: split_slash [] l2.
Proof.
  revert cur. induction l1 as [|c l1 IH]; intros cur Hn; cbn; [by rewrite app_nil_r|].
  apply not_elem_of_cons in Hn as [Hc Hn]. rewrite decide_False by congruence.
  rewrite IH by done. by rewrite <-app_assoc.
Qed.

(** Which order a cancel addresses: the part of the path after
    [/api/v1/orders/] up to the next slash.  So an id without a slash is
    cancelled as it is, and of an id with a slash only the part before it:
    such an order cannot be cancelled, and another may be in its place. *)
Lemma cancel_path_id id rest :
  "/"%char ∉ String.list_ascii_of_string id →
  Split ("/api/v1/orders/" +:+ id) !! 4%nat = Some id ∧
  Split ("/api/v1/orders/" +:+ id +:+ "/" +:+ rest) !! 4%nat = Some id.
Proof.
  intros Hn. unfold Split. rewrite !list_ascii_app. split.
  - change (split_slash [] (String.list_ascii_of_string "/api/v1/orders/" ++ ?l)) with
      ([""; "api"; "v1"; "orders"] ++ split_slash [] l). cbn -[split_slash].
    rewrite split_slash_plain by done. cbn. by rewrite String.string_of_list_ascii_of_string.
  - change (split_slash [] (String.list_ascii_of_string "/api/v1/orders/" ++ ?l)) with
      ([""; "api"; "v1"; "orders"] ++ split_slash [] l). cbn -[split_slash].
    rewrite split_slash_cut by done. cbn. by rewrite String.string_of_list_ascii_of_string.
Qed.
