(* ===== verification/Platform.v ===== *)
(** * The market-data feed, end to end

    The matching engine's process: the API server of [Server] and the hub of
    [Hub], joined by the hub's broadcast channel.  The loop sends its events
    into the channel, which holds 4096 of them and blocks it when it is full;
    the hub takes them one by one and passes them to the clients' buffers.
    What a client has been written is compared with what the server did. *)

From stdpp Require Import prelude gmap strings list fin_maps fin_sets sets.
From Stdlib Require Import ZArith Lia.
From S2P Require Import Prelude GoChan Order OrderBook BookSpec BookRefine Server ServerInv ServerProps Hub.

(** ** The composed system *)

(** [hubUp] and [loopUp]: whether the goroutines of [Hub.Run] and of
    [runMatchingLoop] have been started. *)
Record Platform := mkPlatform { server : Server; hub : Hub.Hub WSMessage; hubUp : bool; loopUp : bool }.

Definition NewPlatform : Platform := mkPlatform NewServer Hub.NewHub false false.
Definition Start (p : Platform) : Platform := mkPlatform (server p) (hub p) true true.

Definition set_server (sv : Server) (p : Platform) : Platform := mkPlatform sv (hub p) (hubUp p) (loopUp p).
Definition set_hub (h : Hub.Hub WSMessage) (p : Platform) : Platform := mkPlatform (server p) h (hubUp p) (loopUp p).

(** The contents of the broadcast channel. *)
Definition in_flight (p : Platform) : list WSMessage := broadcast (server p).

(** The steps of the handlers, and the cases of the matching loop's select. *)
Inductive handler_move : Server → Server → Prop :=
  | move_place sv now decoded h sv' :
      (∀ body, decoded = Some body → is_u64 (pQuantity body)) →
      handlePlaceOrder now decoded sv = Ok (h, sv') → handler_move sv sv'
  | move_cancel sv path h sv' : handleCancelOrder path sv = Ok (h, sv') → handler_move sv sv'
  | move_finish sv c resp sv' : recv_result c sv = Ok (resp, sv') → handler_move sv sv'.
Inductive loop_move : Server → Server → Prop :=
  | move_receive sv more sv' : has_room sv → loop_receive sv = Ok (more, sv') → loop_move sv sv'
  | move_tick sv sv' : loop_tick sv = Ok (tt, sv') → loop_move sv sv'.

(** The actions around the hub other than a broadcast, and those of them that
    are a rendezvous with [Hub.Run]. *)
Definition hub_own (act : Hub.action WSMessage) : Prop :=
  match act with Broadcast _ _ => False | _ => True end.
Definition meets_hub (act : Hub.action WSMessage) : bool :=
  match act with Serve _ | Unregister _ => true | _ => false end.

(** [Hub.Run] takes the message at the channel's front and offers it to the
    clients, in the order [ord] of the map's iteration. *)
Inductive hub_broadcast : Platform → Platform → Prop :=
  | hub_takes p m rest ord sv' h' :
      hubUp p = true → in_flight p = m :: rest → hub_receive (server p) = Ok (tt, sv') →
      Hub.enabled (Broadcast m ord) (hub p) → Hub.perform (Broadcast m ord) (hub p) = Ok (tt, h') →
      hub_broadcast p (set_hub h' (set_server sv' p)).

(** The goroutines of the process, interleaved.  An iteration of the loop that
    would block is not a step until the hub has made room. *)
Inductive platform_step : Platform → Platform → Prop :=
  | step_handler p sv' : handler_move (server p) sv' → platform_step p (set_server sv' p)
  | step_loop p sv' : loopUp p = true → loop_move (server p) sv' → platform_step p (set_server sv' p)
  | step_hub p act h' :
      hub_own act → (meets_hub act = true → hubUp p = true) →
      Hub.enabled act (hub p) → Hub.perform act (hub p) = Ok (tt, h') → platform_step p (set_hub h' p)
  | step_broadcast p p' : hub_broadcast p p' → platform_step p p'.

Definition platform_reachable (p : Platform) : Prop := rtc platform_step (Start NewPlatform) p.

(** The depth a client that got these messages displays. *)
Definition see (shown : option (list PriceLevel * list PriceLevel)) (m : WSMessage) :
    option (list PriceLevel * list PriceLevel) :=
  match wsData m with DepthData bids asks => Some (bids, asks) | TradesData _ => shown end.
Definition depth_seen (ms : list WSMessage) : option (list PriceLevel * list PriceLevel) := foldl see None ms.

Lemma depth_seen_app l1 l2 d : depth_seen l2 = Some d → depth_seen (l1 ++ l2) = Some d.
Proof.
  unfold depth_seen. rewrite foldl_app. generalize (foldl see None l1) as s. intros s. revert d.
  induction l2 as [|m l2 IH] using rev_ind; [done|]. intros d. rewrite !foldl_app. cbn. unfold see at 1 3.
  destruct (wsData m); [apply IH|done].
Qed.

(** ** What a server step does to the events *)

Definition server_move (sv sv' : Server) : Prop := handler_move sv sv' ∨ loop_move sv sv'.

Lemma server_move_reachable sv sv' : server_reachable sv → server_move sv sv' → server_reachable sv'.
Proof.
  intros Hr [Hm|Hm]; destruct Hm;
    [by eapply sr_place|by eapply sr_cancel|by eapply sr_finish|by eapply sr_receive|by eapply sr_tick].
Qed.

(** What is sent, and that it goes into the channel and nothing else does. *)
Definition sends (sv sv' : Server) (new : list WSMessage) : Prop :=
  events sv' = events sv ++ new ∧ broadcast sv' = broadcast sv ++ new.

Lemma handler_move_sends sv sv' : handler_move sv sv' → sends sv sv' [] ∧ depthCache sv' = depthCache sv.
Proof.
  unfold sends. rewrite !app_nil_r. intros Hm. destruct Hm as [sv now decoded h sv' _ E|sv path h sv' E|sv c resp sv' E]; revert E.
  - unfold handlePlaceOrder. destruct decoded as [body|]; [|by intros [= _ <-]].
    destruct (_ || _); [by intros [= _ <-]|].
    unfold mbind, GoM_bind, on_book, NewOrder, alloc_order, make_result, send_input. cbn -[input_cap Nat.ltb].
    destruct (length (inputChan sv) <? input_cap)%nat; [|done]. by intros [= _ <-].
  - unfold handleCancelOrder. destruct (length (Split path) <? 5)%nat; [by intros [= _ <-]|].
    unfold mbind, GoM_bind, from_option_panic, make_result, send_input. destruct (Split path !! 4); [|done].
    cbn -[input_cap Nat.ltb]. destruct (length (inputChan sv) <? input_cap)%nat; [|done]. by intros [= _ <-].
  - unfold recv_result. destruct (results sv !! c) as [[|]|]; try done. by intros [= _ <-].
Qed.

(** What is sent: nothing, or trades, or the new contents of the cache. *)
Lemma server_move_sends sv sv' :
  server_reachable sv → server_move sv sv' →
  ∃ new, sends sv sv' new ∧
    (depthCache sv' = depthCache sv ∧ depth_seen new = None ∨ depth_seen new = Some (depthCache sv')).
Proof.
  intros [b Hok]%server_reachable_ok [Hm%handler_move_sends|Hm].
  { exists []. destruct Hm as [Hs Hc]. auto. }
  destruct Hm as [sv more sv' Hroom E|sv sv' E].
  - pose proof (receive_cases sv b Hok Hroom) as H. rewrite E in H.
    destruct H as (_ & b' & new & _ & He & Hb & Hc & Hnew). exists new. split; [done|]. left. split; [done|].
    by destruct Hnew as [->|[ts ->]].
  - pose proof (tick_cases sv b Hok) as H. rewrite E in H. destruct H as (_ & Hc & He & Hb).
    eexists. split; [split; [exact He|exact Hb]|]. destruct (bookChanged sv) eqn:Hch.
    + right. rewrite Hc. unfold depth_seen, see. cbn [foldl wsData]. by rewrite <- surjective_pairing.
    + left. split; [|done]. unfold loop_tick, gets, mbind, GoM_bind in E. rewrite Hch in E. by injection E as <-.
Qed.

Lemma depth_seen_skip l1 l2 : depth_seen l2 = None → depth_seen (l1 ++ l2) = depth_seen l1.
Proof.
  unfold depth_seen. rewrite foldl_app. generalize (foldl see None l1) as s. intros s.
  induction l2 as [|m l2 IH] using rev_ind; [done|]. rewrite !foldl_app. cbn. unfold see at 1 3.
  destruct (wsData m); [apply IH|done].
Qed.

(** ** Only a broadcast adds to the hub's log *)

Definition keeps_log {A} (m : GoM (Hub.Hub WSMessage) A) : Prop :=
  ∀ h a h', m h = Ok (a, h') → log h' = log h.

Lemma keeps_log_bind {A B} (m : GoM (Hub.Hub WSMessage) A) (k : A → GoM (Hub.Hub WSMessage) B) :
  keeps_log m → (∀ a, keeps_log (k a)) → keeps_log (m ≫= k).
Proof.
  intros Hm Hk h b h'. unfold mbind, GoM_bind. destruct (m h) as [[a h1]| |] eqn:E; [|done..].
  intros E'. rewrite (Hk _ _ _ _ E'). by eapply Hm.
Qed.

Lemma keeps_log_modify f : (∀ h, log (f h) = log h) → keeps_log (modify f).
Proof. intros Hf h a h' [= _ <-]. apply Hf. Qed.

Lemma keeps_log_ret {A} (a : A) : keeps_log (mret a).
Proof. by intros h b h' [= _ <-]. Qed.

Lemma keeps_log_gets {A} (f : Hub.Hub WSMessage → A) : keeps_log (gets f).
Proof. by intros h b h' [= _ <-]. Qed.

Lemma keeps_log_lift {A} (r : res A) : keeps_log (lift r).
Proof. intros h b h'. unfold lift. destruct r; [|done..]. by intros [= _ <-]. Qed.

Lemma keeps_log_client a : keeps_log (Hub.get_client a).
Proof.
  intros h b h'. unfold Hub.get_client, from_option_panic. destruct (conns h !! a); [|done]. by intros [= _ <-].
Qed.

#[local] Hint Resolve keeps_log_bind keeps_log_modify keeps_log_ret keeps_log_gets keeps_log_lift
  keeps_log_client : core.

Lemma hub_own_log act : hub_own act → keeps_log (Hub.perform act).
Proof.
  destruct act as [a|a|a|m ord|a ok]; [| | |done|]; intros _; cbn [Hub.perform].
  - unfold Hub.ServeWs, Hub.run_register. auto.
  - unfold readPump_fails. auto.
  - unfold readPump_unregisters, Hub.run_unregister, delete_client, close_send.
    repeat (apply keeps_log_bind; [|intros]); auto. destruct a0; auto 10.
  - unfold writePump_next. apply keeps_log_bind; [auto|]. intros cl. destruct (cBuf _); [|auto].
    destruct (cClosed _); auto.
Qed.

(** ** The invariant *)

Record platform_ok (p : Platform) : Prop := {
  po_server : server_reachable (server p);
  po_hub : hub_ok (hub p);
  po_up : hubUp p = true ∧ loopUp p = true;
  po_log : events (server p) = log (hub p) ++ in_flight p;
  po_depth : depth_seen (events (server p)) = Some (depthCache (server p)) ∨
             depth_seen (events (server p)) = None ∧ depthCache (server p) = ([], []);
}.

Lemma po_cap p : platform_ok p → length (in_flight p) ≤ broadcast_cap.
Proof. intros H. destruct (server_reachable_ok _ (po_server _ H)) as [b Hok]. apply Hok. Qed.

(** What a broadcast does. *)
Lemma hub_broadcast_inv p p' :
  platform_ok p → hub_broadcast p p' →
  platform_ok p' ∧ in_flight p' = tail (in_flight p) ∧
  server p' = with_events (tail (in_flight p)) (events (server p)) (server p).
Proof.
  intros [Hs Hh Hu Hl Hd] Hb. destruct Hb as [p m rest ord sv' h' Hup Hin Esv Hen E].
  cbn in Hen, E. destruct (broadcast_ok _ m ord Hh Hen) as (h1 & E1 & Hok & Hlog). rewrite E in E1.
  injection E1 as <-. pose proof Esv as Esv'. injection Esv' as <-.
  split_and!; [|done|done]. split; [|done|done| |done].
  - cbn. by eapply sr_hub.
  - unfold in_flight in *. cbn. by rewrite Hl, Hlog, Hin, <- app_assoc.
Qed.

(** Whatever the state of its clients, the hub can broadcast. *)
Lemma hub_can_broadcast p m rest ord :
  platform_ok p → in_flight p = m :: rest → ord ≡ₚ elements (clients (hub p)) →
  ∃ h', Hub.run_broadcast m ord (hub p) = Ok (tt, h') ∧
    hub_broadcast p (set_hub h' (set_server (with_events rest (events (server p)) (server p)) p)).
Proof.
  intros Hok Hin Hord. destruct (broadcast_ok (hub p) m ord (po_hub _ Hok) Hord) as (h' & E & _).
  exists h'. split; [done|]. eapply hub_takes; [apply Hok|exact Hin| |exact Hord|exact E].
  unfold hub_receive, modify. unfold in_flight in Hin. by rewrite Hin.
Qed.

Lemma platform_step_ok p p' : platform_ok p → platform_step p p' → platform_ok p'.
Proof.
  intros Hok Hstep.
  assert (Hmove : ∀ sv', server_move (server p) sv' → platform_ok (set_server sv' p)).
  { destruct Hok as [Hs Hh Hu Hl Hd]. intros sv' Hm. destruct (server_move_sends _ _ Hs Hm) as (new & [He Hb] & Hnew).
    split; cbn; [by eapply server_move_reachable|done|done| |].
    - unfold in_flight in *. cbn. by rewrite He, Hb, Hl, app_assoc.
    - rewrite He. destruct Hnew as [[-> Hnew]|Hnew]; [by rewrite depth_seen_skip|left; by apply depth_seen_app]. }
  destruct Hstep as [p sv' Hm|p sv' _ Hm|p act h' Hown _ Hen E|p p' Hb].
  - apply Hmove. by left.
  - apply Hmove. by right.
  - destruct Hok as [Hs Hh Hu Hl Hd]. destruct (perform_ok _ _ Hh Hen) as (h1 & E1 & Hok). rewrite E in E1. injection E1 as <-.
    pose proof (hub_own_log _ Hown _ _ _ E) as Hlog. split; cbn; [done|done|done|by rewrite Hlog|done].
  - by apply hub_broadcast_inv in Hb as [? _].
Qed.

Lemma platform_reachable_ok p : platform_reachable p → platform_ok p.
Proof.
  intros Hr. assert (H0 : platform_ok (Start NewPlatform)).
  { split; cbn; [apply sr_new|apply NewHub_ok|done|done|by right]. }
  revert H0. unfold platform_reachable in Hr. induction Hr as [p|p p1 p2 Hstep _ IH]; [done|].
  intros H0. by apply IH, (platform_step_ok p).
Qed.

(** ** The properties *)

(** C10: What subscribers are sent is what the engine did.  In every reachable
    state, what a client has been written is a run without gaps of the
    server's events from its registration on; as long as it is connected,
    what it was written, what its buffer holds and what the channel holds is
    all of them; and the channel never holds more than its 4096 messages. *)
Theorem feed_end_to_end p a cl :
  platform_reachable p → conns (hub p) !! a = Some cl →
  cWritten cl `prefix_of` drop (cSince cl) (events (server p)) ∧
  (a ∈ clients (hub p) → cWriting cl = true →
     cWritten cl ++ cBuf (send cl) ++ in_flight p = drop (cSince cl) (events (server p))) ∧
  length (in_flight p) ≤ 4096.
Proof.
  intros Hok%platform_reachable_ok Hcl. pose proof (po_cap _ Hok) as Hc. destruct Hok as [Hs Hh _ Hl Hd].
  pose proof (hub_client _ Hh _ _ Hcl) as [_ _ _ Hn Hw Hsince]. rewrite Hl, drop_app_le by done.
  split_and!; [by apply prefix_app_r| |done].
  intros Ha W. rewrite app_assoc. f_equal. apply Hn; [done|]. by apply bool_decide_true.
Qed.

(** C11: A subscriber that is up to date sees the book.  When the channel and
    the buffer of a connected client are empty and no change waits for the
    next tick, the last depth the client was sent is the top 50 levels of the
    order book as it is. *)
Theorem feed_shows_book p a cl d :
  platform_reachable p → conns (hub p) !! a = Some cl →
  a ∈ clients (hub p) → cWriting cl = true → cBuf (send cl) = [] → in_flight p = [] →
  bookChanged (server p) = false → depth_seen (cWritten cl) = Some d →
  ∃ b, Rep (ob (server p)) b ∧ d = book_depth b.
Proof.
  intros [Hs Hh _ Hl Hd]%platform_reachable_ok Hcl Ha W Hbuf Hin Hch Hseen.
  pose proof (hub_client _ Hh _ _ Hcl) as [_ _ _ Hn _ _].
  specialize (Hn W (bool_decide_eq_true_2 _ Ha)). rewrite Hbuf, app_nil_r in Hn.
  rewrite Hin, app_nil_r in Hl. rewrite Hn, <- Hl in Hseen.
  assert (Hall : depth_seen (events (server p)) = Some d).
  { rewrite <- (take_drop (cSince cl) (events (server p))). by apply depth_seen_app. }
  destruct (server_reachable_ok _ Hs) as [b Hok]. exists b. split; [apply Hok|].
  pose proof (so_cache _ _ Hok Hch). destruct Hd as [Hd|[Hd _]]; congruence.
Qed.

(** C26: The feed cannot hold up the matching loop for ever.  In every reachable
    state with a message in the channel the hub broadcasts it, in whatever
    order it ranges over its clients and whatever state they are in: it never
    waits for a client and never panics.  So the hub's broadcasts alone, with
    no step of a client, a handler or the loop, one for each message, empty the
    channel, and change nothing else of the server. *)
Theorem channel_drains p :
  platform_reachable p →
  (∀ m rest ord, in_flight p = m :: rest → ord ≡ₚ elements (clients (hub p)) →
     ∃ h', Hub.run_broadcast m ord (hub p) = Ok (tt, h') ∧
       hub_broadcast p (set_hub h' (set_server (with_events rest (events (server p)) (server p)) p))) ∧
  ∃ p', nsteps hub_broadcast (length (in_flight p)) p p' ∧
    server p' = with_events [] (events (server p)) (server p).
Proof.
  intros Hok%platform_reachable_ok. split; [intros; by eapply hub_can_broadcast|].
  remember (length (in_flight p)) as n eqn:Hn.
  revert p Hok Hn. induction n as [|n IH]; intros p Hok Hn; (destruct (in_flight p) as [|m rest] eqn:Hin; [|]); try done.
  { exists p. split; [constructor|]. unfold in_flight in Hin. destruct (server p). cbn in *. by rewrite Hin. }
  destruct (hub_can_broadcast p m rest _ Hok Hin (Permutation_refl _)) as (h' & _ & Hb).
  destruct (hub_broadcast_inv _ _ Hok Hb) as (Hok1 & Hf & Hsv). rewrite Hin in Hf, Hsv. cbn [tail] in Hf, Hsv.
  destruct (IH _ Hok1) as (p' & Hr & Hsv').
  - rewrite Hf. by injection Hn.
  - exists p'. split; [by econstructor|]. rewrite Hsv', Hsv. done.
Qed.

(** C8: The matching loop never gets stuck.  In every reachable state of the
    process whose quantities fit, an iteration that receives and a tick never
    panic, and they block only when the broadcast channel is full; then one
    broadcast of the hub, which it can always make, lets both run to their
    end. *)
Theorem loop_never_stuck p :
  platform_reachable p → has_room (server p) →
  loop_receive (server p) ≠ Panic ∧ loop_tick (server p) ≠ Panic ∧
  ∃ p', (if decide (length (in_flight p) < broadcast_cap) then p' = p else hub_broadcast p p') ∧
    (∃ sv', loop_receive (server p') = Ok (bool_decide (inputChan (server p) ≠ []), sv') ∧
       platform_step p' (set_server sv' p')) ∧
    (∃ sv', loop_tick (server p') = Ok (tt, sv') ∧ platform_step p' (set_server sv' p')).
Proof.
  intros Hok%platform_reachable_ok Hroom.
  assert (Hrun : ∀ p', platform_ok p' → has_room (server p') → sendable (server p') →
    (∃ sv', loop_receive (server p') = Ok (bool_decide (inputChan (server p') ≠ []), sv') ∧
       platform_step p' (set_server sv' p')) ∧
    (∃ sv', loop_tick (server p') = Ok (tt, sv') ∧ platform_step p' (set_server sv' p'))).
  { intros p' Hok' Hroom' Hs. destruct (server_reachable_ok _ (po_server _ Hok')) as [b Hsv].
    pose proof (receive_cases _ b Hsv Hroom') as H1. pose proof (tick_cases _ b Hsv) as H2. split.
    - destruct (loop_receive (server p')) as [[more sv']| |] eqn:E; [|done|done]. destruct H1 as [-> _].
      exists sv'. split; [done|]. apply step_loop; [apply Hok'|by eapply move_receive].
    - destruct (loop_tick (server p')) as [[[] sv']| |] eqn:E; [|done|done].
      exists sv'. split; [done|]. apply step_loop; [apply Hok'|by eapply move_tick]. }
  destruct (server_reachable_ok _ (po_server _ Hok)) as [b Hsv].
  split_and!.
  - intros E. pose proof (receive_cases _ b Hsv Hroom) as H. by rewrite E in H.
  - intros E. pose proof (tick_cases _ b Hsv) as H. by rewrite E in H.
  - destruct (decide _) as [Hs|Hfull]; [exists p; split; [done|by apply Hrun]|].
    destruct (in_flight p) as [|m rest] eqn:Hin; [cbn in Hfull; unfold broadcast_cap in Hfull; lia|].
    destruct (hub_can_broadcast p m rest _ Hok Hin (Permutation_refl _)) as (h' & _ & Hb).
    eexists. split; [exact Hb|]. destruct (hub_broadcast_inv _ _ Hok Hb) as (Hok1 & Hf & Hsv').
    refine (Hrun _ Hok1 _ _); [exact Hroom|]. pose proof (po_cap _ Hok) as Hc. unfold sendable.
    change (broadcast _) with (in_flight (set_hub h' (set_server (with_events rest (events (server p)) (server p)) p))).
    rewrite Hf, Hin in *. cbn in *. lia.
Qed.

(** ** A run

    A subscriber connects, an order comes to rest, a tick publishes the depth,
    and the subscriber is sent it. *)

Definition feed_sv1 : Server := match loop_receive ex_sv1 with Ok (_, sv) => sv | _ => ex_sv1 end.
Definition feed_sv2 : Server := match loop_tick feed_sv1 with Ok (_, sv) => sv | _ => feed_sv1 end.
Definition feed_depth : WSMessage := mkWSMessage "depth" (DepthData [] [mkPriceLevel 100 10]).
Definition feed_do (act : Hub.action WSMessage) (h : Hub.Hub WSMessage) : Hub.Hub WSMessage :=
  match Hub.perform act h with Ok (_, h') => h' | _ => h end.
Definition feed_hub1 : Hub.Hub WSMessage := feed_do (Serve 1%N) Hub.NewHub.
Definition feed_hub2 : Hub.Hub WSMessage := feed_do (Broadcast feed_depth [1%N]) feed_hub1.
Definition feed_hub3 : Hub.Hub WSMessage := feed_do (WriteNext 1%N true) feed_hub2.
Definition feed_sv3 : Server := with_events [] [feed_depth] feed_sv2.
Definition feed_waiting : Platform := mkPlatform feed_sv2 feed_hub1 true true.
Definition feed_platform : Platform := mkPlatform feed_sv3 feed_hub3 true true.
Definition feed_client : Hub.Client WSMessage := mkClient (mkChan [] false) Reading true [feed_depth] 0.

Lemma ex_sv1_room : has_room ex_sv1.
Proof.
  intros b HR. destruct (empty_slices_book _ _ HR) as [Hb Ha]; [by vm_compute..|].
  unfold total_qty. rewrite Hb, Ha. by vm_compute.
Qed.

(** A message in the channel, and a subscriber to deliver it to. *)
Lemma feed_waiting_reachable : platform_reachable feed_waiting.
Proof.
  assert (E1 : handlePlaceOrder 0 (Some (mkPlaceOrderReq "ask" Sell LimitOrder 100 10)) NewServer =
    Ok (Waiting 0%N, ex_sv1)) by (vm_compute; reflexivity).
  assert (E2 : loop_receive ex_sv1 = Ok (true, feed_sv1)) by (vm_compute; reflexivity).
  assert (E3 : loop_tick feed_sv1 = Ok (tt, feed_sv2)) by (vm_compute; reflexivity).
  apply rtc_l with (mkPlatform NewServer feed_hub1 true true).
  { apply (step_hub (Start NewPlatform) (Serve 1%N)); vm_compute; done. }
  apply rtc_l with (mkPlatform ex_sv1 feed_hub1 true true).
  { apply (step_handler (mkPlatform NewServer feed_hub1 true true)).
    eapply move_place, E1. by intros body [= <-]. }
  apply rtc_l with (mkPlatform feed_sv1 feed_hub1 true true).
  { apply (step_loop (mkPlatform ex_sv1 feed_hub1 true true)); [done|].
    eapply move_receive, E2. apply ex_sv1_room. }
  apply rtc_once, (step_loop (mkPlatform feed_sv1 feed_hub1 true true)); [done|]. by apply move_tick.
Qed.

Lemma feed_platform_reachable : platform_reachable feed_platform.
Proof.
  eapply rtc_r.
  - eapply rtc_r; [apply feed_waiting_reachable|].
    apply step_broadcast, (hub_takes feed_waiting feed_depth [] [1%N] feed_sv3 feed_hub2); vm_compute; done.
  - apply (step_hub (mkPlatform feed_sv3 feed_hub2 true true) (WriteNext 1%N true)); [done|done| |done].
    exists (mkClient (mkChan [feed_depth] false) Reading true [] 0). split; [vm_compute; done|]. split; [done|by left].
Qed.

(** An order waits for the loop. *)
Definition feed_queued : Platform := mkPlatform ex_sv1 Hub.NewHub true true.
Lemma feed_queued_reachable : platform_reachable feed_queued.
Proof.
  apply rtc_once, (step_handler (Start NewPlatform)).
  apply (move_place _ 0 (Some (mkPlaceOrderReq "ask" Sell LimitOrder 100 10)) (Waiting 0%N)); [by intros body [= <-]|].
  vm_compute. reflexivity.
Qed.

Lemma feed_end_to_end_witness :
  cWritten feed_client `prefix_of` drop 0 (events feed_sv3) ∧ length (in_flight feed_platform) ≤ 4096.
Proof.
  destruct (feed_end_to_end feed_platform 1%N feed_client feed_platform_reachable) as (H1 & _ & H2).
  - vm_compute. reflexivity.
  - split; [exact H1|exact H2].
Defined.

Lemma feed_shows_book_witness :
  ∃ b, Rep (ob feed_sv3) b ∧ ([], [mkPriceLevel 100 10]) = book_depth b.
Proof.
  apply (feed_shows_book feed_platform 1%N feed_client _ feed_platform_reachable).
  - vm_compute. reflexivity.
  - apply (bool_decide_unpack _). vm_compute. exact I.
  - reflexivity.
  - reflexivity.
  - vm_compute. reflexivity.
  - vm_compute. reflexivity.
  - reflexivity.
Defined.

Lemma channel_drains_witness :
  in_flight feed_waiting = [feed_depth] ∧
  (∃ h', Hub.run_broadcast feed_depth [1%N] feed_hub1 = Ok (tt, h') ∧
     hub_broadcast feed_waiting (mkPlatform feed_sv3 h' true true)) ∧
  ∃ p', nsteps hub_broadcast 1 feed_waiting p' ∧ server p' = feed_sv3.
Proof.
  destruct (channel_drains feed_waiting feed_waiting_reachable) as [H1 H2].
  assert (Hin : in_flight feed_waiting = [feed_depth]) by (vm_compute; reflexivity).
  assert (Hord : [1%N] ≡ₚ elements (clients (hub feed_waiting))) by (vm_compute; reflexivity).
  assert (Hsv : with_events [] (events feed_sv2) feed_sv2 = feed_sv3) by (vm_compute; reflexivity).
  split; [exact Hin|]. rewrite Hin in H2. split.
  - destruct (H1 _ _ _ Hin Hord) as (h' & E & Hb). exists h'. split; [exact E|].
    cbn [server feed_waiting] in Hb. rewrite Hsv in Hb. exact Hb.
  - destruct H2 as (p' & Hn & Hs). exists p'. split; [exact Hn|]. rewrite Hs. exact Hsv.
Defined.

Lemma loop_never_stuck_witness :
  ∃ p', p' = feed_queued ∧
    (∃ sv', loop_receive (server p') = Ok (true, sv') ∧ platform_step p' (set_server sv' p')) ∧
    ∃ sv', loop_tick (server p') = Ok (tt, sv') ∧ platform_step p' (set_server sv' p').
Proof.
  destruct (loop_never_stuck feed_queued feed_queued_reachable ex_sv1_room) as (_ & _ & p' & Hp & H1 & H2).
  exists p'. rewrite decide_True in Hp by (vm_compute; lia). split; [exact Hp|]. split; [exact H1|exact H2].
Defined.
