(* ===== verification/Float64.v ===== *)
(** * Go's float64

    IEEE 754 binary64 with round to nearest even, on the Standard Library's
    executable specification of floating point: arithmetic and comparison as
    Go has them (products and quotients are not fused), the constants the code
    uses, and [strconv.FormatFloat(x, 'f', 2, 64)] and [strconv.ParseFloat].

    NaNs are not told apart.  Of the literals [ParseFloat] accepts, hexadecimal
    ones are left out: they count as syntax errors here. *)

From stdpp Require Import prelude strings list.
From Stdlib Require Import ZArith Lia Ascii SpecFloat.
From S2P Require Import Prelude GoBytes.

Local Open Scope Z_scope.

Abbreviation float64 := spec_float.
Abbreviation prec := 53.
Abbreviation emax := 1024.

(** A value of the type: a finite number has its canonical mantissa. *)
Abbreviation is_float64 f := (valid_binary prec emax f = true).

#[global] Instance float64_eq_dec : EqDecision float64.
Proof. solve_decision. Defined.

Definition fmul : float64 → float64 → float64 := SFmul prec emax.
Definition fdiv : float64 → float64 → float64 := SFdiv prec emax.
Definition fltb : float64 → float64 → bool := SFltb.
Definition fleb : float64 → float64 → bool := SFleb.

Definition fzero : float64 := S754_zero false.
(** An integer constant, [float64(z)]. *)
Definition of_Z (z : Z) : float64 := binary_normalize prec emax z 0 false.

Definition is_nan (f : float64) : bool := match f with S754_nan => true | _ => false end.
Definition is_finite (f : float64) : bool :=
  match f with S754_zero _ | S754_finite _ _ _ => true | _ => false end.
Definition is_negative (f : float64) : bool :=
  match f with S754_zero s | S754_infinity s | S754_finite s _ _ => s | S754_nan => false end.

(** ** [strconv.FormatFloat] *)

(** [n / d] to the nearest integer, ties to even. *)
Definition div_even (n d : Z) : Z :=
  let q := n / d in
  match Z.compare (2 * (n mod d)) d with
  | Lt => q
  | Gt => q + 1
  | Eq => if Z.even q then q else q + 1
  end.

(** The absolute value in hundredths. *)
Definition cents (f : float64) : Z :=
  match f with
  | S754_finite _ m e => if 0 <=? e then Z.pos m * 2 ^ e * 100 else div_even (Z.pos m * 100) (2 ^ (- e))
  | _ => 0
  end.

(** 310 digits are enough for the largest value. *)
Definition fmt_cents (c : Z) : bytes :=
  digits 310 (c / 100) ++ ["."%char; digit_char (c mod 100 / 10); digit_char (c mod 10)].

(** [strconv.FormatFloat(f, 'f', 2, 64)]. *)
Definition FormatFloat (f : float64) : bytes :=
  match f with
  | S754_nan => str "NaN"
  | S754_infinity s => if s then str "-Inf" else str "+Inf"
  | _ => (if is_negative f then ["-"%char] else []) ++ fmt_cents (cents f)
  end.

(** ** [strconv.ParseFloat] *)

(** The float64 nearest to [n / d], with sign [s]. *)
Definition of_ratio (s : bool) (n d : Z) : float64 :=
  if n =? 0 then S754_zero s
  else let '(q, e, l) := SFdiv_core_binary prec emax n 0 d 0 in binary_round_aux prec emax s q e l.

(** The number [n * 10 ^ e]. *)
Definition of_decimal (s : bool) (n e : Z) : float64 :=
  if 0 <=? e then of_ratio s (n * 10 ^ e) 1 else of_ratio s n (10 ^ (- e)).

(** Digits from the front: their value after [acc], their number, the rest. *)
Fixpoint take_digits (acc : Z) (count : nat) (l : bytes) : Z * nat * bytes :=
  match l with
  | c :: l' =>
      match digit_val c with
      | Some d => take_digits (acc * 10 + d) (S count) l'
      | None => (acc, count, l)
      end
  | [] => (acc, count, [])
  end.

(** An exponent; values of 10000 and more are cut off while reading. *)
Fixpoint read_exponent (acc : Z) (l : bytes) : option Z :=
  match l with
  | [] => Some acc
  | c :: l' => d ← digit_val c; read_exponent (if acc <? 10000 then acc * 10 + d else acc) l'
  end.
Definition parse_exponent (l : bytes) : option Z :=
  match l with
  | [] => Some 0
  | c :: l' =>
      if decide (c = "e"%char ∨ c = "E"%char) then
        match l' with
        | [] => None
        | s :: l'' =>
            if decide (s = "-"%char) then match l'' with [] => None | _ => Z.opp <$> read_exponent 0 l'' end
            else if decide (s = "+"%char) then match l'' with [] => None | _ => read_exponent 0 l'' end
            else read_exponent 0 l'
        end
      else None
  end.

Definition lower (c : ascii) : ascii :=
  if (65 <=? code c) && (code c <=? 90) then ascii_of_N (Z.to_N (code c + 32)) else c.

(** A number without its sign; [None] is a syntax error. *)
Definition parse_unsigned (s : bool) (l : bytes) : option float64 :=
  let low := lower <$> l in
  if decide (low = str "inf" ∨ low = str "infinity") then Some (S754_infinity s)
  else
    let '(n, k, rest) := take_digits 0 0 l in
    let '(n, k', rest) :=
      match rest with
      | c :: rest' => if decide (c = "."%char) then
                        let '(n', k', r) := take_digits n 0 rest' in (n', k', r)
                      else (n, O, rest)
      | [] => (n, O, rest)
      end in
    if bool_decide (k + k' = 0)%nat then None
    else e ← parse_exponent rest; Some (of_decimal s n (e - Z.of_nat k')).

(** The value [strconv.ParseFloat(l, 64)] returns, which is 0 for a syntax
    error and an infinity for a number out of range. *)
Definition ParseFloat (l : bytes) : float64 :=
  let parsed :=
    match l with
    | [] => None
    | c :: l' =>
        if decide (c = "-"%char) then parse_unsigned true l'
        else if decide (c = "+"%char) then parse_unsigned false l'
        else if decide ((lower <$> l) = str "nan") then Some S754_nan
        else parse_unsigned false l
    end in
  default fzero parsed.
