(* ===== verification/GoTime.v ===== *)
(** * Go's time package, as far as the services use it

    Times and durations are integers of nanoseconds, times from the Unix epoch
    on.  [FormatRFC3339] is [Time.Format(time.RFC3339)] of a local time,
    [FormatRFC3339Nano] the same with the fraction of the second,
    [ParseTime] is [time.Parse(time.RFC3339, s)] and [ParseRFC3339] the instant
    it returns, [ParseDuration] is
    [time.ParseDuration]; errors are [None].  The calendar is the proleptic
    Gregorian one.  The local time zone belongs to the system: [Location] has
    its offset from UTC at every time. *)

From stdpp Require Import prelude list strings.
From Stdlib Require Import ZArith Lia Ascii SpecFloat.
From S2P Require Import Prelude GoBytes Float64.

Local Open Scope Z_scope.

(** ** The calendar *)

Definition is_leap (y : Z) : bool := (y mod 4 =? 0) && (negb (y mod 100 =? 0) || (y mod 400 =? 0)).

(** The day a year starts on, counted from January 1 of the year 0. *)
Definition year_start (y : Z) : Z := 365 * y + (y + 3) / 4 - (y + 99) / 100 + (y + 399) / 400.

(** The day a month starts on within its year; month 13 is the end. *)
Definition month_start (leap : bool) (m : Z) : Z :=
  let l := if leap then 1 else 0 in
  match m with
  | 1 => 0 | 2 => 31 | 3 => 59 + l | 4 => 90 + l | 5 => 120 + l | 6 => 151 + l | 7 => 181 + l
  | 8 => 212 + l | 9 => 243 + l | 10 => 273 + l | 11 => 304 + l | 12 => 334 + l | _ => 365 + l
  end.
Definition days_in (leap : bool) (m : Z) : Z := month_start leap (m + 1) - month_start leap m.

Definition day_of (y m d : Z) : Z := year_start y + month_start (is_leap y) m + (d - 1).

(** The year, the month and the day of a day. *)
Definition year_of (n : Z) : Z :=
  let y := 400 * n / 146097 in
  if n <? year_start y then y - 1 else if year_start (y + 1) <=? n then y + 1 else y.
Fixpoint month_from (leap : bool) (yday : Z) (k : nat) (m : Z) : Z :=
  match k with
  | O => m
  | S k' => if yday <? month_start leap (m + 1) then m else month_from leap yday k' (m + 1)
  end.
Definition civil_of (n : Z) : Z * Z * Z :=
  let y := year_of n in
  let yday := n - year_start y in
  let m := month_from (is_leap y) yday 11 1 in
  (y, m, yday - month_start (is_leap y) m + 1).

Definition epoch : Z := 719528.

Lemma year_length y : year_start (y + 1) - year_start y = if is_leap y then 366 else 365.
Proof.
  unfold year_start, is_leap.
  destruct (Z.eqb_spec (y mod 4) 0), (Z.eqb_spec (y mod 100) 0), (Z.eqb_spec (y mod 400) 0); cbn [andb orb negb];
    Z.to_euclidean_division_equations; lia.
Qed.

Lemma year_of_spec n : year_start (year_of n) <= n < year_start (year_of n + 1).
Proof.
  unfold year_of. set (y := 400 * n / 146097).
  assert (H1 : year_start (y - 1) <= n < year_start (y + 2)).
  { subst y. unfold year_start. Z.to_euclidean_division_equations. lia. }
  destruct (Z.ltb_spec n (year_start y)); [rewrite Z.sub_add; lia|].
  destruct (Z.leb_spec (year_start (y + 1)) n); [|lia]. rewrite <- Z.add_assoc. change (1 + 1) with 2. lia.
Qed.

Lemma month_from_spec leap yday k m :
  month_start leap m <= yday < month_start leap (m + Z.of_nat k + 1) → 1 <= m → m + Z.of_nat k <= 12 →
  let r := month_from leap yday k m in m <= r <= m + Z.of_nat k ∧ month_start leap r <= yday < month_start leap (r + 1).
Proof.
  revert m. induction k as [|k IH]; intros m Hy H1 H2; cbn [month_from].
  - rewrite Z.add_0_r in *. split; [lia|done].
  - destruct (Z.ltb_spec yday (month_start leap (m + 1))); [split; lia|].
    destruct (IH (m + 1)) as [H3 H4]; [|lia|lia|split; [lia|done]].
    split; [done|]. replace (m + 1 + Z.of_nat k + 1) with (m + Z.of_nat (S k) + 1) by lia. apply Hy.
Qed.

Lemma civil_of_spec n y m d :
  civil_of n = (y, m, d) → day_of y m d = n ∧ 1 <= m <= 12 ∧ 1 <= d <= days_in (is_leap y) m ∧ y = year_of n.
Proof.
  unfold civil_of. intros [[Ey Em]%pair_eq Ed]%pair_eq. rewrite Ey in *. pose proof (year_of_spec n) as Hy. rewrite Ey in Hy.
  pose proof (year_length y) as Hl. set (yday := n - year_start y) in *.
  assert (Hd : 0 <= yday < if is_leap y then 366 else 365) by (subst yday; destruct (is_leap y); lia).
  destruct (month_from_spec (is_leap y) yday 11 1) as [H1 H2]; [|lia|lia|].
  { change (1 + Z.of_nat 11 + 1) with 13. destruct (is_leap y); cbn in *; lia. }
  rewrite Em in *. change (1 + Z.of_nat 11) with 12 in H1. unfold day_of, days_in. subst yday. split_and!; lia.
Qed.

(** ** Text *)

Definition pad2 (n : Z) : bytes := [digit_char (n / 10 mod 10); digit_char (n mod 10)].
Definition pad_year (y : Z) : bytes :=
  let digits4 y := if y <? 10000 then pad2 (y / 100) ++ pad2 (y mod 100) else digits 20 y in
  if y <? 0 then "-"%char :: digits4 (- y) else digits4 y.

(** The local time zone: seconds east of UTC. *)
Class Location := zone_offset : Z → Z.
Definition utc : Location := λ _, 0.

Definition zone_text (off : Z) : bytes :=
  if off =? 0 then ["Z"%char]
  else
    let m := Z.quot (Z.abs off) 60 in
    (if off <? 0 then "-"%char else "+"%char) :: pad2 (m / 60) ++ ":"%char :: pad2 (m mod 60).

(** Seconds since the epoch and the date, in local time. *)
Definition local_seconds `{Location} (t : Z) : Z := t / second + zone_offset t.
Definition local_date `{Location} (t : Z) : Z * Z * Z := civil_of (local_seconds t / 86400 + epoch).

(** Up to the seconds, then [frac], then the zone. *)
Definition time_text `{Location} (t : Z) (frac : bytes) : bytes :=
  let '(y, m, d) := local_date t in
  let s := local_seconds t mod 86400 in
  pad_year y ++ "-"%char :: pad2 m ++ "-"%char :: pad2 d ++ "T"%char :: pad2 (s / 3600) ++ ":"%char ::
  pad2 (s / 60 mod 60) ++ ":"%char :: pad2 (s mod 60) ++ frac ++ zone_text (zone_offset t).

Definition FormatRFC3339 `{Location} (t : Z) : string := String.string_of_list_ascii (time_text t []).

(** The digits of a fraction of [10 ^ k], without the zeros at the end. *)
Fixpoint fraction_digits (k : nat) (n : Z) : bytes :=
  match k with
  | O => []
  | S k' => digit_char (n / 10 ^ Z.of_nat k') :: fraction_digits k' (n mod 10 ^ Z.of_nat k')
  end.
Fixpoint trim_zeros (l : bytes) : bytes :=
  match l with
  | [] => []
  | c :: l' =>
      match trim_zeros l' with
      | [] => if decide (c = "0"%char) then [] else [c]
      | t => c :: t
      end
  end.
Definition nano_text (n : Z) : bytes :=
  match trim_zeros (fraction_digits 9 n) with [] => [] | ds => "."%char :: ds end.
Definition FormatRFC3339Nano `{Location} (t : Z) : string :=
  String.string_of_list_ascii (time_text t (nano_text (t mod second))).

(** [getnum]: two digits, or one if [fixed] is not set. *)
Definition getnum (fixed : bool) (l : bytes) : option (Z * bytes) :=
  match l with
  | a :: l' =>
      x ← digit_val a;
      match l' with
      | b :: l'' =>
          match digit_val b with
          | Some y => Some (x * 10 + y, l'')
          | None => if fixed then None else Some (x, l')
          end
      | [] => if fixed then None else Some (x, l')
      end
  | [] => None
  end.
Definition in_range (lo hi : Z) (r : option (Z * bytes)) : option (Z * bytes) :=
  '(n, l) ← r; if (lo <=? n) && (n <=? hi) then Some (n, l) else None.
Definition literal (c : ascii) (l : bytes) : option bytes :=
  match l with
  | x :: l' => if decide (x = c) then Some l' else None
  | [] => None
  end.

(** Digits after the point; only nine of them count. *)
Fixpoint frac_digits (l : bytes) : list Z * bytes :=
  match l with
  | c :: l' => match digit_val c with Some d => let '(ds, r) := frac_digits l' in (d :: ds, r) | None => ([], l) end
  | [] => ([], [])
  end.
Fixpoint frac_value (ds : list Z) (unit : Z) : Z :=
  match ds with
  | d :: ds' => d * unit + frac_value ds' (unit / 10)
  | [] => 0
  end.
Definition parse_frac (l : bytes) : Z * bytes :=
  match l with
  | c :: l' =>
      if decide (c = "."%char ∨ c = ","%char) then
        match frac_digits l' with
        | ([], _) => (0, l)
        | (ds, r) => (frac_value (take 9 ds) 100000000, r)
        end
      else (0, l)
  | [] => (0, l)
  end.

Definition parse_year (l : bytes) : option (Z * bytes) :=
  '(a, l) ← getnum true l; '(b, l) ← getnum true l; Some (a * 100 + b, l).
Definition parse_zone (l : bytes) : option Z :=
  match l with
  | s :: l' =>
      if decide (s = "Z"%char) then match l' with [] => Some 0 | _ => None end
      else
        '(h, r) ← in_range 0 24 (getnum true l');
        r ← literal ":" r;
        '(m, r) ← in_range 0 60 (getnum true r);
        match r with
        | [] => if decide (s = "+"%char) then Some ((h * 60 + m) * 60)
                else if decide (s = "-"%char) then Some (- ((h * 60 + m) * 60)) else None
        | _ => None
        end
  | [] => None
  end.

(** A [time.Time]: the instant, and the offset of the zone it is written in. *)
Record Time := mkTime { instant : Z; offset : Z }.

Definition ParseTime (s : string) : option Time :=
  let l := str s in
  '(y, l) ← parse_year l;
  l ← literal "-" l;
  '(m, l) ← in_range 1 12 (getnum true l);
  l ← literal "-" l;
  '(d, l) ← getnum true l;
  l ← literal "T" l;
  '(hour, l) ← in_range 0 23 (getnum false l);
  l ← literal ":" l;
  '(minute, l) ← in_range 0 59 (getnum true l);
  l ← literal ":" l;
  '(sec, l) ← in_range 0 59 (getnum true l);
  let '(nsec, l) := parse_frac l in
  off ← parse_zone l;
  if (1 <=? d) && (d <=? days_in (is_leap y) m) then
    Some (mkTime (((day_of y m d - epoch) * 86400 + hour * 3600 + minute * 60 + sec - off) * second + nsec) off)
  else None.
Definition ParseRFC3339 (s : string) : option Z := instant <$> ParseTime s.

(** ** What is formatted is parsed *)

Lemma getnum_pad2 fixed n l : 0 <= n < 100 → getnum fixed (pad2 n ++ l) = Some (n, l).
Proof.
  intros Hn. cbn [pad2 app getnum]. rewrite !digit_val_char by (Z.to_euclidean_division_equations; lia). cbn [mbind option_bind].
  f_equal. f_equal. Z.to_euclidean_division_equations; lia.
Qed.
Lemma range_pad2 fixed lo hi n l : 0 <= n < 100 → lo <= n <= hi → in_range lo hi (getnum fixed (pad2 n ++ l)) = Some (n, l).
Proof.
  intros Hn Hr. rewrite getnum_pad2 by done. cbn [in_range mbind option_bind].
  by replace ((lo <=? n) && (n <=? hi)) with true by lia.
Qed.
Lemma literal_cons c l : literal c (c :: l) = Some l.
Proof. cbn. by rewrite decide_True. Qed.

Lemma parse_pad_year y l : 0 <= y < 10000 → parse_year (pad_year y ++ l) = Some (y, l).
Proof.
  intros Hy. unfold parse_year, pad_year. replace (y <? 0) with false by lia. replace (y <? 10000) with true by lia.
  rewrite <- app_assoc. rewrite getnum_pad2 by (Z.to_euclidean_division_equations; lia). cbn [mbind option_bind].
  rewrite getnum_pad2 by (Z.to_euclidean_division_equations; lia). cbn [mbind option_bind]. f_equal. f_equal.
  Z.to_euclidean_division_equations; lia.
Qed.

(** Offsets of whole minutes, less than a day. *)
Definition proper_offset (off : Z) : Prop := - 86400 < off < 86400 ∧ off mod 60 = 0.

Lemma utc_proper t : proper_offset (@zone_offset utc t).
Proof. by split. Qed.

Lemma zone_no_digit off : match zone_text off with c :: _ => digit_val c = None | [] => True end.
Proof. unfold zone_text. destruct (off =? 0); [done|]. by destruct (off <? 0). Qed.
Lemma zone_no_frac off : parse_frac (zone_text off) = (0, zone_text off).
Proof. unfold zone_text. destruct (off =? 0); [done|]. by destruct (off <? 0). Qed.

Lemma frac_digits_cons d l : 0 <= d < 10 → frac_digits (digit_char d :: l) = (d :: (frac_digits l).1, (frac_digits l).2).
Proof. intros Hd. cbn [frac_digits]. rewrite digit_val_char by done. by destruct (frac_digits l). Qed.

Lemma fraction_reads k n rest :
  0 <= n < 10 ^ Z.of_nat k → match rest with c :: _ => digit_val c = None | [] => True end →
  ∃ ds, frac_digits (trim_zeros (fraction_digits k n) ++ rest) = (ds, rest) ∧ frac_value ds (10 ^ (Z.of_nat k - 1)) = n ∧
    (length ds ≤ k)%nat ∧ (trim_zeros (fraction_digits k n) = [] → n = 0) ∧ (ds = [] → trim_zeros (fraction_digits k n) = []).
Proof.
  intros Hn Hr. revert n Hn. induction k as [|k IH]; intros n Hn.
  { exists []. cbn in Hn. destruct rest as [|c rest]; cbn; [split_and!; lia || done|]. rewrite Hr. split_and!; lia || done. }
  rewrite Nat2Z.inj_succ, Z.pow_succ_r in Hn by lia. replace (Z.of_nat (S k) - 1) with (Z.of_nat k) by lia. cbn [fraction_digits].
  set (u := 10 ^ Z.of_nat k) in *. assert (Hu : 0 < u) by (apply Z.pow_pos_nonneg; lia).
  assert (Hd : 0 <= n / u < 10) by (split; [apply Z.div_pos; lia|apply Z.div_lt_upper_bound; lia]).
  pose proof (Z.mod_pos_bound n u Hu) as Hm. pose proof (Z.div_mod n u ltac:(lia)) as Hdm.
  destruct (IH (n mod u) Hm) as (ds & E & Hv & Hl & H0 & H1). cbn [trim_zeros].
  assert (Hunit : ds ≠ [] → u / 10 = 10 ^ (Z.of_nat k - 1)).
  { intros Hne. destruct k as [|k]; [destruct ds; [done|cbn in Hl; lia]|]. subst u. replace (Z.of_nat (S k)) with (Z.succ (Z.of_nat k)) by lia.
    rewrite Z.pow_succ_r, Z.mul_comm, Z.div_mul by lia. f_equal. lia. }
  assert (Hvalue : frac_value ds (u / 10) = n mod u) by (destruct ds; [done|]; by rewrite Hunit).
  destruct (trim_zeros (fraction_digits k (n mod u))) as [|c t] eqn:Et.
  - specialize (H0 eq_refl). destruct (decide (digit_char (n / u) = "0"%char)) as [Hz|Hz].
    + assert (n / u = 0).
      { pose proof (digit_val_char _ Hd) as H. rewrite Hz in H. change (digit_val "0") with (Some 0) in H. congruence. }
      exists ds. rewrite E. assert (n = 0) as -> by lia. assert (ds = []) as ->.
      { cbn in E. destruct rest as [|c r]; cbn in E; [congruence|]. rewrite Hr in E. congruence. }
      split_and!; done || lia.
    + exists (n / u :: ds). cbn [app]. rewrite frac_digits_cons by done. cbn [app] in E. rewrite E. cbn [fst snd frac_value length]. split_and!; try done; lia.
  - exists (n / u :: ds). cbn [app]. rewrite frac_digits_cons by done. cbn [app] in E. rewrite E. cbn [fst snd frac_value length]. split_and!; try done; lia.
Qed.

Lemma parse_nano n off : 0 <= n < second → parse_frac (nano_text n ++ zone_text off) = (n, zone_text off).
Proof.
  intros Hn. unfold nano_text. destruct (fraction_reads 9 n (zone_text off) Hn (zone_no_digit off)) as (ds & E & Hv & Hl & H0 & H1).
  destruct (trim_zeros (fraction_digits 9 n)) as [|c t] eqn:Et.
  { rewrite H0 by done. apply zone_no_frac. }
  cbn [app parse_frac]. rewrite decide_True by (by left). change (c :: t ++ zone_text off) with ((c :: t) ++ zone_text off).
  rewrite E. destruct ds as [|d ds]; [by specialize (H1 eq_refl)|]. rewrite take_ge by done.
  change (Z.of_nat 9 - 1) with 8 in Hv. change (10 ^ 8) with 100000000 in Hv. by rewrite Hv.
Qed.

Lemma parse_zone_text off : proper_offset off → parse_zone (zone_text off) = Some off.
Proof.
  intros [Hr Hm]. unfold zone_text. destruct (Z.eqb_spec off 0) as [->|H0]; [done|].
  set (m := Z.quot (Z.abs off) 60).
  assert (Hq : m * 60 = Z.abs off) by (subst m; Z.to_euclidean_division_equations; lia).
  clearbody m. assert (Hm2 : 0 <= m / 60 <= 23 ∧ 0 <= m mod 60 <= 59) by (Z.to_euclidean_division_equations; lia).
  assert (Hz : (m / 60 * 60 + m mod 60) * 60 = Z.abs off) by (Z.to_euclidean_division_equations; lia).
  unfold parse_zone. rewrite decide_False by (by destruct (off <? 0)).
  rewrite range_pad2 by lia. cbn [mbind option_bind]. rewrite literal_cons. cbn [mbind option_bind].
  rewrite <- (app_nil_r (pad2 (m mod 60))). rewrite range_pad2 by lia. cbn [mbind option_bind]. rewrite Hz.
  destruct (Z.ltb_spec off 0); cbn; f_equal; lia.
Qed.

Lemma year_range n : 719527 <= n < 826300 → 0 <= year_of n < 10000.
Proof.
  intros Hn. pose proof (year_of_spec n) as Hy. unfold year_start in Hy. revert Hy. generalize (year_of n). intros y Hy.
  Z.to_euclidean_division_equations. lia.
Qed.

Lemma local_range `{Location} t :
  0 <= t < 2 ^ 63 → proper_offset (zone_offset t) → - 86400 < local_seconds t < 9223372037 + 86400.
Proof.
  intros Ht [Hoff _]. unfold local_seconds, second. assert (0 <= t / 1000000000 < 9223372037); [|lia].
  split; [apply Z.div_pos; lia|apply Z.div_lt_upper_bound; lia].
Qed.

Lemma local_year `{Location} t :
  0 <= t < 2 ^ 63 → proper_offset (zone_offset t) → 0 <= (local_date t).1.1 < 10000.
Proof.
  intros Ht Hoff. pose proof (local_range t Ht Hoff). unfold local_date.
  destruct (civil_of _) as [[y m] d] eqn:Ec. destruct (civil_of_spec _ _ _ _ Ec) as (_ & _ & _ & ->). cbn.
  apply year_range. unfold epoch. Z.to_euclidean_division_equations; lia.
Qed.

Lemma days_in_31 leap m : 1 <= m <= 12 → days_in leap m <= 31.
Proof.
  intros Hm. unfold days_in.
  assert (Hms : m = 1 ∨ m = 2 ∨ m = 3 ∨ m = 4 ∨ m = 5 ∨ m = 6 ∨ m = 7 ∨ m = 8 ∨ m = 9 ∨ m = 10 ∨ m = 11 ∨ m = 12) by lia.
  destruct Hms as [->|[->|[->|[->|[->|[->|[->|[->|[->|[->|[->| ->]]]]]]]]]]]; destruct leap; by vm_compute.
Qed.

Lemma parse_time_text `{Location} t frac n :
  0 <= (local_date t).1.1 < 10000 → proper_offset (zone_offset t) →
  parse_frac (frac ++ zone_text (zone_offset t)) = (n, zone_text (zone_offset t)) →
  ParseTime (String.string_of_list_ascii (time_text t frac)) = Some (mkTime (t / second * second + n) (zone_offset t)).
Proof.
  intros Hyr Hoff Hfrac. unfold time_text, ParseTime.
  destruct (local_date t) as [[y m] d] eqn:Ec. cbn in Hyr.
  destruct (civil_of_spec _ _ _ _ Ec) as (Hday & Hm & Hd & _). pose proof (days_in_31 (is_leap y) m Hm) as Hdi.
  assert (Hs : 0 <= local_seconds t mod 86400 < 86400) by (apply Z.mod_pos_bound; lia). set (s := local_seconds t mod 86400) in *.
  unfold str. rewrite String.list_ascii_of_string_of_list_ascii.
  rewrite parse_pad_year by done. cbn [mbind option_bind]. rewrite literal_cons. cbn [mbind option_bind].
  rewrite range_pad2 by lia. cbn [mbind option_bind]. rewrite literal_cons. cbn [mbind option_bind].
  rewrite getnum_pad2 by lia. cbn [mbind option_bind]. rewrite literal_cons. cbn [mbind option_bind].
  rewrite range_pad2 by (Z.to_euclidean_division_equations; lia). cbn [mbind option_bind]. rewrite literal_cons. cbn [mbind option_bind].
  rewrite range_pad2 by (Z.to_euclidean_division_equations; lia). cbn [mbind option_bind]. rewrite literal_cons. cbn [mbind option_bind].
  rewrite range_pad2 by (Z.to_euclidean_division_equations; lia). cbn [mbind option_bind].
  rewrite Hfrac, (parse_zone_text _ Hoff). cbn [mbind option_bind].
  replace ((1 <=? d) && (d <=? days_in (is_leap y) m)) with true by lia. do 2 f_equal. rewrite Hday.
  assert (Hsplit : s / 3600 * 3600 + s / 60 mod 60 * 60 + s mod 60 = s) by (clear; Z.to_euclidean_division_equations; lia).
  assert (Hdm : local_seconds t = 86400 * (local_seconds t / 86400) + s) by (apply Z.div_mod; lia).
  unfold local_seconds in Hdm at 1. unfold second in *. lia.
Qed.

(** A time that is formatted and parsed again loses the fraction of its
    second, in every time zone; with RFC3339Nano it loses nothing. *)
Lemma parse_format_time `{Location} t :
  0 <= t < 2 ^ 63 → proper_offset (zone_offset t) →
  ParseTime (FormatRFC3339 t) = Some (mkTime (t / second * second) (zone_offset t)).
Proof.
  intros Ht Hoff. unfold FormatRFC3339. rewrite (parse_time_text t [] 0); [by rewrite Z.add_0_r|by apply local_year|done|apply zone_no_frac].
Qed.
Lemma parse_format_rfc3339 `{Location} t :
  0 <= t < 2 ^ 63 → proper_offset (zone_offset t) →
  ParseRFC3339 (FormatRFC3339 t) = Some (t / second * second).
Proof. intros Ht Hoff. unfold ParseRFC3339. by rewrite parse_format_time. Qed.
Lemma parse_time_nano `{Location} t :
  0 <= (local_date t).1.1 < 10000 → proper_offset (zone_offset t) →
  ParseTime (FormatRFC3339Nano t) = Some (mkTime t (zone_offset t)).
Proof.
  intros Hyr Hoff. unfold FormatRFC3339Nano. rewrite (parse_time_text t _ (t mod second)); [|done..|].
  - f_equal. f_equal. rewrite Z.mul_comm. symmetry. by apply Z.div_mod.
  - by apply parse_nano, Z.mod_pos_bound.
Qed.
Lemma parse_format_nano `{Location} t :
  0 <= t < 2 ^ 63 → proper_offset (zone_offset t) → ParseRFC3339 (FormatRFC3339Nano t) = Some t.
Proof. intros Ht Hoff. unfold ParseRFC3339. rewrite parse_time_nano; [done|by apply local_year|done]. Qed.

(** An offset that was parsed is of whole minutes. *)
Lemma parse_zone_minutes l off : parse_zone l = Some off → off mod 60 = 0.
Proof.
  unfold parse_zone. destruct l as [|s l]; [done|]. destruct (decide (s = "Z"%char)); [by destruct l; intros [= <-]|].
  intros ([h r] & _ & E)%bind_Some. apply bind_Some in E as (r' & _ & E). apply bind_Some in E as ([m r''] & _ & E).
  destruct r''; [|done]. destruct (decide (s = "+"%char)); [|destruct (decide (s = "-"%char)); [|done]]; injection E as <-.
  - apply Z.mod_mul. lia.
  - rewrite <- Z.mul_opp_l. apply Z.mod_mul. lia.
Qed.
Lemma ParseTime_minutes s t : ParseTime s = Some t → offset t mod 60 = 0.
Proof.
  unfold ParseTime. intros E.
  do 5 (apply bind_Some in E as ([? ?] & _ & E); apply bind_Some in E as (? & _ & E)). apply bind_Some in E as ([sec lz] & _ & E).
  destruct (parse_frac lz) as [nsec r]. apply bind_Some in E as (off & Ho & E). apply parse_zone_minutes in Ho.
  destruct (_ && _); [|done]. by injection E as <-.
Qed.

(** ** Durations *)

(** [leadingInt]: an overflow is an error. *)
Fixpoint leadingInt (x : Z) (l : bytes) : option (Z * bytes) :=
  match l with
  | c :: l' =>
      match digit_val c with
      | Some d =>
          if 2 ^ 63 / 10 <? x then None
          else if 2 ^ 63 <? x * 10 + d then None
          else leadingInt (x * 10 + d) l'
      | None => Some (x, l)
      end
  | [] => Some (x, l)
  end.

(** [leadingFraction]: digits that overflow are dropped. *)
Fixpoint leadingFraction (x : Z) (scale : float64) (overflow : bool) (l : bytes) : Z * float64 * bytes :=
  match l with
  | c :: l' =>
      match digit_val c with
      | Some d =>
          if overflow || ((2 ^ 63 - 1) / 10 <? x) || (2 ^ 63 <? x * 10 + d) then leadingFraction x scale true l'
          else leadingFraction (x * 10 + d) (fmul scale (of_Z 10)) false l'
      | None => (x, scale, l)
      end
  | [] => (x, scale, l)
  end.

(** [uint64(f)], for what is not negative. *)
Definition ftrunc (f : float64) : Z :=
  match f with
  | S754_finite false m e => if 0 <=? e then Z.pos m * 2 ^ e else Z.pos m / 2 ^ (- e)
  | _ => 0
  end.

Definition unit_of (u : bytes) : option Z :=
  if decide (u = str "ns") then Some 1
  else if decide (u = str "us" ∨ u = ascii_of_N 194 :: ascii_of_N 181 :: str "s" ∨ u = ascii_of_N 206 :: ascii_of_N 188 :: str "s") then Some 1000
  else if decide (u = str "ms") then Some 1000000
  else if decide (u = str "s") then Some second
  else if decide (u = str "m") then Some (60 * second)
  else if decide (u = str "h") then Some (3600 * second)
  else None.
Fixpoint span_unit (l : bytes) : bytes * bytes :=
  match l with
  | c :: l' =>
      if decide (c = "."%char ∨ is_Some (digit_val c)) then ([], l) else let '(u, r) := span_unit l' in (c :: u, r)
  | [] => ([], [])
  end.

(** One number with its unit: its value, and the rest. *)
Definition duration_part (l : bytes) : option (Z * bytes) :=
  '(v, r) ← leadingInt 0 l;
  let pre := negb (length r =? length l)%nat in
  let '(f, scale, post, r) :=
    match r with
    | c :: r' => if decide (c = "."%char) then
                   let '(f, scale, r'') := leadingFraction 0 (of_Z 1) false r' in
                   (f, scale, negb (length r'' =? length r')%nat, r'')
                 else (0, of_Z 1, false, r)
    | [] => (0, of_Z 1, false, r)
    end in
  if negb (pre || post) then None
  else
    let '(u, r) := span_unit r in
    unit ← unit_of u;
    if 2 ^ 63 / unit <? v then None
    else
      let v := v * unit in
      let v := if 0 <? f then wrap64 (v + ftrunc (fmul (of_Z f) (fdiv (of_Z unit) scale))) else v in
      if 2 ^ 63 <? v then None else Some (v, r).

(** The sum of the parts; each of them has at least one character. *)
Fixpoint duration_parts (fuel : nat) (d : Z) (l : bytes) : option Z :=
  match fuel, l with
  | _, [] => Some d
  | O, _ => None
  | S fuel', _ =>
      '(v, r) ← duration_part l;
      if 2 ^ 63 <? d + v then None else duration_parts fuel' (d + v) r
  end.

Definition ParseDuration (s : string) : option Z :=
  let l := str s in
  let '(neg, l) :=
    match l with
    | c :: l' => if decide (c = "-"%char) then (true, l') else if decide (c = "+"%char) then (false, l') else (false, l)
    | [] => (false, l)
    end in
  if decide (l = str "0") then Some 0
  else
    match l with
    | [] => None
    | _ =>
        d ← duration_parts (length l) 0 l;
        if neg : bool then Some (- d) else if 2 ^ 63 - 1 <? d then None else Some d
    end.

Lemma leadingInt_digits x l n rest :
  0 <= x → digits_val x l = Some n → n <= 2 ^ 63 → match rest with c :: _ => digit_val c = None | [] => True end →
  leadingInt x (l ++ rest) = Some (n, rest).
Proof.
  revert x. induction l as [|c l IH]; intros x Hx Hd Hn Hr; cbn [app leadingInt digits_val] in *.
  - injection Hd as ->. destruct rest as [|c rest]; [done|]. cbn. by rewrite Hr.
  - apply bind_Some in Hd as (d & Hd & Hl). rewrite Hd.
    pose proof (digit_val_range _ _ Hd).
    assert (Hle : x * 10 + d <= n) by (eapply digits_val_ge; [|exact Hl]; lia).
    replace (2 ^ 63 / 10 <? x) with false by (symmetry; apply Z.ltb_ge; change (2 ^ 63 / 10) with 922337203685477580; lia).
    replace (2 ^ 63 <? x * 10 + d) with false by lia. apply IH; [lia|done..].
Qed.

(** A whole number of seconds, as deployments write it. *)
Lemma parse_seconds n :
  0 <= n <= 9223372036 → ParseDuration (String.string_of_list_ascii (fmt_d n ++ str "s")) = Some (n * second).
Proof.
  intros Hn. unfold ParseDuration, str. rewrite String.list_ascii_of_string_of_list_ascii.
  change (String.list_ascii_of_string "s") with ["s"%char]. unfold fmt_d. replace (n <? 0) with false by lia.
  pose proof (digits_val_digits 20 n ltac:(change (Z.of_nat 20) with 20; lia) ltac:(lia)) as Hv.
  pose proof (digits_are_digits 20 n ltac:(lia)) as Hd. pose proof (digits_nonempty 20 n ltac:(lia)) as Hne.
  destruct (digits 20 n) as [|c l] eqn:E; [done|]. apply Forall_cons in Hd as [Hc _]. unfold is_digit in Hc.
  assert (Hcc : c ≠ "-"%char ∧ c ≠ "+"%char) by (split; intros ->; by vm_compute in Hc). destruct Hcc as [Hc1 Hc2].
  cbn [app]. rewrite (decide_False (P := c = "-"%char)), (decide_False (P := c = "+"%char)) by done. cbv beta iota.
  rewrite decide_False; [|by destruct l]. cbn [length app duration_parts]. change (c :: l ++ ["s"%char]) with ((c :: l) ++ ["s"%char]).
  assert (Hp : duration_part ((c :: l) ++ ["s"%char]) = Some (n * second, [])).
  { unfold duration_part. rewrite (leadingInt_digits 0 (c :: l) n) by (done || lia). cbn [mbind option_bind].
    rewrite length_app. replace (length ["s"%char] =? length (c :: l) + length ["s"%char])%nat with false
      by (symmetry; apply Nat.eqb_neq; cbn; lia). rewrite decide_False by done. cbn [negb orb].
    change (span_unit ["s"%char]) with (["s"%char], @nil ascii). cbv beta iota zeta.
    change (unit_of ["s"%char]) with (Some second). cbn [mbind option_bind].
    change (2 ^ 63 / second) with 9223372036. replace (9223372036 <? n) with false by lia.
    unfold second. change (0 <? 0) with false. cbv iota. by replace (2 ^ 63 <? n * 1000000000) with false by lia. }
  rewrite Hp. cbn [mbind option_bind]. rewrite Z.add_0_l. unfold second.
  replace (2 ^ 63 <? n * 1000000000) with false by lia.
  assert (Hz : ∀ fuel d, duration_parts fuel d [] = Some d) by (by intros []). rewrite Hz. cbn [mbind option_bind].
  by replace (2 ^ 63 - 1 <? n * 1000000000) with false by lia.
Qed.

(** ** Examples *)

Example duration_examples :
  ParseDuration <$> ["1h30m"; "1.5s"; "-2ms"; "0"; ""; "60"; "1 s"; "9223372036854775808ns"] =
  [Some (5400 * second); Some 1500000000; Some (-2000000); Some 0; None; None; None; None].
Proof. vm_compute. reflexivity. Qed.

Example time_examples :
  @FormatRFC3339 utc 1709164800123456789 = "2024-02-29T00:00:00Z" ∧
  @FormatRFC3339Nano (λ _, -12600) 1709164800120000000 = "2024-02-28T20:30:00.12-03:30" ∧
  ParseRFC3339 "2024-02-28T20:30:00.12-03:30" = Some 1709164800120000000 ∧
  ParseRFC3339 "2023-02-29T00:00:00Z" = None.
Proof. vm_compute. done. Qed.
