(* ===== verification/Controller.v ===== *)
(** * The benchmark controller

    pkg/controller/benchmark_controller.go: [Reconcile] drives a BenchmarkRun
    through its states: provision a namespace with quota, network policy and
    contestant pod; wait until the duration has elapsed; delete the namespace.

    The Kubernetes API is not part of the repository: the class [Cluster] has
    the four calls [Reconcile] makes, over any type of cluster states, and
    [ClusterLaws] what the API documents about them.  Clock readings
    are inputs, in nanoseconds, and so is the local time zone ([Location]). *)

From stdpp Require Import prelude gmap strings list fin_maps.
From Stdlib Require Import ZArith Lia.
From S2P Require Import Prelude GoTime.

Local Open Scope Z_scope.

(** ** Objects *)

(** The values of an unstructured object; a decimal is [mantissa / 10 ^ scale]. *)
Inductive json := JString (s : string) | JInt (z : Z) | JDecimal (mantissa scale : Z).

(** What [unstructured.NestedMap] finds at a key. *)
Inductive nested := Found (m : gmap string json) | Absent | Malformed.

Record Run := mkRun { runSpec : nested; runStatus : nested }.

Inductive k8s_error := NotFound | AlreadyExists | OtherError (msg : string).

Inductive k8s_object :=
  | Namespace (name : string) (labels : list (string * string))
  | ResourceQuota (name namespace limitsCPU limitsMemory : string)
  | NetworkPolicy (name namespace : string) (selector : list (string * string))
      (policyTypes : list string) (ingressPorts : list Z) (egressRules : list Z)
  | Pod (name namespace : string) (labels : list (string * string)) (container image : string)
      (ports : list Z) (limitCPU limitMemory : string).

(** Kind, namespace and name: what makes an object unique in the cluster. *)
Definition object_key (o : k8s_object) : string * string * string :=
  match o with
  | Namespace n _ => ("Namespace", "", n)
  | ResourceQuota n ns _ _ => ("ResourceQuota", ns, n)
  | NetworkPolicy n ns _ _ _ _ => ("NetworkPolicy", ns, n)
  | Pod n ns _ _ _ _ _ _ => ("Pod", ns, n)
  end.

Abbreviation run_name := (string * string)%type.

Class Cluster (W : Type) := {
  kGet : run_name → W → k8s_error + Run;
  kCreate : k8s_object → GoM W (option k8s_error);
  kDeleteNamespace : string → GoM W (option k8s_error);
  kUpdateStatus : run_name → nested → GoM W (option k8s_error);
}.

(** ** [Reconcile] *)

Inductive rerror := ApiError (e : k8s_error) | InvalidSpec.

(** [ctrl.Result] (only [RequeueAfter] is used) with the error. *)
Record outcome := mkOutcome { RequeueAfter : Z; err : option rerror }.
Definition done_ : outcome := mkOutcome 0 None.
Definition failed (e : rerror) : outcome := mkOutcome 0 (Some e).

(** [v, _ := m[k].(string)]. *)
Definition str_field (k : string) (m : gmap string json) : string :=
  match m !! k with Some (JString s) => s | _ => "" end.

(** [time.Since] saturates at the range of [time.Duration]. *)
Definition time_since (now t : Z) : Z := Z.max (- 2 ^ 63) (Z.min (2 ^ 63 - 1) (now - t)).

Section reconcile.
Context {W : Type} `{Cluster W} `{Location}.

(** The four objects of a run. *)
Definition run_namespace (submissionID : string) : string := "run-" +:+ submissionID.
Definition ns_object (submissionID : string) : k8s_object :=
  Namespace (run_namespace submissionID)
    [("run-id", submissionID); ("role", "contestant-namespace")].
Definition quota_object (submissionID : string) : k8s_object :=
  ResourceQuota "run-limits" (run_namespace submissionID) "2.0" "1Gi".
Definition netpol_object (submissionID : string) : k8s_object :=
  NetworkPolicy "block-egress" (run_namespace submissionID) [("role", "contestant")]
    ["Egress"; "Ingress"] [8080; 2112] [].
Definition pod_object (submissionID contestantID image : string) : k8s_object :=
  Pod "contestant-engine" (run_namespace submissionID)
    [("role", "contestant"); ("contestant-id", contestantID)] "engine" image [8080; 2112] "1.0" "512Mi".

(** [if err := r.Create(ctx, o); err != nil && !errors.IsAlreadyExists(err) { return err }]
    in front of what follows. *)
Definition ensure (o : k8s_object) (k : GoM W outcome) : GoM W outcome :=
  e ← kCreate o;
  match e with
  | None | Some AlreadyExists => k
  | Some e => mret (failed (ApiError e))
  end.

Definition update_status (name : run_name) (st : gmap string json) (ok : outcome) : GoM W outcome :=
  e ← kUpdateStatus name (Found st);
  match e with
  | None => mret ok
  | Some e => mret (failed (ApiError e))
  end.

Definition running_status (now : Z) : gmap string json :=
  {["state" := JString "Running"; "startedAt" := JString (FormatRFC3339 now)]}.
Definition succeeded_status (now : Z) : gmap string json :=
  <["state" := JString "Succeeded"]> (<["completedAt" := JString (FormatRFC3339 now)]>
    {["totalOrders" := JInt 150000; "successRate" := JDecimal 9998 2]}).

(** [case ""]. *)
Definition initialize (name : run_name) (contestantID submissionID image : string) (now : Z) :
    GoM W outcome :=
  ensure (ns_object submissionID)
  (ensure (quota_object submissionID)
  (ensure (netpol_object submissionID)
  (ensure (pod_object submissionID contestantID image)
  (update_status name (running_status now) (mkOutcome (5 * second) None))))).

(** [case "Running"]: [now1], [now2] and [now3] are the clock readings of the
    fallback for the start time, of [time.Since] and of the completion, after
    the namespace was deleted. *)
Definition monitor (name : run_name) (submissionID startedAtStr : string) (duration now1 now2 now3 : Z) :
    GoM W outcome :=
  let startedAt := default now1 (ParseRFC3339 startedAtStr) in
  let elapsed := time_since now2 startedAt in
  if duration <=? elapsed then
    e ← kDeleteNamespace (run_namespace submissionID);
    match e with
    | None | Some NotFound => update_status name (succeeded_status now3) done_
    | Some e => mret (failed (ApiError e))
    end
  else mret (mkOutcome (wrap_int64 (duration - elapsed)) None).

(** The duration of a run: one minute when it is missing or does not parse. *)
Definition run_duration (spec : gmap string json) : Z :=
  let durationStr := str_field "duration" spec in
  let durationStr := if bool_decide (durationStr = "") then "60s" else durationStr in
  default (60 * second) (ParseDuration durationStr).

Definition run_state (r : Run) : string * string :=
  match runStatus r with
  | Found st => (str_field "state" st, str_field "startedAt" st)
  | _ => ("", "")
  end.

Definition Reconcile (name : run_name) (now1 now2 now3 : Z) : GoM W outcome :=
  got ← gets (kGet name);
  match got with
  | inl NotFound => mret done_
  | inl e => mret (failed (ApiError e))
  | inr run =>
      match runSpec run with
      | Found spec =>
          let contestantID := str_field "contestantId" spec in
          let submissionID := str_field "submissionId" spec in
          let image := str_field "image" spec in
          let duration := run_duration spec in
          let '(state, startedAtStr) := run_state run in
          if bool_decide (state = "") then
            initialize name contestantID submissionID image now1
          else if bool_decide (state = "Running") then
            monitor name submissionID startedAtStr duration now1 now2 now3
          else mret done_
      | _ => mret (failed InvalidSpec)
      end
  end.
End reconcile.

(** ** What the API documents

    [object k w] is the object stored under a key; [terminating ns w] that
    the namespace is being deleted with all it contains.  Of a call that fails
    otherwise than by [AlreadyExists] or [NotFound] it is not known whether it
    took effect. *)
Class ClusterLaws (W : Type) `{Cluster W} := {
  object : string * string * string → W → option k8s_object;
  terminating : string → W → Prop;
  create_total o w : ∃ e w', kCreate o w = Ok (e, w');
  create_ok o w w' : kCreate o w = Ok (None, w') → object (object_key o) w' = Some o;
  create_other o w e w' k : kCreate o w = Ok (e, w') → k ≠ object_key o → object k w' = object k w;
  create_exists o w w' : kCreate o w = Ok (Some AlreadyExists, w') →
    w' = w ∧ is_Some (object (object_key o) w);
  create_runs o w e w' name : kCreate o w = Ok (e, w') → kGet name w' = kGet name w;
  delete_total ns w : ∃ e w', kDeleteNamespace ns w = Ok (e, w');
  delete_ok ns w w' : kDeleteNamespace ns w = Ok (None, w') → terminating ns w';
  delete_missing ns w w' : kDeleteNamespace ns w = Ok (Some NotFound, w') →
    w' = w ∧ object ("Namespace", "", ns) w = None;
  delete_runs ns w e w' name : kDeleteNamespace ns w = Ok (e, w') → kGet name w' = kGet name w;
  update_total name st w : ∃ e w', kUpdateStatus name st w = Ok (e, w');
  update_ok name st w w' r : kUpdateStatus name st w = Ok (None, w') → kGet name w = inr r →
    kGet name w' = inr (mkRun (runSpec r) st);
  update_error name st w e w' r : kUpdateStatus name st w = Ok (Some e, w') → kGet name w = inr r →
    kGet name w' = inr r ∨ kGet name w' = inr (mkRun (runSpec r) st);
  update_objects name st w e w' k : kUpdateStatus name st w = Ok (e, w') → object k w' = object k w;
  update_terminating name st w e w' ns : kUpdateStatus name st w = Ok (e, w') →
    terminating ns w → terminating ns w';
}.
