(* ===== verification/ControllerProps.v ===== *)
(** * What the benchmark controller guarantees

    The life cycle of a BenchmarkRun under [Reconcile], for every cluster
    that satisfies the laws of [Controller]; and a small in-memory API server
    that does, on which the theorems are run. *)

From stdpp Require Import prelude gmap strings list fin_maps.
From Stdlib Require Import ZArith Lia.
From S2P Require Import Prelude GoBytes GoTime Controller.

Local Open Scope Z_scope.

Section laws.
Context {W : Type} `{HC : Cluster W} {HL : ClusterLaws W} `{TZ : Location}.
Implicit Types (w : W) (o : k8s_object) (k : GoM W outcome).

(** ** One call at a time *)

(** After [ensure o], either it failed, or the object is there and the rest ran. *)
Lemma ensure_cases o k w :
  (∃ e w', ensure o k w = Ok (failed (ApiError e), w') ∧ ∀ name, kGet name w' = kGet name w) ∨
  (∃ w', ensure o k w = k w' ∧ is_Some (object (object_key o) w') ∧
    (∀ key, key ≠ object_key o → object key w' = object key w) ∧
    ∀ name, kGet name w' = kGet name w).
Proof.
  destruct (create_total o w) as (e & w' & E). unfold ensure. rewrite (bind_Ok _ _ _ _ _ E).
  pose proof (create_runs o w e w') as Hr. pose proof (create_other o w e w') as Ho.
  destruct e as [e|].
  - destruct e.
    + left. eauto.
    + right. exists w'. destruct (create_exists _ _ _ E) as [-> Hx]. eauto.
    + left. eauto.
  - right. exists w'. pose proof (create_ok _ _ _ E). split_and!; eauto.
Qed.

Lemma update_cases name st ok w r :
  kGet name w = inr r →
  (∃ e w', update_status name st ok w = Ok (failed (ApiError e), w') ∧
    (kGet name w' = inr r ∨ kGet name w' = inr (mkRun (runSpec r) (Found st)))) ∨
  (∃ w', update_status name st ok w = Ok (ok, w') ∧ kGet name w' = inr (mkRun (runSpec r) (Found st)) ∧
    (∀ key, object key w' = object key w) ∧ ∀ ns, terminating ns w → terminating ns w').
Proof.
  intros Hr. destruct (update_total name (Found st) w) as (e & w' & E).
  unfold update_status. rewrite (bind_Ok _ _ _ _ _ E). destruct e as [e|].
  - left. exists e, w'. split; [done|]. by eapply update_error.
  - right. exists w'. split_and!; [done|by eapply update_ok| |].
    + intros key. by eapply update_objects.
    + intros ns. by eapply update_terminating.
Qed.

(** ** Initialization *)

(** The objects of a run are all there. *)
Definition provisioned (submissionID : string) (w : W) : Prop :=
  let ns := run_namespace submissionID in
  is_Some (object ("Namespace", "", ns) w) ∧
  is_Some (object ("ResourceQuota", ns, "run-limits") w) ∧
  is_Some (object ("NetworkPolicy", ns, "block-egress") w) ∧
  is_Some (object ("Pod", ns, "contestant-engine") w).

Lemma initialize_cases name cid sid image now w r :
  kGet name w = inr r →
  (∃ e w', initialize name cid sid image now w = Ok (failed (ApiError e), w') ∧
    (kGet name w' = inr r ∨ kGet name w' = inr (mkRun (runSpec r) (Found (running_status now))))) ∨
  (∃ w', initialize name cid sid image now w = Ok (mkOutcome (5 * second) None, w') ∧
    provisioned sid w' ∧ kGet name w' = inr (mkRun (runSpec r) (Found (running_status now)))).
Proof.
  intros Hr. unfold initialize.
  destruct (ensure_cases (ns_object sid) (ensure (quota_object sid) (ensure (netpol_object sid)
    (ensure (pod_object sid cid image) (update_status name (running_status now)
    (mkOutcome (5 * second) None))))) w) as [(e & w1 & -> & G1)|(w1 & -> & X1 & O1 & G1)].
  { left. exists e, w1. rewrite G1. auto. }
  destruct (ensure_cases (quota_object sid) (ensure (netpol_object sid)
    (ensure (pod_object sid cid image) (update_status name (running_status now)
    (mkOutcome (5 * second) None)))) w1) as [(e & w2 & -> & G2)|(w2 & -> & X2 & O2 & G2)].
  { left. exists e, w2. rewrite G2, G1. auto. }
  destruct (ensure_cases (netpol_object sid)
    (ensure (pod_object sid cid image) (update_status name (running_status now)
    (mkOutcome (5 * second) None))) w2) as [(e & w3 & -> & G3)|(w3 & -> & X3 & O3 & G3)].
  { left. exists e, w3. rewrite G3, G2, G1. auto. }
  destruct (ensure_cases (pod_object sid cid image) (update_status name (running_status now)
    (mkOutcome (5 * second) None)) w3) as [(e & w4 & -> & G4)|(w4 & -> & X4 & O4 & G4)].
  { left. exists e, w4. rewrite G4, G3, G2, G1. auto. }
  destruct (update_cases name (running_status now) (mkOutcome (5 * second) None) w4 r)
    as [(e & w5 & E & G5)|(w5 & E & G5 & O5 & _)]; [by rewrite G4, G3, G2, G1|..].
  - left. eauto.
  - right. exists w5. split_and!; [done| |done]. unfold provisioned. cbv zeta.
    cbn [object_key ns_object quota_object netpol_object pod_object] in *. rewrite !O5.
    split_and!.
    + by rewrite O4, O3, O2.
    + by rewrite O4, O3.
    + by rewrite O4.
    + done.
Qed.

(** ** Monitoring *)

(** The namespace of a run is gone or going. *)
Definition torn_down (submissionID : string) (w : W) : Prop :=
  terminating (run_namespace submissionID) w ∨ object ("Namespace", "", run_namespace submissionID) w = None.

Lemma monitor_cases name sid startedAt duration now1 now2 now3 w r :
  kGet name w = inr r →
  let elapsed := time_since now2 (default now1 (ParseRFC3339 startedAt)) in
  let r' := mkRun (runSpec r) (Found (succeeded_status now3)) in
  if duration <=? elapsed then
    (∃ e w1, kDeleteNamespace (run_namespace sid) w = Ok (Some e, w1) ∧ e ≠ NotFound ∧
       monitor name sid startedAt duration now1 now2 now3 w = Ok (failed (ApiError e), w1) ∧ kGet name w1 = inr r) ∨
    (∃ e w', monitor name sid startedAt duration now1 now2 now3 w = Ok (failed (ApiError e), w') ∧
      torn_down sid w' ∧ (kGet name w' = inr r ∨ kGet name w' = inr r')) ∨
    (∃ w', monitor name sid startedAt duration now1 now2 now3 w = Ok (done_, w') ∧
      torn_down sid w' ∧ kGet name w' = inr r')
  else monitor name sid startedAt duration now1 now2 now3 w =
    Ok (mkOutcome (wrap_int64 (duration - elapsed)) None, w).
Proof.
  intros Hr elapsed r'. unfold monitor. fold elapsed. destruct (duration <=? elapsed); [|done].
  destruct (delete_total (run_namespace sid) w) as (e & w1 & E).
  rewrite (bind_Ok _ _ _ _ _ E). pose proof (delete_runs _ _ _ _ name E) as G. rewrite Hr in G.
  assert (Hgo : torn_down sid w1 →
    (∃ e w', update_status name (succeeded_status now3) done_ w1 = Ok (failed (ApiError e), w') ∧
      torn_down sid w' ∧ (kGet name w' = inr r ∨ kGet name w' = inr r')) ∨
    (∃ w', update_status name (succeeded_status now3) done_ w1 = Ok (done_, w') ∧
      torn_down sid w' ∧ kGet name w' = inr r')).
  { intros Hd. destruct (update_total name (Found (succeeded_status now3)) w1) as (e' & w2 & E2).
    assert (Ht : torn_down sid w2).
    { destruct Hd as [Hd|Hd]; [left; by eapply update_terminating|right].
      by rewrite (update_objects _ _ _ _ _ _ E2). }
    unfold update_status. rewrite (bind_Ok _ _ _ _ _ E2). destruct e' as [e'|].
    - left. exists e', w2. split_and!; [done..|]. by eapply update_error.
    - right. exists w2. split_and!; [done..|]. by eapply update_ok. }
  destruct e as [[| |m]|].
  - right. apply Hgo. right. by destruct (delete_missing _ _ _ E) as [-> ?].
  - left. eexists _, w1. by split_and!.
  - left. eexists _, w1. by split_and!.
  - right. apply Hgo. left. by eapply delete_ok.
Qed.

(** ** [Reconcile] by state *)

Lemma Reconcile_found name now1 now2 now3 w spec st :
  kGet name w = inr (mkRun (Found spec) st) →
  Reconcile name now1 now2 now3 w =
    (let '(state, startedAt) := run_state (mkRun (Found spec) st) in
     if bool_decide (state = "") then
       initialize name (str_field "contestantId" spec) (str_field "submissionId" spec)
         (str_field "image" spec) now1
     else if bool_decide (state = "Running") then
       monitor name (str_field "submissionId" spec) startedAt (run_duration spec) now1 now2 now3
     else mret done_) w.
Proof. intros Hr. unfold Reconcile. go_step. by rewrite Hr. Qed.

Lemma run_state_running spec now :
  run_state (mkRun spec (Found (running_status now))) = ("Running", FormatRFC3339 now).
Proof. done. Qed.

(** A fresh run is provisioned.  From any cluster, whatever was created
    before, [Reconcile] of a run without a state does not panic and either
    returns an error, with the run still without a state or already marked
    Running, or returns a requeue after five seconds with the namespace, the
    quota, the egress policy and the pod all present and the run marked
    Running since the clock's time. *)
Theorem reconcile_provisions name now1 now2 now3 w spec st :
  kGet name w = inr (mkRun (Found spec) st) → (run_state (mkRun (Found spec) st)).1 = "" →
  ∃ out w', Reconcile name now1 now2 now3 w = Ok (out, w') ∧
    match err out with
    | Some _ => kGet name w' = inr (mkRun (Found spec) st) ∨
                kGet name w' = inr (mkRun (Found spec) (Found (running_status now1)))
    | None => RequeueAfter out = 5 * second ∧
              provisioned (str_field "submissionId" spec) w' ∧
              kGet name w' = inr (mkRun (Found spec) (Found (running_status now1)))
    end.
Proof using HL.
  intros Hr Hs. rewrite (Reconcile_found _ _ _ _ _ _ _ Hr).
  destruct (run_state _) as [state startedAt]. cbn in Hs. subst state. cbn iota.
  rewrite bool_decide_true by done.
  destruct (initialize_cases name (str_field "contestantId" spec) (str_field "submissionId" spec)
    (str_field "image" spec) now1 w _ Hr) as [(e & w' & -> & G)|(w' & -> & P & G)].
  - exists (failed (ApiError e)), w'. split; [done|]. exact G.
  - exists (mkOutcome (5 * second) None), w'. split; [done|]. cbn [err]. by split_and!.
Qed.

Lemma time_since_exact now t : - 2 ^ 63 <= now - t < 2 ^ 63 → time_since now t = now - t.
Proof. unfold time_since. lia. Qed.

(** How long a run lasts: a whole number of seconds is taken as it is, and
    what is missing or does not parse is a minute. *)
Lemma run_duration_seconds spec n :
  0 <= n <= 9223372036 → str_field "duration" spec = String.string_of_list_ascii (fmt_d n ++ str "s") →
  run_duration spec = n * second.
Proof.
  intros Hn E. unfold run_duration. rewrite E, bool_decide_false.
  - by rewrite parse_seconds.
  - intros E0. apply (f_equal String.list_ascii_of_string) in E0. rewrite String.list_ascii_of_string_of_list_ascii in E0.
    by apply app_eq_nil in E0 as [_ ?].
Qed.
Lemma run_duration_default spec :
  str_field "duration" spec = "" ∨ ParseDuration (str_field "duration" spec) = None → run_duration spec = 60 * second.
Proof.
  unfold run_duration. intros [-> | E]; [by vm_compute|]. destruct (bool_decide _); [by vm_compute|by rewrite E].
Qed.

(** C24: A running benchmark ends on time.  Let the run be marked Running since
    [t], and [t'] is the whole second of that.  Once the duration has passed
    since [t'] a [Reconcile] deletes the namespace and marks the run Succeeded,
    at the time it is then, without a further requeue.  If it returns an error
    instead, either the API refused to delete the namespace, and the run is as
    it was, or the namespace is torn down and it is the status that could not
    be written, or not be confirmed.  Before the duration has passed it changes
    nothing and asks to be called again after exactly the time that is left. *)
Theorem reconcile_ends_on_time name now1 now2 now3 w spec t :
  kGet name w = inr (mkRun (Found spec) (Found (running_status t))) →
  0 <= t < 2 ^ 61 → proper_offset (zone_offset t) → t <= now2 < 2 ^ 61 → 0 < run_duration spec < 2 ^ 61 →
  let sid := str_field "submissionId" spec in
  let t' := t / second * second in
  let succeeded := mkRun (Found spec) (Found (succeeded_status now3)) in
  if t' + run_duration spec <=? now2 then
    ∃ out w', Reconcile name now1 now2 now3 w = Ok (out, w') ∧ RequeueAfter out = 0 ∧
      match err out with
      | None => torn_down sid w' ∧ kGet name w' = inr succeeded
      | Some _ =>
          (∃ e, kDeleteNamespace (run_namespace sid) w = Ok (Some e, w') ∧ e ≠ NotFound ∧ kGet name w' = kGet name w) ∨
          torn_down sid w' ∧ (kGet name w' = kGet name w ∨ kGet name w' = inr succeeded)
      end
  else Reconcile name now1 now2 now3 w = Ok (mkOutcome (t' + run_duration spec - now2) None, w).
Proof using HL.
  intros Hr Ht Hz Hnow Hd sid t' succeeded. rewrite (Reconcile_found _ _ _ _ _ _ _ Hr), run_state_running.
  rewrite bool_decide_false by done. rewrite bool_decide_true by done.
  assert (Ht' : 0 <= t' <= t).
  { subst t'. unfold second. pose proof (Z.div_pos t 1000000000). pose proof (Z.mul_div_le t 1000000000). lia. }
  pose proof (monitor_cases name sid (FormatRFC3339 t) (run_duration spec) now1 now2 now3 w _ Hr) as Hm.
  rewrite parse_format_rfc3339 in Hm by (done || lia). fold t' in Hm. change (default now1 (Some t')) with t' in Hm.
  cbv zeta in Hm. rewrite time_since_exact in Hm by lia.
  replace (run_duration spec <=? now2 - t') with (t' + run_duration spec <=? now2) in Hm by lia.
  case_match eqn:E.
  - rewrite Hr. destruct Hm as [(e & w' & Ed & Hn & Em & G)|[(e & w' & Em & D & G)|(w' & Em & D & G)]].
    + exists (failed (ApiError e)), w'. split_and!; [done..|]. left. by exists e.
    + exists (failed (ApiError e)), w'. split_and!; [done..|]. by right.
    + exists done_, w'. by split_and!.
  - rewrite wrap_int64_id in Hm by (unfold is_int64; lia). etrans; [exact Hm|]. do 3 f_equal. lia.
Qed.

(** Where status updates do not work, as with a resource definition that does
    not enable the status subresource, a run never starts: every [Reconcile]
    returns an error and the run stays without a state. *)
Theorem no_subresource_never_runs name now1 now2 now3 w spec st :
  (∀ st w, kUpdateStatus name st w = Ok (Some NotFound, w)) →
  kGet name w = inr (mkRun (Found spec) st) → (run_state (mkRun (Found spec) st)).1 = "" →
  ∃ out w', Reconcile name now1 now2 now3 w = Ok (out, w') ∧ err out ≠ None ∧
    kGet name w' = inr (mkRun (Found spec) st).
Proof using HL.
  intros Hno Hr Hs. rewrite (Reconcile_found _ _ _ _ _ _ _ Hr).
  destruct (run_state _) as [state startedAt]. cbn in Hs. subst state. cbn iota.
  rewrite bool_decide_true by done. unfold initialize.
  assert (Hens : ∀ o k w, kGet name w = inr (mkRun (Found spec) st) →
    (∀ w, kGet name w = inr (mkRun (Found spec) st) →
       ∃ out w', k w = Ok (out, w') ∧ err out ≠ None ∧ kGet name w' = inr (mkRun (Found spec) st)) →
    ∃ out w', ensure o k w = Ok (out, w') ∧ err out ≠ None ∧ kGet name w' = inr (mkRun (Found spec) st)).
  { intros o k w0 Hr0 Hk. destruct (ensure_cases o k w0) as [(e & w1 & E & G)|(w1 & E & _ & _ & G)].
    - eexists _, w1. split; [exact E|]. by rewrite G.
    - rewrite E. apply Hk. by rewrite G. }
  do 4 (apply Hens; [done|]; clear w Hr; intros w Hr). eexists _, w. split; [|split; [|exact Hr]].
  - unfold update_status. rewrite (bind_Ok _ _ _ _ _ (Hno _ w)). done.
  - done.
Qed.

(** A finished run is left alone: [Reconcile] of a run in any state but
    the initial one and Running, of a run that does not exist, and of a run
    without a spec changes nothing and asks for no further call. *)
Theorem reconcile_finished name now1 now2 now3 w :
  match kGet name w with
  | inl NotFound => Reconcile name now1 now2 now3 w = Ok (mkOutcome 0 None, w)
  | inl e => Reconcile name now1 now2 now3 w = Ok (mkOutcome 0 (Some (ApiError e)), w)
  | inr run =>
      match runSpec run with
      | Found _ => (run_state run).1 ≠ "" → (run_state run).1 ≠ "Running" →
                   Reconcile name now1 now2 now3 w = Ok (mkOutcome 0 None, w)
      | _ => Reconcile name now1 now2 now3 w = Ok (mkOutcome 0 (Some InvalidSpec), w)
      end
  end.
Proof.
  unfold Reconcile. destruct (kGet name w) as [e|run] eqn:Hr.
  - destruct e; go_step; by rewrite Hr.
  - destruct (runSpec run) as [spec| |] eqn:Hs; [|go_step; by rewrite Hr, Hs..].
    intros H1 H2. go_step. rewrite Hr, Hs. destruct (run_state run) as [state startedAt].
    cbn in H1, H2. by rewrite !bool_decide_false.
Qed.

(** [Reconcile] called again and again, with the given clock readings. *)
Fixpoint reconciles (name : run_name) (clock : list (Z * Z * Z)) : GoM W (list outcome) :=
  match clock with
  | [] => mret []
  | (now1, now2, now3) :: clock' =>
      out ← Reconcile name now1 now2 now3;
      outs ← reconciles name clock';
      mret (out :: outs)
  end.

(** A running benchmark whose start time does not parse never ends.  The
    fallback takes the present for the start time but does not store it, so
    however often and however late [Reconcile] is called, the cluster stays
    as it is and another call is requested, as long as the first two clock readings
    of each call are less than the duration apart. *)
Theorem unparsable_start_never_ends name w spec st clock :
  kGet name w = inr (mkRun (Found spec) (Found st)) →
  str_field "state" st = "Running" → ParseRFC3339 (str_field "startedAt" st) = None →
  0 < run_duration spec < 2 ^ 62 →
  Forall (λ '(now1, now2, _), now1 <= now2 < now1 + run_duration spec) clock →
  reconciles name clock w =
    Ok ((λ '(now1, now2, _), mkOutcome (run_duration spec - (now2 - now1)) None) <$> clock, w).
Proof using HL.
  intros Hr Hst Hp Hd. induction 1 as [|[[now1 now2] now3] clock Hc _ IH]; [done|].
  cbn [reconciles fmap list_fmap fst snd] in *.
  assert (E : Reconcile name now1 now2 now3 w =
    Ok (mkOutcome (run_duration spec - (now2 - now1)) None, w)).
  { rewrite (Reconcile_found _ _ _ _ _ _ _ Hr). cbn [run_state runStatus]. rewrite Hst.
    rewrite bool_decide_false, bool_decide_true by done.
    pose proof (monitor_cases name (str_field "submissionId" spec) (str_field "startedAt" st)
      (run_duration spec) now1 now2 now3 w _ Hr) as Hm.
    rewrite Hp in Hm. change (default now1 None) with now1 in Hm. cbv zeta in Hm.
    rewrite time_since_exact in Hm by lia.
    replace (run_duration spec <=? now2 - now1) with false in Hm by lia.
    rewrite wrap_int64_id in Hm by (unfold is_int64; lia). exact Hm. }
  rewrite (bind_Ok _ _ _ _ _ E). erewrite bind_Ok; [|exact IH]. done.
Qed.
End laws.

(** ** An in-memory API server

    Deleting a namespace marks it and drops what it contains; creating an
    object that exists is refused. *)

Record Memory := mkMemory {
  mRuns : gmap run_name Run;
  mObjects : gmap (string * string * string) k8s_object;
  mDeleted : gset string;
}.

Definition mem_create (o : k8s_object) : GoM Memory (option k8s_error) := λ w,
  match mObjects w !! object_key o with
  | Some _ => Ok (Some AlreadyExists, w)
  | None => Ok (None, mkMemory (mRuns w) (<[object_key o := o]> (mObjects w)) (mDeleted w))
  end.
Definition mem_delete (ns : string) : GoM Memory (option k8s_error) := λ w,
  match mObjects w !! ("Namespace", "", ns) with
  | None => Ok (Some NotFound, w)
  | Some _ => Ok (None, mkMemory (mRuns w)
      (filter (λ ko, ko.1 ≠ ("Namespace", "", ns) ∧ ko.1.1.2 ≠ ns) (mObjects w)) ({[ns]} ∪ mDeleted w))
  end.
Definition mem_update (name : run_name) (st : nested) : GoM Memory (option k8s_error) := λ w,
  match mRuns w !! name with
  | None => Ok (Some NotFound, w)
  | Some r => Ok (None, mkMemory (<[name := mkRun (runSpec r) st]> (mRuns w)) (mObjects w) (mDeleted w))
  end.

#[global] Instance Memory_cluster : Cluster Memory := {
  kGet name w := match mRuns w !! name with Some r => inr r | None => inl NotFound end;
  kCreate := mem_create;
  kDeleteNamespace := mem_delete;
  kUpdateStatus := mem_update;
}.

#[global] Instance Memory_laws : ClusterLaws Memory.
Proof.
  apply (Build_ClusterLaws Memory _ (λ k w, mObjects w !! k) (λ ns w, ns ∈ mDeleted w));
    cbn; unfold mem_create, mem_delete, mem_update.
  - intros o w. destruct (_ !! _); eauto.
  - intros o w w'. destruct (_ !! _); intros [= <-]. cbn. apply lookup_insert_eq.
  - intros o w e w' k. destruct (_ !! _); intros [= <- <-] Hk; [done|]. cbn. by rewrite lookup_insert_ne.
  - intros o w w'. destruct (_ !! _) eqn:E; intros [= <-]. eauto.
  - intros o w e w' name. destruct (mObjects w !! _); by intros [= <- <-].
  - intros ns w. destruct (_ !! _); eauto.
  - intros ns w w'. destruct (_ !! _); intros [= <-]. cbn. set_solver.
  - intros ns w w'. destruct (_ !! _) eqn:E; intros [= <-]. done.
  - intros ns w e w' name. destruct (mObjects w !! _); by intros [= <- <-].
  - intros name st w. destruct (_ !! _); eauto.
  - intros name st w w' r. destruct (mRuns w !! name) as [r0|]; intros [= <-] [= <-]. cbn.
    by rewrite lookup_insert_eq.
  - intros name st w e w' r. destruct (mRuns w !! name) as [r0|] eqn:E; intros [= <- <-] [= <-].
  - intros name st w e w' k. destruct (mRuns w !! _); by intros [= <- <-].
  - intros name st w e w' ns. destruct (mRuns w !! _); by intros [= <- <-].
Defined.

Definition ex_name : run_name := ("default", "run-1").
Definition ex_spec : gmap string json :=
  <["contestantId" := JString "alice"]> (<["submissionId" := JString "s1"]>
    {["image" := JString "engine:1"; "duration" := JString "10s"]}).
Definition ex_cluster (st : nested) : Memory :=
  mkMemory {[ex_name := mkRun (Found ex_spec) st]} ∅ ∅.

Lemma reconcile_provisions_witness :
  ∃ out w', @Reconcile Memory _ utc ex_name (100 * second) (100 * second) 0 (ex_cluster Absent) =
      Ok (out, w') ∧
    match err out with
    | Some _ => kGet ex_name w' = inr (mkRun (Found ex_spec) Absent) ∨
        kGet ex_name w' = inr (mkRun (Found ex_spec) (Found (@running_status utc (100 * second))))
    | None => RequeueAfter out = 5 * second ∧ provisioned "s1" w' ∧
        kGet ex_name w' = inr (mkRun (Found ex_spec) (Found (@running_status utc (100 * second))))
    end.
Proof.
  apply (@reconcile_provisions Memory _ Memory_laws utc ex_name (100 * second) (100 * second) 0
    (ex_cluster Absent) ex_spec Absent); vm_compute; reflexivity.
Defined.

Definition ex_running : Memory := ex_cluster (Found (@running_status utc (100 * second))).

(** The run ends one second late; the namespace was there, and deleting it
    took two more. *)
Definition ex_ending : Memory :=
  mkMemory (mRuns ex_running) {[("Namespace", "", "run-s1") := ns_object "s1"]} ∅.
Lemma reconcile_ends_on_time_witness :
  ∃ out w', @Reconcile Memory _ utc ex_name (111 * second) (111 * second) (113 * second) ex_ending =
      Ok (out, w') ∧ RequeueAfter out = 0 ∧
    match err out with
    | None => torn_down "s1" w' ∧
        kGet ex_name w' = inr (mkRun (Found ex_spec) (Found (@succeeded_status utc (113 * second))))
    | Some _ =>
        (∃ e, kDeleteNamespace "run-s1" ex_ending = Ok (Some e, w') ∧ e ≠ NotFound ∧ kGet ex_name w' = kGet ex_name ex_ending) ∨
        torn_down "s1" w' ∧ (kGet ex_name w' = kGet ex_name ex_ending ∨
          kGet ex_name w' = inr (mkRun (Found ex_spec) (Found (@succeeded_status utc (113 * second)))))
    end.
Proof.
  apply (@reconcile_ends_on_time Memory _ Memory_laws utc ex_name (111 * second)
    (111 * second) (113 * second) ex_ending ex_spec (100 * second));
    try (vm_compute; reflexivity); try apply utc_proper; try (unfold second; lia); vm_compute; try split; congruence.
Defined.

Lemma reconcile_finished_witness :
  @Reconcile Memory _ utc ex_name 0 0 0 (ex_cluster (Found {["state" := JString "Failed"]})) =
    Ok (mkOutcome 0 None, ex_cluster (Found {["state" := JString "Failed"]})).
Proof.
  pose proof (@reconcile_finished Memory _ utc ex_name 0 0 0
    (ex_cluster (Found {["state" := JString "Failed"]}))) as H.
  assert (E : kGet ex_name (ex_cluster (Found {["state" := JString "Failed"]})) =
    inr (mkRun (Found ex_spec) (Found {["state" := JString "Failed"]}))) by (vm_compute; reflexivity).
  rewrite E in H. apply H; vm_compute; congruence.
Defined.

Definition ex_bad_start : gmap string json :=
  {["state" := JString "Running"; "startedAt" := JString "yesterday"]}.

Lemma unparsable_start_never_ends_witness :
  @reconciles Memory _ utc ex_name [(1000 * second, 1000 * second, 0); (9000 * second, 9000 * second, 0)]
    (ex_cluster (Found ex_bad_start)) =
  Ok ([mkOutcome (10 * second) None; mkOutcome (10 * second) None], ex_cluster (Found ex_bad_start)).
Proof.
  apply (@unparsable_start_never_ends Memory _ Memory_laws utc ex_name
    (ex_cluster (Found ex_bad_start)) ex_spec ex_bad_start
    [(1000 * second, 1000 * second, 0); (9000 * second, 9000 * second, 0)]);
    try (vm_compute; reflexivity).
  - vm_compute. split; congruence.
  - repeat constructor; vm_compute; congruence.
Defined.
