(* ===== verification/Submission.v ===== *)
(** * Submissions

    pkg/submission/handler.go: an in-memory store of pointers to submissions,
    the handlers that create them, and the goroutine of a git submission that
    keeps writing to the submission it shares with the store and with the
    handler that is still encoding it.  The submissions live in a heap, so
    that sharing is modelled; the goroutine is interleaved with the handlers
    by [step].

    Inputs: the new UUID and the time of a submission, the name of the
    uploaded file if the form has one, whether the destination file can be
    created, and the outcome of [git clone]. *)

From stdpp Require Import prelude gmap strings list fin_maps.
From Stdlib Require Import ZArith Lia Ascii.
From S2P Require Import Prelude.

Local Open Scope Z_scope.

(** ** Data *)

Definition SubmissionStatus := string.
Definition StatusPending : SubmissionStatus := "PENDING".
Definition StatusCompiling : SubmissionStatus := "COMPILING".
Definition StatusSuccess : SubmissionStatus := "SUCCESS".
Definition StatusFailed : SubmissionStatus := "FAILED".

Record Submission := mkSubmission {
  subID : string;
  ContestantID : string;
  Status : SubmissionStatus;
  ImageTag : string;
  Logs : string;
  CreatedAt : Z;
}.
#[global] Instance Submission_eq_dec : EqDecision Submission.
Proof. solve_decision. Defined.

Definition set_Status (st : SubmissionStatus) (s : Submission) : Submission :=
  mkSubmission (subID s) (ContestantID s) st (ImageTag s) (Logs s) (CreatedAt s).
Definition set_Logs (l : string) (s : Submission) : Submission :=
  mkSubmission (subID s) (ContestantID s) (Status s) (ImageTag s) l (CreatedAt s).

(** The outcome of [git clone]: its error and output, or its output. *)
Abbreviation outcome := ((string * string) + string)%type.

(** A clone goroutine: started, waiting for [git clone] to end, or with the
    new status written and the logs not yet. *)
Inductive job := JobStarted | JobCloning | JobReporting (o : outcome).

(** The heap of submissions, the store's map, the goroutines by the
    submission they work on, and the names of the files written under the
    upload directory. *)
Record Handler := mkHandler {
  heap : gmap N Submission;
  next : N;
  data : gmap string N;
  jobs : gmap N job;
  uploads : list string;
}.

Definition NewHandler : Handler := mkHandler ∅ 1%N ∅ ∅ [].

Abbreviation HM := (GoM Handler).

Definition with_heap (m : gmap N Submission) (h : Handler) : Handler :=
  mkHandler m (next h) (data h) (jobs h) (uploads h).
Definition with_jobs (m : gmap N job) (h : Handler) : Handler :=
  mkHandler (heap h) (next h) (data h) m (uploads h).

Definition load (p : N) : HM Submission := λ h, from_option_panic (heap h !! p) h.
Definition update (p : N) (f : Submission → Submission) : HM unit := λ h,
  match heap h !! p with
  | Some s => Ok (tt, with_heap (<[p := f s]> (heap h)) h)
  | None => Panic
  end.
Definition alloc (s : Submission) : HM N := λ h,
  Ok (next h, mkHandler (<[next h := s]> (heap h)) (N.succ (next h)) (data h) (jobs h) (uploads h)).

(** ** The store *)

Definition Save (p : N) : HM unit :=
  sub ← load p;
  modify (λ h, mkHandler (heap h) (next h) (<[subID sub := p]> (data h)) (jobs h) (uploads h)).

Definition Get (id : string) : HM (option N) := gets (λ h, data h !! id).

(** ** Handlers *)

Inductive reply := HttpError (text : string) (code : Z) | Accepted (p : N) | Found (s : Submission).

Definition new_submission (uuid contestantID : string) (now : Z) : Submission :=
  mkSubmission uuid contestantID StatusPending "" "" now.

(** [filepath.Ext]: from the last dot of the last element on; the loop runs
    over the path from its end, [suffix] is what it has passed. *)
Fixpoint Ext_loop (rest suffix : list ascii) : list ascii :=
  match rest with
  | [] => []
  | c :: rest' =>
      if decide (c = "/"%char) then []
      else if decide (c = "."%char) then c :: suffix
      else Ext_loop rest' (c :: suffix)
  end.
Definition Ext (path : string) : string :=
  String.string_of_list_ascii (Ext_loop (reverse (String.list_ascii_of_string path)) []).

(** [handleUpload] up to its response. *)
Definition handleUpload (contestantID : string) (filename : option string) (uuid : string) (now : Z)
    (created : bool) : HM reply :=
  if bool_decide (contestantID = "") then mret (HttpError "missing X-Contestant-ID header" 400)
  else
    match filename with
    | None => mret (HttpError "missing source file" 400)
    | Some name =>
        p ← alloc (new_submission uuid contestantID now);
        Save p;;
        if negb created then mret (HttpError "could not save file" 500)
        else
          modify (λ h, mkHandler (heap h) (next h) (data h) (jobs h) (uploads h ++ [uuid +:+ Ext name]));;
          mret (Accepted p)
    end.

(** [handleGitSubmission] up to its response; the body is the contestant and
    the URL, or [None] when it does not decode. *)
Definition handleGitSubmission (decoded : option (string * string)) (uuid : string) (now : Z) :
    HM reply :=
  match decoded with
  | None => mret (HttpError "invalid request body" 400)
  | Some (contestantID, gitURL) =>
      if bool_decide (gitURL = "") then mret (HttpError "invalid request body" 400)
      else
        p ← alloc (new_submission uuid contestantID now);
        Save p;;
        modify (λ h, with_jobs (<[p := JobStarted]> (jobs h)) h);;
        mret (Accepted p)
  end.

(** [json.NewEncoder(w).Encode(sub)] reads the submission when it runs. *)
Definition encode_response (p : N) : HM Submission := load p.

(** The goroutine.  Status and logs are written one after the other without
    a lock, so a reader may run between the two; [Save] only stores the
    pointer the store already has. *)
Definition clone_begin (p : N) : HM unit :=
  update p (set_Status StatusCompiling);;
  Save p;;
  modify (λ h, with_jobs (<[p := JobCloning]> (jobs h)) h).

Definition outcome_status (o : outcome) : SubmissionStatus :=
  match o with inl _ => StatusFailed | inr _ => StatusSuccess end.

Definition clone_result (p : N) (o : outcome) : HM unit :=
  update p (set_Status (outcome_status o));;
  modify (λ h, with_jobs (<[p := JobReporting o]> (jobs h)) h).

Definition newline : string := String (ascii_of_nat 10) EmptyString.
Definition outcome_logs (o : outcome) : string :=
  match o with
  | inl (e, out) => "git clone failed: " +:+ e +:+ newline +:+ out
  | inr out => out
  end.

Definition clone_end (p : N) (o : outcome) : HM unit :=
  update p (set_Logs (outcome_logs o));;
  Save p;;
  modify (λ h, with_jobs (delete p (jobs h)) h).

(** [filepath.Base]: the last element of a slash-separated path. *)
Fixpoint last_element (cur l : list ascii) : list ascii :=
  match l with
  | [] => cur
  | c :: l' => if decide (c = "/"%char) then last_element [] l' else last_element (cur ++ [c]) l'
  end.
Fixpoint strip_slashes (l : list ascii) : list ascii :=
  match l with
  | [] => []
  | c :: l' => if decide (c = "/"%char) then strip_slashes l' else l
  end.
Definition Base (path : string) : string :=
  match String.list_ascii_of_string path with
  | [] => "."
  | l =>
      match reverse (strip_slashes (reverse l)) with
      | [] => "/"
      | l' => String.string_of_list_ascii (last_element [] l')
      end
  end.

Definition handleGetStatus (path : string) : HM reply :=
  sub ← Get (Base path);
  match sub with
  | None => mret (HttpError "submission not found" 404)
  | Some p => s ← load p; mret (Found s)
  end.

(** ** Interleavings *)

Inductive action :=
  | Upload (contestantID : string) (filename : option string) (uuid : string) (now : Z) (created : bool)
  | Git (decoded : option (string * string)) (uuid : string) (now : Z)
  | CloneBegin (p : N)
  | CloneResult (p : N) (o : outcome)
  | CloneEnd (p : N) (o : outcome).

Definition perform (a : action) : HM unit :=
  match a with
  | Upload c f u t ok => handleUpload c f u t ok;; mret tt
  | Git d u t => handleGitSubmission d u t;; mret tt
  | CloneBegin p => clone_begin p
  | CloneResult p o => clone_result p o
  | CloneEnd p o => clone_end p o
  end.

(** New UUIDs are not in use; a goroutine takes its steps in order. *)
Definition enabled (a : action) (h : Handler) : Prop :=
  match a with
  | Upload _ _ u _ _ | Git _ u _ => data h !! u = None
  | CloneBegin p => jobs h !! p = Some JobStarted
  | CloneResult p _ => jobs h !! p = Some JobCloning
  | CloneEnd p o => jobs h !! p = Some (JobReporting o)
  end.

Inductive step : Handler → Handler → Prop :=
  | step_perform a h h' : enabled a h → perform a h = Ok (tt, h') → step h h'.

(** ** Invariant *)

(** A goroutine's position determines the status of its submission, and the
    logs are empty until its last step. *)
Definition job_status (j : job) : SubmissionStatus :=
  match j with
  | JobStarted => StatusPending
  | JobCloning => StatusCompiling
  | JobReporting o => outcome_status o
  end.
Definition job_ok (j : job) (s : Submission) : Prop := Status s = job_status j ∧ Logs s = "".

(** A submission without a goroutine is an upload, or holds the result of
    its clone. *)
Definition idle_ok (s : Submission) : Prop :=
  (Status s = StatusPending ∧ Logs s = "") ∨
  ∃ o, Status s = outcome_status o ∧ Logs s = outcome_logs o.

Record handler_ok (h : Handler) : Prop := {
  ok_data id p : data h !! id = Some p → ∃ s, heap h !! p = Some s ∧ subID s = id;
  ok_heap p s : heap h !! p = Some s → data h !! subID s = Some p ∧ (p < next h)%N;
  ok_jobs p j : jobs h !! p = Some j → ∃ s, heap h !! p = Some s ∧ job_ok j s;
  ok_idle p s : heap h !! p = Some s → jobs h !! p = None → idle_ok s;
}.

(** How a submission may evolve. *)
Inductive evolves : Submission → Submission → Prop :=
  | evolves_same s : evolves s s
  | evolves_compiling s : Status s = StatusPending → evolves s (set_Status StatusCompiling s)
  | evolves_result s o : Status s = StatusCompiling → evolves s (set_Status (outcome_status o) s)
  | evolves_logs s o : Status s = outcome_status o → evolves s (set_Logs (outcome_logs o) s).
