(* ===== verification/SubmissionProps.v ===== *)
(** * What the submission service guarantees

    The life cycle of submissions in pkg/submission over all interleavings of
    handlers and clone goroutines. *)

From stdpp Require Import prelude gmap strings list fin_maps.
From Stdlib Require Import ZArith Lia Ascii.
From S2P Require Import Prelude Submission.

Local Open Scope Z_scope.

Lemma load_Ok h p s : heap h !! p = Some s → load p h = Ok (s, h).
Proof. intros H. unfold load. by rewrite H. Qed.
Lemma update_Ok h p f s :
  heap h !! p = Some s → update p f h = Ok (tt, with_heap (<[p := f s]> (heap h)) h).
Proof. intros H. unfold update. by rewrite H. Qed.
Lemma Save_Ok h p s :
  heap h !! p = Some s →
  Save p h = Ok (tt, mkHandler (heap h) (next h) (<[subID s := p]> (data h)) (jobs h) (uploads h)).
Proof. intros H. unfold Save. by rewrite (bind_Ok _ _ _ _ _ (load_Ok _ _ _ H)). Qed.

(** What a step may do: submissions evolve, the store keeps its pointers, and
    a submission without a goroutine stays as it is. *)
Record progress (h h' : Handler) : Prop := {
  pr_heap p s : heap h !! p = Some s → ∃ s', heap h' !! p = Some s' ∧ rtc evolves s s';
  pr_data id p : data h !! id = Some p → data h' !! id = Some p;
  pr_idle p s : heap h !! p = Some s → jobs h !! p = None →
    heap h' !! p = Some s ∧ jobs h' !! p = None;
}.

Lemma progress_refl h : progress h h.
Proof. split; eauto using rtc_refl. Qed.

(** ** A new submission *)

Definition created (uuid contestantID : string) (now : Z) (js : gmap N job → gmap N job)
    (ups : list string → list string) (h : Handler) : Handler :=
  mkHandler (<[next h := new_submission uuid contestantID now]> (heap h)) (N.succ (next h))
    (<[uuid := next h]> (data h)) (js (jobs h)) (ups (uploads h)).

Lemma created_ok h uuid contestantID now js ups :
  handler_ok h → data h !! uuid = None →
  js (jobs h) = jobs h ∨ js (jobs h) = <[next h := JobStarted]> (jobs h) →
  handler_ok (created uuid contestantID now js ups h) ∧ progress h (created uuid contestantID now js ups h).
Proof.
  intros [Hd Hh Hj Hi] Hnew Hjs.
  assert (Hlt : ∀ p s, heap h !! p = Some s → p ≠ next h).
  { intros p s Hp ->. apply Hh in Hp as [_ Hp]. lia. }
  assert (Hfresh : ∀ p s, heap h !! p = Some s →
    <[next h := new_submission uuid contestantID now]> (heap h) !! p = Some s).
  { intros p s Hp. rewrite lookup_insert_ne; [done|]. intros <-. by eapply Hlt. }
  split; split; cbn.
  - intros id p Hp. apply lookup_insert_Some in Hp as [[<- <-]|[Hne Hp]].
    + eexists. split; [apply lookup_insert_eq|done].
    + destruct (Hd _ _ Hp) as (s & Hs & ?). eauto.
  - intros p s Hp. apply lookup_insert_Some in Hp as [[<- <-]|[Hne Hp]].
    + cbn. rewrite lookup_insert_eq. split; [done|lia].
    + apply Hh in Hp as [Hp Hlt']. split; [|lia]. rewrite lookup_insert_ne; [done|]. intros ->. congruence.
  - intros p j Hp. destruct Hjs as [E|E]; rewrite E in Hp.
    + destruct (Hj _ _ Hp) as (s & Hs & ?). eauto.
    + apply lookup_insert_Some in Hp as [[<- <-]|[Hne Hp]].
      * eexists. split; [apply lookup_insert_eq|done].
      * destruct (Hj _ _ Hp) as (s & Hs & ?). eauto.
  - intros p s Hp Hn. apply lookup_insert_Some in Hp as [[<- <-]|[Hne Hp]]; [by left; split|].
    apply (Hi p s Hp). destruct Hjs as [E|E]; rewrite E in Hn; [done|].
    by rewrite lookup_insert_ne in Hn.
  - intros p s Hp. exists s. eauto using rtc_refl.
  - intros id p Hp. rewrite lookup_insert_ne; [done|]. intros ->. congruence.
  - intros p s Hp Hn. split; [auto|]. destruct Hjs as [-> | ->]; [done|].
    rewrite lookup_insert_ne; [done|]. intros <-. by eapply Hlt.
Qed.

(** ** A step of a clone goroutine *)

(** The submission changes to [s'] and the goroutines to [js]; the store is
    written with the pointer it already has. *)
Lemma job_step_ok h p j s s' js :
  handler_ok h → jobs h !! p = Some j → heap h !! p = Some s → evolves s s' → subID s' = subID s →
  (∀ q, q ≠ p → js !! q = jobs h !! q) →
  (∀ j', js !! p = Some j' → job_ok j' s') → (js !! p = None → idle_ok s') →
  let h' := mkHandler (<[p := s']> (heap h)) (next h) (<[subID s' := p]> (data h)) js (uploads h) in
  handler_ok h' ∧ progress h h'.
Proof.
  intros [Hd Hh Hj Hi] Hp Hs Hev Hid Hjs Hj' Hi' h'.
  assert (Hdata : <[subID s' := p]> (data h) = data h).
  { apply insert_id. rewrite Hid. by apply Hh. }
  subst h'. rewrite Hdata. split; split; cbn.
  - intros id q Hq. destruct (Hd _ _ Hq) as (sq & Hsq & <-). destruct (decide (q = p)) as [->|Hne].
    + simplify_eq. exists s'. by rewrite lookup_insert_eq.
    + exists sq. by rewrite lookup_insert_ne.
  - intros q sq Hq. apply lookup_insert_Some in Hq as [[<- <-]|[_ Hq]]; [rewrite Hid|]; auto.
  - intros q jq Hq. destruct (decide (q = p)) as [->|Hne].
    + exists s'. rewrite lookup_insert_eq. auto.
    + rewrite Hjs in Hq by done. destruct (Hj _ _ Hq) as (sq & Hsq & ?).
      exists sq. by rewrite lookup_insert_ne.
  - intros q sq Hq Hn. apply lookup_insert_Some in Hq as [[<- <-]|[Hne Hq]]; [auto|].
    rewrite Hjs in Hn by done. eauto.
  - intros q sq Hq. destruct (decide (q = p)) as [->|Hne].
    + simplify_eq. exists s'. rewrite lookup_insert_eq. auto using rtc_once.
    + exists sq. rewrite lookup_insert_ne by done. eauto using rtc_refl.
  - done.
  - intros q sq Hq Hn. assert (q ≠ p) by (intros ->; congruence).
    rewrite lookup_insert_ne, Hjs by done. done.
Qed.

Lemma goroutine_ok h a p j :
  handler_ok h → jobs h !! p = Some j →
  match a with
  | CloneBegin q => q = p ∧ j = JobStarted
  | CloneResult q _ => q = p ∧ j = JobCloning
  | CloneEnd q o => q = p ∧ j = JobReporting o
  | _ => False
  end →
  ∃ h', perform a h = Ok (tt, h') ∧ handler_ok h' ∧ progress h h'.
Proof.
  intros Hok Hp Ha. destruct (ok_jobs _ Hok _ _ Hp) as (s & Hs & Hst & Hlogs).
  destruct a as [| |q|q o|q o]; try done; destruct Ha as [-> ->]; cbn [perform];
    [unfold clone_begin|unfold clone_result|unfold clone_end];
    rewrite (bind_Ok _ _ _ _ _ (update_Ok _ _ _ _ Hs)).
  - erewrite bind_Ok; [|apply Save_Ok; cbn; apply lookup_insert_eq]. eexists. split; [done|].
    apply (job_step_ok h p JobStarted s _ (<[p := JobCloning]> (jobs h))); auto using evolves.
    + intros q Hq. by rewrite lookup_insert_ne.
    + intros j'. rewrite lookup_insert_eq. by intros [= <-].
    + by rewrite lookup_insert_eq.
  - set (s' := set_Status (outcome_status o) s).
    assert (Hd : <[subID s' := p]> (data h) = data h) by (apply insert_id, (ok_heap _ Hok _ _ Hs)).
    assert (evolves s s') by by apply evolves_result.
    eexists. split; [done|]. unfold with_jobs, with_heap; cbn [heap next data jobs uploads].
    fold s'. rewrite <-Hd.
    apply (job_step_ok h p JobCloning s _ (<[p := JobReporting o]> (jobs h))); auto.
    + intros q Hq. by rewrite lookup_insert_ne.
    + intros j'. rewrite lookup_insert_eq. by intros [= <-].
    + by rewrite lookup_insert_eq.
  - erewrite bind_Ok; [|apply Save_Ok; cbn; apply lookup_insert_eq]. eexists. split; [done|].
    apply (job_step_ok h p (JobReporting o) s _ (delete p (jobs h))); auto using evolves.
    + intros q Hq. by rewrite lookup_delete_ne.
    + intros j'. by rewrite lookup_delete_eq.
    + intros _. right. by exists o.
Qed.

Lemma perform_Ok_inv h a :
  handler_ok h → enabled a h →
  ∃ h', perform a h = Ok (tt, h') ∧ handler_ok h' ∧ progress h h'.
Proof.
  intros Hok. destruct a as [c f u t ok|d u t|p|p o|p o]; cbn [enabled];
    [| |intros Hp; eapply goroutine_ok; eauto..]; intros Hu; cbn [perform].
  - unfold handleUpload. case_bool_decide; [exists h; eauto using progress_refl|].
    destruct f as [name|]; [|exists h; eauto using progress_refl].
    erewrite (bind_Ok _ (λ _, mret tt)).
    2:{ erewrite bind_Ok by done. cbn beta.
        erewrite bind_Ok; [|apply Save_Ok; cbn; apply lookup_insert_eq]. cbn beta.
        instantiate (1 := created u c t id (if ok then (λ l, l ++ [u +:+ Ext name]) else id) h).
        instantiate (1 := if ok then Accepted (next h) else HttpError "could not save file" 500).
        by destruct ok. }
    eexists. split; [done|]. apply created_ok; auto.
  - unfold handleGitSubmission. destruct d as [[c url]|]; [|exists h; eauto using progress_refl].
    case_bool_decide; [exists h; eauto using progress_refl|].
    erewrite (bind_Ok _ (λ _, mret tt)).
    2:{ erewrite bind_Ok by done. cbn beta.
        erewrite bind_Ok; [|apply Save_Ok; cbn; apply lookup_insert_eq]. cbn beta. go_step. done. }
    eexists. split; [done|].
    apply (created_ok h u c t (<[next h := JobStarted]>) id); auto.
Qed.

Lemma NewHandler_ok : handler_ok NewHandler.
Proof. split; cbn; intros *; by rewrite lookup_empty. Qed.

Abbreviation steps := (rtc step).

Lemma step_ok h h' : handler_ok h → step h h' → handler_ok h' ∧ progress h h'.
Proof.
  intros Hok Hst. revert Hok. destruct Hst as [a h h' Hen E]. intros Hok.
  destruct (perform_Ok_inv h a Hok Hen) as (h2 & E2 & ?). rewrite E in E2. by simplify_eq.
Qed.

Lemma steps_ok h h' : handler_ok h → steps h h' → handler_ok h'.
Proof. intros Hok Hs. induction Hs as [|h h1 h2 H1 _ IH]; [done|]. apply IH. by eapply step_ok. Qed.


(** ** Properties *)





(** ** Final contents *)












Definition after (a : action) (h : Handler) : Handler :=
  match perform a h with Ok (_, h') => h' | _ => h end.

Definition ex_git : Handler := after (Git (Some ("alice", "https://example.org/a.git")) "u1" 0) NewHandler.

Lemma step_after a h :
  enabled a h → (∃ x, perform a h = Ok x) → step h (after a h).
Proof.
  intros Ha [[[] h'] E]. unfold after. rewrite E. by apply (step_perform a).
Qed.


Lemma ex_git_steps : steps NewHandler ex_git.
Proof. apply rtc_once, step_after; [done|]. by eexists. Qed.




(** An uploaded submission is never built: it is stored as PENDING, no
    goroutine works on it, and whatever happens afterwards it stays PENDING;
    also when the file could not be saved and the client got an error. *)
Theorem upload_stays_pending h h1 h2 contestantID filename uuid now ok :
  steps NewHandler h → data h !! uuid = None → contestantID ≠ "" →
  perform (Upload contestantID (Some filename) uuid now ok) h = Ok (tt, h1) → steps h1 h2 →
  ∃ p, data h2 !! uuid = Some p ∧ heap h2 !! p = Some (new_submission uuid contestantID now).
Proof.
  intros H0 Hu Hc E Hs. pose proof (steps_ok _ _ NewHandler_ok H0) as Hok.
  assert (Hstep : step h h1) by by apply (step_perform (Upload contestantID (Some filename) uuid now ok)).
  destruct (step_ok _ _ Hok Hstep) as [Hok1 _].
  assert (H1 : data h1 !! uuid = Some (next h) ∧
    heap h1 !! next h = Some (new_submission uuid contestantID now) ∧ jobs h1 !! next h = None).
  { assert (Hj : jobs h !! next h = None).
    { destruct (jobs h !! next h) as [j|] eqn:Ej; [|done].
      destruct (ok_jobs _ Hok _ _ Ej) as (s & Hs' & _). apply (ok_heap _ Hok) in Hs' as [_ ?]. lia. }
    cbn [perform] in E. unfold handleUpload in E. rewrite bool_decide_false in E by done.
    unfold mbind, GoM_bind in E. cbn [alloc] in E. erewrite Save_Ok in E by (cbn; apply lookup_insert_eq).
    destruct ok; cbn in E; injection E as <-; cbn; by rewrite !lookup_insert_eq. }
  exists (next h). clear E Hstep H0 Hu. destruct H1 as (Hd & Hh & Hj).
  induction Hs as [h1|h1 h3 h4 H1 _ IH] in Hok1, Hd, Hh, Hj |- *; [done|].
  destruct (step_ok _ _ Hok1 H1) as [Hok3 [_ Hdata Hidle]].
  destruct (Hidle _ _ Hh Hj) as [Hh3 Hj3]. apply IH; auto.
Qed.

Definition ex_upload : Handler := after (Upload "bob" (Some "engine.zip") "u2" 5 true) ex_git.

Lemma upload_stays_pending_witness :
  ∃ p, data ex_upload !! "u2" = Some p ∧ heap ex_upload !! p = Some (new_submission "u2" "bob" 5).
Proof.
  apply (upload_stays_pending ex_git ex_upload ex_upload "bob" "engine.zip" "u2" 5 true ex_git_steps);
    [vm_compute; reflexivity|done|vm_compute; reflexivity|constructor].
Defined.

(** ** The status endpoint *)

Lemma last_element_plain cur l : "/"%char ∉ l → last_element cur l = cur ++ l.
Proof.
  revert cur. induction l as [|c l IH]; intros cur Hn; cbn; [by rewrite app_nil_r|].
  apply not_elem_of_cons in Hn as [Hc Hn]. rewrite decide_False by congruence.
  rewrite IH by done. by rewrite <-app_assoc.
Qed.

Lemma last_element_dir cur d l : last_element cur (d ++ "/"%char :: l) = last_element [] l.
Proof.
  revert cur. induction d as [|c d IH]; intros cur; cbn; [done|].
  destruct (decide (c = "/"%char)); apply IH.
Qed.

Lemma Base_no_slash path l c :
  String.list_ascii_of_string path = l ++ [c] → c ≠ "/"%char →
  Base path = String.string_of_list_ascii (last_element [] (l ++ [c])).
Proof.
  intros E Hc. unfold Base. rewrite E.
  assert (Hs : reverse (strip_slashes (reverse (l ++ [c]))) = l ++ [c]).
  { rewrite <-(reverse_involutive (l ++ [c])) at 2. f_equal. rewrite reverse_app.
    change (reverse [c]) with [c]. cbn [app strip_slashes]. by rewrite decide_False. }
  destruct (l ++ [c]) as [|x r] eqn:El; [by destruct l|]. by rewrite Hs.
Qed.

Lemma Base_last dir id :
  id ≠ "" → "/"%char ∉ String.list_ascii_of_string id → Base (dir +:+ "/" +:+ id) = id.
Proof.
  intros Hne Hn. destruct (String.list_ascii_of_string id) as [|c l _] eqn:El using rev_ind;
    [by destruct id|].
  apply not_elem_of_app in Hn as Hn'. destruct Hn' as [_ Hc].
  rewrite (Base_no_slash _ (String.list_ascii_of_string dir ++ "/"%char :: l) c).
  - rewrite <-app_assoc. cbn [app]. rewrite last_element_dir, last_element_plain by done.
    cbn [app]. by rewrite <-El, String.string_of_list_ascii_of_string.
  - rewrite !list_ascii_app, El, <-app_assoc. done.
  - intros ->. apply Hc. by constructor.
Qed.

(** The status endpoint answers for every stored submission with its
    current contents, whatever goroutine wrote them, and with status 404 for
    an id that is not stored. *)
Theorem status_endpoint h id :
  steps NewHandler h → id ≠ "" → "/"%char ∉ String.list_ascii_of_string id →
  match data h !! id with
  | Some p => ∃ s, heap h !! p = Some s ∧ subID s = id ∧
      handleGetStatus ("/api/v1/submissions" +:+ "/" +:+ id) h = Ok (Found s, h)
  | None => handleGetStatus ("/api/v1/submissions" +:+ "/" +:+ id) h =
      Ok (HttpError "submission not found" 404, h)
  end.
Proof.
  intros H0 Hne Hn. pose proof (steps_ok _ _ NewHandler_ok H0) as Hok.
  unfold handleGetStatus, Get. go_step. rewrite Base_last by done.
  destruct (data h !! id) as [p|] eqn:Hp; [|done].
  destruct (ok_data _ Hok _ _ Hp) as (s & Hs & Hid). exists s. split_and!; [done..|].
  by rewrite (bind_Ok _ _ _ _ _ (load_Ok _ _ _ Hs)).
Qed.

Lemma status_endpoint_witness :
  handleGetStatus "/api/v1/submissions/nobody" ex_git = Ok (HttpError "submission not found" 404, ex_git).
Proof.
  exact (status_endpoint ex_git "nobody" ex_git_steps ltac:(done)
    ltac:(apply (bool_decide_unpack _); vm_compute; exact I)).
Defined.
