(* ===== verification/Routes.v ===== *)
(** * The routes of the services

    [RegisterRoutes] of pkg/api/server.go and pkg/submission/handler.go, the
    routes that cmd/submission-service and cmd/leaderboard-service add, and
    how requests find their handlers: the mux serves the most specific route
    that matches, and an id that a client puts into a path as [url.PathEscape]
    does arrives at its handler. *)

From stdpp Require Import prelude list strings.
From Stdlib Require Import ZArith Lia Ascii.
From S2P Require Import Prelude GoBytes GoJson JsonProps Order Server ServerProps Submission SubmissionProps Http.

Local Open Scope Z_scope.

(** ** The tables *)

Inductive api_handler := PlaceOrderH | CancelOrderH | OrderBookH | MarketDataH.
Inductive submission_handler := UploadH | StatusH | GitH | SubmissionHealthH.
Inductive leaderboard_handler := LeaderboardH | LiveH | HealthH | DebugRunH | StaticH.

(** [Server.RegisterRoutes]. *)
Definition api_routes (m : mux api_handler) : res (mux api_handler) :=
  m ← HandleFunc "POST" "/api/v1/orders" PlaceOrderH m;
  m ← HandleFunc "DELETE" "/api/v1/orders/" CancelOrderH m;
  m ← HandleFunc "GET" "/api/v1/orderbook" OrderBookH m;
  HandleFunc "GET" "/ws/market-data" MarketDataH m.

(** [Handler.RegisterRoutes] and the health check of the service. *)
Definition submission_routes (m : mux submission_handler) : res (mux submission_handler) :=
  m ← HandleFunc "POST" "/api/v1/submissions" UploadH m;
  m ← HandleFunc "GET" "/api/v1/submissions/" StatusH m;
  HandleFunc "POST" "/api/v1/submissions/git" GitH m.
Definition submission_main_routes : res (mux submission_handler) :=
  m ← submission_routes [];
  HandleFunc "GET" "/health" SubmissionHealthH m.

(** The routes of cmd/leaderboard-service; the last one has no method. *)
Definition leaderboard_routes : res (mux leaderboard_handler) :=
  m ← HandleFunc "GET" "/api/v1/leaderboard" LeaderboardH [];
  m ← HandleFunc "GET" "/ws/leaderboard/live" LiveH m;
  m ← HandleFunc "GET" "/health" HealthH m;
  m ← HandleFunc "POST" "/api/v1/debug/run" DebugRunH m;
  HandleFunc "" "/" StaticH m.

Definition table {H} (r : res (mux H)) : mux H := match r with Ok m => m | _ => [] end.
Definition api_mux : mux api_handler := table (api_routes []).
Definition submission_mux : mux submission_handler := table submission_main_routes.
Definition leaderboard_mux : mux leaderboard_handler := table leaderboard_routes.

(** Registering the routes does not panic. *)
Lemma routes_register :
  api_routes [] = Ok api_mux ∧ submission_main_routes = Ok submission_mux ∧ leaderboard_routes = Ok leaderboard_mux.
Proof. vm_compute. done. Qed.

(** ** The most specific route *)

(** A pattern matches the segments of a path. *)
Definition matches_from (segs : list bytes) (multi : bool) (path : list bytes) : Prop :=
  if multi then ∃ x rest, path = segs ++ x :: rest else path = segs.

Section matching.
Context {H : Type}.
Implicit Types (rs : routes H) (r : pattern * H).

Lemma leaf_Some multi rs r : leaf multi rs = Some r → ([], r) ∈ rs ∧ pMulti r.1 = multi.
Proof.
  unfold leaf. destruct (list_find _ rs) as [[i [segs r']]|] eqn:E; [|done]. intros [= <-].
  apply list_find_Some in E as (Hi & [Hs Hm] & _). cbn in *. subst segs. split; [|done].
  by eapply list_elem_of_lookup_2.
Qed.

Lemma leaf_None multi rs r : leaf multi rs = None → ([], r) ∈ rs → pMulti r.1 ≠ multi.
Proof.
  unfold leaf. destruct (list_find _ rs) as [[i [segs r']]|] eqn:E; [done|]. intros _ Hr Hm.
  apply list_find_None in E. rewrite Forall_forall in E. by apply (E _ Hr).
Qed.

Lemma elem_of_child seg rs segs r : (segs, r) ∈ child seg rs ↔ (seg :: segs, r) ∈ rs.
Proof.
  unfold child. rewrite list_elem_of_bind. split.
  - intros ([[|s segs'] r'] & Hin & Hr); cbn in Hin; [set_solver|]. destruct (decide (s = seg)) as [->|]; [|set_solver].
    apply list_elem_of_singleton in Hin. by simplify_eq.
  - intros Hr. exists (seg :: segs, r). split; [|done]. cbn. rewrite decide_True by done. set_solver.
Qed.

Lemma matches_nil multi segs : matches_from segs multi [] → segs = [] ∧ multi = false.
Proof. unfold matches_from. destruct multi; [intros (x & rest & E); by destruct segs|by intros <-]. Qed.

Lemma matches_cons s segs multi seg path :
  matches_from (s :: segs) multi (seg :: path) ↔ s = seg ∧ matches_from segs multi path.
Proof.
  unfold matches_from. destruct multi; [|naive_solver]. split.
  - intros (x & rest & E). simplify_eq/=. eauto.
  - intros (-> & x & rest & ->). by exists x, rest.
Qed.

Lemma match_path_None rs path segs r :
  match_path rs path = None → (segs, r) ∈ rs → ¬ matches_from segs (pMulti r.1) path.
Proof.
  revert rs segs. induction path as [|seg path IH]; intros rs segs E Hin Hm; cbn in E.
  - apply matches_nil in Hm as [-> Hm]. by eapply leaf_None.
  - destruct (match_path (child seg rs) path) eqn:E'; [done|]. destruct segs as [|s segs].
    + eapply leaf_None; [exact E|exact Hin|]. unfold matches_from in Hm. by destruct (pMulti r.1).
    + apply matches_cons in Hm as [-> Hm]. eapply IH; [exact E'|by apply elem_of_child|done].
Qed.

(** The route that is found matches, and no matching one is longer. *)
Lemma match_path_Some rs path r :
  match_path rs path = Some r →
  ∃ segs, (segs, r) ∈ rs ∧ matches_from segs (pMulti r.1) path ∧
    ∀ segs' r', (segs', r') ∈ rs → matches_from segs' (pMulti r'.1) path → (length segs' <= length segs)%nat.
Proof.
  revert rs. induction path as [|seg path IH]; intros rs; cbn.
  - intros [Hr Hm]%leaf_Some. exists []. rewrite Hm. split_and!; [done|done|].
    intros segs' r' _ [-> _]%matches_nil. done.
  - destruct (match_path (child seg rs) path) as [r'|] eqn:E.
    + intros [= ->]. destruct (IH _ E) as (segs & Hin & Hm & Hbest). apply elem_of_child in Hin.
      exists (seg :: segs). split_and!; [done|by apply matches_cons|].
      intros [|s' segs'] r' Hin' Hm'; [cbn; lia|]. cbn. apply le_n_S. apply matches_cons in Hm' as [-> Hm'].
      eapply Hbest; [by apply elem_of_child|done].
    + intros [Hr Hm]%leaf_Some. exists []. rewrite Hm. split_and!; [done|by exists seg, path|].
      intros [|s' segs'] r' Hin' Hm'; [done|]. exfalso. apply matches_cons in Hm' as [-> Hm'].
      eapply match_path_None; [exact E|by apply elem_of_child|done].
Qed.

(** The routes of a mux that a request could be served by. *)
Definition candidate (m : mux H) (method : string) (path : list bytes) (r : pattern * H) : Prop :=
  r ∈ m ∧ pMethod r.1 = method ∧ matches_from (pSegments r.1) (pMulti r.1) path.

Lemma elem_of_for_method method m segs r :
  (segs, r) ∈ for_method method m ↔ r ∈ m ∧ pMethod r.1 = method ∧ segs = pSegments r.1.
Proof.
  unfold for_method. rewrite list_elem_of_fmap. split.
  - intros (r' & [= -> ->] & Hr'). apply list_elem_of_filter in Hr'. tauto.
  - intros (Hr & Hm & ->). exists r. split; [done|]. by apply list_elem_of_filter.
Qed.

Lemma match_method_spec m method path :
  match match_path (for_method method m) path with
  | Some r => candidate m method path r ∧
      ∀ r', candidate m method path r' → (length (pSegments r'.1) <= length (pSegments r.1))%nat
  | None => ∀ r, ¬ candidate m method path r
  end.
Proof.
  destruct (match_path _ path) as [r|] eqn:E.
  - destruct (match_path_Some _ _ _ E) as (segs & (Hr & Hm & ->)%elem_of_for_method & Hp & Hbest).
    split; [done|]. intros r' (Hr' & Hm' & Hp'). eapply Hbest; [by apply elem_of_for_method|done].
  - intros r (Hr & Hm & Hp). eapply match_path_None; [exact E|by apply elem_of_for_method|done].
Qed.
End matching.

(** The mux serves by the most specific route.  A request is served by
    a route of its own method that matches its path, and no matching one is
    longer; only when there is none do routes for GET serve a HEAD request,
    and only when there is none of those either a route without a method; and
    when no route is found, none of these matches. *)
Theorem mux_most_specific {H} (m : mux H) method path :
  let best me r := candidate m me path r ∧
    ∀ r', candidate m me path r' → (length (pSegments r'.1) <= length (pSegments r.1))%nat in
  let none me := ∀ r, ¬ candidate m me path r in
  match match_route m method path with
  | Some r => best method r ∨
      none method ∧ (method = "HEAD" ∧ best "GET" r ∨ (method = "HEAD" → none "GET") ∧ best "" r)
  | None => none method ∧ (method = "HEAD" → none "GET") ∧ none ""
  end.
Proof.
  cbn zeta. unfold match_route. pose proof (match_method_spec m method path) as H1.
  destruct (match_path (for_method method m) path) as [r|].
  { by left. }
  pose proof (match_method_spec m "GET" path) as H2. pose proof (match_method_spec m "" path) as H3.
  destruct (decide (method = "HEAD")) as [->|Hne].
  - destruct (match_path (for_method "GET" m) path) as [r|]; [naive_solver|].
    destruct (match_path (for_method "" m) path) as [r|]; naive_solver.
  - destruct (match_path (for_method "" m) path) as [r|]; naive_solver.
Qed.

(** ** Ids in paths *)

Lemma hex_val_upper d : 0 <= d < 16 → hex_val (upper_hex d) = Some d.
Proof.
  intros Hd. unfold upper_hex, hex_val, between. destruct (Z.ltb_spec d 10); rewrite code_byte by lia.
  - replace ((48 <=? 48 + d) && (48 + d <=? 57)) with true by lia. f_equal. lia.
  - replace ((48 <=? 55 + d) && (55 + d <=? 57)) with false by lia.
    replace ((97 <=? 55 + d) && (55 + d <=? 102)) with false by lia.
    replace ((65 <=? 55 + d) && (55 + d <=? 70)) with true by lia. f_equal. lia.
Qed.

Lemma unreserved_plain c : unreserved c = true → code c ≠ 37 ∧ c ≠ slash.
Proof. destruct c as [[] [] [] [] [] [] [] []]; vm_compute; done. Qed.

Lemma PathUnescape_app l1 l2 s1 : PathUnescape l1 = Some s1 → PathUnescape (l1 ++ l2) = (app s1) <$> PathUnescape l2.
Proof.
  revert s1. remember (length l1) as n eqn:Hn. revert l1 Hn.
  induction n as [n IH] using lt_wf_ind. intros l1 -> s1.
  destruct l1 as [|c l1]; cbn [app PathUnescape].
  { intros [= <-]. by destruct (PathUnescape l2). }
  destruct (code c =? 37).
  - destruct l1 as [|a [|b l1]]; [done|done|]. cbn [app].
    destruct (hex_val a) as [x|]; [|done]. destruct (hex_val b) as [y|]; [|done]. cbn [mbind option_bind].
    destruct (PathUnescape l1) as [s|] eqn:E; [|done]. intros [= <-].
    rewrite (IH (length l1)) with (s1 := s); [|cbn; lia|done..]. by destruct (PathUnescape l2).
  - destruct (PathUnescape l1) as [s|] eqn:E; [|done]. intros [= <-].
    rewrite (IH (length l1)) with (s1 := s); [|cbn; lia|done..]. by destruct (PathUnescape l2).
Qed.

Lemma unescape_escape s : PathUnescape (PathEscape s) = Some s.
Proof.
  induction s as [|c s IH]; [done|]. change (PathEscape (c :: s)) with
    ((if unreserved c then [c] else [byte 37; upper_hex (code c / 16); upper_hex (code c mod 16)]) ++ PathEscape s).
  rewrite (PathUnescape_app _ _ [c]); [by rewrite IH|]. pose proof (code_range c).
  destruct (unreserved c) eqn:E.
  - apply unreserved_plain in E as [E _]. cbn. by rewrite (proj2 (Z.eqb_neq _ _) E).
  - cbn [PathUnescape]. rewrite code_byte by lia. cbn [Z.eqb Pos.eqb].
    rewrite !hex_val_upper by (Z.to_euclidean_division_equations; lia). cbn [mbind option_bind].
    replace (code c / 16 * 16 + code c mod 16) with (code c) by (Z.to_euclidean_division_equations; lia).
    by rewrite byte_code.
Qed.

Lemma escape_no_slash s : slash ∉ PathEscape s.
Proof.
  unfold PathEscape. rewrite list_elem_of_bind. intros (c & Hc & _). destruct (unreserved c) eqn:E.
  - apply unreserved_plain in E as [_ E]. set_solver.
  - revert Hc E. clear. destruct c as [[] [] [] [] [] [] [] []]; vm_compute; set_solver.
Qed.

Lemma split_path_plain cur l : slash ∉ l → split_path cur l = [cur ++ l].
Proof.
  revert cur. induction l as [|c l IH]; intros cur Hl; cbn [split_path]; [by rewrite app_nil_r|].
  apply not_elem_of_cons in Hl as [Hc Hl]. rewrite decide_False by done. rewrite IH by done.
  by rewrite <- app_assoc.
Qed.

(** An id that the cleaning of paths leaves alone. *)
Definition segment_id (id : bytes) : Prop := id ≠ [] ∧ id ≠ str "." ∧ id ≠ str "..".

Lemma escape_inj a b : PathEscape a = PathEscape b → a = b.
Proof. intros E. assert (Some a = Some b) by (by rewrite <- !unescape_escape, E). by simplify_eq. Qed.

Lemma clean_id acc id : segment_id id → clean_step acc (PathEscape id) = PathEscape id :: acc.
Proof.
  intros (H1 & H2 & H3). unfold clean_step.
  rewrite !decide_False; [done|intros E; by apply H3, escape_inj|].
  intros [E|E]; [by apply H1, escape_inj|by apply H2, escape_inj].
Qed.

Lemma last_escape p id : id ≠ [] → last (p ++ PathEscape id) ≠ Some slash.
Proof.
  intros Hne E. apply last_Some in E as [l E]. destruct (PathEscape id) as [|c e] eqn:Ee using rev_ind.
  { by apply Hne, escape_inj. }
  rewrite app_assoc in E. apply app_inj_tail in E as [_ ->]. apply (escape_no_slash id). rewrite Ee. set_solver.
Qed.

(** The escaped path of an id under two collections of the APIs. *)
Definition id_path (prefix : string) (id : bytes) : bytes := str prefix ++ PathEscape id.

(** How the mux sees such a path. *)
Lemma cleaned_id prefix id :
  prefix = "/api/v1/orders/" ∨ prefix = "/api/v1/submissions/" → segment_id id →
  cleaned (id_path prefix id) = (clean_segments (str prefix) ++ [PathEscape id], false) ∧
  path_text (clean_segments (str prefix) ++ [PathEscape id]) false = id_path prefix id.
Proof.
  intros Hp Hid. pose proof Hid as (Hne & _). unfold cleaned, id_path.
  assert (ends_in_slash (str prefix ++ PathEscape id) = false) as ->.
  { unfold ends_in_slash. apply bool_decide_eq_false, last_escape, Hne. }
  assert (Hfin : split_path [] (PathEscape id) = [PathEscape id]) by apply split_path_plain, escape_no_slash.
  destruct Hp as [-> | ->].
  - split; [f_equal|].
    + unfold clean_segments. change (split_path [] (str "/api/v1/orders/" ++ ?l)) with
        ([[]; str "api"; str "v1"; str "orders"] ++ split_path [] l).
      rewrite Hfin, foldl_app. cbn [foldl]. rewrite clean_id by done. by rewrite reverse_cons.
    + change (clean_segments (str "/api/v1/orders/")) with [str "api"; str "v1"; str "orders"]. cbn. by rewrite !app_nil_r.
  - split; [f_equal|].
    + unfold clean_segments. change (split_path [] (str "/api/v1/submissions/" ++ ?l)) with
        ([[]; str "api"; str "v1"; str "submissions"] ++ split_path [] l).
      rewrite Hfin, foldl_app. cbn [foldl]. rewrite clean_id by done. by rewrite reverse_cons.
    + change (clean_segments (str "/api/v1/submissions/")) with [str "api"; str "v1"; str "submissions"].
      cbn. by rewrite !app_nil_r.
Qed.

(** ** Requests with an id *)

Lemma string_bytes (s : bytes) : str (String.string_of_list_ascii s) = s.
Proof. apply String.list_ascii_of_string_of_list_ascii. Qed.

Lemma id_path_unescape prefix id :
  prefix = "/api/v1/orders/" ∨ prefix = "/api/v1/submissions/" →
  PathUnescape (id_path prefix id) = Some (str prefix ++ id).
Proof. intros Hp. unfold id_path. rewrite (PathUnescape_app _ _ (str prefix)); [by rewrite unescape_escape|by destruct Hp as [-> | ->]]. Qed.

(** The segments of such a path, for the mux and with a slash after it. *)
Lemma id_segments prefix segs id :
  prefix = "/api/v1/orders/" ∧ segs = [str "api"; str "v1"; str "orders"] ∨
  prefix = "/api/v1/submissions/" ∧ segs = [str "api"; str "v1"; str "submissions"] → segment_id id →
  cleaned (id_path prefix id) = (segs ++ [PathEscape id], false) ∧
  path_text (segs ++ [PathEscape id]) false = id_path prefix id ∧
  request_segments (segs ++ [PathEscape id]) false = segs ++ [id] ∧
  request_segments (segs ++ [PathEscape id]) true = segs ++ [id; [slash]].
Proof.
  intros Hp Hid. destruct (cleaned_id prefix id) as [E1 E2]; [naive_solver|done|].
  assert (Hs : clean_segments (str prefix) = segs) by (by destruct Hp as [[-> ->] | [-> ->]]).
  rewrite Hs in E1. rewrite Hs in E2. split_and!; [done|done|..]; unfold request_segments, unescaped;
    destruct Hp as [[-> ->] | [-> ->]]; cbn; by rewrite unescape_escape.
Qed.

(** A request for an id finds its handler. *)
Lemma cancel_dispatch id : segment_id id →
  dispatch api_mux "DELETE" (id_path "/api/v1/orders/" id) = Serve CancelOrderH.
Proof.
  intros Hid. destruct (id_segments "/api/v1/orders/" [str "api"; str "v1"; str "orders"] id) as (E1 & E2 & E3 & E4);
    [auto|done|]. unfold dispatch. rewrite E1. rewrite bool_decide_false by done. cbn [orb]. rewrite E2, E3, E4.
  rewrite decide_False by (intros []; done). reflexivity.
Qed.
Lemma status_dispatch id : segment_id id →
  dispatch submission_mux "GET" (id_path "/api/v1/submissions/" id) = Serve StatusH.
Proof.
  intros Hid. destruct (id_segments "/api/v1/submissions/" [str "api"; str "v1"; str "submissions"] id) as (E1 & E2 & E3 & E4);
    [auto|done|]. unfold dispatch. rewrite E1. rewrite bool_decide_false by done. cbn [orb]. rewrite E2, E3, E4.
  rewrite decide_False by (intros []; done). reflexivity.
Qed.

(** The path a handler sees. *)
Definition url_path (escaped : bytes) : string := String.string_of_list_ascii (default escaped (PathUnescape escaped)).

Lemma url_path_id prefix id :
  prefix = "/api/v1/orders/" ∨ prefix = "/api/v1/submissions/" →
  url_path (id_path prefix (str id)) = prefix +:+ id.
Proof.
  intros Hp. unfold url_path. rewrite id_path_unescape by done. cbn [default from_option].
  unfold str. rewrite <-list_ascii_app. apply String.string_of_list_ascii_of_string.
Qed.

(** C30: An id in a path reaches its handler as it is.  For an id that is not
    empty, has no slash and is not a dot or two dots, whatever its other bytes
    are: a DELETE of the escaped id under the orders is served by
    [handleCancelOrder], which cancels that id, and a GET of it under the
    submissions by [handleGetStatus], which looks that id up. *)
Theorem ids_reach_handlers (id : string) :
  segment_id (str id) → slash ∉ str id →
  let order_path := id_path "/api/v1/orders/" (str id) in
  let status_path := id_path "/api/v1/submissions/" (str id) in
  dispatch api_mux "DELETE" order_path = Serve CancelOrderH ∧
  Split (url_path order_path) !! 4%nat = Some id ∧
  dispatch submission_mux "GET" status_path = Serve StatusH ∧
  Base (url_path status_path) = id.
Proof.
  intros Hid Hs. cbn zeta. rewrite !url_path_id by auto. split_and!.
  - by apply cancel_dispatch.
  - by apply (cancel_path_id id "").
  - by apply status_dispatch.
  - apply (Base_last "/api/v1/submissions"); [|done]. destruct Hid as [Hne _]. by intros ->.
Qed.

Lemma ids_reach_handlers_witness :
  Split (url_path (id_path "/api/v1/orders/" (str "50% off?"))) !! 4%nat = Some "50% off?" ∧
  dispatch api_mux "DELETE" (str "/api/v1/orders/50%25%20off%3F") = Serve CancelOrderH.
Proof.
  destruct (ids_reach_handlers "50% off?") as (H1 & H2 & _).
  - split_and!; vm_compute; discriminate.
  - vm_compute. set_solver.
  - split; [exact H2|exact H1].
Defined.

(** A dot or two dots as an id are cleaned away: the client is sent to
    another path, and the order cannot be cancelled. *)
Lemma dots_redirected :
  dispatch api_mux "DELETE" (id_path "/api/v1/orders/" (str ".")) = Redirect (str "/api/v1/orders/") ∧
  dispatch api_mux "DELETE" (id_path "/api/v1/orders/" (str "..")) = Redirect (str "/api/v1").
Proof. vm_compute. done. Qed.

(** Requests that meet no handler, and the catch-all of the leaderboard. *)
Lemma routing_examples :
  dispatch api_mux "POST" (str "/api/v1/orders") = Serve PlaceOrderH ∧
  dispatch api_mux "GET" (str "/api/v1/orders") = MethodNotAllowed ∧
  dispatch api_mux "DELETE" (str "/api/v1/orders") = Redirect (str "/api/v1/orders/") ∧
  dispatch api_mux "GET" (str "/api//v1/./orderbook") = Redirect (str "/api/v1/orderbook") ∧
  dispatch api_mux "HEAD" (str "/api/v1/orderbook") = Serve OrderBookH ∧
  dispatch api_mux "GET" (str "/") = NotFound ∧
  dispatch submission_mux "POST" (str "/api/v1/submissions/git") = Serve GitH ∧
  dispatch submission_mux "GET" (str "/api/v1/submissions/git") = Serve StatusH ∧
  dispatch leaderboard_mux "POST" (str "/health") = Serve StaticH ∧
  dispatch leaderboard_mux "GET" (str "/static/app.js") = Serve StaticH.
Proof. vm_compute. done. Qed.
