(* ===== verification/Wire.v ===== *)
(** * What goes over the wire

    The JSON of the services: the order that a bot of pkg/loadgen marshals and
    the struct that [handlePlaceOrder] decodes it into, the responses, depths
    and market-data messages of pkg/api, the body of a git submission, and the
    event that [UpdateScore] publishes, with the frames the dashboard gets it
    in.  What one side writes is what the other one reads. *)

From stdpp Require Import prelude list strings.
From Stdlib Require Import ZArith Lia Ascii.
From S2P Require Import Prelude GoBytes GoJson JsonProps Order OrderBook Server.

Local Open Scope Z_scope.

(** ** Orders *)

(** [placeOrderReq] of the server: how each key is stored. *)
Definition place_fields : list (field placeOrderReq) :=
  [string_field "id" (λ v o, mkPlaceOrderReq v (pSide o) (pType o) (pPrice o) (pQuantity o));
   int_field "side" (λ v o, mkPlaceOrderReq (pID o) v (pType o) (pPrice o) (pQuantity o));
   int_field "type" (λ v o, mkPlaceOrderReq (pID o) (pSide o) v (pPrice o) (pQuantity o));
   uint_field "price" (λ v o, mkPlaceOrderReq (pID o) (pSide o) (pType o) v (pQuantity o));
   uint_field "quantity" (λ v o, mkPlaceOrderReq (pID o) (pSide o) (pType o) (pPrice o) v)].
Definition zero_place : placeOrderReq := mkPlaceOrderReq "" 0 0 0 0.

(** [json.NewDecoder(r.Body).Decode(&body)]. *)
Definition decode_place (body : bytes) : option placeOrderReq :=
  v ← read_value body; decode_struct place_fields zero_place v.

(** [placeOrderReq] of the bots, as [json.Marshal] writes it. *)
Definition j_order (o : placeOrderReq) : json :=
  JObj [j_key "id" (j_string (pID o)); j_key "side" (j_int (pSide o)); j_key "type" (j_int (pType o));
        j_key "price" (j_int (pPrice o)); j_key "quantity" (j_int (pQuantity o))].

(** ** Responses and messages *)

Definition j_trade (t : Trade) : json :=
  JObj [j_key "maker_order_id" (j_string (tMakerOrderID t)); j_key "taker_order_id" (j_string (tTakerOrderID t));
        j_key "price" (j_int (tPrice t)); j_key "quantity" (j_int (tQuantity t))].
Definition j_trades (ts : list Trade) : json := JArr (j_trade <$> ts).

(** No trades and no error are left out ([omitempty]). *)
Definition j_response (r : Response) : json :=
  JObj (j_key "success" (JBool (Success r)) ::
        (match Trades r with [] => [] | ts => [j_key "trades" (j_trades ts)] end) ++
        (if decide (Error r = "") then [] else [j_key "error" (j_string (Error r))])).

Definition j_level (l : PriceLevel) : json := JObj [j_key "price" (j_int (plPrice l)); j_key "volume" (j_int (plVolume l))].
(** The keys of a map are sorted. *)
Definition j_depth (d : list PriceLevel * list PriceLevel) : json :=
  JObj [j_key "asks" (JArr (j_level <$> d.2)); j_key "bids" (JArr (j_level <$> d.1))].

Definition j_payload (p : payload) : json :=
  match p with
  | TradesData ts => j_trades ts
  | DepthData bids asks => j_depth (bids, asks)
  end.
(** The bytes [broadcastEvent] sends to the hub. *)
Definition message_text (m : WSMessage) : bytes :=
  print (JObj [j_key "type" (j_string (wsType m)); j_key "data" (j_payload (wsData m))]).

(** ** Git submissions *)

Record git_request := mkGitRequest { gContestant : string; gURL : string }.
Definition git_fields : list (field git_request) :=
  [string_field "contestant_id" (λ v r, mkGitRequest v (gURL r));
   string_field "git_url" (λ v r, mkGitRequest (gContestant r) v)].
Definition decode_git (body : bytes) : option git_request :=
  v ← read_value body; decode_struct git_fields (mkGitRequest "" "") v.

(** ** Well-formed texts *)

Lemma ascii_valid l : forallb (λ c, code c <? 128) l = true → valid_utf8 l.
Proof.
  induction l as [|c l IH]; [constructor|]. cbn. intros [H1 H2]%andb_true_iff. apply valid_ascii; [lia|auto].
Qed.

Lemma j_int_ok n : - 10 ^ 20 < n < 10 ^ 20 → json_ok (j_int n).
Proof. apply number_ok_fmt. Qed.

Lemma fold_and {A} (P : A → Prop) l : foldr and True (map P l) ↔ Forall P l.
Proof. induction l as [|x l IH]; cbn; [split; [constructor|done]|]. by rewrite Forall_cons, IH. Qed.

Lemma max_bound {A} (f : A → Z) l n : 0 <= n → Forall (λ x, f x <= n) l → foldr Z.max 0 (map f l) <= n.
Proof. intros Hn. induction 1 as [|x l Hx _ IH]; cbn; lia. Qed.

(** Orders, trades and levels of 64-bit numbers and UTF-8 ids. *)
Definition order_ok (o : placeOrderReq) : Prop :=
  text_ok (pID o) ∧ is_int64 (pSide o) ∧ is_int64 (pType o) ∧ is_u64 (pPrice o) ∧ is_u64 (pQuantity o).
Definition trade_ok (t : Trade) : Prop :=
  text_ok (tMakerOrderID t) ∧ text_ok (tTakerOrderID t) ∧ is_u64 (tPrice t) ∧ is_u64 (tQuantity t).
Definition depth_level_ok (l : PriceLevel) : Prop := is_u64 (plPrice l) ∧ is_u64 (plVolume l).
Definition response_ok (r : Response) : Prop := Forall trade_ok (Trades r) ∧ text_ok (Error r).

Ltac solve_json :=
  repeat first
    [ split
    | done
    | assumption
    | apply j_int_ok; unfold is_u64, is_int64 in *; lia
    | apply ascii_valid; reflexivity ].

Lemma j_order_ok o : order_ok o → json_ok (j_order o).
Proof. intros (H1 & H2 & H3 & H4 & H5). cbn -[j_int]. solve_json. Qed.
Lemma j_trade_ok t : trade_ok t → json_ok (j_trade t).
Proof. intros (H1 & H2 & H3 & H4). cbn -[j_int]. solve_json. Qed.
Lemma j_level_ok l : depth_level_ok l → json_ok (j_level l).
Proof. intros [H1 H2]. cbn -[j_int]. solve_json. Qed.

Lemma json_ok_list {A} (f : A → json) (P : A → Prop) l :
  (∀ x, P x → json_ok (f x)) → Forall P l → json_ok (JArr (f <$> l)).
Proof. intros Hf Hl. cbn. rewrite fold_and, Forall_fmap. by eapply Forall_impl. Qed.
Lemma height_list {A} (f : A → json) n l :
  0 <= n → (∀ x, height (f x) <= n) → height (JArr (f <$> l)) <= 1 + n.
Proof.
  intros Hn Hf. cbn. apply Z.add_le_mono_l, max_bound; [done|]. apply Forall_fmap, Forall_forall. intros x _. apply Hf.
Qed.

Lemma j_trades_ok ts : Forall trade_ok ts → json_ok (j_trades ts) ∧ height (j_trades ts) <= 2.
Proof. intros H. split; [eapply json_ok_list; [apply j_trade_ok|done]|]. by apply (height_list j_trade 1). Qed.

Lemma j_response_ok r : response_ok r → json_ok (j_response r) ∧ height (j_response r) <= 3.
Proof.
  intros [Ht He]. destruct (j_trades_ok _ Ht) as [H1 H2]. unfold j_response.
  assert (Hs : valid_utf8 (str "success") ∧ valid_utf8 (str "trades") ∧ valid_utf8 (str "error")).
  { split_and!; by apply ascii_valid. } destruct Hs as (S1 & S2 & S3).
  destruct (Trades r) as [|t ts]; destruct (decide (Error r = "")); (split; [cbn -[j_trades] in *; tauto|cbn -[j_trades] in *; lia]).
Qed.

Lemma j_depth_ok d : Forall depth_level_ok d.1 → Forall depth_level_ok d.2 → json_ok (j_depth d) ∧ height (j_depth d) <= 3.
Proof.
  intros H1 H2. assert (Hl : ∀ ls, Forall depth_level_ok ls → json_ok (JArr (j_level <$> ls)) ∧ height (JArr (j_level <$> ls)) <= 2).
  { intros ls Hls. split; [eapply json_ok_list; [apply j_level_ok|done]|]. by apply (height_list j_level 1). }
  destruct (Hl _ H1) as [A1 A2], (Hl _ H2) as [B1 B2]. unfold j_depth.
  assert (Hs : valid_utf8 (str "asks") ∧ valid_utf8 (str "bids")) by (split; by apply ascii_valid). destruct Hs as [S1 S2].
  remember (JArr (j_level <$> d.1)) as x. remember (JArr (j_level <$> d.2)) as y. split; cbn; [tauto|lia].
Qed.

(** ** What is written is read *)

Lemma parse_uint_fmt n : is_u64 n → parse_uint (fmt_d n) = Some n.
Proof.
  intros Hn. unfold is_u64 in Hn. unfold fmt_d. replace (n <? 0) with false by lia. unfold parse_uint.
  pose proof (digits_nonempty 20 n ltac:(lia)) as Hne. destruct (digits 20 n) as [|c l] eqn:E; [done|].
  rewrite <- E, digits_val_digits by lia. cbn -[Z.ltb Z.pow]. by replace (n <? 2 ^ 64) with true by lia.
Qed.

(** One member of an object, into the field that has its name. *)
Lemma store_member {V S} (fields : list (field_of V S)) k set (v : V) f ms s :
  find_field fields k = Some set → set v = Some f →
  store_members fields ((k, v) :: ms) s = store_members fields ms (f s).
Proof. intros H1 H2. cbn [store_members]. by rewrite H1, H2. Qed.

Lemma string_stored {S} name (set : string → S → S) s : (string_field name set).2 (j_string s) = Some (set s).
Proof. cbn. unfold str. by rewrite String.string_of_list_ascii_of_string. Qed.
Lemma int_stored {S} name (set : Z → S → S) n : is_int64 n → (int_field name set).2 (j_int n) = Some (set n).
Proof. intros Hn. cbn -[fmt_d Atoi]. by rewrite Atoi_fmt_d. Qed.
Lemma uint_stored {S} name (set : Z → S → S) n : is_u64 n → (uint_field name set).2 (j_int n) = Some (set n).
Proof. intros Hn. cbn -[fmt_d parse_uint]. by rewrite parse_uint_fmt. Qed.

Lemma order_decoded o : order_ok o → decode_place (print (j_order o)) = Some o.
Proof.
  intros Ho. unfold decode_place. rewrite <- (app_nil_r (print _)).
  rewrite read_print; [|by apply j_order_ok|by vm_compute|done]. cbn [mbind option_bind].
  destruct o as [id side ty price qty], Ho as (H1 & H2 & H3 & H4 & H5). cbn [pID pSide pType pPrice pQuantity] in *.
  unfold decode_struct, j_order, j_key. cbn [pID pSide pType pPrice pQuantity].
  erewrite store_member; [|reflexivity|apply string_stored].
  erewrite store_member; [|reflexivity|by apply int_stored].
  erewrite store_member; [|reflexivity|by apply int_stored].
  erewrite store_member; [|reflexivity|by apply uint_stored].
  erewrite store_member; [|reflexivity|by apply uint_stored]. done.
Qed.

(** What a decoder stores, by an invariant of the fields. *)
Lemma find_field_In {V S} (fields : list (field_of V S)) k set :
  find_field fields k = Some set → ∃ name, (name, set) ∈ fields.
Proof.
  unfold find_field. case_match eqn:E1.
  - case_match. intros [= <-]. apply list_find_Some in E1 as (Hi & _). eexists.
    apply list_elem_of_lookup_2 in Hi. rewrite <- surjective_pairing. exact Hi.
  - clear E1. case_match eqn:E2; [|done]. case_match. intros [= <-]. apply list_find_Some in E2 as (Hi & _). eexists.
    apply list_elem_of_lookup_2 in Hi. rewrite <- surjective_pairing. exact Hi.
Qed.

Lemma decode_invariant {S} (I : S → Prop) (fields : list (field S)) zero v s :
  (∀ fd v f s, fd ∈ fields → all_utf8 v → fd.2 v = Some f → I s → I (f s)) →
  I zero → all_utf8 v → decode_struct fields zero v = Some s → I s.
Proof.
  intros Hf Hz Hv. destruct v as [|b|lit|t|vs|ms]; try done; cbn [decode_struct].
  { by intros [= <-]. }
  cbn [all_utf8] in Hv. revert zero Hz. induction ms as [|[k v] ms IH]; intros zero Hz; cbn [store_members].
  { by intros [= <-]. }
  destruct Hv as [[_ Hv] Hms]. cbn in Hv. destruct (find_field fields k) as [set|] eqn:Ek; [|by apply IH].
  apply find_field_In in Ek as [name Hin]. destruct (set v) as [f|] eqn:Es; [|done]. cbn [mbind option_bind].
  apply IH; [done|]. by eapply (Hf (name, set)).
Qed.

Lemma string_field_sets {S} name (set : string → S → S) v f :
  all_utf8 v → (string_field name set).2 v = Some f → f = id ∨ ∃ x, text_ok x ∧ f = set x.
Proof.
  destruct v; cbn; intros Hv E; simplify_eq; [by left|]. right. eexists. split; [|done].
  unfold text_ok, str. by rewrite String.list_ascii_of_string_of_list_ascii.
Qed.
Lemma int_field_sets {S} name (set : Z → S → S) v f :
  (int_field name set).2 v = Some f → f = id ∨ ∃ x, is_int64 x ∧ f = set x.
Proof.
  destruct v; cbn; intros E; simplify_eq; [by left|]. right. apply fmap_Some in E as (x & Hx & ->). exists x. split; [|done].
  assert (Hin : ∀ y, in_int64 y = Some x → is_int64 x).
  { unfold in_int64, is_int64. intros y. case_match eqn:E; [|done]. intros [= ->]. lia. }
  unfold Atoi in Hx. repeat case_match; simplify_eq;
    match goal with H : (_ ← _; _) = Some _ |- _ => apply bind_Some in H as (? & _ & H); eauto end.
Qed.
Lemma uint_field_sets {S} name (set : Z → S → S) v f :
  (uint_field name set).2 v = Some f → f = id ∨ ∃ x, is_u64 x ∧ f = set x.
Proof.
  destruct v as [|b|lit|t|vs|ms]; cbn; intros E; simplify_eq; [by left|]. right.
  apply fmap_Some in E as (x & Hx & ->). exists x. split; [|done]. unfold parse_uint in Hx. destruct lit as [|c l]; [done|].
  apply bind_Some in Hx as (n & Hn & Hx). case_match eqn:E; [|done]. injection Hx as ->.
  split; [eapply (digits_val_ge 0 (c :: l)); [lia|done]|lia].
Qed.

(** Whatever the body is, a decoded order is made of 64-bit numbers and an id in UTF-8. *)
Lemma decode_place_ok body o : decode_place body = Some o → order_ok o.
Proof.
  unfold decode_place. destruct (read_value body) as [v|] eqn:Ev; [|done]. cbn [mbind option_bind].
  apply decode_invariant; [|by repeat split; try constructor|by eapply read_utf8].
  intros fd w f s Hin Hw E (H1 & H2 & H3 & H4 & H5). unfold order_ok. unfold place_fields in Hin.
  repeat (apply elem_of_cons in Hin as [Hin|Hin]); [..|by apply not_elem_of_nil in Hin]; subst fd.
  - apply string_field_sets in E as [->|(x & Hx & ->)]; [|done|done]. by cbn.
  - apply int_field_sets in E as [->|(x & Hx & ->)]; by cbn.
  - apply int_field_sets in E as [->|(x & Hx & ->)]; by cbn.
  - apply uint_field_sets in E as [->|(x & Hx & ->)]; by cbn.
  - apply uint_field_sets in E as [->|(x & Hx & ->)]; by cbn.
Qed.

(** ** One line per message *)

Definition newline_byte : ascii := byte 10.

Lemma ascii_no_newline c : code c < 128 → newline_byte ∉ escape_ascii c.
Proof. destruct c as [[] [] [] [] [] [] [] []]; vm_compute; try done; intros _; set_solver. Qed.
Lemma u_escape_no_newline r : r = replacement ∨ r = 8232 ∨ r = 8233 → newline_byte ∉ u_escape r.
Proof. intros [-> |[-> | ->]]; vm_compute; set_solver. Qed.

Lemma high_no_newline l : Forall (λ c, 128 <= code c) l → newline_byte ∉ l.
Proof. rewrite Forall_forall. intros H Hin. specialize (H _ Hin). by vm_compute in H. Qed.

Lemma rune_high c l n : rune_len (c :: l) = Some n → 128 <= code c → Forall (λ c, 128 <= code c) (take n (c :: l)).
Proof.
  intros Hn Hc. unfold rune_len in Hn. replace (code c <? 128) with false in Hn by lia.
  unfold is_cont, between in Hn. repeat case_match; simplify_eq; cbn [take]; repeat constructor; lia.
Qed.

Lemma quote_loop_no_newline fuel l : newline_byte ∉ quote_loop fuel l.
Proof.
  revert l. induction fuel as [|fuel IH]; intros l; [set_solver|]. destruct l as [|c l]; [set_solver|]. cbn [quote_loop].
  destruct (Z.ltb_spec (code c) 128) as [Hc|Hc].
  { rewrite elem_of_app. intros [H|H]; [by eapply ascii_no_newline|by eapply IH]. }
  destruct (rune_len (c :: l)) as [n|] eqn:En.
  - destruct (line_separator (c :: l)) as [r|] eqn:Er; rewrite elem_of_app; intros [H|H]; try by eapply IH.
    + destruct (line_separator_rune _ _ _ En Er) as (_ & _ & Hr). by eapply u_escape_no_newline; [right|].
    + by eapply high_no_newline; [eapply rune_high|].
  - rewrite elem_of_app. intros [H|H]; [by eapply u_escape_no_newline; [left|]|by eapply IH].
Qed.

Lemma quote_no_newline s : newline_byte ∉ quote s.
Proof.
  unfold quote. rewrite not_elem_of_cons, not_elem_of_app, list_elem_of_singleton.
  split_and!; [by vm_compute|apply quote_loop_no_newline|by vm_compute].
Qed.

(** The characters of a number. *)
Definition number_char (c : ascii) : Prop := is_space c = false.
Lemma digit_number c : between 48 57 c = true → number_char c.
Proof. unfold between, number_char, is_space. lia. Qed.

Lemma span_digits_chars l d r : span_digits l = (d, r) → Forall number_char d ∧ l = d ++ r.
Proof.
  revert d r. induction l as [|c l IH]; intros d r; cbn; [by intros [= <- <-]|].
  destruct (between 48 57 c) eqn:E; [|by intros [= <- <-]]. destruct (span_digits l) as [d' r'] eqn:E'.
  intros [= <- <-]. destruct (IH _ _ eq_refl) as [H1 ->]. split; [|done]. constructor; [by apply digit_number|done].
Qed.
Lemma some_digits_chars l d r : some_digits l = Some (d, r) → Forall number_char d.
Proof.
  unfold some_digits. destruct (span_digits l) as [d' r'] eqn:E. apply span_digits_chars in E as [H _].
  by destruct d'; intros [= <- <-].
Qed.

Lemma number_chars lit : number_ok lit → Forall number_char lit.
Proof.
  unfold number_ok, parse_number. destruct (scan_sign lit) as [s l1] eqn:E1.
  destruct (scan_int l1) as [[i l2]|] eqn:E2; [|done]. cbn [mbind option_bind].
  destruct (scan_frac l2) as [[f l3]|] eqn:E3; [|done]. cbn [mbind option_bind].
  destruct (scan_exp l3) as [[e l4]|] eqn:E4; [|done]. cbn [mbind option_bind].
  intros [= <- _]. rewrite !Forall_app. split_and!.
  - unfold scan_sign in E1. repeat case_match; simplify_eq; repeat constructor. unfold number_char, is_space. lia.
  - unfold scan_int in E2. destruct l1 as [|c l1]; [done|]. destruct (Z.eqb_spec (code c) 48).
    + simplify_eq. repeat constructor. unfold number_char, is_space. lia.
    + by eapply some_digits_chars.
  - unfold scan_frac in E3. destruct l2 as [|c l2]; [by simplify_eq|]. destruct (Z.eqb_spec (code c) 46); [|by simplify_eq].
    apply bind_Some in E3 as ([d r] & Hd & [= <- _]). constructor; [unfold number_char, is_space; lia|by eapply some_digits_chars].
  - unfold scan_exp in E4. destruct l3 as [|c l3]; [by simplify_eq|].
    destruct ((code c =? 101) || (code c =? 69)) eqn:Ee; [|by simplify_eq].
    case_match eqn:Es. apply bind_Some in E4 as ([d r] & Hd & [= <- _]).
    constructor; [unfold number_char, is_space; lia|]. apply Forall_app. split; [|by eapply some_digits_chars].
    repeat case_match; simplify_eq; repeat constructor. unfold number_char, is_space. lia.
Qed.

Lemma commas_elem c ps : c ∈ commas ps → c = byte 44 ∨ ∃ p, p ∈ ps ∧ c ∈ p.
Proof.
  induction ps as [|p [|q ps] IH]; [set_solver| |].
  - cbn. intros Hc. right. exists p. set_solver.
  - change (commas (p :: q :: ps)) with (p ++ byte 44 :: commas (q :: ps)). rewrite elem_of_app, elem_of_cons.
    intros [H|[H|H]]; [right; exists p; set_solver|by left|]. destruct (IH H) as [?|(p' & ? & ?)]; [by left|]. right. exists p'. set_solver.
Qed.

Lemma bracket_no_newline s : forallb (λ c, negb (is_space c)) (str s) = true → newline_byte ∉ str s.
Proof.
  rewrite forallb_forall. intros H Hin. apply list_elem_of_In in Hin. by specialize (H _ Hin).
Qed.

(** All numbers of a value are numbers. *)
Fixpoint numbers_ok (v : json) : Prop :=
  match v with
  | JNum lit => number_ok lit
  | JArr vs => foldr and True (map numbers_ok vs)
  | JObj ms => foldr and True (map (λ m, numbers_ok m.2) ms)
  | _ => True
  end.

(** The text of a value is one line, whatever its strings are. *)
Lemma print_no_newline v : numbers_ok v → newline_byte ∉ print v.
Proof.
  induction v as [|[]|lit|s|vs Hvs|ms Hms] using json_nested; intros Hok.
  - by apply bracket_no_newline.
  - by apply bracket_no_newline.
  - by apply bracket_no_newline.
  - apply number_chars in Hok. rewrite Forall_forall in Hok. intros H. by apply Hok in H.
  - apply quote_no_newline.
  - cbn [print]. rewrite !not_elem_of_app. split_and!; [by apply bracket_no_newline| |by apply bracket_no_newline].
    intros [H|(p & Hp & H)]%commas_elem; [by vm_compute in H|]. apply list_elem_of_fmap in Hp as (v & -> & Hv).
    cbn in Hok. rewrite fold_and, Forall_forall in Hok. rewrite Forall_forall in Hvs. by eapply Hvs; [|apply Hok|].
  - cbn [print]. rewrite !not_elem_of_app. split_and!; [by apply bracket_no_newline| |by apply bracket_no_newline].
    intros [H|(p & Hp & H)]%commas_elem; [by vm_compute in H|]. apply list_elem_of_fmap in Hp as (m & -> & Hm).
    cbn in Hok. rewrite fold_and, Forall_forall in Hok. rewrite Forall_forall in Hms. rewrite elem_of_app, elem_of_cons in H.
    destruct H as [H|[H|H]]; [by eapply quote_no_newline|by vm_compute in H|]. by eapply Hms; [|apply Hok|].
Qed.

(** ** Frames *)

(** The text of a frame: its messages with newlines between them. *)
Fixpoint frame_text (msgs : list bytes) : bytes :=
  match msgs with
  | [] => []
  | [m] => m
  | m :: msgs' => m ++ newline_byte :: frame_text msgs'
  end.

(** The lines of a text that are not empty. *)
Fixpoint lines_from (cur l : bytes) : list bytes :=
  let emit := match cur with [] => [] | _ => [cur] end in
  match l with
  | [] => emit
  | c :: l' => if decide (c = newline_byte) then emit ++ lines_from [] l' else lines_from (cur ++ [c]) l'
  end.
Definition lines (l : bytes) : list bytes := lines_from [] l.

Lemma lines_from_plain cur m : newline_byte ∉ m → cur ++ m ≠ [] → lines_from cur m = [cur ++ m].
Proof.
  revert cur. induction m as [|c m IH]; intros cur Hm Hne; cbn [lines_from].
  - rewrite app_nil_r in *. by destruct cur.
  - apply not_elem_of_cons in Hm as [Hc Hm]. rewrite decide_False by done.
    rewrite IH by (rewrite <- ?app_assoc; done). by rewrite <- app_assoc.
Qed.
Lemma lines_from_cut cur m l :
  newline_byte ∉ m → cur ++ m ≠ [] → lines_from cur (m ++ newline_byte :: l) = (cur ++ m) :: lines l.
Proof.
  revert cur. induction m as [|c m IH]; intros cur Hm Hne; cbn [lines_from app].
  - rewrite decide_True by done. rewrite app_nil_r in *. by destruct cur.
  - apply not_elem_of_cons in Hm as [Hc Hm]. rewrite decide_False by done.
    rewrite IH by (rewrite <- ?app_assoc; done). by rewrite <- app_assoc.
Qed.

Lemma lines_frame msgs : Forall (λ m, (newline_byte ∉ m) ∧ m ≠ []) msgs → lines (frame_text msgs) = msgs.
Proof.
  induction 1 as [|m [|m' msgs] [H1 H2] _ IH]; [done| |].
  - by apply (lines_from_plain []).
  - change (frame_text (m :: m' :: msgs)) with (m ++ newline_byte :: frame_text (m' :: msgs)).
    unfold lines. rewrite lines_from_cut by done. by rewrite IH.
Qed.

Lemma parse_text_value v rest :
  json_ok v → height v <= max_depth → stops rest →
  parse_text (print v ++ rest) = match skip rest with [] => Some v | _ => None end.
Proof.
  intros Hok Hh Hs. unfold parse_text. rewrite json_survives; [done|done| |lia|done]. rewrite length_app. lia.
Qed.

(** ** The text determines the value *)

Lemma fmt_inj a b : is_u64 a → is_u64 b → j_int a = j_int b → a = b.
Proof. intros Ha Hb [= E]. assert (Some a = Some b) by (by rewrite <- !parse_uint_fmt, E). by simplify_eq. Qed.
Lemma j_string_inj a b : j_string a = j_string b → a = b.
Proof.
  intros [= E]. unfold str in E. by rewrite <- (String.string_of_list_ascii_of_string a), E, String.string_of_list_ascii_of_string.
Qed.

Lemma j_trade_inj a b : trade_ok a → trade_ok b → j_trade a = j_trade b → a = b.
Proof.
  destruct a as [m1 t1 p1 q1], b as [m2 t2 p2 q2]. intros (_ & _ & A1 & A2) (_ & _ & B1 & B2). unfold j_trade, j_key. cbn [tMakerOrderID tTakerOrderID tPrice tQuantity] in *.
  intros [= E1 E2 E3 E4]. f_equal.
  - apply j_string_inj. unfold j_string. congruence.
  - apply j_string_inj. unfold j_string. congruence.
  - apply fmt_inj; [done..|]. unfold j_int. congruence.
  - apply fmt_inj; [done..|]. unfold j_int. congruence.
Qed.

Lemma map_inj_on {A B} (f : A → B) (P : A → Prop) l1 l2 :
  (∀ x y, P x → P y → f x = f y → x = y) → Forall P l1 → Forall P l2 → f <$> l1 = f <$> l2 → l1 = l2.
Proof.
  intros Hf H1. revert l2. induction H1 as [|x l1 Hx _ IH]; intros [|y l2] H2 E; try done.
  apply Forall_cons in H2 as [Hy H2]. rewrite !fmap_cons in E. injection E as E1 E2. f_equal; [by apply Hf|by apply IH].
Qed.

Lemma j_response_inj a b : response_ok a → response_ok b → j_response a = j_response b → a = b.
Proof.
  destruct a as [sa ta ea], b as [sb tb eb]. intros [Ha _] [Hb _]. unfold j_response. cbn [Success Trades Error] in *.
  intros E. assert (Hts : ta = tb ∧ ea = eb ∧ sa = sb); [|by destruct Hts as (-> & -> & ->)].
  assert (Hlist : ∀ t1 t2, Forall trade_ok t1 → Forall trade_ok t2 → j_trades t1 = j_trades t2 → t1 = t2).
  { intros t1 t2 H1 H2 [= E']. eapply map_inj_on; [apply j_trade_inj|done..]. }
  assert (Herr : ∀ e1 e2, j_string e1 = j_string e2 → e1 = e2) by apply j_string_inj.
  revert E Hlist Herr. generalize j_trades, j_string. intros jt js E Hlist Herr.
  destruct ta as [|x ta], tb as [|y tb], (decide (ea = "")) as [->|Hea], (decide (eb = "")) as [->|Heb];
    cbn [app] in E; unfold j_key in E; try discriminate; injection E; intros; split_and!; auto.
Qed.

(** A client that knows what a response looks like gets exactly the response
    that was sent: the trades, the ids with any characters, and the numbers. *)
Lemma response_text_inj a b :
  response_ok a → response_ok b → Encode (j_response a) = Encode (j_response b) → a = b.
Proof.
  intros Ha Hb E. destruct (j_response_ok a Ha) as [A1 A2], (j_response_ok b Hb) as [B1 B2]. apply j_response_inj; [done..|].
  pose proof (read_Encode _ A1 ltac:(unfold max_depth; lia)) as Ra.
  pose proof (read_Encode _ B1 ltac:(unfold max_depth; lia)) as Rb. rewrite E, Rb in Ra. congruence.
Qed.
