(* ===== verification/Api.v ===== *)
(** * The HTTP API, from bytes to bytes

    The whole path of a request to the matching engine: the mux of
    [RegisterRoutes], the handler, the decoding of the body, the matching loop
    that serves the request the handler waits for, and the encoded response.
    Requests come one after the other here, with ticks of the loop between
    them; what happens when they overlap is the subject of [ServerProps].

    [spec_http] says what a client may expect, in terms of the abstract book
    alone.  The API refines it, and what it answers can be read back. *)

From stdpp Require Import prelude gmap strings list fin_maps.
From Stdlib Require Import ZArith Lia Ascii.
From S2P Require Import Prelude GoBytes GoJson JsonProps GoSort Order LevelQueue OrderBook BookSpec BookInv BookFlow BookRefine BookSim Server ServerInv ServerProps Http Routes Wire.

Local Open Scope Z_scope.

(** ** The server *)

(** A handler, with the loop serving its request while it waits; the hub
    receives from its channel, so that the loop does not have to wait for it. *)
Definition place_route (now : Z) (body : bytes) : SM http_response :=
  h ← handlePlaceOrder now (decode_place body);
  match h with
  | HttpError text code => mret (http_error text code)
  | Waiting c => loop_next;; r ← finishPlaceOrder c; mret (Replied r.1 (Encode (j_response r.2)))
  end.
Definition cancel_route (path : string) : SM http_response :=
  h ← handleCancelOrder path;
  match h with
  | HttpError text code => mret (http_error text code)
  | Waiting c => loop_next;; r ← finishCancelOrder c; mret (Replied r.1 (Encode (j_response r.2)))
  end.
Definition book_route : SM http_response :=
  d ← handleGetOrderBook; mret (Replied StatusOK (Encode (j_depth d))).

Definition serve_http (now : Z) (req : http_request) : SM http_response :=
  r ← match dispatch api_mux (hMethod req) (hTarget req) with
      | Serve PlaceOrderH => place_route now (hBody req)
      | Serve CancelOrderH => cancel_route (url_path (hTarget req))
      | Serve OrderBookH => book_route
      | Serve MarketDataH => mret Upgraded
      | Redirect path => mret (Moved path)
      | MethodNotAllowed => mret (http_error "Method Not Allowed" 405)
      | NotFound => mret (http_error "404 page not found" 404)
      end;
  mret (written (hMethod req) r).

(** Requests at given times, and ticks. *)
Inductive api_op := Request (now : Z) (req : http_request) | Tick.
Fixpoint serve_ops (ops : list api_op) : SM (list http_response) :=
  match ops with
  | [] => mret []
  | Request now req :: ops' => r ← serve_http now req; rs ← serve_ops ops'; mret (r :: rs)
  | Tick :: ops' => tick_next;; serve_ops ops'
  end.

(** ** The specification *)

(** The book, the depth last published, and whether the book has changed
    since. *)
Record api_state := mkApi { aBook : book; aDepth : list PriceLevel * list PriceLevel; aChanged : bool }.
Definition api_init : api_state := mkApi empty_book ([], []) false.

Definition place_spec (oid : ptr) (body : bytes) (s : api_state) : http_response * api_state :=
  match decode_place body with
  | None => (http_error "invalid request body" 400, s)
  | Some o =>
      if decide (pID o = "" ∨ pQuantity o = 0) then (http_error "missing required fields" 400, s)
      else
        let '(ts, b) := spec_process oid (pID o) (pSide o) (pType o) (pPrice o) (pQuantity o) (aBook s) in
        (Replied 200 (Encode (j_response (place_response ts))), mkApi b (aDepth s) true)
  end.
Definition cancel_spec (path : string) (s : api_state) : http_response * api_state :=
  match Split path !! 4%nat with
  | None => (http_error "missing order ID" 400, s)
  | Some id =>
      let '(ok, b) := spec_cancel id (aBook s) in
      (Replied (if ok then 200 else 404) (Encode (j_response (cancel_response ok))), mkApi b (aDepth s) (aChanged s || ok))
  end.

(** The response to a request; [oid] names the order that it may create. *)
Definition spec_http (oid : ptr) (req : http_request) (s : api_state) : http_response * api_state :=
  let '(r, s') :=
    match dispatch api_mux (hMethod req) (hTarget req) with
    | Serve PlaceOrderH => place_spec oid (hBody req) s
    | Serve CancelOrderH => cancel_spec (url_path (hTarget req)) s
    | Serve OrderBookH => (Replied 200 (Encode (j_depth (aDepth s))), s)
    | Serve MarketDataH => (Upgraded, s)
    | Redirect path => (Moved path, s)
    | MethodNotAllowed => (http_error "Method Not Allowed" 405, s)
    | NotFound => (http_error "404 page not found" 404, s)
    end in
  (written (hMethod req) r, s').

Definition spec_tick (s : api_state) : api_state :=
  if aChanged s then mkApi (aBook s) (book_depth (aBook s)) false else s.

(** A run of the specification; a new order is none of the resting ones. *)
Inductive spec_runs : api_state → list api_op → list http_response → api_state → Prop :=
  | runs_nil s : spec_runs s [] [] s
  | runs_request oid now req s r s1 ops rs s2 :
      oid ∉ resting (aBook s) → spec_http oid req s = (r, s1) → spec_runs s1 ops rs s2 →
      spec_runs s (Request now req :: ops) (r :: rs) s2
  | runs_tick s ops rs s' : spec_runs (spec_tick s) ops rs s' → spec_runs s (Tick :: ops) rs s'.

(** The quantity that a request brings. *)
Definition request_qty (req : http_request) : Z :=
  match dispatch api_mux (hMethod req) (hTarget req), decode_place (hBody req) with
  | Serve PlaceOrderH, Some o => pQuantity o
  | _, _ => 0
  end.
Definition ops_qty (ops : list api_op) : Z :=
  foldr (λ op n, (match op with Request _ req => request_qty req | Tick => 0 end) + n) 0 ops.
Definition book_vol (b : book) : Z := side_vol (bBids b) + side_vol (bAsks b).

(** ** Refinement *)

(** An idle server and the specification's state. *)
Record api_rel (sv : Server) (s : api_state) : Prop := {
  ar_ok : server_ok sv (aBook s);
  ar_idle : inputChan sv = [];
  ar_depth : depthCache sv = aDepth s;
  ar_changed : bookChanged sv = aChanged s;
}.

Lemma request_qty_nonneg req : 0 <= request_qty req.
Proof.
  unfold request_qty. destruct (dispatch _ _ _) as [[]| | |]; try lia. destruct (decode_place _) as [o|] eqn:E; [|lia].
  apply decode_place_ok in E as (_ & _ & _ & _ & Hq). apply Hq.
Qed.
Lemma ops_qty_nonneg ops : 0 <= ops_qty ops.
Proof.
  induction ops as [|[now req|] ops IH]; [done| |change (0 <= 0 + ops_qty ops); lia].
  pose proof (request_qty_nonneg req). change (0 <= request_qty req + ops_qty ops). lia.
Qed.

Lemma cancel_vol id b : wf b → book_vol (snd (spec_cancel id b)) <= book_vol b.
Proof.
  intros Hwf. unfold spec_cancel, book_vol. destruct (bIndex b !! id) as [oid|]; cbn [snd bBids bAsks]; [|lia].
  pose proof (remove_side_vol oid _ (wf_levels _ Hwf Bids)). pose proof (remove_side_vol oid _ (wf_levels _ Hwf Asks)).
  unfold levels in *. lia.
Qed.

(** What one operation of the server does. *)
Definition refined (m : SM http_response) (sv : Server) (spec : http_response * api_state) (vol : Z) : Prop :=
  ∃ sv', m sv = Ok (spec.1, sv') ∧ api_rel sv' spec.2 ∧ book_vol (aBook spec.2) <= vol.

Lemma refined_same r sv s vol : api_rel sv s → book_vol (aBook s) <= vol → refined (mret r) sv (r, s) vol.
Proof. intros Hr Hv. exists sv. done. Qed.

Lemma place_refined now body sv s :
  api_rel sv s → (∀ o, decode_place body = Some o → book_vol (aBook s) + pQuantity o < 2 ^ 64) →
  refined (place_route now body) sv (place_spec (sBrk (ob sv)) body s)
    (book_vol (aBook s) + match decode_place body with Some o => pQuantity o | None => 0 end).
Proof.
  intros Hr Hroom. pose proof Hr as [Hok Hin Hd Hc]. unfold place_spec, place_route.
  destruct (decode_place body) as [o|] eqn:Eo; [|apply (refined_same _ _ _ _ Hr); lia].
  pose proof (decode_place_ok _ _ Eo) as (_ & _ & _ & _ & Hq). specialize (Hroom o eq_refl). destruct (decide _) as [Hbad|Hgood].
  { unfold handlePlaceOrder. replace (bool_decide (pID o = "") || (pQuantity o =? 0)) with true.
    - apply (refined_same _ _ _ _ Hr). unfold is_u64 in Hq. lia.
    - destruct Hbad as [-> | ->]; [done|]. by rewrite orb_true_r. }
  pose proof (process_vol (sBrk (ob sv)) (pID o) (pSide o) (pType o) (pPrice o) (pQuantity o) (aBook s) (so_wf _ _ Hok) Hq) as Hv.
  pose proof (place_end_to_end sv (aBook s) now o Hok Hin Hq) as H.
  destruct (spec_process _ _ _ _ _ _ (aBook s)) as [ts b']. destruct H as (c & sv1 & sv2 & sv3 & E1 & E2 & E3 & Hok3 & Hin3 & Hd3 & Hc3);
    [tauto|tauto|unfold book_vol in Hroom; lia|].
  exists sv3. rewrite (bind_Ok _ _ _ _ _ E1), (bind_Ok _ _ _ _ _ E2), (bind_Ok _ _ _ _ _ E3). split; [done|].
  split; [|exact Hv]. split; cbn; [done|done|congruence|done].
Qed.

Lemma cancel_refined path sv s :
  api_rel sv s → book_vol (aBook s) < 2 ^ 64 →
  refined (cancel_route path) sv (cancel_spec path s) (book_vol (aBook s)).
Proof.
  intros Hr Hroom. pose proof Hr as [Hok Hin Hd Hc]. unfold cancel_spec, cancel_route.
  destruct (Split path !! 4%nat) as [id|] eqn:Eid.
  - pose proof (cancel_vol id _ (so_wf _ _ Hok)) as Hv.
    destruct (cancel_end_to_end sv (aBook s) path id Hok Hin Eid Hroom) as (c & sv1 & sv2 & sv3 & E1 & E2 & E3 & Hok3 & Hin3 & Hd3 & Hc3).
    assert (Eok : fst (spec_cancel id (aBook s)) = bool_decide (is_Some (bIndex (aBook s) !! id))).
    { unfold spec_cancel. destruct (bIndex (aBook s) !! id); [by rewrite bool_decide_true|rewrite bool_decide_false; [done|by intros [? ?]]]. }
    destruct (spec_cancel id (aBook s)) as [ok b']. cbn [fst snd] in *. rewrite <- Eok in *.
    exists sv3. rewrite (bind_Ok _ _ _ _ _ E1), (bind_Ok _ _ _ _ _ E2), (bind_Ok _ _ _ _ _ E3). split; [by destruct ok|].
    split; [|exact Hv]. split; cbn; [done|done|congruence|congruence].
  - apply lookup_ge_None in Eid. unfold handleCancelOrder. rewrite (proj2 (Nat.ltb_lt _ _)) by lia. by apply refined_same.
Qed.

Lemma http_refined now req sv s :
  api_rel sv s → book_vol (aBook s) + request_qty req < 2 ^ 64 →
  refined (serve_http now req) sv (spec_http (sBrk (ob sv)) req s) (book_vol (aBook s) + request_qty req).
Proof.
  intros Hr Hroom. pose proof (request_qty_nonneg req) as Hq. unfold serve_http, spec_http, request_qty in *.
  assert (Hbind : ∀ m spec vol, refined m sv spec vol →
    refined (r ← m; mret (written (hMethod req) r)) sv (let '(r, s') := spec in (written (hMethod req) r, s')) vol).
  { intros m [r s'] vol (sv' & E & Hrel & Hv). exists sv'. rewrite (bind_Ok _ _ _ _ _ E). done. }
  apply Hbind. destruct (dispatch api_mux (hMethod req) (hTarget req)) as [[]|path| |]; try (apply refined_same; [done|lia]).
  - apply place_refined; [done|]. intros o Eo. by rewrite Eo in Hroom.
  - rewrite Z.add_0_r in *. by apply cancel_refined.
  - exists sv. unfold book_route, handleGetOrderBook. rewrite (bind_Ok _ _ _ (aDepth s) sv); [|unfold gets; by rewrite (ar_depth _ _ Hr)].
    split; [done|]. split; [done|cbn; lia].
Qed.

Lemma tick_refined sv s : api_rel sv s → ∃ sv', tick_next sv = Ok (tt, sv') ∧ api_rel sv' (spec_tick s).
Proof.
  intros [Hok Hin Hd Hc]. destruct (tick_next_ok sv (aBook s) Hok) as (sv' & E & Hok' & Hch & Hca & Hin' & _).
  exists sv'. split; [done|]. unfold spec_tick. destruct (aChanged s) eqn:Ea.
  - split; cbn; [done|congruence|done|done].
  - split; [done|congruence| |congruence]. rewrite Hca, <- Hd. symmetry. by apply (so_cache _ _ Hok).
Qed.

Lemma run_refined ops sv s :
  api_rel sv s → book_vol (aBook s) + ops_qty ops < 2 ^ 64 →
  ∃ rs sv' s', serve_ops ops sv = Ok (rs, sv') ∧ spec_runs s ops rs s' ∧ api_rel sv' s'.
Proof.
  revert sv s. induction ops as [|[now req|] ops IH]; intros sv s Hr Hroom.
  - exists [], sv, s. split_and!; [done|constructor|done].
  - change (book_vol (aBook s) + (request_qty req + ops_qty ops) < 2 ^ 64) in Hroom. pose proof (ops_qty_nonneg ops).
    destruct (http_refined now req sv s Hr ltac:(lia)) as (sv1 & E1 & Hr1 & Hv1).
    destruct (spec_http (sBrk (ob sv)) req s) as [r s1] eqn:Es. cbn [fst snd] in *.
    destruct (IH sv1 s1 Hr1 ltac:(lia)) as (rs & sv2 & s2 & E2 & Hruns & Hr2).
    exists (r :: rs), sv2, s2. cbn [serve_ops]. rewrite (bind_Ok _ _ _ _ _ E1), (bind_Ok _ _ _ _ _ E2).
    split_and!; [done| |done]. eapply runs_request; [|exact Es|exact Hruns]. apply brk_fresh, (so_rep _ _ (ar_ok _ _ Hr)).
  - change (book_vol (aBook s) + (0 + ops_qty ops) < 2 ^ 64) in Hroom. destruct (tick_refined sv s Hr) as (sv1 & E1 & Hr1).
    assert (Hb : aBook (spec_tick s) = aBook s) by (unfold spec_tick; by destruct (aChanged s)).
    destruct (IH sv1 (spec_tick s) Hr1) as (rs & sv2 & s2 & E2 & Hruns & Hr2); [rewrite Hb; lia|].
    exists rs, sv2, s2. cbn [serve_ops]. rewrite (bind_Ok _ _ _ _ _ E1). split_and!; [done|by constructor|done].
Qed.

(** ** The texts of the answers *)

(** Ids that JSON can carry and prices of 64 bits. *)
Definition level_text (v : level) : Prop := is_u64 (vPrice v) ∧ Forall (λ e, text_ok (eId e)) (vQueue v).
Definition book_text (b : book) : Prop := ∀ r, Forall level_text (levels r b).

Lemma fill_queue_text price rem q fs rem' q' :
  fill_queue price rem q = (fs, rem', q') → 0 <= rem → Forall (λ e, 0 < eRem e) q → Forall (λ e, text_ok (eId e)) q →
  Forall (λ f, fPrice f = price ∧ text_ok (eId (fEntry f)) ∧ 0 <= fQty f <= rem) fs ∧ Forall (λ e, text_ok (eId e)) q'.
Proof.
  revert rem fs rem' q'. induction q as [|e q IH]; intros rem fs rem' q' E Hr Hpos Ht; cbn in E.
  { by simplify_eq. }
  apply Forall_cons in Hpos as [He Hpos]. apply Forall_cons in Ht as [Hte Ht].
  destruct (Z.leb_spec rem 0); [simplify_eq; split; [constructor|by constructor]|]. destruct (Z.leb_spec (eRem e) rem).
  - destruct (fill_queue price (rem - eRem e) q) as [[fs1 r1] q1] eqn:E1. simplify_eq.
    destruct (IH _ _ _ _ E1 ltac:(lia) Hpos Ht) as [H1 H2]. split; [|done]. constructor; [cbn; split_and!; [done..|lia|lia]|].
    eapply Forall_impl; [exact H1|]. cbn. intros f (? & ? & ?). split_and!; [done..|lia|lia].
  - simplify_eq. split; [apply Forall_singleton; cbn; split_and!; [done..|lia|lia]|by constructor].
Qed.

Lemma fill_levels_text cross rem ls fs rem' ls' :
  fill_levels cross rem ls = (fs, rem', ls') → 0 <= rem → Forall level_ok ls → Forall level_text ls →
  Forall (λ f, is_u64 (fPrice f) ∧ text_ok (eId (fEntry f)) ∧ 0 <= fQty f <= rem) fs ∧ Forall level_text ls'.
Proof.
  revert rem fs rem' ls'. induction ls as [|v ls IH]; intros rem fs rem' ls' E Hr Hok Ht; cbn in E.
  { by simplify_eq. }
  pose proof Hok as [[Hne Hpos] Hoks]%Forall_cons. pose proof Ht as [[Hp Hq] Hts]%Forall_cons.
  destruct (rem <=? 0); [by simplify_eq|]. destruct (cross (vPrice v)); cbn [negb] in E; [|by simplify_eq].
  destruct (fill_queue (vPrice v) rem (vQueue v)) as [[fs1 r1] q1] eqn:E1.
  destruct (fill_queue_text _ _ _ _ _ _ E1 Hr Hpos Hq) as [H1 H2].
  destruct (fill_queue_rem _ _ _ _ _ _ E1 Hpos Hr) as [Hr1 _].
  assert (H1' : Forall (λ f, is_u64 (fPrice f) ∧ text_ok (eId (fEntry f)) ∧ 0 <= fQty f <= rem) fs1).
  { eapply Forall_impl; [exact H1|]. cbn. by intros f (-> & ? & ?). }
  destruct q1 as [|e q1].
  - destruct (fill_levels cross r1 ls) as [[gs r2] ls2] eqn:E2. simplify_eq.
    destruct (IH _ _ _ _ E2 ltac:(lia) Hoks Hts) as [H3 H4]. split; [|done]. apply Forall_app. split; [done|].
    eapply Forall_impl; [exact H3|]. cbn. intros f (? & ? & ?). split_and!; [done..|lia|lia].
  - simplify_eq. split; [done|]. constructor; [|done]. by split.
Qed.

Lemma level_text_single price e : is_u64 price → text_ok (eId e) → level_text (mkLevel price [e]).
Proof. intros Hp He. split; [done|]. by apply Forall_singleton. Qed.

Lemma insert_text r price e ls : is_u64 price → text_ok (eId e) → Forall level_text ls → Forall level_text (insert_entry r price e ls).
Proof.
  intros Hp He. induction 1 as [|v ls [Hv Hq] Hls IH]; cbn; [by apply Forall_singleton, level_text_single|].
  destruct (vPrice v =? price).
  { constructor; [|done]. split; cbn; [done|]. apply Forall_app. split; [done|]. by apply Forall_singleton. }
  destruct (better r price (vPrice v)); constructor; [by apply level_text_single|by constructor|by split|done].
Qed.

(** Placing a decoded order keeps the book so and gives such trades. *)
Lemma process_text oid o b ts b' :
  order_ok o → wf b → book_text b → spec_process oid (pID o) (pSide o) (pType o) (pPrice o) (pQuantity o) b = (ts, b') →
  Forall trade_ok ts ∧ book_text b'.
Proof.
  intros (Hid & _ & _ & Hp & Hq) Hwf Hb. unfold spec_process. unfold is_u64 in Hq.
  destruct (Z.eqb_spec (pQuantity o) 0); [by intros [= <- <-]|]. set (r := side_of (pSide o)). clearbody r.
  destruct (fill_levels _ (pQuantity o) _) as [[fs rem] ls] eqn:E.
  destruct (fill_levels_text _ _ _ _ _ _ E ltac:(lia) (wf_levels _ Hwf _) (Hb _)) as [Hfs Hls].
  intros [= <- <-]. split.
  - apply Forall_fmap. eapply Forall_impl; [exact Hfs|]. cbn. intros f (Hfp & Hft & Hfq).
    refine (conj Hft (conj Hid (conj Hfp _))). cbn. unfold is_u64. lia.
  - assert (Hb1 : book_text (set_bIndex (drop_filled fs (bIndex b)) (set_levels (opp r) ls b))).
    { intros r'. destruct (slice_ref_cases r r') as [->| ->]; destruct r; cbn; try done; apply (Hb Bids) || apply (Hb Asks). }
    destruct (_ && _); [|done]. intros r'. specialize (Hb1 r').
    destruct (slice_ref_cases r r') as [->| ->]; destruct r; cbn in *; try done; by apply insert_text.
Qed.

Lemma remove_text oid ls : Forall level_text ls → Forall level_text (remove_entry oid ls).
Proof.
  induction 1 as [|v ls [Hv Hq] _ IH]; [constructor|]. rewrite remove_entry_cons. apply Forall_app. split; [|done].
  unfold remove_from_level.
  assert (Hf : Forall (λ e, text_ok (eId e)) (filter (λ e, eOid e ≠ oid) (vQueue v))).
  { rewrite Forall_forall in *. intros e [_ He]%list_elem_of_filter. auto. }
  destruct (filter _ _); [constructor|]. apply Forall_singleton. by split.
Qed.
Lemma cancel_text id b : book_text b → book_text (snd (spec_cancel id b)).
Proof. intros Hb r. unfold spec_cancel. destruct (bIndex b !! id) as [oid|]; [|apply Hb]. destruct r; cbn; apply remove_text; [apply (Hb Bids)|apply (Hb Asks)]. Qed.

(** The states of the specification, with quantities that stay below 2^64. *)
Record api_ok (s : api_state) : Prop := {
  ao_wf : wf (aBook s);
  ao_text : book_text (aBook s);
  ao_bids : Forall depth_level_ok (aDepth s).1;
  ao_asks : Forall depth_level_ok (aDepth s).2;
}.

Lemma depth_text b r : wf b → book_text b → book_vol b < 2 ^ 64 → Forall depth_level_ok (spec_depth 50 (levels r b)).
Proof.
  intros Hwf Ht Hv. unfold spec_depth. apply Forall_fmap, Forall_take, Forall_forall. intros v Hin.
  pose proof (Ht r) as Hr. rewrite Forall_forall in Hr. destruct (Hr _ Hin) as [Hp _]. split; [done|]. cbn.
  pose proof (level_vol b r v Hwf Hin). pose proof (side_vol_nonneg b Bids Hwf). pose proof (side_vol_nonneg b Asks Hwf).
  pose proof (wf_levels _ Hwf r) as Hl. rewrite Forall_forall in Hl. destruct (Hl _ Hin) as [_ Hpos].
  assert (0 <= vol (vQueue v)) by (apply vol_nonneg; eapply Forall_impl; [exact Hpos|cbn; lia]).
  unfold is_u64, book_vol in *. unfold levels in *. destruct r; lia.
Qed.

(** What a client can read: an answer with status 200 is empty (for HEAD) or
    the text of a response or of a depth, and reads back as that. *)
Definition readable (r : http_response) : Prop :=
  match r with
  | Replied status body => status = 200 → body = [] ∨ ∃ v, body = Encode v ∧ read_value body = Some v ∧
      ((∃ resp, response_ok resp ∧ v = j_response resp) ∨
       ∃ d, Forall depth_level_ok d.1 ∧ Forall depth_level_ok d.2 ∧ v = j_depth d)
  | _ => True
  end.

Lemma response_readable status resp : response_ok resp → readable (Replied status (Encode (j_response resp))).
Proof.
  intros Hr _. right. destruct (j_response_ok _ Hr) as [H1 H2]. exists (j_response resp).
  split_and!; [done|apply read_Encode; [done|unfold max_depth; lia]|eauto].
Qed.
Lemma depth_readable status d :
  Forall depth_level_ok d.1 → Forall depth_level_ok d.2 → readable (Replied status (Encode (j_depth d))).
Proof.
  intros Hb Ha _. right. destruct (j_depth_ok d Hb Ha) as [H1 H2]. exists (j_depth d).
  split_and!; [done|apply read_Encode; [done|unfold max_depth; lia]|eauto].
Qed.
Lemma error_readable text code : code ≠ 200 → readable (http_error text code).
Proof. by intros Hc E. Qed.
Lemma written_readable method r : readable r → readable (written method r).
Proof. destruct r as [status body| |]; [|done|done]. cbn. destruct (decide _); [|done]. by left. Qed.

Lemma place_readable oid body s :
  api_ok s → readable (place_spec oid body s).1 ∧ ((oid ∉ resting (aBook s)) → api_ok (place_spec oid body s).2).
Proof.
  intros Hs. unfold place_spec. destruct (decode_place body) as [o|] eqn:Eo; [|split; [by apply error_readable|done]].
  apply decode_place_ok in Eo as Ho. destruct (decide _); [split; [by apply error_readable|done]|].
  destruct (spec_process _ _ _ _ _ _ (aBook s)) as [ts b] eqn:E. cbn [fst snd].
  destruct (process_text _ _ _ _ _ Ho (ao_wf _ Hs) (ao_text _ Hs) E) as [Hts Hb]. split.
  - apply response_readable. split; [done|constructor].
  - intros Hoid. destruct Hs as [Hwf _ Hbd Ha]. split; cbn; [|done..].
    replace b with (snd (spec_process oid (pID o) (pSide o) (pType o) (pPrice o) (pQuantity o) (aBook s))) by by rewrite E.
    apply spec_process_wf; [done|done|]. destruct Ho as (_ & _ & _ & _ & Hq). apply Hq.
Qed.

Lemma cancel_readable path s : api_ok s → readable (cancel_spec path s).1 ∧ api_ok (cancel_spec path s).2.
Proof.
  intros [Hwf Ht Hb Ha]. unfold cancel_spec. destruct (Split path !! 4%nat) as [id|]; [|split; [by apply error_readable|done]].
  pose proof (spec_cancel_wf id _ Hwf) as Hwf'. pose proof (cancel_text id _ Ht) as Ht'.
  destruct (spec_cancel id (aBook s)) as [ok b]. split; [|by split].
  apply response_readable. destruct ok; (split; [constructor|by apply ascii_valid]).
Qed.

Lemma http_readable oid req s :
  api_ok s → oid ∉ resting (aBook s) → readable (spec_http oid req s).1 ∧ api_ok (spec_http oid req s).2.
Proof.
  intros Hs Hoid. unfold spec_http.
  assert (Hw : ∀ p : http_response * api_state, readable p.1 ∧ api_ok p.2 →
    readable (let '(r, s') := p in (written (hMethod req) r, s')).1 ∧ api_ok (let '(r, s') := p in (written (hMethod req) r, s')).2).
  { intros [r s'] [H1 H2]. split; [by apply written_readable|done]. }
  apply Hw. destruct (dispatch api_mux (hMethod req) (hTarget req)) as [[]|path| |]; cbn [fst snd];
    try (split; [first [done|by apply error_readable]|done]).
  - destruct (place_readable oid (hBody req) s Hs). auto.
  - by apply cancel_readable.
  - split; [apply depth_readable; apply Hs|done].
Qed.

(** The book's quantity after a request, for any order id. *)
Lemma http_vol oid req s : api_ok s → book_vol (aBook (spec_http oid req s).2) <= book_vol (aBook s) + request_qty req.
Proof.
  intros Hs. pose proof (request_qty_nonneg req) as Hq. unfold spec_http, request_qty in *.
  assert (Hw : ∀ (p : http_response * api_state) n, book_vol (aBook p.2) <= n →
    book_vol (aBook (let '(r, s') := p in (written (hMethod req) r, s')).2) <= n) by (by intros [r s'] n).
  apply Hw. destruct (dispatch api_mux (hMethod req) (hTarget req)) as [[]|path| |]; cbn [snd]; try lia.
  - unfold place_spec. destruct (decode_place (hBody req)) as [o|] eqn:Eo; [|cbn [snd]; lia].
    apply decode_place_ok in Eo as (_ & _ & _ & _ & Hu). destruct (decide _); [cbn [snd]; lia|].
    pose proof (process_vol oid (pID o) (pSide o) (pType o) (pPrice o) (pQuantity o) (aBook s) (ao_wf _ Hs) Hu) as Hv.
    destruct (spec_process _ _ _ _ _ _ (aBook s)). exact Hv.
  - unfold cancel_spec. destruct (Split _ !! 4%nat) as [id|]; [|cbn [snd]; lia].
    pose proof (cancel_vol id _ (ao_wf _ Hs)). destruct (spec_cancel id (aBook s)). cbn [snd aBook] in *. lia.
Qed.

Lemma tick_text s : api_ok s → book_vol (aBook s) < 2 ^ 64 → api_ok (spec_tick s).
Proof.
  intros Hs Hv. unfold spec_tick. destruct (aChanged s); [|done]. destruct Hs as [Hwf Ht _ _]. split; cbn; [done|done|..].
  - by apply (depth_text _ Bids).
  - by apply (depth_text _ Asks).
Qed.

Lemma runs_readable s ops rs s' :
  spec_runs s ops rs s' → api_ok s → book_vol (aBook s) + ops_qty ops < 2 ^ 64 → Forall readable rs ∧ api_ok s'.
Proof.
  induction 1 as [s|oid now req s r s1 ops rs s2 Hoid E _ IH|s ops rs s' _ IH]; intros Hs Hv.
  - split; [constructor|done].
  - change (book_vol (aBook s) + (request_qty req + ops_qty ops) < 2 ^ 64) in Hv.
    pose proof (http_readable oid req s Hs Hoid) as [H1 H2]. pose proof (http_vol oid req s Hs) as H3. rewrite E in *. cbn [fst snd] in *.
    destruct IH as [H4 H5]; [done|lia|]. split; [by constructor|done].
  - change (book_vol (aBook s) + (0 + ops_qty ops) < 2 ^ 64) in Hv. pose proof (ops_qty_nonneg ops).
    assert (Hb : aBook (spec_tick s) = aBook s) by (unfold spec_tick; by destruct (aChanged s)).
    apply IH; [apply tick_text; [done|lia]|rewrite Hb; lia].
Qed.

Lemma api_init_rel : api_rel NewServer api_init.
Proof. split; [apply NewServer_ok|done..]. Qed.
Lemma api_init_ok : api_ok api_init.
Proof. split; [apply empty_book_wf|intros []; constructor|constructor..]. Qed.

(** ** What clients can rely on *)

(** C3: The HTTP API of the matching engine, from the bytes of requests to
    the bytes of responses, refines its specification: from a server that is
    idle, any sequence of requests and ticks whose quantities fit 64 bits runs
    without a panic and without blocking, and the responses are those of the
    specification: the same statuses, redirects and bodies, with the trades of
    price-time priority and the depth of the last tick. *)
Theorem api_refines ops sv s :
  api_rel sv s → book_vol (aBook s) + ops_qty ops < 2 ^ 64 →
  ∃ rs sv' s', serve_ops ops sv = Ok (rs, sv') ∧ spec_runs s ops rs s' ∧ api_rel sv' s'.
Proof. apply run_refined. Qed.

(** C9: Every answer can be read.  Whatever the requests to a new engine are,
    the body of each answer with status 200 is a JSON text that reads back as
    the response or the depth it stands for, with ids in UTF-8 and numbers of
    64 bits (or is empty, for a HEAD request). *)
Theorem api_answers_readable ops :
  ops_qty ops < 2 ^ 64 → ∃ rs sv', serve_ops ops NewServer = Ok (rs, sv') ∧ Forall readable rs.
Proof.
  intros Hq. destruct (run_refined ops NewServer api_init api_init_rel Hq) as (rs & sv' & s' & E & Hr & _).
  exists rs, sv'. split; [done|]. by apply (runs_readable _ _ _ _ Hr); [apply api_init_ok|].
Qed.

(** ** A session

    A resting ask, a buy that trades with it, a tick, a look at the book, a
    cancel of what is left and a path that does not exist. *)
Definition post_order (o : placeOrderReq) : api_op :=
  Request 0 (mkHttpRequest "POST" (str "/api/v1/orders") (print (j_order o))).
Definition ex_ops : list api_op :=
  [post_order (mkPlaceOrderReq "a<1>" 1 0 100 10); post_order (mkPlaceOrderReq "b" 0 0 101 4); Tick;
   Request 0 (mkHttpRequest "GET" (str "/api/v1/orderbook") []);
   Request 0 (mkHttpRequest "DELETE" (id_path "/api/v1/orders/" (str "a<1>")) []);
   Request 0 (mkHttpRequest "GET" (str "/api/v2/orders") [])].
Definition ex_answers : list http_response :=
  [Replied 200 (Encode (j_response (mkResponse true [] "")));
   Replied 200 (Encode (j_response (mkResponse true [mkTrade "a<1>" "b" 100 4] "")));
   Replied 200 (Encode (j_depth ([], [mkPriceLevel 100 6])));
   Replied 200 (Encode (j_response (mkResponse true [] "")));
   Replied 404 (str "404 page not found" ++ [byte 10])].

Lemma ex_ops_qty : ops_qty ex_ops = 14.
Proof. vm_compute. reflexivity. Qed.
Lemma ex_session : fst <$> match serve_ops ex_ops NewServer with Ok p => Some p | _ => None end = Some ex_answers.
Proof. vm_compute. reflexivity. Qed.

Lemma api_refines_witness :
  ∃ sv' s', serve_ops ex_ops NewServer = Ok (ex_answers, sv') ∧ spec_runs api_init ex_ops ex_answers s' ∧ api_rel sv' s'.
Proof.
  destruct (api_refines ex_ops NewServer api_init api_init_rel) as (rs & sv' & s' & E & Hr & Hrel).
  { rewrite ex_ops_qty. by vm_compute. }
  pose proof ex_session as H. rewrite E in H. cbn in H. injection H as ->. exists sv', s'. split; [exact E|split; [exact Hr|exact Hrel]].
Defined.

Lemma api_answers_readable_witness : ∃ sv', serve_ops ex_ops NewServer = Ok (ex_answers, sv') ∧ Forall readable ex_answers.
Proof.
  destruct (api_answers_readable ex_ops) as (rs & sv' & E & Hr).
  { rewrite ex_ops_qty. by vm_compute. }
  pose proof ex_session as H. rewrite E in H. cbn in H. injection H as ->. exists sv'. split; [exact E|exact Hr].
Defined.
