(* ===== verification/FloatRound.v ===== *)
(** * Rounding is monotone

    What [binary_round_aux], the rounding step of the floating-point
    operations, computes: the rational number it is given, as a mantissa with
    a location of the rest, is rounded to the nearest multiple of the power
    of two its size asks for.  From this: results are canonical, and rounding
    preserves the order. *)

From stdpp Require Import prelude.
From Stdlib Require Import ZArith QArith Qpower Lqa Lia SpecFloat.
From S2P Require Import Prelude Float64.

Local Open Scope Z_scope.

Abbreviation emin64 := (-1074).
Lemma emin64_eq : emin prec emax = emin64.
Proof. done. Qed.
Lemma fexp64_eq e : fexp prec emax e = Z.max (e - 53) emin64.
Proof. done. Qed.

(** ** Powers of two *)

Definition p2 (e : Z) : Q := Qpower 2 e.

Lemma p2_pos e : (0 < p2 e)%Q.
Proof. apply Qpower_0_lt. lra. Qed.
Lemma p2_plus a b : (p2 (a + b) == p2 a * p2 b)%Q.
Proof. apply Qpower_plus. lra. Qed.
Lemma p2_succ e : (p2 (e + 1) == 2 * p2 e)%Q.
Proof. rewrite p2_plus. change (p2 1) with (2 # 1)%Q. lra. Qed.
Lemma p2_le a b : a <= b → (p2 a <= p2 b)%Q.
Proof. intros H. apply Qpower_le_compat_l; [done|lra]. Qed.
Lemma p2_Z k : 0 <= k → (p2 k == inject_Z (2 ^ k))%Q.
Proof. intros H. unfold p2. change 2%Q with (inject_Z 2). by rewrite Zpower_Qpower by done. Qed.
Lemma p2_shift a b : a <= b → (p2 b == inject_Z (2 ^ (b - a)) * p2 a)%Q.
Proof. intros H. rewrite <-p2_Z by lia. rewrite <-p2_plus. by replace (b - a + a) with b by lia. Qed.

(** An integer multiple of a unit. *)
Lemma mult_le m n u : (0 < u)%Q → m <= n → (inject_Z m * u <= inject_Z n * u)%Q.
Proof. intros Hu H. apply Qmult_le_compat_r; [by rewrite <-Zle_Qle|lra]. Qed.
Lemma mult_lt_inv m n u : (0 < u)%Q → (inject_Z m * u < inject_Z n * u)%Q → m < n.
Proof.
  intros Hu H. destruct (Z_lt_le_dec m n) as [|Hle]; [done|].
  pose proof (mult_le n m u Hu Hle). lra.
Qed.
Lemma mult_succ m u : (inject_Z (m + 1) * u == inject_Z m * u + u)%Q.
Proof. rewrite inject_Z_plus. change (inject_Z 1) with 1%Q. ring. Qed.

(** ** Digits *)

Lemma digits2_bounds m : 2 ^ (Z.pos (digits2_pos m) - 1) <= Z.pos m < 2 ^ Z.pos (digits2_pos m).
Proof.
  induction m as [m IH|m IH|]; [..|done]; cbn [digits2_pos]; rewrite Pos2Z.inj_succ;
    rewrite (Z.pow_succ_r 2 (Z.pos _)) by lia;
    replace (Z.succ (Z.pos (digits2_pos m)) - 1) with (Z.succ (Z.pos (digits2_pos m) - 1)) by lia;
    rewrite Z.pow_succ_r by lia; lia.
Qed.
Lemma digits2_le m k : 0 <= k → Z.pos m < 2 ^ k → Z.pos (digits2_pos m) <= k.
Proof.
  intros Hk Hm. pose proof (digits2_bounds m) as [Hd _].
  destruct (Z_le_gt_dec (Z.pos (digits2_pos m)) k); [done|].
  pose proof (Z.pow_le_mono_r 2 k (Z.pos (digits2_pos m) - 1) ltac:(lia) ltac:(lia)). lia.
Qed.
Lemma digits2_ge m k : 0 <= k → 2 ^ k <= Z.pos m → k < Z.pos (digits2_pos m).
Proof.
  intros Hk Hm. pose proof (digits2_bounds m) as [_ Hd].
  destruct (Z_le_gt_dec (Z.pos (digits2_pos m)) k); [|lia].
  pose proof (Z.pow_le_mono_r 2 (Z.pos (digits2_pos m)) k ltac:(lia) ltac:(lia)). lia.
Qed.

(** ** A mantissa and the location of the rest *)

Definition half (u : Q) : Q := ((1 # 2) * u)%Q.

(** [x] is the mantissa times the unit, and a rest that is none, less than
    half, half, or more than half of a unit. *)
Definition located (x u : Q) (r : shr_record) : Prop :=
  let a := (inject_Z (shr_m r) * u)%Q in
  match shr_r r, shr_s r with
  | false, false => (x == a)%Q
  | false, true => (a < x)%Q ∧ (x < a + half u)%Q
  | true, false => (x == a + half u)%Q
  | true, true => (a + half u < x)%Q ∧ (x < a + u)%Q
  end.

Lemma located_bounds x u r :
  (0 < u)%Q → located x u r → (inject_Z (shr_m r) * u <= x)%Q ∧ (x < inject_Z (shr_m r) * u + u)%Q.
Proof. intros Hu. unfold located, half. destruct (shr_r r), (shr_s r); cbv zeta; lra. Qed.

(** Shifting right by one doubles the unit. *)
Lemma shr_1_located x u r :
  (0 < u)%Q → 0 <= shr_m r → located x u r → located x (2 * u) (shr_1 r) ∧ 0 <= shr_m (shr_1 r).
Proof.
  intros Hu Hm. destruct r as [[|p|p] rb sb]; [| |cbn in Hm; lia].
  - unfold located, half; cbn [shr_1 shr_m shr_r shr_s]. change (inject_Z 0) with 0%Q.
    destruct rb, sb; cbn [orb]; intros; split; lra || lia.
  - assert (Hm2 : ∀ q, (inject_Z (Z.pos (q~0)) * u == inject_Z (Z.pos q) * (2 * u))%Q).
    { intros q. rewrite (Pos2Z.inj_xO q), inject_Z_mult. change (inject_Z 2) with 2%Q. ring. }
    assert (Hm3 : ∀ q, (inject_Z (Z.pos (q~1)) * u == inject_Z (Z.pos q) * (2 * u) + u)%Q).
    { intros q. rewrite (Pos2Z.inj_xI q), inject_Z_plus, inject_Z_mult. change (inject_Z 2) with 2%Q.
      change (inject_Z 1) with 1%Q. ring. }
    destruct p as [p|p|]; unfold located, half; cbn [shr_1 shr_m shr_r shr_s];
      [specialize (Hm3 p); clear Hm2|specialize (Hm2 p); clear Hm3|clear Hm2 Hm3;
        change (inject_Z 1) with 1%Q; change (inject_Z 0) with 0%Q];
      destruct rb, sb; cbn [orb]; intros; split; lra || lia.
Qed.

Lemma iter_pos_nat {A} (f : A → A) p x : iter_pos f p x = Nat.iter (Pos.to_nat p) f x.
Proof.
  revert x. induction p as [p IH|p IH|]; intros x; cbn [iter_pos]; [..|done].
  - rewrite !IH, <-Nat.iter_add, <-Nat.iter_succ_r. f_equal. lia.
  - rewrite !IH, Pos2Nat.inj_xO, <-Nat.iter_add. f_equal. lia.
Qed.

Lemma shr_located x e r n :
  0 <= n → 0 <= shr_m r → located x (p2 e) r →
  let '(r', e') := shr r e n in e' = e + n ∧ located x (p2 e') r' ∧ 0 <= shr_m r'.
Proof.
  intros Hn Hm Hl. destruct n as [|p|p]; [| |lia]; cbn [shr].
  { split_and!; [lia|done..]. }
  rewrite iter_pos_nat. split; [done|].
  replace (e + Z.pos p) with (e + Z.of_nat (Pos.to_nat p)) by lia.
  induction (Pos.to_nat p) as [|k [IH1 IH2]]; [by rewrite Z.add_0_r|].
  cbn [Nat.iter]. destruct (shr_1_located _ _ _ (p2_pos (e + Z.of_nat k)) IH2 IH1) as [H1 H2].
  split; [|done]. replace (e + Z.of_nat (S k)) with (e + Z.of_nat k + 1) by lia.
  revert H1. unfold located, half. pose proof (p2_succ (e + Z.of_nat k)) as Hs.
  destruct (shr_r _), (shr_s _); cbv zeta; rewrite Hs; tauto.
Qed.

(** ** The exponent a number is rounded to *)

Definition cexp (x : Q) (c : Z) : Prop :=
  c = emin64 ∧ (x < p2 (emin64 + 53))%Q ∨
  emin64 < c ∧ (p2 (c + 52) <= x)%Q ∧ (x < p2 (c + 53))%Q.

Lemma cexp_mono x1 x2 c1 c2 : cexp x1 c1 → cexp x2 c2 → (x1 <= x2)%Q → c1 <= c2.
Proof.
  intros H1 H2 Hx. destruct (Z_le_gt_dec c1 c2) as [|Hgt]; [done|]. exfalso.
  destruct H1 as [[-> _]|(Hc1 & Hl & _)]; [destruct H2 as [[-> _]|[? _]]; lia|].
  assert (Hx2 : (x2 < p2 (c2 + 53))%Q) by (destruct H2 as [[-> ?]|(_ & _ & ?)]; done).
  pose proof (p2_le (c2 + 53) (c1 + 52) ltac:(lia)). lra.
Qed.

(** The first step of the rounding finds it. *)
Lemma shr_fexp_located x m e l :
  0 <= m → located x (p2 e) (shr_record_of_loc m l) → e <= fexp prec emax (Zdigits2 m + e) →
  let '(r, c) := shr_fexp prec emax m e l in cexp x c ∧ located x (p2 c) r ∧ 0 <= shr_m r.
Proof.
  intros Hm Hl He. assert (Hr : shr_m (shr_record_of_loc m l) = m) by by destruct l as [|[]].
  assert (Hn : 0 <= fexp prec emax (Zdigits2 m + e) - e) by lia.
  assert (Hm' : 0 <= shr_m (shr_record_of_loc m l)) by by rewrite Hr.
  pose proof (shr_located x e _ _ Hn Hm' Hl) as H.
  unfold shr_fexp. destruct (shr _ _ _) as [r c]. destruct H as (-> & Hl' & Hr'). split; [|done].
  replace (e + (fexp prec emax (Zdigits2 m + e) - e)) with (fexp prec emax (Zdigits2 m + e)) by lia.
  pose proof (located_bounds _ _ _ (p2_pos e) Hl) as [Hx1 Hx2]. rewrite Hr in *.
  rewrite fexp64_eq in *. destruct m as [|m|m]; [| |lia]; cbn [Zdigits2] in *.
  - change (inject_Z 0) with 0%Q in *. left. split; [lia|].
    pose proof (p2_le e (emin64 + 53) ltac:(lia)). lra.
  - pose proof (digits2_bounds m) as [Hd1 Hd2]. set (d := Z.pos (digits2_pos m)) in *.
    assert (Hlo : (p2 (d - 1 + e) <= x)%Q).
    { rewrite p2_plus, p2_Z by lia. pose proof (mult_le _ _ _ (p2_pos e) Hd1). lra. }
    assert (Hhi : (x < p2 (d + e))%Q).
    { rewrite p2_plus, p2_Z by lia. pose proof (mult_le _ _ _ (p2_pos e) (Zlt_le_succ _ _ Hd2)) as H.
      unfold Z.succ in H. rewrite mult_succ in H. lra. }
    unfold cexp. destruct (Z_le_gt_dec (d + e - 53) emin64).
    + left. split; [lia|]. pose proof (p2_le (d + e) (emin64 + 53) ltac:(lia)). lra.
    + right. split; [lia|]. replace (Z.max (d + e - 53) emin64) with (d + e - 53) by lia.
      replace (d + e - 53 + 52) with (d - 1 + e) by lia. by replace (d + e - 53 + 53) with (d + e) by lia.
Qed.

(** ** The rounded mantissa *)

Definition rounded (r : shr_record) : Z := round_nearest_even (shr_m r) (loc_of_shr_record r).

Lemma rounded_bounds r : shr_m r <= rounded r <= shr_m r + 1.
Proof. unfold rounded. destruct r as [m [] []]; cbn; try destruct (Z.even m); lia. Qed.

Lemma rounded_mono x1 x2 u r1 r2 :
  (0 < u)%Q → located x1 u r1 → located x2 u r2 → (x1 <= x2)%Q → rounded r1 <= rounded r2.
Proof.
  intros Hu H1 H2 Hx. pose proof (rounded_bounds r1). pose proof (rounded_bounds r2).
  destruct (Z.lt_trichotomy (shr_m r1) (shr_m r2)) as [Hlt|[Heq|Hgt]]; [lia| |].
  - destruct r1 as [m rb sb], r2 as [m' rb' sb']. cbn in Heq. subst m'.
    unfold located, half in *. cbn [shr_m shr_r shr_s] in *. unfold rounded.
    destruct rb, sb, rb', sb'; cbn; try (destruct (Z.even m)); try lia; exfalso; lra.
  - exfalso. pose proof (located_bounds _ _ _ Hu H1) as [Ha _]. pose proof (located_bounds _ _ _ Hu H2) as [_ Hb].
    pose proof (mult_le (shr_m r2 + 1) (shr_m r1) u Hu ltac:(lia)) as H3. rewrite mult_succ in H3. lra.
Qed.

Lemma rounded_range x c r :
  cexp x c → located x (p2 c) r → 0 <= shr_m r →
  0 <= rounded r <= 2 ^ 53 ∧ (emin64 < c → 2 ^ 52 <= rounded r).
Proof.
  intros Hc Hl Hm. pose proof (rounded_bounds r). pose proof (p2_pos c) as Hu.
  pose proof (located_bounds _ _ _ Hu Hl) as [Ha Hb].
  assert (Hx : (x < inject_Z (2 ^ 53) * p2 c)%Q).
  { rewrite <-(p2_Z 53), <-p2_plus by lia. replace (53 + c) with (c + 53) by lia.
    destruct Hc as [[-> ?]|(_ & _ & ?)]; done. }
  assert (shr_m r < 2 ^ 53) by (apply (mult_lt_inv _ _ (p2 c)); [done|lra]). split; [lia|].
  intros Hgt. destruct Hc as [[-> _]|(_ & Hlo & _)]; [lia|].
  replace (c + 52) with (52 + c) in Hlo by lia. rewrite p2_plus, p2_Z in Hlo by lia.
  assert (2 ^ 52 < shr_m r + 1) by (apply (mult_lt_inv _ _ (p2 c)); [done|rewrite mult_succ; lra]). lia.
Qed.

(** ** The result *)

(** A mantissa of at most 2^53 at an exponent, as a float. *)
Definition pack (s : bool) (R c : Z) : float64 :=
  let '(R, c) := if R =? 2 ^ 53 then (2 ^ 52, c + 1) else (R, c) in
  match R with
  | Z0 => S754_zero s
  | Zpos m => if c <=? 971 then S754_finite s m c else S754_infinity s
  | Zneg _ => S754_nan
  end.

Lemma binary_round_aux_pack s x m e l :
  0 <= m → located x (p2 e) (shr_record_of_loc m l) → e <= fexp prec emax (Zdigits2 m + e) →
  ∃ c r, binary_round_aux prec emax s m e l = pack s (rounded r) c ∧
    cexp x c ∧ located x (p2 c) r ∧ 0 <= shr_m r.
Proof.
  intros Hm Hl He. unfold binary_round_aux. pose proof (shr_fexp_located x m e l Hm Hl He) as H.
  destruct (shr_fexp prec emax m e l) as [r c]. destruct H as (Hc & Hl' & Hr). exists c, r.
  split; [|done]. destruct (rounded_range _ _ _ Hc Hl' Hr) as [HR _].
  fold (rounded r). assert (emin64 <= c) by (destruct Hc as [[-> _]|[? _]]; lia).
  unfold pack. destruct (Z.eqb_spec (rounded r) (2 ^ 53)) as [->|Hne].
  - unfold shr_fexp. change (Zdigits2 (2 ^ 53)) with 54. rewrite fexp64_eq.
    replace (Z.max (54 + c - 53) emin64 - c) with 1 by lia. done.
  - unfold shr_fexp. rewrite fexp64_eq.
    assert (Hd : Zdigits2 (rounded r) <= 53).
    { destruct (rounded r) as [|R|R]; cbn; [lia| |lia]. apply digits2_le; lia. }
    assert (Hs : Z.max (Zdigits2 (rounded r) + c - 53) emin64 - c <= 0) by lia.
    unfold shr. destruct (Z.max _ _ - c) as [|p|p]; [|lia|]; done.
Qed.

Lemma pack_float64 s R c :
  0 <= R <= 2 ^ 53 → emin64 <= c → (emin64 < c → 2 ^ 52 <= R) → is_float64 (pack s R c).
Proof.
  intros HR Hc Hlo. unfold pack. destruct (Z.eqb_spec R (2 ^ 53)) as [->|Hne].
  - change (2 ^ 52) with (Z.pos (2 ^ 52)). destruct (Z.leb_spec (c + 1) 971); [|done].
    cbn [valid_binary]. unfold bounded, canonical_mantissa. rewrite fexp64_eq.
    change (Z.pos (digits2_pos (2 ^ 52))) with 53. apply andb_true_intro.
    rewrite Z.eqb_eq, Z.leb_le. lia.
  - destruct R as [|m|m]; [done| |lia]. destruct (Z.leb_spec c 971); [|done].
    cbn [valid_binary]. unfold bounded, canonical_mantissa. rewrite fexp64_eq.
    pose proof (digits2_le m 53 ltac:(lia) ltac:(lia)). apply andb_true_intro.
    rewrite Z.eqb_eq, Z.leb_le. split; [|lia]. destruct (decide (c = emin64)) as [->|]; [lia|].
    pose proof (digits2_ge m 52 ltac:(lia) ltac:(lia)). lia.
Qed.

(** The order of floats is that of exponent and mantissa. *)
Definition finite_or_inf (m : positive) (c : Z) : float64 :=
  if c <=? 971 then S754_finite false m c else S754_infinity false.

Lemma finite_or_inf_le m1 c1 m2 c2 :
  c1 < c2 ∨ c1 = c2 ∧ Z.pos m1 <= Z.pos m2 → fleb (finite_or_inf m1 c1) (finite_or_inf m2 c2) = true.
Proof.
  intros H. unfold finite_or_inf. destruct (Z.leb_spec c1 971), (Z.leb_spec c2 971); try done; [|lia].
  unfold fleb, SFleb. cbn. destruct (Z.compare_spec c1 c2); [|done|lia].
  change (Pos.compare_cont Eq m1 m2) with (m1 ?= m2)%positive.
  destruct (Pos.compare_spec m1 m2); [done|done|lia].
Qed.

Lemma pack_le R1 c1 R2 c2 :
  0 <= R1 <= 2 ^ 53 → 0 <= R2 <= 2 ^ 53 → c1 <= c2 → (c1 < c2 → 2 ^ 52 <= R2) → (c1 = c2 → R1 <= R2) →
  fleb (pack false R1 c1) (pack false R2 c2) = true.
Proof.
  intros HR1 HR2 Hc Hlo HR. destruct R1 as [|R1|R1]; [| |lia].
  { unfold pack at 1. cbn. unfold pack. destruct (R2 =? 2 ^ 53).
    - change (2 ^ 52) with (Z.pos (2 ^ 52)). by destruct (c2 + 1 <=? 971).
    - destruct R2 as [|R2|R2]; [done|by destruct (c2 <=? 971)|lia]. }
  assert (Hp : ∀ m c, pack false (Z.pos m) c =
    if Z.pos m =? 2 ^ 53 then finite_or_inf (2 ^ 52) (c + 1) else finite_or_inf m c).
  { intros m c. unfold pack. by destruct (Z.pos m =? 2 ^ 53). }
  destruct R2 as [|R2|R2]; [lia| |lia]. rewrite !Hp.
  destruct (Z.eqb_spec (Z.pos R1) (2 ^ 53)), (Z.eqb_spec (Z.pos R2) (2 ^ 53));
    apply finite_or_inf_le; change (Z.pos (2 ^ 52)) with (2 ^ 52); lia.
Qed.

Lemma pack_mono x1 x2 c1 c2 r1 r2 :
  cexp x1 c1 → located x1 (p2 c1) r1 → 0 <= shr_m r1 →
  cexp x2 c2 → located x2 (p2 c2) r2 → 0 <= shr_m r2 → (x1 <= x2)%Q →
  fleb (pack false (rounded r1) c1) (pack false (rounded r2) c2) = true.
Proof.
  intros Hc1 Hl1 Hm1 Hc2 Hl2 Hm2 Hx. pose proof (cexp_mono _ _ _ _ Hc1 Hc2 Hx) as Hc.
  destruct (rounded_range _ _ _ Hc1 Hl1 Hm1) as [HR1 _].
  destruct (rounded_range _ _ _ Hc2 Hl2 Hm2) as [HR2 Hlo2].
  assert (emin64 <= c1) by (destruct Hc1 as [[-> _]|[? _]]; lia).
  apply pack_le; [done..|intros; apply Hlo2; lia|].
  intros ->. by apply (rounded_mono x1 x2 (p2 c2)); [apply p2_pos|..].
Qed.
