(* ===== verification/FloatOrder.v ===== *)
(** * The order of float64 and its operations

    Products and quotients of numbers that are not negative are monotone, and
    the results of the operations are values of the type. *)

From stdpp Require Import prelude.
From Stdlib Require Import ZArith QArith Qpower Lqa Lia SpecFloat.
From S2P Require Import Prelude Float64 FloatRound.

Local Open Scope Z_scope.

(** ** Finite numbers *)

Lemma float64_finite s m e :
  is_float64 (S754_finite s m e) →
  emin64 <= e <= 971 ∧ Z.pos m < 2 ^ 53 ∧ (emin64 < e → 2 ^ 52 <= Z.pos m).
Proof.
  cbn [valid_binary]. unfold bounded, canonical_mantissa.
  intros [H1%Z.eqb_eq H2%Z.leb_le]%andb_prop. rewrite fexp64_eq in H1.
  pose proof (digits2_bounds m) as [Hlo Hhi]. split; [lia|]. split.
  - pose proof (Z.pow_le_mono_r 2 (Z.pos (digits2_pos m)) 53 ltac:(lia) ltac:(lia)). lia.
  - intros He. replace (Z.pos (digits2_pos m) - 1) with 52 in Hlo by lia. done.
Qed.

Lemma inject_pos z : 0 < z → (0 < inject_Z z)%Q.
Proof. intros H. change 0%Q with (inject_Z 0). by rewrite <-Zlt_Qlt. Qed.

(** The absolute value of a finite number. *)
Definition fval (m : positive) (e : Z) : Q := (inject_Z (Z.pos m) * p2 e)%Q.

Lemma fval_pos m e : (0 < fval m e)%Q.
Proof.
  unfold fval. pose proof (p2_pos e). apply Qmult_lt_0_compat; [|done].
  by apply inject_pos.
Qed.

Lemma finite_le_val s1 m1 e1 s2 m2 e2 :
  is_float64 (S754_finite s1 m1 e1) → is_float64 (S754_finite s2 m2 e2) →
  fleb (S754_finite false m1 e1) (S754_finite false m2 e2) = true → (fval m1 e1 <= fval m2 e2)%Q.
Proof.
  intros (He1 & Hm1 & _)%float64_finite (He2 & _ & Hm2)%float64_finite. unfold fleb, SFleb; cbn.
  unfold fval. destruct (Z.compare_spec e1 e2) as [->|Hlt|]; [| |done].
  - change (Pos.compare_cont Eq m1 m2) with (m1 ?= m2)%positive.
    destruct (Pos.compare_spec m1 m2); [subst; intros _; lra| |done]. intros _.
    apply mult_le; [apply p2_pos|lia].
  - intros _. specialize (Hm2 ltac:(lia)).
    apply Qle_trans with (inject_Z (2 ^ 53) * p2 e1)%Q; [apply mult_le; [apply p2_pos|lia]|].
    apply Qle_trans with (inject_Z (2 ^ 52) * p2 e2)%Q; [|apply mult_le; [apply p2_pos|lia]].
    rewrite <-!p2_Z, <-!p2_plus by lia. apply p2_le. lia.
Qed.

(** ** Products *)

Lemma mul_exponent s1 m1 e1 s2 m2 e2 :
  is_float64 (S754_finite s1 m1 e1) → is_float64 (S754_finite s2 m2 e2) →
  e1 + e2 <= fexp prec emax (Zdigits2 (Z.pos (m1 * m2)) + (e1 + e2)).
Proof.
  intros (He1 & _ & Hm1)%float64_finite (He2 & _ & Hm2)%float64_finite. rewrite fexp64_eq. cbn [Zdigits2].
  destruct (Z_le_gt_dec (e1 + e2) emin64); [lia|].
  assert (Hp : 2 ^ 52 <= Z.pos (m1 * m2)).
  { rewrite Pos2Z.inj_mul. assert (2 ^ 52 <= Z.pos m1 ∨ 2 ^ 52 <= Z.pos m2) as [H|H]; [|nia..].
    destruct (decide (e1 = emin64)); [right; apply Hm2; lia|left; apply Hm1; lia]. }
  pose proof (digits2_ge _ 52 ltac:(lia) Hp). lia.
Qed.

Lemma fmul_pack s1 m1 e1 s2 m2 e2 :
  is_float64 (S754_finite s1 m1 e1) → is_float64 (S754_finite s2 m2 e2) →
  ∃ c r, fmul (S754_finite s1 m1 e1) (S754_finite s2 m2 e2) = pack (xorb s1 s2) (rounded r) c ∧
    cexp (fval m1 e1 * fval m2 e2) c ∧ located (fval m1 e1 * fval m2 e2) (p2 c) r ∧ 0 <= shr_m r.
Proof.
  intros H1 H2. apply binary_round_aux_pack; [done| |by eapply mul_exponent].
  unfold located; cbn [shr_record_of_loc shr_m shr_r shr_s]. unfold fval.
  rewrite p2_plus, Pos2Z.inj_mul, inject_Z_mult. ring.
Qed.

(** ** Quotients *)

Lemma new_location_compare m2 r :
  0 < m2 → 0 < r → new_location m2 r = loc_Inexact (Z.compare (2 * r) m2).
Proof.
  intros Hm Hr. unfold new_location, new_location_even, new_location_odd.
  destruct r as [|p|p]; [lia| |lia]. destruct (Z.even m2) eqn:Hev; [done|].
  assert (Hne : 2 * Z.pos p ≠ m2) by (intros <-; rewrite Z.even_mul in Hev; done).
  change (loc_Inexact (match Z.compare (2 * Z.pos p + 1) m2 with Lt => Lt | Eq => Lt | Gt => Gt end) =
    loc_Inexact (Z.compare (2 * Z.pos p) m2)).
  destruct (Z.compare_spec (2 * Z.pos p + 1) m2), (Z.compare_spec (2 * Z.pos p) m2); try done; lia.
Qed.

Lemma new_location_located x m1 m2 u q r :
  0 < m2 → (0 < u)%Q → 0 <= r < m2 → m1 = m2 * q + r → (inject_Z m2 * x == inject_Z m1 * u)%Q →
  located x u (shr_record_of_loc q (new_location m2 r)).
Proof.
  intros Hm2 Hu Hr -> Hx.
  rewrite inject_Z_plus, inject_Z_mult in Hx.
  assert (Hpos : (0 < inject_Z m2)%Q) by by apply inject_pos.
  set (a := (inject_Z q * u)%Q). assert (Hx' : (inject_Z m2 * (x - a) == inject_Z r * u)%Q)
    by (unfold a; lra).
  assert (Hhigh : (inject_Z r < inject_Z m2)%Q) by (rewrite <-Zlt_Qlt; lia).
  assert (Hle : ∀ y, (inject_Z m2 * (x - a) < inject_Z m2 * y)%Q → (x < a + y)%Q).
  { intros y Hy. apply Qmult_lt_l in Hy; [lra|done]. }
  assert (Hge : ∀ y, (inject_Z m2 * y < inject_Z m2 * (x - a))%Q → (a + y < x)%Q).
  { intros y Hy. apply Qmult_lt_l in Hy; [lra|done]. }
  assert (Hlt1 : (x < a + u)%Q).
  { apply Hle. rewrite Hx'. by apply Qmult_lt_compat_r. }
  assert (Htwo : inject_Z (2 * r) = (2 * inject_Z r)%Q) by (by rewrite inject_Z_mult).
  assert (Hhalf : (inject_Z m2 * ((1 # 2) * u) == (1 # 2) * inject_Z m2 * u)%Q) by ring.
  assert (Hbelow : 2 * r < m2 → (x < a + half u)%Q).
  { intros H. apply Hle. rewrite Hx'. unfold half. rewrite Zlt_Qlt, Htwo in H.
    rewrite Hhalf.
    apply Qmult_lt_compat_r; [done|]. lra. }
  assert (Habove : m2 < 2 * r → (a + half u < x)%Q).
  { intros H. apply Hge. rewrite Hx'. unfold half. rewrite Zlt_Qlt, Htwo in H.
    rewrite Hhalf.
    apply Qmult_lt_compat_r; [done|]. lra. }
  assert (Hzero : 0 < r → (a < x)%Q).
  { intros H. assert (a + 0 < x)%Q; [|lra]. apply Hge. rewrite Hx', Qmult_0_r.
    apply Qmult_lt_0_compat; [|done]. by apply inject_pos. }
  destruct (decide (r = 0)) as [->|Hr0].
  { assert (Hxa : (x == a)%Q).
    { change (inject_Z 0) with 0%Q in Hx'. assert (Hz : (inject_Z m2 * (x - a) == 0)%Q) by lra.
      apply Qmult_integral in Hz as [?|?]; lra. }
    unfold new_location, new_location_even, new_location_odd. by destruct (Z.even m2). }
  rewrite new_location_compare by lia. unfold located.
  destruct (Z.compare_spec (2 * r) m2) as [Heq|Hlt|Hgt]; cbn [shr_record_of_loc shr_m shr_r shr_s]; fold a.
  - rewrite <-Heq, Htwo in Hx'. unfold half.
    assert (Hr' : (0 < inject_Z r)%Q) by (apply inject_pos; lia).
    assert (Hz : (inject_Z r * (2 * (x - a) - u) == 0)%Q) by lra.
    apply Qmult_integral in Hz as [?|?]; lra.
  - split; [apply Hzero; lia|by apply Hbelow].
  - split; [by apply Habove|done].
Qed.

(** The quotient keeps enough digits. *)
Lemma div_digits m1 m2 s D e' :
  0 <= s → D = Z.pos (digits2_pos m1) - Z.pos (digits2_pos m2) + s + e' → e' <= Z.max (D - 53) emin64 →
  e' <= Z.max (Zdigits2 (Z.pos m1 * 2 ^ s / Z.pos m2) + e' - 53) emin64.
Proof.
  intros Hs HD He. pose proof (digits2_bounds m1) as [Hlo _]. pose proof (digits2_bounds m2) as [_ Hhi].
  set (d1 := Z.pos (digits2_pos m1)) in *. set (d2 := Z.pos (digits2_pos m2)) in *.
  destruct (Z_le_gt_dec e' emin64); [lia|]. assert (Hk : 53 <= D - e') by lia.
  assert (Hq : 2 ^ (D - e' - 1) <= Z.pos m1 * 2 ^ s / Z.pos m2).
  { apply Z.div_le_lower_bound; [lia|].
    apply Z.le_trans with (2 ^ (d1 - 1) * 2 ^ s); [|apply Z.mul_le_mono_nonneg_r; lia].
    rewrite <-Z.pow_add_r by lia. replace (d1 - 1 + s) with (d2 + (D - e' - 1)) by lia.
    rewrite Z.pow_add_r by lia. apply Z.mul_le_mono_nonneg_r; lia. }
  destruct (Z.pos m1 * 2 ^ s / Z.pos m2) as [|q|q] eqn:Hqe.
  - pose proof (Z.pow_pos_nonneg 2 (D - e' - 1) ltac:(lia) ltac:(lia)). lia.
  - cbn [Zdigits2]. pose proof (digits2_ge q (D - e' - 1) ltac:(lia) Hq). lia.
  - pose proof (Z.pow_pos_nonneg 2 (D - e' - 1) ltac:(lia) ltac:(lia)). lia.
Qed.

Lemma div_core_located m1 e1 m2 e2 :
  let '(q, e', l) := SFdiv_core_binary prec emax (Z.pos m1) e1 (Z.pos m2) e2 in
  0 <= q ∧ located (fval m1 e1 / fval m2 e2) (p2 e') (shr_record_of_loc q l) ∧
  e' <= fexp prec emax (Zdigits2 q + e').
Proof.
  unfold SFdiv_core_binary. cbn [Zdigits2]. rewrite fexp64_eq.
  set (D := Z.pos (digits2_pos m1) + e1 - (Z.pos (digits2_pos m2) + e2)).
  set (e' := Z.min (Z.max (D - 53) emin64) (e1 - e2)). set (s := e1 - e2 - e').
  assert (Hs : 0 <= s) by lia.
  assert (Hm' : match s with Z0 => Z.pos m1 | Zpos _ => Z.shiftl (Z.pos m1) s | Zneg _ => Z0 end =
    Z.pos m1 * 2 ^ s).
  { destruct s as [|p|p] eqn:E; [lia|by rewrite Z.shiftl_mul_pow2|lia]. }
  rewrite Hm'. pose proof (Z_div_mod (Z.pos m1 * 2 ^ s) (Z.pos m2) ltac:(lia)) as Hdm.
  assert (Hq : (Z.div_eucl (Z.pos m1 * 2 ^ s) (Z.pos m2)).1 = Z.pos m1 * 2 ^ s / Z.pos m2).
  { unfold Z.div. by destruct (Z.div_eucl _ _). }
  change (IntDef.Z.div_eucl (Z.pos m1 * 2 ^ s) (Z.pos m2)) with (Z.div_eucl (Z.pos m1 * 2 ^ s) (Z.pos m2)).
  destruct (Z.div_eucl (Z.pos m1 * 2 ^ s) (Z.pos m2)) as [q r]. cbn in Hq. destruct Hdm as [Hdm Hr].
  assert (H2 : 0 < 2 ^ s) by (apply Z.pow_pos_nonneg; lia). split; [subst q; apply Z.div_pos; lia|]. split.
  - apply (new_location_located _ (Z.pos m1 * 2 ^ s)); [lia|apply p2_pos|lia|done|].
    unfold fval. rewrite inject_Z_mult, <-p2_Z by lia.
    assert (Hp : (p2 s * p2 e' * p2 e2 == p2 e1)%Q).
    { rewrite <-!p2_plus. by replace (s + e' + e2) with e1 by lia. }
    pose proof (p2_pos e2). pose proof (inject_pos (Z.pos m2) ltac:(lia)). rewrite <-Hp. field. split; lra.
  - rewrite fexp64_eq. subst q. apply (div_digits _ _ _ D); [done|lia|lia].
Qed.

Lemma fdiv_pack s1 m1 e1 s2 m2 e2 :
  ∃ c r, fdiv (S754_finite s1 m1 e1) (S754_finite s2 m2 e2) = pack (xorb s1 s2) (rounded r) c ∧
    cexp (fval m1 e1 / fval m2 e2) c ∧ located (fval m1 e1 / fval m2 e2) (p2 c) r ∧ 0 <= shr_m r.
Proof.
  pose proof (div_core_located m1 e1 m2 e2) as H. unfold fdiv, SFdiv.
  destruct (SFdiv_core_binary prec emax (Z.pos m1) e1 (Z.pos m2) e2) as [[q e'] l].
  destruct H as (Hq & Hl & He). by apply binary_round_aux_pack.
Qed.

(** ** The operations stay in the type *)

Lemma pack_located_float64 s x c r :
  cexp x c → located x (p2 c) r → 0 <= shr_m r → is_float64 (pack s (rounded r) c).
Proof.
  intros Hc Hl Hr. destruct (rounded_range _ _ _ Hc Hl Hr) as [HR Hlo]. apply pack_float64; [done| |done].
  destruct Hc as [[-> _]|[? _]]; lia.
Qed.

Lemma fmul_float64 a b : is_float64 a → is_float64 b → is_float64 (fmul a b).
Proof.
  intros Ha Hb. destruct a as [s1|s1| |s1 m1 e1], b as [s2|s2| |s2 m2 e2]; try done.
  destruct (fmul_pack _ _ _ _ _ _ Ha Hb) as (c & r & -> & ? & ? & ?). by eapply pack_located_float64.
Qed.
Lemma fdiv_float64 a b : is_float64 a → is_float64 b → is_float64 (fdiv a b).
Proof.
  intros Ha Hb. destruct a as [s1|s1| |s1 m1 e1], b as [s2|s2| |s2 m2 e2]; try done.
  destruct (fdiv_pack s1 m1 e1 s2 m2 e2) as (c & r & -> & ? & ? & ?). by eapply pack_located_float64.
Qed.

(** ** Signs *)

Lemma pack_sign s R c : is_nan (pack s R c) = true ∨ is_negative (pack s R c) = s.
Proof.
  unfold pack. destruct (R =? 2 ^ 53).
  - right. change (2 ^ 52) with (Z.pos (2 ^ 52)). by destruct (c + 1 <=? 971).
  - destruct R; [by right|right; by destruct (c <=? 971)|by left].
Qed.
Lemma pack_located_nan s x c r :
  cexp x c → located x (p2 c) r → 0 <= shr_m r → is_nan (pack s (rounded r) c) = false.
Proof.
  intros Hc Hl Hr. destruct (rounded_range _ _ _ Hc Hl Hr) as [HR _]. unfold pack.
  destruct (rounded r =? 2 ^ 53).
  - change (2 ^ 52) with (Z.pos (2 ^ 52)). by destruct (c + 1 <=? 971).
  - destruct (rounded r); [done|by destruct (c <=? 971)|lia].
Qed.
Lemma fmul_sign a b :
  is_float64 a → is_float64 b → is_nan (fmul a b) = false →
  is_negative (fmul a b) = xorb (is_negative a) (is_negative b).
Proof.
  intros Ha Hb Hn. destruct a as [s1|s1| |s1 m1 e1], b as [s2|s2| |s2 m2 e2]; try done.
  destruct (fmul_pack _ _ _ _ _ _ Ha Hb) as (c & r & E & _). rewrite E in *.
  by destruct (pack_sign (xorb s1 s2) (rounded r) c) as [H|H]; [congruence|].
Qed.
Lemma fdiv_sign a b :
  is_nan (fdiv a b) = false → is_negative (fdiv a b) = xorb (is_negative a) (is_negative b).
Proof.
  intros Hn. destruct a as [s1|s1| |s1 m1 e1], b as [s2|s2| |s2 m2 e2]; try done.
  destruct (fdiv_pack s1 m1 e1 s2 m2 e2) as (c & r & E & _). rewrite E in *.
  by destruct (pack_sign (xorb s1 s2) (rounded r) c) as [H|H]; [congruence|].
Qed.

(** ** Monotonicity, for numbers without a sign *)

Lemma fleb_zero_l s f : is_nan f = false → is_negative f = false → fleb (S754_zero s) f = true.
Proof. by destruct f as [[]|[]| |[] m e]. Qed.
Lemma fleb_inf_r f : is_nan f = false → fleb f (S754_infinity false) = true.
Proof. by destruct f as [[]|[]| |[] m e]. Qed.

Lemma fmul_mono a b c :
  is_float64 a → is_float64 b → is_float64 c →
  is_negative a = false → is_negative b = false → is_negative c = false →
  fleb a b = true → is_nan (fmul a c) = false → is_nan (fmul b c) = false →
  fleb (fmul a c) (fmul b c) = true.
Proof.
  intros Ha Hb Hc Na Nb Nc Hle Hna Hnb.
  assert (Hs : is_negative (fmul b c) = false) by by rewrite fmul_sign, Nb, Nc.
  destruct a as [sa|sa| |sa ma ea]; [..|cbn in Na; subst sa].
  - destruct c as [sc|sc| |sc mc ec]; [| done| done|]; exact (fleb_zero_l _ _ Hnb Hs).
  - cbn in Na. subst sa. destruct b as [sb|[]| |[] mb eb]; try done. by destruct c as [?|[]| |[]].
  - done.
  - destruct b as [sb|sb| |sb mb eb]; [by destruct sb| |done|]; cbn in Nb; subst sb.
    + destruct c as [sc|sc| |sc mc ec]; [done| |done|]; cbn in Nc; subst sc; [done|by apply fleb_inf_r].
    + destruct c as [sc|sc| |sc mc ec]; [done| |done|]; cbn in Nc; subst sc; [done|].
      destruct (fmul_pack _ _ _ _ _ _ Ha Hc) as (c1 & r1 & E1 & H1 & H2 & H3).
      destruct (fmul_pack _ _ _ _ _ _ Hb Hc) as (c2 & r2 & E2 & H4 & H5 & H6). rewrite E1, E2.
      apply (pack_mono (fval ma ea * fval mc ec) (fval mb eb * fval mc ec)); auto.
      apply Qmult_le_compat_r; [by eapply finite_le_val|]. pose proof (fval_pos mc ec). lra.
Qed.

Lemma fmul_comm a b : fmul a b = fmul b a.
Proof.
  destruct a as [sa|sa| |sa ma ea], b as [sb|sb| |sb mb eb]; cbn; try done; try by rewrite xorb_comm.
  by rewrite xorb_comm, Pos.mul_comm, (Z.add_comm ea eb).
Qed.

Lemma fdiv_mono_l a b c :
  is_float64 a → is_float64 b → is_negative a = false → is_negative b = false → is_negative c = false →
  fltb fzero c = true → fleb a b = true → is_nan (fdiv a c) = false → is_nan (fdiv b c) = false →
  fleb (fdiv a c) (fdiv b c) = true.
Proof.
  intros Ha Hb Na Nb Nc Hc Hle Hna Hnb.
  assert (Hs : is_negative (fdiv b c) = false) by by rewrite fdiv_sign, Nb, Nc.
  destruct a as [sa|sa| |sa ma ea]; [..|cbn in Na; subst sa].
  - destruct c as [sc|sc| |sc mc ec]; try done; exact (fleb_zero_l _ _ Hnb Hs).
  - cbn in Na. subst sa. destruct b as [sb|[]| |[] mb eb]; try done. by destruct c as [?|[]| |[]].
  - done.
  - destruct b as [sb|sb| |sb mb eb]; [by destruct sb| |done|]; cbn in Nb; subst sb.
    + destruct c as [sc|sc| |sc mc ec]; [done..|]; cbn in Nc; subst sc. by apply fleb_inf_r.
    + destruct c as [sc|sc| |sc mc ec]; [done|done|done|]; cbn in Nc; subst sc.
      destruct (fdiv_pack false ma ea false mc ec) as (c1 & r1 & E1 & H1 & H2 & H3).
      destruct (fdiv_pack false mb eb false mc ec) as (c2 & r2 & E2 & H4 & H5 & H6). rewrite E1, E2.
      apply (pack_mono (fval ma ea / fval mc ec) (fval mb eb / fval mc ec)); auto.
      unfold Qdiv. apply Qmult_le_compat_r; [by eapply finite_le_val|].
      apply Qinv_le_0_compat. pose proof (fval_pos mc ec). lra.
Qed.

Lemma Qdiv_anti x y z : (0 <= x → 0 < y → y <= z → x / z <= x / y)%Q.
Proof.
  intros Hx Hy Hyz. apply Qle_shift_div_l; [done|].
  assert (Hz : (x / z * y <= x / z * z)%Q).
  { rewrite !(Qmult_comm (x / z)). apply Qmult_le_compat_r; [done|]. apply Qle_shift_div_l; lra. }
  assert (x / z * z == x)%Q by (field; lra). lra.
Qed.

Lemma fdiv_anti m e p q :
  is_float64 p → is_float64 q → fltb fzero p = true → fleb p q = true →
  let n := S754_finite false m e in
  fleb (fdiv n q) (fdiv n p) = true.
Proof.
  intros Hp Hq Hpos Hle n. subst n. destruct p as [sp|sp| |sp mp ep]; try done.
  - destruct sp; [done|]. by destruct q as [[]|[]| |[] mq eq].
  - destruct sp; [done|]. destruct q as [[]|[]| |[] mq eq]; try done.
    + destruct (fdiv_pack false m e false mp ep) as (c & r & -> & Hc & Hl & Hr).
      pose proof (pack_located_nan false _ _ _ Hc Hl Hr) as Hn.
      destruct (pack_sign false (rounded r) c) as [H|H]; [congruence|]. by apply fleb_zero_l.
    + destruct (fdiv_pack false m e false mq eq) as (c1 & r1 & -> & H1 & H2 & H3).
      destruct (fdiv_pack false m e false mp ep) as (c2 & r2 & -> & H4 & H5 & H6).
      apply (pack_mono (fval m e / fval mq eq) (fval m e / fval mp ep)); auto.
      pose proof (fval_pos m e). pose proof (fval_pos mp ep).
      apply Qdiv_anti; [lra|done|by eapply finite_le_val].
Qed.

(** ** A total order on the numbers *)

Lemma fleb_finite s1 m1 e1 s2 m2 e2 :
  fleb (S754_finite s1 m1 e1) (S754_finite s2 m2 e2) = true ↔
  match s1, s2 with
  | true, false => True
  | false, true => False
  | false, false => e1 < e2 ∨ e1 = e2 ∧ (m1 <= m2)%positive
  | true, true => e2 < e1 ∨ e1 = e2 ∧ (m2 <= m1)%positive
  end.
Proof.
  unfold fleb, SFleb; cbn. change (Pos.compare_cont Eq m1 m2) with (m1 ?= m2)%positive.
  destruct s1, s2; [|done|split; [done|tauto]|];
    (destruct (Z.compare_spec e1 e2) as [->|Hlt|Hgt];
      [destruct (Pos.compare_spec m1 m2) as [->|Hm|Hm]; cbn|..]);
    (split; [intros; try done; lia|intros; try done; exfalso; lia]).
Qed.

Lemma fleb_trans a b c : fleb a b = true → fleb b c = true → fleb a c = true.
Proof.
  destruct a as [[]|[]| |s1 m1 e1], b as [[]|[]| |s2 m2 e2], c as [[]|[]| |s3 m3 e3];
    try done; try (by destruct s1); try (by destruct s2); try (by destruct s3);
    try (by destruct s1, s2); try (by destruct s2, s3); try (by destruct s1, s3).
  rewrite !fleb_finite. destruct s1, s2, s3; try tauto; lia.
Qed.

Lemma fleb_total a b : is_nan a = false → is_nan b = false → fleb a b = true ∨ fleb b a = true.
Proof.
  destruct a as [[]|[]| |s1 m1 e1], b as [[]|[]| |s2 m2 e2]; intros; try done;
    try (by left); try (by right); try (by destruct s1; [left|right]); try (by destruct s2; [left|right]);
    try (by destruct s1; [right|left]); try (by destruct s2; [right|left]).
  rewrite !fleb_finite. destruct s1, s2; auto; lia.
Qed.
