(* ===== verification/FloatSecs.v ===== *)
(** * Durations in seconds

    [time.Duration.Seconds], a float64, and how far it is from the number of
    seconds that the duration has: sums, quotients and conversions of float64
    numbers are within half a unit of the exact value, of which the error of
    the whole computation follows. *)

From stdpp Require Import prelude.
From Stdlib Require Import ZArith Lia SpecFloat QArith Qabs Qpower Lqa.
From S2P Require Import Prelude Float64 FloatRound FloatOrder.

Local Open Scope Z_scope.

Definition fadd : float64 → float64 → float64 := SFadd prec emax.

(** [d.Seconds()]: the whole seconds and the nanoseconds are converted apart. *)
Definition Seconds (d : Z) : float64 :=
  fadd (of_Z (Z.quot d second)) (fdiv (of_Z (Z.rem d second)) (of_Z second)).

(** ** Values and errors *)

(** The rational number a finite float64 is. *)
Definition to_Q (f : float64) : Q :=
  match f with
  | S754_finite false m e => fval m e
  | S754_finite true m e => - fval m e
  | _ => 0
  end%Q.

(** Half a unit in the last place, for normal and for subnormal numbers. *)
Definition ulp_half : Q := (1 # 9007199254740992)%Q.
Definition sub_half : Q := half (p2 emin64).

(** [f] is a number without a sign, within half a unit of [x]. *)
Record near (x : Q) (f : float64) : Prop := {
  near_finite : is_finite f = true;
  near_sign : is_negative f = false;
  near_le : (to_Q f <= x + (x * ulp_half + sub_half))%Q;
  near_ge : (x <= to_Q f + (x * ulp_half + sub_half))%Q;
}.

Lemma sub_half_bounds : (0 < sub_half)%Q ∧ (sub_half <= 1 # 1152921504606846976)%Q.
Proof.
  unfold sub_half, half. pose proof (p2_pos emin64) as H. pose proof (p2_le emin64 (-60) ltac:(done)) as H'.
  change (p2 (-60)) with (/ (2 ^ 60))%Q in H'. assert (E : (/ 2 ^ 60 == 1 # 1152921504606846976)%Q) by done. split; lra.
Qed.

Lemma near_exact x f :
  is_finite f = true → is_negative f = false → (0 <= x)%Q → (to_Q f == x)%Q → near x f.
Proof. intros Hf Hs Hx E. destruct sub_half_bounds as [H1 _]. split; [done..| |]; unfold ulp_half; lra. Qed.

(** Rounding moves a number by half a unit at most. *)
Lemma rounded_near x u r :
  (0 < u)%Q → located x u r →
  (inject_Z (rounded r) * u <= x + half u)%Q ∧ (x <= inject_Z (rounded r) * u + half u)%Q.
Proof.
  intros Hu Hl. unfold rounded, located, half in *. destruct r as [m [] []]; cbn in *;
    try (destruct (Z.even m)); rewrite ?mult_succ; lra.
Qed.

Lemma pack_value R c :
  0 <= R <= 2 ^ 53 → c <= 970 →
  is_finite (pack false R c) = true ∧ is_negative (pack false R c) = false ∧
  (to_Q (pack false R c) == inject_Z R * p2 c)%Q.
Proof.
  intros HR Hc. unfold pack. destruct (Z.eqb_spec R (2 ^ 53)) as [->|Hne].
  - change (2 ^ 52) with (Z.pos (2 ^ 52)). destruct (Z.leb_spec (c + 1) 971); [|lia]. split_and!; [done..|].
    cbn [to_Q]. unfold fval. rewrite p2_succ. change (inject_Z (2 ^ 53)) with (inject_Z (2 * Z.pos (2 ^ 52))).
    rewrite inject_Z_mult. change (inject_Z 2) with 2%Q. ring.
  - destruct R as [|m|m]; [|destruct (Z.leb_spec c 971); [|lia]|lia]; (split_and!; [done..|]); cbn [to_Q]; [|done].
    change (inject_Z 0) with 0%Q. ring.
Qed.

Lemma pack_near x c r :
  cexp x c → located x (p2 c) r → 0 <= shr_m r → (0 <= x)%Q → (x < p2 1000)%Q → near x (pack false (rounded r) c).
Proof.
  intros Hc Hl Hr Hx Hb. destruct (rounded_range _ _ _ Hc Hl Hr) as [HR _].
  assert (Hc' : c <= 970).
  { destruct Hc as [[-> _]|(_ & Hlo & _)]; [done|]. destruct (Z_le_gt_dec c 970) as [|Hgt]; [done|].
    pose proof (p2_le 1000 (c + 52) ltac:(lia)). lra. }
  destruct (pack_value (rounded r) c HR Hc') as (H1 & H2 & H3).
  pose proof (p2_pos c) as Hu. destruct (rounded_near _ _ _ Hu Hl) as [H4 H5].
  assert (Hh : (half (p2 c) <= x * ulp_half + sub_half)%Q).
  { unfold sub_half, half. pose proof sub_half_bounds as [Hs _]. unfold sub_half, half in Hs.
    destruct Hc as [[-> _]|(_ & Hlo & _)].
    - unfold ulp_half. nra.
    - rewrite p2_plus in Hlo. change (p2 52) with (inject_Z (2 ^ 52)) in Hlo. unfold ulp_half.
      assert (E : (inject_Z (2 ^ 52) * (1 # 9007199254740992) == 1 # 2)%Q) by done. nra. }
  split; [done..| |]; rewrite H3; lra.
Qed.

(** ** Rounding an integer multiple of a power of two *)

Lemma iter_xO m d :
  Z.pos (Pos.iter xO m d) = Z.pos m * 2 ^ Z.pos d ∧
  Z.pos (digits2_pos (Pos.iter xO m d)) = Z.pos (digits2_pos m) + Z.pos d.
Proof.
  induction d as [|d IH] using Pos.peano_ind; [cbn; lia|]. rewrite Pos.iter_succ.
  destruct IH as [IH1 IH2]. rewrite Pos2Z.inj_succ, Z.pow_succ_r by lia. cbn [digits2_pos]. lia.
Qed.

Lemma shl_align_spec m e e' :
  let '(mz, ez) := shl_align m e e' in
  ez = Z.min e e' ∧ (fval mz ez == fval m e)%Q ∧ Z.pos (digits2_pos mz) + ez = Z.pos (digits2_pos m) + e.
Proof.
  unfold shl_align. destruct (e' - e) as [|d|d] eqn:E; [split_and!; [lia|done|lia]..|].
  destruct (iter_xO m d) as [H1 H2]. split_and!; [lia| |lia].
  pose proof (p2_plus (Z.pos d) e') as Hp. replace (Z.pos d + e') with e in Hp by lia.
  unfold fval. rewrite H1, inject_Z_mult, <- p2_Z, Hp by lia. ring.
Qed.

Lemma binary_round_near m e : (fval m e < p2 1000)%Q → near (fval m e) (binary_round prec emax false m e).
Proof.
  intros Hb. unfold binary_round. pose proof (shl_align_spec m e (fexp prec emax (Z.pos (digits2_pos m) + e))) as H.
  destruct (shl_align _ _ _) as [mz ez]. destruct H as (Hez & Hv & Hd).
  destruct (binary_round_aux_pack false (fval m e) (Z.pos mz) ez loc_Exact) as (c & r & -> & H1 & H2 & H3).
  - done.
  - unfold located. cbn. by rewrite <- Hv.
  - cbn [Zdigits2]. rewrite Hd. lia.
  - apply pack_near; [done..| |done]. pose proof (fval_pos m e). lra.
Qed.

(** ** The operations *)

Lemma of_Z_near z : 0 <= z < 2 ^ 100 → near (inject_Z z) (of_Z z).
Proof.
  intros Hz. destruct z as [|m|m]; [by apply near_exact| |lia].
  assert (E : (fval m 0 == inject_Z (Z.pos m))%Q) by (unfold fval; change (p2 0) with 1%Q; ring).
  destruct (binary_round_near m 0) as [H1 H2 H3 H4].
  - rewrite E. assert (H : (inject_Z (Z.pos m) < inject_Z (2 ^ 100))%Q) by (rewrite <- Zlt_Qlt; lia).
    pose proof (p2_le 100 1000 ltac:(done)) as H'. rewrite p2_Z in H' by done. lra.
  - rewrite E in *. by split.
Qed.

Lemma fadd_near f g :
  is_finite f = true → is_finite g = true → is_negative f = false → is_negative g = false →
  (to_Q f + to_Q g < p2 1000)%Q → near (to_Q f + to_Q g) (fadd f g).
Proof.
  intros Hf Hg Sf Sg Hb. destruct f as [sf|sf| |sf m1 e1], g as [sg|sg| |sg m2 e2]; try done; cbn in Sf, Sg; subst sf sg.
  - by apply near_exact.
  - cbn in *. apply near_exact; [done..| |cbn; ring]. pose proof (fval_pos m2 e2). lra.
  - cbn in *. apply near_exact; [done..| |cbn; ring]. pose proof (fval_pos m1 e1). lra.
  - cbn [to_Q] in *. unfold fadd, SFadd. cbn [cond_Zopp].
    pose proof (shl_align_spec m1 e1 (Z.min e1 e2)) as H1. pose proof (shl_align_spec m2 e2 (Z.min e1 e2)) as H2.
    destruct (shl_align m1 e1 _) as [n1 z1], (shl_align m2 e2 _) as [n2 z2]. cbn [fst].
    destruct H1 as (-> & V1 & _), H2 as (-> & V2 & _). replace (Z.min e1 (Z.min e1 e2)) with (Z.min e1 e2) in V1 by lia.
    replace (Z.min e2 (Z.min e1 e2)) with (Z.min e1 e2) in V2 by lia.
    assert (E : (fval (n1 + n2) (Z.min e1 e2) == fval m1 e1 + fval m2 e2)%Q).
    { rewrite <- V1, <- V2. unfold fval. rewrite Pos2Z.inj_add, inject_Z_plus. ring. }
    destruct (binary_round_near (n1 + n2) (Z.min e1 e2)) as [H1 H2 H3 H4]; [by rewrite E|].
    rewrite E in *. by split.
Qed.

Lemma fdiv_near f m e :
  is_finite f = true → is_negative f = false → (to_Q f / fval m e < p2 1000)%Q →
  near (to_Q f / fval m e) (fdiv f (S754_finite false m e)).
Proof.
  intros Hf Sf Hb. destruct f as [sf|sf| |sf m1 e1]; try done; cbn in Sf; subst sf.
  - apply near_exact; [done..| |]; cbn; unfold Qdiv; lra.
  - destruct (fdiv_pack false m1 e1 false m e) as (c & r & -> & H1 & H2 & H3).
    apply pack_near; [done..| |done]. cbn [to_Q]. pose proof (fval_pos m1 e1). pose proof (fval_pos m e).
    apply Qle_shift_div_l; lra.
Qed.

(** ** The error of [Seconds] *)

Lemma of_Z_second : ∃ m e, of_Z second = S754_finite false m e ∧ (fval m e == 1000000000 # 1)%Q.
Proof. do 2 eexists. split; [vm_compute; reflexivity|]. vm_compute. reflexivity. Qed.

(** A duration that is not negative, in seconds: the float64 is within 2^-50 of
    the seconds, and of one more. *)
Definition secs (d : Z) : Q := (inject_Z d / (1000000000 # 1))%Q.
Definition secs_error (d : Z) : Q := ((secs d + 1) * (1 # 1125899906842624))%Q.

Lemma Seconds_error d :
  0 <= d < 2 ^ 63 →
  is_finite (Seconds d) = true ∧ (Qabs (to_Q (Seconds d) - secs d) <= secs_error d)%Q.
Proof.
  intros Hd. unfold Seconds. rewrite Z.quot_div_nonneg, Z.rem_mod_nonneg by (unfold second; lia).
  pose proof (Z.div_mod d second ltac:(done)) as Hdm. pose proof (Z.mod_pos_bound d second ltac:(done)) as Hm.
  set (s := d / second) in *. set (n := d mod second) in *.
  assert (Hs : 0 <= s < 2 ^ 63) by (unfold second in *; lia).
  destruct (of_Z_near s ltac:(lia)) as [A1 A2 A3 A4]. destruct (of_Z_near n ltac:(unfold second in *; lia)) as [N1 N2 N3 N4].
  destruct of_Z_second as (m & e & -> & Hv).
  assert (Qs : (0 <= inject_Z s)%Q) by (change 0%Q with (inject_Z 0); rewrite <- Zle_Qle; lia).
  assert (Qs' : (inject_Z s <= inject_Z (2 ^ 63))%Q) by (rewrite <- Zle_Qle; lia). change (inject_Z (2 ^ 63)) with (9223372036854775808 # 1)%Q in Qs'.
  assert (Qn : (0 <= inject_Z n)%Q) by (change 0%Q with (inject_Z 0); rewrite <- Zle_Qle; lia).
  assert (Qn' : (inject_Z n <= 1000000000 # 1)%Q) by (change (1000000000 # 1)%Q with (inject_Z second); rewrite <- Zle_Qle; lia).
  pose proof sub_half_bounds as [Ht Ht']. pose proof (p2_le 70 1000 ltac:(done)) as Hp. change (p2 70) with (1180591620717411303424 # 1)%Q in Hp.
  assert (Ed : (to_Q (of_Z n) / fval m e == to_Q (of_Z n) * (1 # 1000000000))%Q) by (rewrite Hv; field).
  unfold ulp_half in *.
  destruct (fdiv_near (of_Z n) m e N1 N2) as [D1 D2 D3 D4]; [rewrite Ed; lra|]. rewrite Ed in D3, D4.
  destruct (fadd_near (of_Z s) (fdiv (of_Z n) (S754_finite false m e)) A1 D1 A2 D2) as [S1 S2 S3 S4];
    [unfold ulp_half in *; lra|].
  split; [done|]. unfold secs_error.
  assert (Ex : (secs d == inject_Z s + inject_Z n * (1 # 1000000000))%Q).
  { unfold secs. rewrite Hdm, inject_Z_plus, inject_Z_mult. change (inject_Z second) with (1000000000 # 1)%Q. field. }
  rewrite Ex. unfold ulp_half in *. apply Qabs_Qle_condition. split; lra.
Qed.
