(* ===== verification/Telemetry.v ===== *)
(** * The metrics

    pkg/telemetry/exporter.go and the calls of its counters and histograms in
    the matching loop (pkg/api/server.go) and in the load generator's
    collector (pkg/loadgen/orchestrator.go).  The Prometheus client is not
    part of the repository: what the code does with it is the trace of its
    calls, and of its behaviour only that [WithLabelValues] panics when the
    number of values is not the number of labels. *)

From stdpp Require Import prelude gmap strings list fin_maps.
From Stdlib Require Import ZArith Lia SpecFloat QArith Qabs.
From S2P Require Import Prelude GoSort Order LevelQueue OrderBook BookSpec BookInv BookFlow BookRefine BookSim Server ServerInv ServerProps Float64 FloatSecs.

Local Open Scope Z_scope.

(** ** The metrics of the exporter *)

(** A metric's name and labels. *)
Definition OrdersProcessed : string * list string := ("trading_orders_processed_total", ["side"; "type"]).
Definition MatchingDuration : string * list string := ("trading_matching_duration_seconds", []).
Definition LoadGenRequests : string * list string := ("trading_loadgen_requests_total", ["status"]).
Definition LoadGenLatency : string * list string := ("trading_loadgen_latency_seconds", []).

(** Calls: a counter goes up by one; a float64 is observed. *)
Inductive metric :=
  | Inc (name : string) (values : list string)
  | Observe (name : string) (value : float64).
#[global] Instance metric_eq_dec : EqDecision metric.
Proof. solve_decision. Defined.

(** [vec.WithLabelValues(values...).Inc()]. *)
Definition inc (vec : string * list string) (values : list string) : res metric :=
  if (length values =? length vec.2)%nat then Ok (Inc vec.1 values) else Panic.

(** ** The matching loop with its metrics *)

Definition WM (A : Type) : Type := GoM (Server * list metric) A.

Definition on_server {A} (f : SM A) : WM A := λ '(sv, ms),
  match f sv with
  | Ok (a, sv') => Ok (a, (sv', ms))
  | Panic => Panic
  | NoFuel => NoFuel
  end.
Definition emit (m : metric) : WM unit := λ '(sv, ms), Ok (tt, (sv, ms ++ [m])).

(** What [PlaceRequest] does after its metrics. *)
Definition reply_place (req : OrderRequest) (trades : list Trade) : SM unit :=
  send_result (rResult req) (mkResponse true trades "");;
  modify (with_changed true);;
  (if (0 <? length trades)%nat then broadcastEvent "trade" (TradesData trades) else mret tt).

(** [elapsed] is what [time.Since(start)] gives. *)
Definition serve_metered (elapsed : Z) (req : OrderRequest) : WM unit :=
  if rType req =? PlaceRequest then
    trades ← on_server (process_order (rOrder req));
    let latency := Seconds elapsed in
    o ← on_server (on_book (load_order (rOrder req)));
    let orderType := if oType o =? 1 then "market" else "limit" in
    emit (Observe MatchingDuration.1 latency);;
    m ← lift (inc OrdersProcessed [Side_String (oSide o); orderType]);
    emit m;;
    on_server (reply_place req trades)
  else on_server (serve_request req).

Definition receive_metered (elapsed : Z) : WM bool := λ '(sv, ms),
  match inputChan sv with
  | [] => Ok (false, (sv, ms))
  | req :: q => (serve_metered elapsed req;; mret true) (with_input q sv, ms)
  end.
(** Iterations beside the hub, as in [loop_receives]. *)
Fixpoint receives_metered (times : list Z) : WM unit :=
  match times with
  | [] => mret tt
  | elapsed :: ts => (on_server hub_receive;; receive_metered elapsed);; receives_metered ts
  end.

(** ** Orders keep their side and type *)

Definition fixed (o : Order) : string * Z * Z * Z * Z := (oID o, oSide o, oType o, oPrice o, oQuantity o).

(** What an operation of the book leaves alone. *)
Class Static {A} (m : M A) : Prop := static s a s' :
  m s = Ok (a, s') → ∀ p o, sOrders s !! p = Some o → ∃ o', sOrders s' !! p = Some o' ∧ fixed o' = fixed o.

Lemma static_same {A} (m : M A) : (∀ s a s', m s = Ok (a, s') → sOrders s' = sOrders s) → Static m.
Proof. intros H s a s' E p o Ho. rewrite (H _ _ _ E). eauto. Qed.

#[global] Instance static_bind {A B} (m : M A) (k : A → M B) : Static m → (∀ a, Static (k a)) → Static (m ≫= k).
Proof.
  intros Hm Hk s b s' E p o Ho. unfold mbind, GoM_bind in E. destruct (m s) as [[a s1]| |] eqn:E1; [|done..].
  destruct (Hm _ _ _ E1 p o Ho) as (o1 & Ho1 & <-). eapply Hk; [exact E|exact Ho1].
Qed.
#[global] Instance static_ret {A} (a : A) : Static (mret a).
Proof. apply static_same. by intros s a' s' [= _ <-]. Qed.
#[global] Instance static_gets {A} (f : St → A) : Static (gets f).
Proof. apply static_same. by intros s a' s' [= _ <-]. Qed.
#[global] Instance static_panic {A} : Static (panic : M A).
Proof. by apply static_same. Qed.
#[global] Instance static_nofuel {A} : Static (nofuel : M A).
Proof. by apply static_same. Qed.
#[global] Instance static_option {A} (o : option A) : Static (from_option_panic o).
Proof. apply static_same. intros s a' s'. destruct o; [|done]. by intros [= _ <-]. Qed.
#[global] Instance static_load p : Static (load_order p).
Proof. apply static_same. intros s a s'. unfold load_order. case_match; [|done]. by intros [= _ <-]. Qed.
#[global] Instance static_load_limit p : Static (load_limit p).
Proof. apply static_same. intros s a s'. unfold load_limit. case_match; [|done]. by intros [= _ <-]. Qed.
#[global] Instance static_modify_limit p f : Static (modify_limit p f).
Proof. apply static_same. intros s a s'. unfold modify_limit. case_match; [|done]. by intros [= _ <-]. Qed.
#[global] Instance static_new_limit price : Static (NewLimit price).
Proof. apply static_same. by intros s a s' [= _ <-]. Qed.
#[global] Instance static_store r l : Static (store_slice r l).
Proof. apply static_same. by intros s a s' [= _ <-]. Qed.
#[global] Instance static_delete id : Static (index_delete id).
Proof. apply static_same. by intros s a s' [= _ <-]. Qed.
#[global] Instance static_insert id p : Static (index_insert id p).
Proof. apply static_same. by intros s a s' [= _ <-]. Qed.
#[global] Instance static_if {A} (b : bool) (m1 m2 : M A) : Static m1 → Static m2 → Static (if b then m1 else m2).
Proof. by destruct b. Qed.

Lemma static_modify p f : (∀ o, fixed (f o) = fixed o) → Static (modify_order p f).
Proof.
  intros Hf s a s' E q o Ho. unfold modify_order in E. destruct (sOrders s !! p) as [o1|] eqn:Hp; [|done]. injection E as _ <-. cbn.
  destruct (decide (p = q)) as [->|Hne].
  - rewrite lookup_insert_eq. simplify_eq. eauto.
  - rewrite lookup_insert_ne by done. eauto.
Qed.
#[global] Hint Extern 1 (Static (modify_order _ _)) => apply static_modify; done : typeclass_instances.

#[global] Instance static_add l p : Static (AddOrder l p).
Proof. unfold AddOrder. apply _. Qed.
#[global] Instance static_remove l p : Static (RemoveOrder l p).
Proof. unfold RemoveOrder. apply _. Qed.
#[global] Instance static_match_level fuel t l ts : Static (match_level fuel t l ts).
Proof. revert ts. induction fuel as [|fuel IH]; intros ts; cbn [match_level]; apply _. Qed.
#[global] Instance static_match_levels fuel t r ts : Static (match_levels fuel t r ts).
Proof. revert ts. induction fuel as [|fuel IH]; intros ts; cbn [match_levels]; unfold load_slice, slice_at; apply _. Qed.
#[global] Instance static_load_slice r : Static (load_slice r).
Proof. unfold load_slice. apply _. Qed.
#[global] Instance static_slice_at r i : Static (slice_at r i).
Proof. unfold slice_at. apply _. Qed.
Lemma static_search fuel (f : nat → M bool) i j : (∀ h, Static (f h)) → Static (search_loop fuel f i j).
Proof. intros Hf. revert i j. induction fuel as [|fuel IH]; intros i j; cbn [search_loop]; apply _. Qed.
#[global] Instance static_search_price r price d i : Static (search_price r price d i).
Proof. unfold search_price. apply _. Qed.
#[global] Instance static_price_at r i price : Static (price_at r i price).
Proof. unfold price_at. apply _. Qed.
#[global] Instance static_sort n r price d : Static (sort_Search n (search_price r price d)).
Proof. apply static_search. apply _. Qed.
#[global] Instance static_add_limit p r d : Static (addLimitOrder p r d).
Proof. unfold addLimitOrder. apply _. Qed.
#[global] Instance static_process fuel p : Static (Process fuel p).
Proof. unfold Process, matchOrder. apply _. Qed.

(** An order that is processed is still there, with its side and type. *)
Lemma process_keeps p sv ts sv' :
  process_order p sv = Ok (ts, sv') →
  ∃ o o', sOrders (ob sv) !! p = Some o ∧ sOrders (ob sv') !! p = Some o' ∧ fixed o' = fixed o.
Proof.
  unfold process_order, on_book. intros E. destruct (Process _ p (ob sv)) as [[ts' s']| |] eqn:EP; [|done..]. injection E as -> <-.
  assert (Hl : is_Some (sOrders (ob sv) !! p)).
  { unfold Process in EP. unfold mbind, GoM_bind, load_order in EP. destruct (sOrders (ob sv) !! p); [eauto|done]. }
  destruct Hl as [o Ho]. destruct (static_process _ _ _ _ _ EP p o Ho) as (o' & Ho' & Hf). exists o, o'. done.
Qed.

(** ** The metrics of the loop *)

(** What an order is counted as: by the side of the book it trades for, and as
    a limit or a market order.  A type that is neither is counted as a limit
    order, although [Process] treats it as a market order. *)
Definition side_label (r : slice_ref) : string := match r with Bids => "BUY" | Asks => "SELL" end.
Definition type_label (ty : Z) : string := if decide (ty = MarketOrder) then "market" else "limit".
Definition order_labels (o : Order) : list string := [side_label (side_of (oSide o)); type_label (oType o)].

(** The calls for a request, by the order it places. *)
Definition request_metrics (h : gmap ptr Order) (elapsed : Z) (req : OrderRequest) : list metric :=
  if rType req =? PlaceRequest then
    match h !! rOrder req with
    | Some o => [Observe "trading_matching_duration_seconds" (Seconds elapsed);
                 Inc "trading_orders_processed_total" (order_labels o)]
    | None => []
    end
  else [].

Lemma code_labels o :
  [Side_String (oSide o); if oType o =? 1 then "market" else "limit"] = order_labels o.
Proof.
  unfold order_labels, side_label, type_label, side_of, Side_String, MarketOrder.
  destruct (oSide o =? Buy), (Z.eqb_spec (oType o) 1); by case_decide.
Qed.

Lemma receive_metered_ok elapsed sv req q sv' ms :
  inputChan sv = req :: q → loop_receive sv = Ok (true, sv') →
  receive_metered elapsed (sv, ms) = Ok (true, (sv', ms ++ request_metrics (sOrders (ob sv)) elapsed req)).
Proof.
  intros Hin E. unfold loop_receive in E. unfold receive_metered. rewrite Hin in *.
  set (sv0 := with_input q sv) in *. change (sOrders (ob sv)) with (sOrders (ob sv0)).
  unfold mbind, GoM_bind in E. destruct (serve_request req sv0) as [[[] sv1]| |] eqn:Es; [|done..]. injection E as ->.
  assert (H : serve_metered elapsed req (sv0, ms) = Ok (tt, (sv', ms ++ request_metrics (sOrders (ob sv0)) elapsed req))).
  { unfold serve_metered, request_metrics. unfold serve_request in Es. destruct (rType req =? PlaceRequest) eqn:Et.
    - unfold mbind at 1, GoM_bind at 1 in Es. destruct (process_order (rOrder req) sv0) as [[ts sv2]| |] eqn:Ep; [|done..].
      destruct (process_keeps _ _ _ _ Ep) as (o & o' & Ho & Ho' & Hf). rewrite Ho.
      assert (E1 : on_server (process_order (rOrder req)) (sv0, ms) = Ok (ts, (sv2, ms))) by (unfold on_server; by rewrite Ep).
      assert (E2 : on_server (on_book (load_order (rOrder req))) (sv2, ms) = Ok (o', (sv2, ms))).
      { unfold on_server, on_book, load_order. rewrite Ho'. by destruct sv2. }
      rewrite (bind_Ok _ _ _ _ _ E1), (bind_Ok _ _ _ _ _ E2). cbn zeta.
      rewrite code_labels.
      change (on_server (reply_place req ts) (sv2, (ms ++ [Observe MatchingDuration.1 (Seconds elapsed)]) ++ [Inc OrdersProcessed.1 (order_labels o')]) =
        Ok (tt, (sv', ms ++ [Observe MatchingDuration.1 (Seconds elapsed); Inc OrdersProcessed.1 (order_labels o)]))).
      unfold on_server. assert (Er : reply_place req ts sv2 = Ok (tt, sv')) by exact Es. rewrite Er, <- app_assoc.
      unfold fixed in Hf. injection Hf as _ Hs Hty _ _. unfold order_labels. by rewrite Hs, Hty.
    - unfold on_server. assert (Er : serve_request req sv0 = Ok (tt, sv')) by (unfold serve_request; by rewrite Et).
      by rewrite Er, app_nil_r. }
  by rewrite (bind_Ok _ _ _ _ _ H).
Qed.

(** The calls for a queue of requests. *)
Fixpoint queue_metrics (h : gmap ptr Order) (times : list Z) (q : list OrderRequest) : list metric :=
  match times, q with
  | elapsed :: ts, req :: q' => request_metrics h elapsed req ++ queue_metrics h ts q'
  | _, _ => []
  end.

Lemma queue_metrics_ext h h' ls q :
  (∀ p, p ∈ placed q → h' !! p = h !! p) → queue_metrics h' ls q = queue_metrics h ls q.
Proof.
  revert q. induction ls as [|l ls IH]; intros [|req q] H; cbn [queue_metrics]; try done. f_equal.
  - unfold request_metrics. destruct (Z.eqb_spec (rType req) PlaceRequest) as [Hp|]; [|done].
    rewrite H; [done|]. rewrite placed_cons_place by done. by apply elem_of_cons; left.
  - apply IH. intros p Hp. apply H. destruct (decide (is_place req)).
    + rewrite placed_cons_place by done. by apply elem_of_cons; right.
    + by rewrite placed_cons_other.
Qed.

(** C29: The metrics tell what the engine did.  Serving a queue of requests
    with the metrics changes the server exactly as without them, and the calls
    are, in the order of the requests, one observation and one increment for
    each order placed and none for a cancel; no call panics.  What is observed
    is the matching time in seconds, as a float64 within 2^-50 of it and of one
    second; an order is counted under the side of the book it trades for, and
    under its type when it is a limit or a market order (any other type counts
    as a limit order). *)
Theorem metrics_faithful sv b times ms :
  server_ok sv b → total_qty (sOrders (ob sv)) (inputChan sv) b < 2 ^ 64 → length times = length (inputChan sv) →
  (∃ sv', loop_receives (length (inputChan sv)) sv = Ok (tt, sv') ∧
    receives_metered times (sv, ms) = Ok (tt, (sv', ms ++ queue_metrics (sOrders (ob sv)) times (inputChan sv)))) ∧
  ∀ elapsed, elapsed ∈ times → 0 <= elapsed < 2 ^ 63 →
    is_finite (Seconds elapsed) = true ∧ (Qabs (to_Q (Seconds elapsed) - secs elapsed) <= secs_error elapsed)%Q.
Proof.
  intros Hok Htot Hl. split; [|intros; by apply Seconds_error]. revert Hok Htot Hl.
  remember (inputChan sv) as q eqn:Hin. symmetry in Hin. revert sv b times ms Hin.
  induction q as [|req q IH]; intros sv b times ms Hin Hok Htot Hl; (destruct times as [|l ls]; [|]); try done.
  - exists sv. cbn. by rewrite app_nil_r.
  - destruct (hub_receive_ok sv b Hok) as (sv0 & E0 & Hok0 & Hsend & Hob & Hin0 & _).
    rewrite Hin in Hin0. rewrite <- Hob in Htot |- *.
    pose proof (serve_ok sv0 b req q Hok0 Hsend Hin0 Htot) as Hserve.
    pose proof (λ sv', total_qty_served sv0 sv' b req q Hok0 Hin0) as Htq.
    destruct (spec_request (sOrders (ob sv0)) req b) as [resp b1].
    destruct Hserve as (sv1 & E & Hs & _). specialize (Htq sv1 Hs). injection Hl as Hl.
    destruct (IH sv1 b1 ls (ms ++ request_metrics (sOrders (ob sv0)) l req) (sv_input _ _ _ _ _ _ Hs) (sv_ok _ _ _ _ _ _ Hs)
      ltac:(lia) Hl) as (sv2 & E2 & E3).
    exists sv2. cbn [length loop_receives receives_metered queue_metrics].
    assert (En : loop_next sv = Ok (true, sv1)) by (unfold loop_next; by rewrite (bind_Ok _ _ _ _ _ E0)).
    rewrite (bind_Ok _ _ _ _ _ En). split; [done|].
    assert (Em : (on_server hub_receive;; receive_metered l) (sv, ms) =
      Ok (true, (sv1, ms ++ request_metrics (sOrders (ob sv0)) l req))).
    { rewrite (bind_Ok _ _ _ tt (sv0, ms)); [|unfold on_server; by rewrite E0]. by apply receive_metered_ok with q. }
    rewrite (bind_Ok _ _ _ _ _ Em), E3.
    rewrite (queue_metrics_ext (sOrders (ob sv0))) by apply (sv_orders _ _ _ _ _ _ Hs). by rewrite <- app_assoc.
Qed.

(** A quarter of a second and a microsecond. *)
Lemma metrics_faithful_witness :
  (∃ sv', receives_metered [250000000; 1000] (ex_sv2, []) = Ok (tt, (sv',
    [Observe "trading_matching_duration_seconds" (S754_finite false 4503599627370496 (-54)); Inc "trading_orders_processed_total" ["SELL"; "limit"];
     Observe "trading_matching_duration_seconds" (Seconds 1000); Inc "trading_orders_processed_total" ["BUY"; "limit"]]))) ∧
  (Qabs (to_Q (Seconds 1000) - secs 1000) <= secs_error 1000)%Q.
Proof.
  destruct (metrics_faithful ex_sv2 empty_book [250000000; 1000] [] ex_sv2_ok ltac:(by vm_compute) ltac:(by vm_compute)) as [(sv' & _ & E) He].
  split; [|apply (He 1000); [right; left|by vm_compute]].
  exists sv'. assert (Em : queue_metrics (sOrders (ob ex_sv2)) [250000000; 1000] (inputChan ex_sv2) =
    [Observe "trading_matching_duration_seconds" (S754_finite false 4503599627370496 (-54)); Inc "trading_orders_processed_total" ["SELL"; "limit"];
     Observe "trading_matching_duration_seconds" (Seconds 1000); Inc "trading_orders_processed_total" ["BUY"; "limit"]]) by (vm_compute; reflexivity).
  rewrite Em in E. exact E.
Defined.
