(* ===== verification/LbHub.v ===== *)
(** * The leaderboard's WebSocket hub

    pkg/leaderboard/broadcast.go: a goroutine that forwards Redis Pub/Sub
    messages to the hub, the hub's loop, and two pumps per client.  It differs
    from the market-data hub in three ways that matter.  A client whose buffer
    is full is not removed on the spot: a goroutine is started that asks for
    its removal, so several such requests and the reader's own can be under
    way for one client, and messages keep coming until one of them is served.
    The writer gathers what is buffered into one frame, reading the length of
    the channel first and then receiving so many messages.  And connections
    are closed from three places.

    Every blocking operation and every access to a channel is a step of its
    own; [lb_reachable] closes the new hub under the steps. *)

From stdpp Require Import prelude gmap list fin_maps fin_sets sets.
From Stdlib Require Import ZArith Lia.
From S2P Require Import Prelude GoChan.

Section hub.
Context {msg : Type}.

(** ** State *)

(** [ReadPump]: reading; blocked on [c.hub.Unregister <- c]; about to close
    the connection; returned. *)
Inductive pump_reader := RReading | RUnregistering | RClosing | RDone.

(** [WritePump]: in its [select]; having written the first message of a
    frame; with [n] more messages to receive for the frame; returned.  A frame
    is the list of the messages written to it, [None] for the nil slice that
    is received from a closed channel; a newline goes between them. *)
Inductive pump_writer :=
  | WSelect
  | WOpened (frame : list (option msg))
  | WDraining (frame : list (option msg)) (n : nat)
  | WDone.

Record Client := mkClient {
  send : chan msg;
  conn : bool;                     (** the connection is open on our side *)
  rd : pump_reader;
  wr : pump_writer;
  kicks : nat;                     (** goroutines blocked on [h.Unregister <- c] *)
  kicked : nat;                    (** goroutines past it, about to close the connection *)
  frames : list (list (option msg)); (** the frames sent on the connection *)
  taken : list msg;                (** messages received from [send] so far *)
  missed : nat;                    (** broadcasts that found [send] full *)
  since : nat;                     (** broadcasts made before the registration *)
}.

(** The forwarding goroutine: in its [select]; blocked on
    [h.broadcast <- m]; returned. *)
Inductive forwarder := FSelect | FSending (m : msg) | FDone.

Record Hub := mkHub {
  clients : gset N;
  conns : gmap N Client;   (** all clients ever created, by address *)
  fwd : forwarder;
  received : list msg;     (** payloads received from Redis *)
  log : list msg;          (** messages the hub has broadcast *)
}.

Definition NewHub : Hub := mkHub ∅ ∅ FSelect [] [].

Definition set_send (c : chan msg) (cl : Client) : Client :=
  mkClient c (conn cl) (rd cl) (wr cl) (kicks cl) (kicked cl) (frames cl) (taken cl) (missed cl) (since cl).
Definition set_conn (b : bool) (cl : Client) : Client :=
  mkClient (send cl) b (rd cl) (wr cl) (kicks cl) (kicked cl) (frames cl) (taken cl) (missed cl) (since cl).
Definition set_rd (r : pump_reader) (cl : Client) : Client :=
  mkClient (send cl) (conn cl) r (wr cl) (kicks cl) (kicked cl) (frames cl) (taken cl) (missed cl) (since cl).
Definition set_wr (w : pump_writer) (cl : Client) : Client :=
  mkClient (send cl) (conn cl) (rd cl) w (kicks cl) (kicked cl) (frames cl) (taken cl) (missed cl) (since cl).
Definition set_kicks (k k' : nat) (cl : Client) : Client :=
  mkClient (send cl) (conn cl) (rd cl) (wr cl) k k' (frames cl) (taken cl) (missed cl) (since cl).
Definition set_taken (t : list msg) (cl : Client) : Client :=
  mkClient (send cl) (conn cl) (rd cl) (wr cl) (kicks cl) (kicked cl) (frames cl) t (missed cl) (since cl).
Definition set_frames (f : list (list (option msg))) (cl : Client) : Client :=
  mkClient (send cl) (conn cl) (rd cl) (wr cl) (kicks cl) (kicked cl) f (taken cl) (missed cl) (since cl).
Definition set_missed (n : nat) (cl : Client) : Client :=
  mkClient (send cl) (conn cl) (rd cl) (wr cl) (kicks cl) (kicked cl) (frames cl) (taken cl) n (since cl).

Definition put (a : N) (cl : Client) (h : Hub) : Hub :=
  mkHub (clients h) (<[a := cl]> (conns h)) (fwd h) (received h) (log h).
Definition with_clients (cs : gset N) (h : Hub) : Hub :=
  mkHub cs (conns h) (fwd h) (received h) (log h).
Definition with_fwd (f : forwarder) (h : Hub) : Hub :=
  mkHub (clients h) (conns h) f (received h) (log h).

Definition get_client (a : N) : GoM Hub Client := λ h, from_option_panic (conns h !! a) h.
Definition update (a : N) (f : Client → Client) : GoM Hub unit :=
  cl ← get_client a; modify (put a (f cl)).

(** ** [Run] *)

(** The forwarding goroutine receives a payload, or returns. *)
Definition forward_receive (m : msg) : GoM Hub unit :=
  modify (λ h, mkHub (clients h) (conns h) (FSending m) (received h ++ [m]) (log h)).
Definition forward_stop : GoM Hub unit := modify (with_fwd FDone).

Definition run_register (a : N) : GoM Hub unit :=
  modify (λ h, with_clients ({[a]} ∪ clients h) h).

Definition run_unregister (a : N) : GoM Hub unit :=
  registered ← gets (λ h, bool_decide (a ∈ clients h));
  if (registered : bool) then
    modify (λ h, with_clients (clients h ∖ {[a]}) h);;
    cl ← get_client a;
    c ← lift (close_chan (send cl));
    modify (put a (set_send c cl))
  else mret tt.

(** [make(chan []byte, 256)]. *)
Definition send_cap : nat := 256.

(** The body of [for client := range h.clients]: a full buffer starts a
    goroutine that asks for the client's removal. *)
Definition offer (m : msg) (a : N) : GoM Hub unit :=
  cl ← get_client a;
  r ← lift (try_send send_cap m (send cl));
  if (r.1 : bool) then modify (put a (set_send r.2 cl))
  else modify (put a (set_missed (S (missed cl)) (set_kicks (S (kicks cl)) (kicked cl) cl))).

(** The range loop, in the order [ord] Go's map iteration happens to take. *)
Fixpoint offer_all (m : msg) (ord : list N) : GoM Hub unit :=
  match ord with
  | [] => mret tt
  | a :: ord' => offer m a;; offer_all m ord'
  end.

(** The rendezvous on [h.broadcast] and its case. *)
Definition run_broadcast (m : msg) (ord : list N) : GoM Hub unit :=
  modify (λ h, mkHub (clients h) (conns h) FSelect (received h) (log h ++ [m]));;
  offer_all m ord.

(** ** The clients' goroutines *)

(** [ServeWs] once the connection is upgraded. *)
Definition ServeWs (a : N) : GoM Hub unit :=
  modify (λ h, put a (mkClient new_chan true RReading WSelect 0 0 [] [] 0 (length (log h))) h);;
  run_register a.

(** [ReadPump]: the read fails; the hub takes the request; the connection is
    closed. *)
Definition ReadPump_fails (a : N) : GoM Hub unit := update a (set_rd RUnregistering).
Definition ReadPump_unregisters (a : N) : GoM Hub unit :=
  run_unregister a;; update a (set_rd RClosing).
Definition ReadPump_closes (a : N) : GoM Hub unit :=
  update a (λ cl, set_rd RDone (set_conn false cl)).

(** The goroutine started for a full buffer. *)
Definition kick_unregisters (a : N) : GoM Hub unit :=
  run_unregister a;; update a (λ cl, set_kicks (pred (kicks cl)) (S (kicked cl)) cl).
Definition kick_closes (a : N) : GoM Hub unit :=
  update a (λ cl, set_kicks (kicks cl) (pred (kicked cl)) (set_conn false cl)).

(** [WritePump] returns: its deferred call closes the connection. *)
Definition writer_return (cl : Client) : Client := set_wr WDone (set_conn false cl).

(** [message, ok := <-c.send], and the first write; [ok] tells whether
    [NextWriter] succeeds. *)
Definition WritePump_next (a : N) (ok : bool) : GoM Hub unit :=
  cl ← get_client a;
  r ← lift (recv (send cl));
  match r with
  | (None, c) => modify (put a (writer_return (set_send c cl)))
  | (Some m, c) =>
      let cl := set_taken (taken cl ++ [m]) (set_send c cl) in
      if ok then modify (put a (set_wr (WOpened [Some m]) cl))
      else modify (put a (writer_return cl))
  end.

(** [n := len(c.send)]. *)
Definition WritePump_len (a : N) : GoM Hub unit :=
  update a (λ cl, match wr cl with
                  | WOpened f => set_wr (WDraining f (length (cBuf (send cl)))) cl
                  | _ => cl
                  end).

(** One turn of [for i := 0; i < n; i++]. *)
Definition WritePump_drain (a : N) : GoM Hub unit :=
  cl ← get_client a;
  match wr cl with
  | WDraining f (S n) =>
      r ← lift (recv (send cl));
      modify (put a (set_wr (WDraining (f ++ [r.1]) n)
        (set_taken (taken cl ++ option_list r.1) (set_send r.2 cl))))
  | _ => mret tt
  end.

(** [w.Close()] flushes the frame; [ok] tells whether it succeeds. *)
Definition WritePump_flush (a : N) (ok : bool) : GoM Hub unit :=
  update a (λ cl, match wr cl with
                  | WDraining f 0 =>
                      if ok then set_wr WSelect (set_frames (frames cl ++ [f]) cl)
                      else writer_return cl
                  | _ => cl
                  end).

(** The ticker's case. *)
Definition WritePump_ping (a : N) (ok : bool) : GoM Hub unit :=
  if ok then mret tt else update a writer_return.

(** ** Interleavings *)

Inductive action :=
  | Serve (a : N)
  | Receive (m : msg)
  | Stop
  | Broadcast (m : msg) (ord : list N)
  | ReadFails (a : N)
  | ReadUnregisters (a : N)
  | ReadCloses (a : N)
  | KickUnregisters (a : N)
  | KickCloses (a : N)
  | WriteNext (a : N) (ok : bool)
  | WriteLen (a : N)
  | WriteDrain (a : N)
  | WriteFlush (a : N) (ok : bool)
  | WritePing (a : N) (ok : bool).

Definition perform (act : action) : GoM Hub unit :=
  match act with
  | Serve a => ServeWs a
  | Receive m => forward_receive m
  | Stop => forward_stop
  | Broadcast m ord => run_broadcast m ord
  | ReadFails a => ReadPump_fails a
  | ReadUnregisters a => ReadPump_unregisters a
  | ReadCloses a => ReadPump_closes a
  | KickUnregisters a => kick_unregisters a
  | KickCloses a => kick_closes a
  | WriteNext a ok => WritePump_next a ok
  | WriteLen a => WritePump_len a
  | WriteDrain a => WritePump_drain a
  | WriteFlush a ok => WritePump_flush a ok
  | WritePing a ok => WritePump_ping a ok
  end.

(** When the goroutine that performs the action is there to do so.  The case
    of a message in the writer's [select] is ready when the channel holds one
    or is closed; the receive in its inner loop is attempted whatever the
    channel holds.  Nothing is sent on a connection that was closed. *)
Definition client_at (h : Hub) (a : N) (P : Client → Prop) : Prop :=
  ∃ cl, conns h !! a = Some cl ∧ P cl.
Definition enabled (act : action) (h : Hub) : Prop :=
  match act with
  | Serve a => conns h !! a = None
  | Receive _ | Stop => fwd h = FSelect
  | Broadcast m ord => fwd h = FSending m ∧ ord ≡ₚ elements (clients h)
  | ReadFails a => client_at h a (λ cl, rd cl = RReading)
  | ReadUnregisters a => client_at h a (λ cl, rd cl = RUnregistering)
  | ReadCloses a => client_at h a (λ cl, rd cl = RClosing)
  | KickUnregisters a => client_at h a (λ cl, 0 < kicks cl)
  | KickCloses a => client_at h a (λ cl, 0 < kicked cl)
  | WriteNext a ok => client_at h a (λ cl, wr cl = WSelect ∧ (ok = true → conn cl = true) ∧
      (cBuf (send cl) ≠ [] ∨ cClosed (send cl) = true))
  | WriteLen a => client_at h a (λ cl, ∃ f, wr cl = WOpened f)
  | WriteDrain a => client_at h a (λ cl, ∃ f n, wr cl = WDraining f (S n))
  | WriteFlush a ok => client_at h a (λ cl, (∃ f, wr cl = WDraining f 0) ∧ (ok = true → conn cl = true))
  | WritePing a ok => client_at h a (λ cl, wr cl = WSelect ∧ (ok = true → conn cl = true))
  end.

Inductive lb_reachable : Hub → Prop :=
  | lb_new : lb_reachable NewHub
  | lb_step h act h' :
      lb_reachable h → enabled act h → perform act h = Ok (tt, h') → lb_reachable h'.
End hub.
Arguments Client : clear implicits.
Arguments Hub : clear implicits.
Arguments action : clear implicits.
Arguments pump_writer : clear implicits.
Arguments forwarder : clear implicits.
