(* ===== verification/LbHubProps.v ===== *)
(** * What the leaderboard's hub guarantees

    The properties of pkg/leaderboard/broadcast.go over all interleavings of
    the hub, the forwarding goroutine, the pumps and the goroutines that
    remove slow clients. *)

From stdpp Require Import prelude gmap list fin_maps fin_sets sets.
From Stdlib Require Import ZArith Lia.
From S2P Require Import Prelude GoChan LbHub.

Section inv.
Context {msg : Type}.
Implicit Types (h : Hub msg) (cl : Client msg) (m : msg) (l : list msg).

(** ** The invariant *)

(** What the writer has on its hands. *)
Definition frame_ok (w : pump_writer msg) (fs : list (list (option msg))) (t : list msg) (buf : list msg) :
    Prop :=
  match w with
  | WSelect => concat fs = Some <$> t
  | WOpened f => concat fs ++ f = Some <$> t
  | WDraining f n => concat fs ++ f = Some <$> t ∧ n <= length buf
  | WDone => concat fs `prefix_of` (Some <$> t)
  end.

(** Of a client, given whether it is in the map and what was broadcast. *)
Record lb_client_ok (reg : bool) (l : list msg) (cl : Client msg) : Prop := {
  lo_open : cClosed (send cl) = negb reg;
  lo_cap : length (cBuf (send cl)) <= send_cap;
  lo_sub : taken cl ++ cBuf (send cl) `sublist_of` drop (since cl) l;
  lo_run : missed cl = 0 → taken cl ++ cBuf (send cl) `prefix_of` drop (since cl) l;
  lo_count : reg = true → length (taken cl ++ cBuf (send cl)) + missed cl = length l - since cl;
  lo_kick : 0 < missed cl → reg = true → 0 < kicks cl;
  lo_frames : frame_ok (wr cl) (frames cl) (taken cl) (cBuf (send cl));
  lo_since : since cl <= length l;
}.

Definition lb_registered h (a : N) : bool := bool_decide (a ∈ clients h).

Record lb_ok h : Prop := {
  lb_clients a : a ∈ clients h → is_Some (conns h !! a);
  lb_client a cl : conns h !! a = Some cl → lb_client_ok (lb_registered h a) (log h) cl;
  lb_fwd : received h = log h ++ match fwd h with FSending m => [m] | _ => [] end;
}.

(** ** What the steps do to a client *)

Lemma lb_ok_new l : lb_client_ok true l (mkClient new_chan true RReading WSelect 0 0 [] [] 0 (length l)).
Proof.
  split; cbn [send cBuf new_chan taken missed since kicks wr frames app length]; try done; try lia;
    [apply sublist_nil_l|intros _; apply prefix_nil].
Qed.

(** Broadcasting to a client with room, with a full buffer, and past one that
    has left. *)
Lemma lb_ok_sent l m cl :
  lb_client_ok true l cl → length (cBuf (send cl)) < send_cap →
  lb_client_ok true (l ++ [m]) (set_send (mkChan (cBuf (send cl) ++ [m]) false) cl).
Proof.
  intros [Ho Hc Hs Hr Hn Hk Hf Hsi] Hlt. split; cbn; try done.
  - rewrite length_app. cbn. lia.
  - rewrite drop_app_le, app_assoc by done. by apply sublist_app.
  - intros Hm. specialize (Hr Hm). rewrite drop_app_le, app_assoc by done.
    rewrite (prefix_length_eq _ _ Hr); [done|]. rewrite length_drop. specialize (Hn eq_refl). lia.
  - intros _. specialize (Hn eq_refl). rewrite !length_app in *. cbn. lia.
  - destruct (wr cl); cbn in *; try done. destruct Hf. rewrite length_app. split; [done|lia].
  - rewrite length_app. lia.
Qed.

Lemma lb_ok_missed l m cl :
  lb_client_ok true l cl → send_cap <= length (cBuf (send cl)) →
  lb_client_ok true (l ++ [m])
    (set_missed (S (missed cl)) (set_kicks (S (kicks cl)) (kicked cl) cl)).
Proof.
  intros [Ho Hc Hs Hr Hn Hk Hf Hsi] Hge. split; cbn; try done; try lia.
  - rewrite drop_app_le by done. by apply sublist_inserts_r.
  - intros _. specialize (Hn eq_refl). rewrite !length_app in *. cbn. lia.
  - rewrite length_app. lia.
Qed.

Lemma lb_ok_later l m cl : lb_client_ok false l cl → lb_client_ok false (l ++ [m]) cl.
Proof.
  intros [Ho Hc Hs Hr Hn Hk Hf Hsi]. split; try done.
  - rewrite drop_app_le by done. by apply sublist_inserts_r.
  - intros Hm. rewrite drop_app_le by done. by apply prefix_app_r, Hr.
  - rewrite length_app. lia.
Qed.

Lemma lb_ok_closed l cl :
  lb_client_ok true l cl → lb_client_ok false l (set_send (mkChan (cBuf (send cl)) true) cl).
Proof. intros [Ho Hc Hs Hr Hn Hk Hf Hsi]. by split. Qed.

(** Steps that touch neither the channel nor what was taken from it. *)
Lemma lb_ok_same reg l cl cl' :
  lb_client_ok reg l cl →
  (send cl', taken cl', missed cl', since cl') = (send cl, taken cl, missed cl, since cl) →
  (0 < kicks cl → reg = true → 0 < kicks cl') →
  frame_ok (wr cl') (frames cl') (taken cl) (cBuf (send cl)) →
  lb_client_ok reg l cl'.
Proof.
  intros [Ho Hc Hs Hr Hn Hk Hf Hsi] [= E1 E2 E3 E4] Hk' Hf'.
  split; rewrite ?E1, ?E2, ?E3, ?E4; auto.
Qed.

(** The writer takes a message. *)
Lemma lb_ok_taken reg l cl m buf w :
  lb_client_ok reg l cl → cBuf (send cl) = m :: buf →
  frame_ok w (frames cl) (taken cl ++ [m]) buf →
  lb_client_ok reg l
    (set_wr w (set_taken (taken cl ++ [m]) (set_send (mkChan buf (cClosed (send cl))) cl))).
Proof.
  intros [Ho Hc Hs Hr Hn Hk Hf Hsi] Hb Hf'. rewrite Hb in *.
  assert (Happ : (taken cl ++ [m]) ++ buf = taken cl ++ m :: buf) by by rewrite <-app_assoc.
  split; cbn in *; rewrite ?Happ; auto. lia.
Qed.

Lemma frame_return w fs t buf : frame_ok w fs t buf → frame_ok WDone fs t buf.
Proof.
  destruct w as [|f|f n|]; cbn; [by intros ->|intros <-|intros [<- _]|done]; by apply prefix_app_r.
Qed.
Lemma frame_return_more w fs t buf m : frame_ok w fs t (m :: buf) → frame_ok WDone fs (t ++ [m]) buf.
Proof. intros H%frame_return. cbn in *. rewrite fmap_app. by apply prefix_app_r. Qed.

(** ** The hub's steps *)

Lemma lb_get_client h a cl : conns h !! a = Some cl → get_client a h = Ok (cl, h).
Proof. intros H. unfold get_client. by rewrite H. Qed.
#[local] Hint Resolve lb_get_client : go.

Lemma lb_update h a f cl : conns h !! a = Some cl → update a f h = Ok (tt, put a (f cl) h).
Proof. intros H. unfold update. go_step. done. Qed.

Lemma lb_ok_put h a cl :
  lb_ok h → lb_client_ok (lb_registered h a) (log h) cl → lb_ok (put a cl h).
Proof.
  intros [Hd Hc Hf] Hcl. split; cbn; [..|done].
  - intros b Hb. rewrite lookup_insert_is_Some. destruct (decide (a = b)); auto.
  - intros b cl' Hb. unfold lb_registered in *. cbn.
    apply lookup_insert_Some in Hb as [[-> ->]|[_ Hb]]; auto.
Qed.

(** A step that replaces one client by one that is as good. *)
Lemma lb_update_ok h a f cl :
  lb_ok h → conns h !! a = Some cl → lb_client_ok (lb_registered h a) (log h) (f cl) →
  ∃ h', update a f h = Ok (tt, h') ∧ lb_ok h'.
Proof. intros Hok Hcl Hf. rewrite (lb_update _ _ _ _ Hcl). eauto using lb_ok_put. Qed.

Lemma lb_unregister_ok h a cl :
  lb_ok h → conns h !! a = Some cl →
  ∃ h' cl', run_unregister a h = Ok (tt, h') ∧ lb_ok h' ∧ conns h' !! a = Some cl' ∧
    lb_registered h' a = false ∧ (rd cl', wr cl', kicks cl', kicked cl') = (rd cl, wr cl, kicks cl, kicked cl).
Proof.
  intros Hok Hcl. unfold run_unregister. go_step. case_bool_decide as Hreg.
  2:{ exists h, cl. split_and!; try done. by apply bool_decide_false. }
  pose proof (lb_client _ Hok _ _ Hcl) as Hc. unfold lb_registered in Hc.
  rewrite bool_decide_true in Hc by done. pose proof (lo_open _ _ _ Hc) as Hopen. cbn in Hopen.
  do 3 go_step. eexists _, _. split_and!; [done| |apply lookup_insert_eq| |done].
  - destruct Hok as [Hd Hcs Hf]. split; cbn; [..|done].
    + intros b [Hb Hne]%elem_of_difference. rewrite lookup_insert_ne by set_solver. auto.
    + intros b cl' Hb. apply lookup_insert_Some in Hb as [[<- <-]|[Hne Hb]]; unfold lb_registered; cbn.
      * rewrite bool_decide_false by set_solver. by apply lb_ok_closed.
      * rewrite (bool_decide_ext _ (b ∈ clients h)) by set_solver. by apply Hcs.
  - apply bool_decide_false. cbn. set_solver.
Qed.

(** In the middle of a broadcast: [ord] has yet to be served. *)
Record lb_offering (m : msg) (l : list msg) (ord : list N) h : Prop := {
  lf_log : log h = l ++ [m];
  lf_nodup : NoDup ord;
  lf_ord a : a ∈ ord → a ∈ clients h;
  lf_clients a : a ∈ clients h → is_Some (conns h !! a);
  lf_client a cl : conns h !! a = Some cl →
    lb_client_ok (lb_registered h a) (if bool_decide (a ∈ ord) then l else l ++ [m]) cl;
  lf_fwd : received h = log h ++ match fwd h with FSending m => [m] | _ => [] end;
}.

Lemma lb_offering_served m l a ord h cl' :
  lb_offering m l (a :: ord) h → lb_client_ok true (l ++ [m]) cl' → lb_offering m l ord (put a cl' h).
Proof.
  intros [Hl [Ha Hnd]%NoDup_cons Ho Hd Hc Hf] Hcl. split; cbn; auto.
  - intros b Hb. apply Ho. by apply elem_of_cons; right.
  - intros b Hb. rewrite lookup_insert_is_Some. destruct (decide (a = b)); auto.
  - intros b cl Hb. apply lookup_insert_Some in Hb as [[<- <-]|[Hne Hb]]; unfold lb_registered; cbn.
    + rewrite (bool_decide_false (a ∈ ord)) by done.
      by rewrite bool_decide_true by (apply Ho; apply elem_of_cons; auto).
    + specialize (Hc _ _ Hb). erewrite (bool_decide_ext (b ∈ ord)); [exact Hc|].
      rewrite elem_of_cons. naive_solver.
Qed.

Lemma lb_offer_step m l a ord h :
  lb_offering m l (a :: ord) h → ∃ h', offer m a h = Ok (tt, h') ∧ lb_offering m l ord h'.
Proof.
  intros Hoff. assert (Hreg : a ∈ clients h) by (apply (lf_ord _ _ _ _ Hoff), elem_of_cons; auto).
  destruct (lf_clients _ _ _ _ Hoff _ Hreg) as [cl Hcl].
  pose proof (lf_client _ _ _ _ Hoff _ _ Hcl) as Hc. unfold lb_registered in Hc.
  rewrite !bool_decide_true in Hc by (done || apply elem_of_cons; auto).
  pose proof (lo_open _ _ _ Hc) as Hopen. cbn in Hopen. unfold offer, try_send. go_step. rewrite Hopen.
  destruct (Nat.ltb_spec (length (cBuf (send cl))) send_cap) as [Hlt|Hge]; go_step; cbn [fst snd];
    (eexists; split; [done|]); (eapply lb_offering_served; [done|]).
  - by apply lb_ok_sent.
  - by apply lb_ok_missed.
Qed.

Lemma lb_offer_all_ok m l ord h :
  lb_offering m l ord h → ∃ h', offer_all m ord h = Ok (tt, h') ∧ lb_offering m l [] h'.
Proof.
  revert h. induction ord as [|a ord IH]; intros h Hoff; [by exists h|]. cbn [offer_all].
  destruct (lb_offer_step _ _ _ _ _ Hoff) as (h1 & E & Hoff1).
  rewrite (bind_Ok _ _ _ _ _ E). by apply IH.
Qed.

Lemma lb_broadcast_ok h m ord :
  lb_ok h → fwd h = FSending m → ord ≡ₚ elements (clients h) →
  ∃ h', run_broadcast m ord h = Ok (tt, h') ∧ lb_ok h'.
Proof.
  intros [Hd Hc Hf] Hm Hord. rewrite Hm in Hf. unfold run_broadcast. go_step.
  assert (Hin : ∀ a, a ∈ ord ↔ a ∈ clients h) by (intros a; rewrite Hord; apply elem_of_elements).
  edestruct (lb_offer_all_ok m (log h) ord) as (h2 & E & [Hl _ _ Hd2 Hc2 Hf2]); last first.
  - exists h2. split; [exact E|]. split; [done| |done]. intros a cl Hcl. rewrite Hl.
    specialize (Hc2 _ _ Hcl). by rewrite bool_decide_false in Hc2 by apply not_elem_of_nil.
  - split; cbn; auto.
    + rewrite Hord. apply NoDup_elements.
    + intros a. apply Hin.
    + intros a cl Hcl. specialize (Hc _ _ Hcl). unfold lb_registered in *. cbn.
      rewrite (bool_decide_ext (a ∈ ord) (a ∈ clients h)) by apply Hin.
      case_bool_decide; [done|]. by apply lb_ok_later.
    + by rewrite app_nil_r.
Qed.

Lemma lb_serve_ok h a : lb_ok h → conns h !! a = None → ∃ h', ServeWs a h = Ok (tt, h') ∧ lb_ok h'.
Proof.
  intros [Hd Hc Hf] Hnew. unfold ServeWs, run_register. go_step. eexists. split; [done|].
  split; cbn; [..|done].
  - intros b [->%elem_of_singleton|Hb]%elem_of_union; [rewrite lookup_insert_eq; eauto|].
    rewrite lookup_insert_is_Some. destruct (decide (a = b)); auto.
  - intros b cl Hb. unfold lb_registered; cbn.
    apply lookup_insert_Some in Hb as [[<- <-]|[Hne Hb]].
    + rewrite bool_decide_true by set_solver. apply lb_ok_new.
    + rewrite (bool_decide_ext _ (b ∈ clients h)) by set_solver. by apply Hc.
Qed.
End inv.

Section props.
Context {msg : Type}.
Implicit Types (h : Hub msg) (cl : Client msg) (m : msg).
#[local] Hint Resolve lb_get_client : go.

(** ** The writer's steps *)

Lemma lb_next_ok h a ok cl :
  lb_ok h → conns h !! a = Some cl → wr cl = WSelect →
  cBuf (send cl) ≠ [] ∨ cClosed (send cl) = true →
  ∃ h', WritePump_next a ok h = Ok (tt, h') ∧ lb_ok h'.
Proof.
  intros Hok Hcl Hw Hready. pose proof (lb_client _ Hok _ _ Hcl) as Hc. unfold WritePump_next. go_step.
  pose proof (lo_frames _ _ _ Hc) as Hf. rewrite Hw in Hf. cbn in Hf.
  destruct (cBuf (send cl)) as [|m buf] eqn:Hb.
  - destruct Hready as [|Hclosed]; [done|].
    rewrite (bind_Ok _ _ h (None, send cl) h) by (unfold recv; by rewrite Hb, Hclosed).
    eexists. split; [done|]. apply lb_ok_put; [done|]. eapply lb_ok_same; [exact Hc|done|done|].
    by apply (frame_return WSelect).
  - go_step. destruct ok; (eexists; split; [done|]); (apply lb_ok_put; [done|]).
    + apply lb_ok_taken; [done..|]. cbn. rewrite Hf. by rewrite fmap_app.
    + eapply (lb_ok_same _ _ (set_wr WDone (set_taken (taken cl ++ [m])
        (set_send (mkChan buf (cClosed (send cl))) cl)))); [|done..|].
      * apply lb_ok_taken; [done..|]. by eapply (frame_return_more WSelect).
      * by eapply (frame_return_more WSelect).
Qed.

Lemma lb_drain_ok h a cl f n :
  lb_ok h → conns h !! a = Some cl → wr cl = WDraining f (S n) →
  ∃ h', WritePump_drain a h = Ok (tt, h') ∧ lb_ok h'.
Proof.
  intros Hok Hcl Hw. pose proof (lb_client _ Hok _ _ Hcl) as Hc. unfold WritePump_drain. go_step.
  pose proof (lo_frames _ _ _ Hc) as Hf. rewrite Hw in *. destruct Hf as [Hf Hn].
  destruct (cBuf (send cl)) as [|m buf] eqn:Hb; [cbn in Hn; lia|]. go_step. cbn [fst snd option_list].
  eexists. split; [done|]. apply lb_ok_put; [done|]. apply lb_ok_taken; [done..|]. cbn in *.
  rewrite app_assoc, Hf, fmap_app. split; [done|lia].
Qed.

(** Requests for removal are served once. *)
Lemma lb_served_ok h a cl f :
  lb_ok h → conns h !! a = Some cl →
  (∀ cl', (send (f cl'), taken (f cl'), missed (f cl'), since (f cl'), wr (f cl'), frames (f cl')) =
          (send cl', taken cl', missed cl', since cl', wr cl', frames cl')) →
  ∃ h', (run_unregister a;; update a f) h = Ok (tt, h') ∧ lb_ok h'.
Proof.
  intros Hok Hcl Hf. destruct (lb_unregister_ok _ _ _ Hok Hcl) as (h1 & cl1 & E & Hok1 & Hcl1 & Hreg & _).
  rewrite (bind_Ok _ _ _ _ _ E). eapply lb_update_ok; [done..|].
  specialize (Hf cl1). injection Hf as E1 E2 E3 E4 E5 E6.
  pose proof (lb_client _ Hok1 _ _ Hcl1) as Hc1. rewrite Hreg in *.
  eapply lb_ok_same; [exact Hc1|congruence|done|]. rewrite E5, E6. apply (lo_frames _ _ _ Hc1).
Qed.

Lemma lb_perform_ok h act :
  lb_ok h → enabled act h → ∃ h', perform act h = Ok (tt, h') ∧ lb_ok h'.
Proof.
  intros Hok. destruct act as [a|m| |m ord|a|a|a|a|a|a ok|a|a|a ok|a ok]; cbn [enabled perform].
  - by apply lb_serve_ok.
  - intros Hf. eexists. split; [done|]. destruct Hok as [Hd Hc Hr]. split; cbn; [done..|].
    by rewrite Hr, Hf, app_nil_r.
  - intros Hf. eexists. split; [done|]. destruct Hok as [Hd Hc Hr]. split; cbn; [done..|].
    by rewrite Hr, Hf.
  - intros [Hf Hord]. by apply lb_broadcast_ok.
  - intros (cl & Hcl & _). pose proof (lb_client _ Hok _ _ Hcl) as Hc. eapply lb_update_ok; [done..|].
    eapply lb_ok_same; [exact Hc|done|done|]. apply (lo_frames _ _ _ Hc).
  - intros (cl & Hcl & _). by eapply lb_served_ok.
  - intros (cl & Hcl & _). pose proof (lb_client _ Hok _ _ Hcl) as Hc. eapply lb_update_ok; [done..|].
    eapply lb_ok_same; [exact Hc|done|done|]. apply (lo_frames _ _ _ Hc).
  - intros (cl & Hcl & _). by eapply lb_served_ok.
  - intros (cl & Hcl & _). pose proof (lb_client _ Hok _ _ Hcl) as Hc. eapply lb_update_ok; [done..|].
    eapply lb_ok_same; [exact Hc|done|done|]. apply (lo_frames _ _ _ Hc).
  - intros (cl & Hcl & Hw & _ & Hready). by eapply lb_next_ok.
  - intros (cl & Hcl & f & Hw). pose proof (lb_client _ Hok _ _ Hcl) as Hc. eapply lb_update_ok; [done..|].
    pose proof (lo_frames _ _ _ Hc) as Hf. rewrite Hw in *. eapply lb_ok_same; [exact Hc|done|done|].
    by split.
  - intros (cl & Hcl & f & n & Hw). by eapply lb_drain_ok.
  - intros (cl & Hcl & [f Hw] & _). pose proof (lb_client _ Hok _ _ Hcl) as Hc.
    eapply lb_update_ok; [done..|]. pose proof (lo_frames _ _ _ Hc) as Hf. rewrite Hw in *.
    destruct ok; (eapply lb_ok_same; [exact Hc|done|done|]).
    + destruct Hf as [Hf _]. cbn. rewrite concat_app. cbn. by rewrite app_nil_r.
    + by eapply frame_return.
  - intros (cl & Hcl & Hw & _). unfold WritePump_ping. destruct ok; [by exists h|].
    pose proof (lb_client _ Hok _ _ Hcl) as Hc. eapply lb_update_ok; [done..|].
    eapply lb_ok_same; [exact Hc|done|done|]. eapply frame_return, (lo_frames _ _ _ Hc).
Qed.

Lemma lb_reachable_ok h : lb_reachable h → lb_ok h.
Proof.
  induction 1 as [|h act h' _ IH He E].
  - split; cbn; [set_solver|intros a cl; by rewrite lookup_empty|done].
  - destruct (lb_perform_ok h act IH He) as (h2 & E2 & ?). rewrite E in E2. by simplify_eq.
Qed.

(** The frames a client was sent, as a part of the broadcasts. *)
Lemma lb_frames h a cl :
  lb_reachable h → conns h !! a = Some cl →
  ∃ msgs, concat (frames cl) = Some <$> msgs ∧ msgs `sublist_of` drop (since cl) (log h) ∧
    (missed cl = 0 → msgs `prefix_of` drop (since cl) (log h)).
Proof.
  intros Hr Hcl. destruct (lb_reachable_ok h Hr) as [_ Hc _]. specialize (Hc _ _ Hcl).
  destruct Hc as [_ _ Hs Hrun _ _ Hfr _]. unfold lb_registered in *.
  apply frame_return in Hfr as [rest Hrest].
  apply fmap_app_inv in Hrest as (msgs & rest' & E1 & _ & E2). exists msgs. split; [done|].
  assert (Hp : msgs `prefix_of` taken cl ++ cBuf (send cl)) by (rewrite E2; by do 2 apply prefix_app_r).
  split; [|intros Hm; etrans; [exact Hp|auto]]. destruct Hp as [k Hp]. rewrite Hp in Hs.
  etrans; [|exact Hs]. by apply sublist_inserts_r.
Qed.

Lemma lb_log_received h : lb_reachable h → log h `prefix_of` received h.
Proof. intros Hr. destruct (lb_reachable_ok h Hr) as [_ _ Hf]. rewrite Hf. by apply prefix_app_r. Qed.

(** ** Properties *)

(** C27: No interleaving of the leaderboard hub's goroutines panics or gets
    stuck inside a step: whatever step a goroutine has come to runs to its
    end.  No channel is closed twice or sent to after closing, however many
    requests for the removal of one client are under way, and the writer's
    inner loop, which receives as many messages as it counted before, never
    waits for one, even when the channel is closed in between. *)
Theorem lb_hub_never_panics h act :
  lb_reachable h → enabled act h → ∃ h', perform act h = Ok (tt, h') ∧ lb_reachable h'.
Proof.
  intros Hr He. destruct (lb_perform_ok h act (lb_reachable_ok h Hr) He) as (h' & E & _).
  exists h'. split; [done|]. by eapply lb_step.
Qed.

(** C31: What the leaderboard's clients see.  The hub broadcasts the payloads
    received from Redis in their order, at most the last one being on its way.
    The frames a client was sent hold only real messages, in the order of the
    broadcasts since its registration, each at most once; as long as none was
    missed they are a prefix of those broadcasts.  A message is missed only
    when the buffer is full, and a client that missed one while registered
    has a request for its removal pending. *)
Theorem lb_hub_delivers h a cl :
  lb_reachable h → conns h !! a = Some cl →
  log h `prefix_of` received h ∧ length (received h) <= S (length (log h)) ∧
  (∃ msgs, concat (frames cl) = Some <$> msgs ∧ msgs `sublist_of` drop (since cl) (log h) ∧
    (missed cl = 0 → msgs `prefix_of` drop (since cl) (log h))) ∧
  (a ∈ clients h → 0 < missed cl → 0 < kicks cl) ∧
  (a ∈ clients h → length (taken cl) + length (cBuf (send cl)) + missed cl = length (log h) - since cl).
Proof.
  intros Hr Hcl. destruct (lb_reachable_ok h Hr) as [_ Hc Hf]. specialize (Hc _ _ Hcl).
  destruct Hc as [_ _ Hs Hrun Hn Hk Hfr _]. unfold lb_registered in *.
  split_and!.
  - rewrite Hf. by apply prefix_app_r.
  - rewrite Hf, length_app. destruct (fwd h); cbn; lia.
  - by eapply lb_frames.
  - intros Ha Hm. apply Hk; [done|]. by apply bool_decide_true.
  - intros Ha. rewrite <-length_app. apply Hn. by apply bool_decide_true.
Qed.
End props.

(** ** A run of the hub

    A client connects, two payloads are broadcast, the writer takes both into
    one frame and sends it. *)
Definition ex_lb_actions : list (action nat) :=
  [Serve 1%N; Receive 7; Broadcast 7 [1%N]; Receive 8; Broadcast 8 [1%N]; WriteNext 1%N true;
   WriteLen 1%N; WriteDrain 1%N; WriteFlush 1%N true].
Definition ex_lb_do (h : Hub nat) (act : action nat) : Hub nat :=
  match perform act h with Ok (_, h') => h' | _ => h end.
Definition ex_lb_hub : Hub nat := foldl ex_lb_do NewHub ex_lb_actions.

Lemma ex_lb_step h act : lb_reachable h → enabled act h → lb_reachable (ex_lb_do h act).
Proof.
  intros Hr He. unfold ex_lb_do. destruct (lb_perform_ok h act (lb_reachable_ok h Hr) He) as (h' & E & _).
  rewrite E. by eapply lb_step.
Qed.

Lemma ex_lb_reachable : lb_reachable ex_lb_hub.
Proof.
  unfold ex_lb_hub, ex_lb_actions. cbn [foldl]. do 9 (apply ex_lb_step; [|vm_compute; naive_solver]). constructor.
Qed.

Lemma lb_hub_never_panics_witness :
  ∃ h', perform (ReadFails 1%N) ex_lb_hub = Ok (tt, h') ∧ lb_reachable h'.
Proof.
  apply (lb_hub_never_panics ex_lb_hub (ReadFails 1%N) ex_lb_reachable).
  eexists. split; vm_compute; reflexivity.
Defined.

Definition ex_lb_client : Client nat :=
  mkClient new_chan true RReading WSelect 0 0 [[Some 7; Some 8]] [7; 8] 0 0.

Lemma lb_hub_delivers_witness :
  ∃ msgs, [Some 7; Some 8] = Some <$> msgs ∧ msgs `sublist_of` [7; 8] ∧ (0 = 0 → msgs `prefix_of` [7; 8]).
Proof.
  exact (proj1 (proj2 (proj2 (lb_hub_delivers ex_lb_hub 1%N ex_lb_client ex_lb_reachable
    ltac:(vm_compute; reflexivity))))).
Defined.
