(* ===== verification/Sandbox.v ===== *)
(** * The sandbox

    pkg/sandbox: docker.go (containers, images, the tar archive of a build
    context) and builder.go (building a submission's image).

    The Docker daemon is not part of the repository: the class [Docker] has
    the calls that are made, over any type of daemon states, and [DockerLaws]
    what the engine's API documents about them.  Of the standard library,
    [archive/tar]'s writer is modelled at the level of its members, with the
    errors it reports, and the file system as a tree. *)

From stdpp Require Import prelude gmap strings list fin_maps.
From Stdlib Require Import ZArith Lia Ascii.
From S2P Require Import Prelude.

Local Open Scope Z_scope.

(** ** Files *)

(** A file or symbolic link with what [os.ReadFile] gives for it, [None] when
    that fails (no permission, a link to nowhere or to a directory); or a
    directory with its entries in the order of [os.ReadDir], [None] when it
    cannot be read. *)
Inductive node :=
  | Leaf (symlink : bool) (content : option string)
  | Dir (entries : option (list (string * node))).

(** ** [archive/tar] *)

Record tar_header := mkHeader { hName : string; hMode : Z; hSize : Z }.

(** The members written, how many bytes of the last one are still due, and
    whether the archive was finished ([Close] writes the padding of the last
    member and the end-of-archive marker). *)
Record tar := mkTar { members : list (tar_header * string); due : Z; finished : bool }.
Definition NewWriter : tar := mkTar [] 0 false.

Inductive tar_error := ReadDirError | ReadFileError | MissedWriting | ErrHeader | ErrWriteTooLong.

Definition has_nul (s : string) : bool :=
  bool_decide (ascii_of_nat 0 ∈ String.list_ascii_of_string s).

Abbreviation TM := (GoM tar).

(** A name with a NUL byte cannot be encoded in any format. *)
Definition WriteHeader (hdr : tar_header) : TM (option tar_error) := λ t,
  if 0 <? due t then Ok (Some MissedWriting, t)
  else if has_nul (hName hdr) then Ok (Some ErrHeader, t)
  else Ok (None, mkTar (members t ++ [(hdr, "")]) (hSize hdr) (finished t)).

Definition append_data (data : string) (ms : list (tar_header * string)) : list (tar_header * string) :=
  match reverse ms with
  | (h, d) :: ms' => reverse ms' ++ [(h, d +:+ data)]
  | [] => []
  end.

Definition slen (s : string) : Z := Z.of_nat (String.length s).

Definition Write (data : string) : TM (option tar_error) := λ t,
  if due t <? slen data then
    Ok (Some ErrWriteTooLong,
        mkTar (append_data (String.substring 0 (Z.to_nat (due t)) data) (members t)) 0 (finished t))
  else Ok (None, mkTar (append_data data (members t)) (due t - slen data) (finished t)).

(** [if err := f(); err != nil { return err }] in front of what follows. *)
Definition checked {S E} (m : GoM S (option E)) (k : GoM S (option E)) : GoM S (option E) :=
  e ← m;
  match e with Some e => mret (Some e) | None => k end.

(** The file branch of [addDirToTar]. *)
Definition add_file (tarPath : string) (content : option string) : TM (option tar_error) :=
  match content with
  | None => mret (Some ReadFileError)
  | Some data =>
      checked (WriteHeader (mkHeader tarPath 420 (slen data)))
      (Write data)
  end.

Fixpoint addDirToTar (srcDir : node) (baseInTar : string) {struct srcDir} : TM (option tar_error) :=
  match srcDir with
  | Dir (Some entries) =>
      (fix loop (entries : list (string * node)) : TM (option tar_error) :=
         match entries with
         | [] => mret None
         | (name, entry) :: rest =>
             let tarPath := baseInTar +:+ "/" +:+ name in
             checked (match entry with
                      | Dir _ => addDirToTar entry tarPath
                      | Leaf _ content => add_file tarPath content
                      end)
             (loop rest)
         end) entries
  | _ => mret (Some ReadDirError)
  end.

(** ** The Docker daemon *)

(** An empty [User] leaves the user to the image. *)
Record container_config := mkConfig { User : string; Image : string; Env : list string }.
Record host_config := mkHost {
  NetworkMode : string; ReadonlyRootfs : bool; Memory : Z; NanoCPUs : Z;
  SecurityOpt : list string; CapDrop : list string;
}.
Record build_options := mkBuildOptions { Tags : list string; Dockerfile : string; Remove : bool }.

(** What reading the output stream of a build gives: its messages, and an
    error when the connection breaks before the end. *)
Inductive build_message :=
  | BuildOutput (text : string) | BuildFailed (text : string) | StreamError (text : string).

Class Docker (W : Type) := {
  ContainerCreate : container_config → host_config → GoM W (string + string);
  ContainerStart : string → GoM W (option string);
  ContainerStop : string → Z → GoM W (option string);
  ContainerRemove : string → bool → GoM W (option string);
  ContainerLogs : string → GoM W (string + string);
  ImageBuild : tar → build_options → GoM W (string + list build_message);
}.

(** ** docker.go *)

Section docker.
Context {W : Type} `{Docker W}.

(** [containerID[:12]] in the log lines. *)
Definition short_id (containerID : string) : GoM W string :=
  if (String.length containerID <? 12)%nat then panic
  else mret (String.substring 0 12 containerID).

Definition sandbox_config (imageName port : string) : container_config :=
  mkConfig "" imageName ["PORT=" +:+ port].
Definition sandbox_host : host_config :=
  mkHost "none" true (512 * 1024 * 1024) 1000000000 ["no-new-privileges:true"] ["ALL"].

(** An error, or the id of the container that runs. *)
Definition RunSandbox (imageName port : string) : GoM W (string + string) :=
  resp ← ContainerCreate (sandbox_config imageName port) sandbox_host;
  match resp with
  | inl e => mret (inl ("failed to create container: " +:+ e))
  | inr containerID =>
      short_id containerID;;
      err ← ContainerStart containerID;
      match err with
      | Some e => mret (inl ("failed to start container: " +:+ e))
      | None => short_id containerID;; mret (inr containerID)
      end
  end.

Definition StopAndRemove (containerID : string) : GoM W (option string) :=
  short_id containerID;;
  err ← ContainerStop containerID 5;
  (match err with Some _ => short_id containerID;; mret tt | None => mret tt end);;
  ContainerRemove containerID true.

Definition GetLogs (containerID : string) : GoM W (string + string) := ContainerLogs containerID.

(** [BuildImage]: the archive is handed over before its deferred [Close], and
    the output stream is read and thrown away, errors included. *)
Definition BuildImage (srcDir : node) (dockerfilePath imageTag : string) : GoM W (option string) :=
  r ← lift (addDirToTar srcDir "." NewWriter);
  match r with
  | (Some _, _) => mret (Some "failed to create build context tar")
  | (None, tw) =>
      resp ← ImageBuild tw (mkBuildOptions [imageTag] dockerfilePath true);
      match resp with
      | inl e => mret (Some ("docker build failed: " +:+ e))
      | inr _ => mret None
      end
  end.
End docker.

(** ** builder.go *)

(** The source directory's entries (it exists and can be read), the builder's
    Dockerfile if that can be read, and the daemon. *)
Record build_state (W : Type) := mkBuild {
  srcEntries : list (string * node);
  builderFile : option string;
  daemon : W;
}.
Arguments mkBuild {W}.
Arguments srcEntries {W}.
Arguments builderFile {W}.
Arguments daemon {W}.

Fixpoint entry_lookup (name : string) (es : list (string * node)) : option node :=
  match es with
  | [] => None
  | (n, e) :: es' => if decide (n = name) then Some e else entry_lookup name es'
  end.
Definition entry_remove (name : string) (es : list (string * node)) : list (string * node) :=
  filter (λ e, e.1 ≠ name) es.
(** Put an entry in its place, in byte order of the names. *)
Fixpoint entry_insert (name : string) (e : node) (es : list (string * node)) : list (string * node) :=
  match es with
  | [] => [(name, e)]
  | (n, x) :: es' => if String.ltb n name then (n, x) :: entry_insert name e es' else (name, e) :: es
  end.

(** [os.WriteFile] of a name in the directory: a directory of that name is an
    error, a symbolic link is written through. *)
Definition write_entry (name data : string) (es : list (string * node)) : option (list (string * node)) :=
  match entry_lookup name es with
  | Some (Dir _) => None
  | Some (Leaf link _) => Some (entry_insert name (Leaf link (Some data)) (entry_remove name es))
  | None => Some (entry_insert name (Leaf false (Some data)) es)
  end.

Section builder.
Context {W : Type} `{Docker W}.

Definition on_daemon {A} (m : GoM W A) : GoM (build_state W) A := λ s,
  match m (daemon s) with
  | Ok (a, w) => Ok (a, mkBuild (srcEntries s) (builderFile s) w)
  | Panic => Panic
  | NoFuel => NoFuel
  end.
Definition set_entries (es : list (string * node)) (s : build_state W) : build_state W :=
  mkBuild es (builderFile s) (daemon s).

(** [writable] tells whether the Dockerfile may be written and removed. *)
Definition BuildSubmission (submissionID : string) (writable : bool) :
    GoM (build_state W) (string + string) :=
  let imageTag := "submission-" +:+ submissionID +:+ ":latest" in
  builderDockerfile ← gets builderFile;
  match builderDockerfile with
  | None => mret (inl "could not read builder Dockerfile")
  | Some text =>
      es ← gets srcEntries;
      match (if writable then write_entry "Dockerfile" text es else None) with
      | None => mret (inl "could not write Dockerfile to source dir")
      | Some es' =>
          modify (set_entries es');;
          err ← on_daemon (BuildImage (Dir (Some es')) "Dockerfile" imageTag);
          modify (set_entries (entry_remove "Dockerfile" es'));;
          match err with
          | Some e => mret (inl ("build failed for submission " +:+ submissionID +:+ ": " +:+ e))
          | None => mret (inr imageTag)
          end
      end
  end.
End builder.

(** ** What the engine's API documents

    A call that fails may have been carried out all the same: the context can
    be cancelled, or the connection lost, after the daemon acted.  So an error
    says only that nothing else than the operation asked for has happened. *)

Record container := mkContainer { cConfig : container_config; cHost : host_config; cRunning : bool }.
Definition set_running (b : bool) (c : container) : container := mkContainer (cConfig c) (cHost c) b.

Class DockerLaws (W : Type) `{Docker W} := {
  containers : W → gmap string container;
  images : W → gmap string tar;
  create_docker_total c h w : ∃ r w', ContainerCreate c h w = Ok (r, w');
  create_docker_ok c h w id w' : ContainerCreate c h w = Ok (inr id, w') →
    containers w !! id = None ∧ containers w' = <[id := mkContainer c h false]> (containers w) ∧
    String.length id = 64%nat;
  create_docker_err c h w e w' : ContainerCreate c h w = Ok (inl e, w') →
    containers w' = containers w ∨
    ∃ id, containers w !! id = None ∧ containers w' = <[id := mkContainer c h false]> (containers w);
  start_total id w : ∃ e w', ContainerStart id w = Ok (e, w');
  start_ok id w w' c : ContainerStart id w = Ok (None, w') → containers w !! id = Some c →
    containers w' = <[id := set_running true c]> (containers w);
  start_err id w e w' : ContainerStart id w = Ok (Some e, w') →
    containers w' = containers w ∨
    ∃ c, containers w !! id = Some c ∧ containers w' = <[id := set_running true c]> (containers w);
  stop_total id t w : ∃ e w', ContainerStop id t w = Ok (e, w');
  stop_ok id t w w' c : ContainerStop id t w = Ok (None, w') → containers w !! id = Some c →
    containers w' = <[id := set_running false c]> (containers w);
  stop_err id t w e w' : ContainerStop id t w = Ok (Some e, w') →
    containers w' = containers w ∨
    ∃ c, containers w !! id = Some c ∧ containers w' = <[id := set_running false c]> (containers w);
  remove_total id f w : ∃ e w', ContainerRemove id f w = Ok (e, w');
  remove_ok id w w' : ContainerRemove id true w = Ok (None, w') → containers w' = delete id (containers w);
  remove_err id f w e w' : ContainerRemove id f w = Ok (Some e, w') →
    containers w' = containers w ∨ containers w' = delete id (containers w);
  build_total t o w : ∃ r w', ImageBuild t o w = Ok (r, w');
  build_ok t o w out w' : ImageBuild t o w = Ok (inr out, w') →
    (∀ e, (BuildFailed e ∉ out) ∧ (StreamError e ∉ out)) →
    ∀ tag, tag ∈ Tags o → images w' !! tag = Some t;
  build_failed t o w out w' e : ImageBuild t o w = Ok (inr out, w') → BuildFailed e ∈ out →
    images w' = images w;
  build_others t o w r w' tag : ImageBuild t o w = Ok (r, w') → tag ∉ Tags o →
    images w' !! tag = images w !! tag;
  build_containers t o w r w' : ImageBuild t o w = Ok (r, w') → containers w' = containers w;
}.
