(* ===== verification/SandboxProps.v ===== *)
(** * What the sandbox guarantees

    The archive of a build context against a reference listing of the source
    tree, the isolation of the containers that are started, and the course of
    a build; for every Docker daemon that satisfies the laws of [Sandbox], and
    a small in-memory daemon that does. *)

From stdpp Require Import prelude gmap strings list fin_maps.
From Stdlib Require Import ZArith Lia Ascii.
From S2P Require Import Prelude Sandbox.

Local Open Scope Z_scope.

(** ** Trees *)

Lemma node_induction (P : node → Prop) :
  (∀ link c, P (Leaf link c)) → P (Dir None) →
  (∀ es, Forall (λ e, P e.2) es → P (Dir (Some es))) → ∀ n, P n.
Proof.
  intros HL HN HD. fix IH 1. intros [link c|[es|]]; [apply HL| |apply HN]. apply HD.
  induction es as [|[name e] es IHes]; constructor; [apply IH|apply IHes].
Qed.

(** The file at a path, through directories. *)
Fixpoint file_at (path : list string) (n : node) : option string :=
  match path, n with
  | [], Leaf _ c => c
  | name :: path', Dir (Some es) => e ← entry_lookup name es; file_at path' e
  | _, _ => None
  end.

(** All files below a node with their paths, depth first; [None] when
    something cannot be read. *)
Fixpoint listing (n : node) : option (list (list string * string)) :=
  match n with
  | Leaf _ c => d ← c; Some [([], d)]
  | Dir None => None
  | Dir (Some es) =>
      (fix loop (es : list (string * node)) : option (list (list string * string)) :=
         match es with
         | [] => Some []
         | (name, e) :: es' =>
             l ← listing e; l' ← loop es'; Some ((prod_map (cons name) id <$> l) ++ l')
         end) es
  end.

Definition listings : list (string * node) → option (list (list string * string)) :=
  fix loop es :=
    match es with
    | [] => Some []
    | (name, e) :: es' => l ← listing e; l' ← loop es'; Some ((prod_map (cons name) id <$> l) ++ l')
    end.
Lemma listing_Dir es : listing (Dir (Some es)) = listings es.
Proof. done. Qed.

(** Names are unique in every directory. *)
Fixpoint names_unique (n : node) : Prop :=
  match n with
  | Dir (Some es) =>
      NoDup es.*1 ∧
      (fix loop (es : list (string * node)) : Prop :=
         match es with [] => True | (_, e) :: es' => names_unique e ∧ loop es' end) es
  | _ => True
  end.
Definition all_unique : list (string * node) → Prop :=
  fix loop es := match es with [] => True | (_, e) :: es' => names_unique e ∧ loop es' end.

Lemma all_unique_Forall es : all_unique es ↔ Forall (λ e, names_unique e.2) es.
Proof. induction es as [|[name e] es IH]; cbn; [by split|]. by rewrite Forall_cons, IH. Qed.

Lemma entry_lookup_Some es name e :
  NoDup es.*1 → entry_lookup name es = Some e ↔ (name, e) ∈ es.
Proof.
  induction es as [|[n x] es IH]; cbn; [by rewrite elem_of_nil|].
  intros [Hn Hnd]%NoDup_cons. rewrite elem_of_cons. case_decide as Hd.
  - subst n. split; [intros [= ->]; auto|]. intros [[= ->]|Hin]; [done|].
    destruct Hn. apply list_elem_of_fmap. by exists (name, e).
  - rewrite IH by done. naive_solver.
Qed.

Lemma listings_elem es l :
  listings es = Some l →
  ∀ path d, (path, d) ∈ l ↔
    ∃ name e l' path', (name, e) ∈ es ∧ listing e = Some l' ∧ (path', d) ∈ l' ∧ path = name :: path'.
Proof.
  revert l. induction es as [|[n x] es IH]; cbn; intros l Hl path d.
  - injection Hl as <-. split; [by intros ?%elem_of_nil|].
    intros (? & ? & ? & ? & Hin & _). by apply elem_of_nil in Hin.
  - apply bind_Some in Hl as (l1 & Hl1 & (l2 & Hl2 & [= <-])%bind_Some).
    rewrite elem_of_app, list_elem_of_fmap, (IH _ Hl2). split.
    + intros [([p' d'] & [= -> ->] & Hin)|(name & e & l' & path' & Hin & ?)].
      * exists n, x, l1, p'. rewrite elem_of_cons. auto.
      * exists name, e, l', path'. rewrite elem_of_cons. auto.
    + intros (name & e & l' & path' & [[= -> ->]|Hin]%elem_of_cons & Hl' & Hp & ->).
      * left. exists (path', d). simplify_eq. auto.
      * right. eauto 10.
Qed.

Lemma listings_Some es l :
  listings es = Some l → ∀ name e, (name, e) ∈ es → is_Some (listing e).
Proof.
  revert l. induction es as [|[n x] es IH]; cbn; intros l Hl name e; [by rewrite elem_of_nil|].
  apply bind_Some in Hl as (l1 & Hl1 & (l2 & Hl2 & [= <-])%bind_Some).
  rewrite elem_of_cons. intros [[= -> ->]|Hin]; eauto.
Qed.

(** The listing has exactly the files. *)
Lemma listing_files n l :
  names_unique n → listing n = Some l → ∀ path d, (path, d) ∈ l ↔ file_at path n = Some d.
Proof.
  revert l. induction n as [link c| |es IH] using node_induction; intros l Hu Hl path d.
  - cbn in Hl. apply bind_Some in Hl as (x & -> & [= <-]). rewrite list_elem_of_singleton.
    destruct path; cbn; naive_solver.
  - done.
  - destruct Hu as [Hnd Hu]. fold (all_unique es) in Hu. rewrite all_unique_Forall in Hu.
    rewrite listing_Dir in Hl. rewrite (listings_elem _ _ Hl).
    destruct path as [|name path]; cbn; [naive_solver|]. rewrite bind_Some. split.
    + intros (n & e & l' & p & Hin & Hl' & Hp & [= -> ->]). exists e.
      rewrite entry_lookup_Some by done. split; [done|].
      rewrite !Forall_forall in *. by apply (IH _ Hin l' (Hu _ Hin) Hl').
    + intros (e & He & Hf). rewrite entry_lookup_Some in He by done.
      destruct (listings_Some _ _ Hl _ _ He) as [l' Hl']. rewrite !Forall_forall in *.
      exists name, e, l', path. split_and!; [done..| |done]. by apply (IH _ He l' (Hu _ He) Hl').
Qed.

(** ** The archive *)

Definition tar_path (base : string) (path : list string) : string :=
  foldl (λ b name, b +:+ "/" +:+ name) base path.
Definition archived (base : string) (l : list (list string * string)) : list (tar_header * string) :=
  (λ f, (mkHeader (tar_path base f.1) 420 (slen f.2), f.2)) <$> l.
Definition encodable (base : string) (l : list (list string * string)) : bool :=
  forallb (λ f, negb (has_nul (tar_path base f.1))) l.

Definition add_node (n : node) (tarPath : string) : TM (option tar_error) :=
  match n with Dir _ => addDirToTar n tarPath | Leaf _ c => add_file tarPath c end.
Definition add_entries (base : string) : list (string * node) → TM (option tar_error) :=
  fix loop es :=
    match es with
    | [] => mret None
    | (name, e) :: es' => checked (add_node e (base +:+ "/" +:+ name)) (loop es')
    end.
Lemma addDirToTar_entries es base : addDirToTar (Dir (Some es)) base = add_entries base es.
Proof. done. Qed.

(** Adding [l] at [base]: all of it, or an error. *)
Definition adds (base : string) (l : option (list (list string * string))) (t : tar)
    (r : res (option tar_error * tar)) : Prop :=
  match l with
  | Some l =>
      if encodable base l then r = Ok (None, mkTar (members t ++ archived base l) 0 (finished t))
      else ∃ e t', r = Ok (Some e, t')
  | None => ∃ e t', r = Ok (Some e, t')
  end.

Lemma append_data_snoc ms h d data : append_data data (ms ++ [(h, d)]) = ms ++ [(h, d +:+ data)].
Proof. unfold append_data. by rewrite reverse_snoc, reverse_involutive. Qed.

Lemma add_file_spec tarPath c t :
  due t = 0 → adds tarPath (d ← c; Some [([], d)]) t (add_file tarPath c t).
Proof.
  intros Hd. destruct c as [data|]; cbn; [|eauto]. unfold checked.
  unfold mbind, GoM_bind, WriteHeader. rewrite Hd. cbn [hName hSize]. rewrite andb_true_r.
  destruct (has_nul tarPath); cbn; [eauto|]. unfold Write. cbn [due members finished].
  rewrite Z.ltb_irrefl, append_data_snoc. cbn. by rewrite Z.sub_diag.
Qed.

Lemma archived_under base name l :
  archived base (prod_map (cons name) id <$> l) = archived (base +:+ "/" +:+ name) l.
Proof. unfold archived. rewrite <-list_fmap_compose. by apply list_fmap_ext; intros ? [p d]. Qed.
Lemma encodable_under base name l :
  encodable base (prod_map (cons name) id <$> l) = encodable (base +:+ "/" +:+ name) l.
Proof. unfold encodable. induction l as [|[p d] l IH]; [done|]. cbn. by f_equal. Qed.
Lemma encodable_app base l1 l2 : encodable base (l1 ++ l2) = encodable base l1 && encodable base l2.
Proof. apply forallb_app. Qed.

Lemma add_entries_spec base es t :
  Forall (λ e, ∀ base t, due t = 0 → adds base (listing e.2) t (add_node e.2 base t)) es →
  due t = 0 → adds base (listings es) t (add_entries base es t).
Proof.
  intros Hes. revert t. induction Hes as [|[name e] es He _ IH]; intros t Hd.
  { cbn. rewrite app_nil_r. destruct t as [ms due fin]; cbn in *. by subst due. }
  cbn [listings add_entries]. specialize (He (base +:+ "/" +:+ name) t Hd). cbn [snd] in He.
  unfold checked, mbind at 3, GoM_bind. destruct (listing e) as [l|]; cbn [mbind option_bind].
  2:{ destruct He as (err & t' & ->). cbn. eauto. }
  cbn [adds] in He. destruct (encodable (base +:+ "/" +:+ name) l) eqn:Hen.
  2:{ destruct He as (err & t' & ->). destruct (listings es); cbn; [|eauto].
      rewrite encodable_app, encodable_under, Hen. cbn. eauto. }
  rewrite He. specialize (IH (mkTar (members t ++ archived (base +:+ "/" +:+ name) l) 0 (finished t)) eq_refl).
  destruct (listings es) as [l'|]; cbn in *; [|done].
  rewrite encodable_app, encodable_under, Hen. cbn. destruct (encodable base l'); [|done].
  rewrite IH. unfold archived at 3. rewrite fmap_app. fold (archived base l').
  fold (archived base (prod_map (cons name) id <$> l)). by rewrite archived_under, app_assoc.
Qed.

Lemma add_node_spec n : ∀ base t, due t = 0 → adds base (listing n) t (add_node n base t).
Proof.
  induction n as [link c| |es IH] using node_induction; intros base t Hd.
  - by apply add_file_spec.
  - cbn. eauto.
  - rewrite listing_Dir. cbn [add_node]. rewrite addDirToTar_entries. by apply add_entries_spec.
Qed.

(** C32: A build context is complete and holds nothing else.  For every source
    tree whose names are unique in each directory (as file systems
    guarantee), [addDirToTar] either fails, exactly when something cannot be
    read or a name cannot be encoded, or it has written every file of the tree
    once, under its path from the root, with its contents and size, and no
    other member.  The archive is not finished then. *)
Theorem build_context_exact tree :
  names_unique tree → (∃ es, tree = Dir (Some es)) →
  match listing tree with
  | Some l =>
      (∀ path d, (path, d) ∈ l ↔ file_at path tree = Some d) ∧
      if encodable "." l then addDirToTar tree "." NewWriter = Ok (None, mkTar (archived "." l) 0 false)
      else ∃ e t, addDirToTar tree "." NewWriter = Ok (Some e, t)
  | None => ∃ e t, addDirToTar tree "." NewWriter = Ok (Some e, t)
  end.
Proof.
  intros Hu [es ->]. pose proof (add_node_spec (Dir (Some es)) "." NewWriter eq_refl) as Hadd.
  destruct (listing (Dir (Some es))) as [l|] eqn:Hl; [|exact Hadd].
  split; [by apply listing_files|exact Hadd].
Qed.

Definition ex_tree : node :=
  Dir (Some [("go.mod", Leaf false (Some "module m")); ("src", Dir (Some [("main.go", Leaf false (Some "package main"))]))]).

Lemma build_context_exact_witness :
  addDirToTar ex_tree "." NewWriter =
    Ok (None, mkTar [(mkHeader "./go.mod" 420 8, "module m"); (mkHeader "./src/main.go" 420 12, "package main")] 0 false).
Proof.
  refine (proj2 (build_context_exact ex_tree _ _)); [|by eexists].
  cbn. split_and!; try done; apply (bool_decide_unpack _); vm_compute; exact I.
Defined.

(** ** Containers *)

Section docker.
Context {W : Type} `{HD : Docker W} {HL : DockerLaws W}.
Implicit Types (w : W).

(** The six constraints that the comment on [RunSandbox] lists. *)
Definition isolated (c : container) : Prop :=
  NetworkMode (cHost c) = "none" ∧ ReadonlyRootfs (cHost c) = true ∧
  Memory (cHost c) = 512 * 2 ^ 20 ∧ NanoCPUs (cHost c) = 10 ^ 9 ∧
  SecurityOpt (cHost c) = ["no-new-privileges:true"] ∧ CapDrop (cHost c) = ["ALL"].

Lemma short_id_Ok id w : (12 <= String.length id)%nat → short_id id w = Ok (String.substring 0 12 id, w).
Proof. intros H. unfold short_id. by rewrite (proj2 (Nat.ltb_ge _ _) H). Qed.

Lemma RunSandbox_cases image port w :
  ∃ r w', RunSandbox image port w = Ok (r, w') ∧
    match r with
    | inr id => String.length id = 64%nat ∧ containers w !! id = None ∧
        containers w' = <[id := mkContainer (sandbox_config image port) sandbox_host true]> (containers w)
    | inl _ => containers w' = containers w ∨ ∃ id running, containers w !! id = None ∧
        containers w' = <[id := mkContainer (sandbox_config image port) sandbox_host running]> (containers w)
    end.
Proof.
  unfold RunSandbox.
  destruct (create_docker_total (sandbox_config image port) sandbox_host w) as (r & w1 & E).
  rewrite (bind_Ok _ _ _ _ _ E). destruct r as [e|id].
  { eexists _, _. split; [done|]. destruct (create_docker_err _ _ _ _ _ E) as [|(id & ? & ?)]; eauto. }
  destruct (create_docker_ok _ _ _ _ _ E) as (Hnew & Hw1 & Hlen).
  rewrite (bind_Ok _ _ _ _ _ (short_id_Ok id w1 ltac:(lia))).
  destruct (start_total id w1) as (e & w2 & E2). rewrite (bind_Ok _ _ _ _ _ E2). destruct e as [e|].
  - eexists _, _. split; [done|]. right. exists id.
    destruct (start_err _ _ _ _ E2) as [Hw2|(c & Hc & Hw2)]; rewrite Hw2, Hw1; [by exists false|].
    rewrite Hw1, lookup_insert_eq in Hc. injection Hc as <-. exists true.
    by rewrite insert_insert_eq.
  - rewrite (bind_Ok _ _ _ _ _ (short_id_Ok id w2 ltac:(lia))). eexists _, _. split_and!; [done..|].
    erewrite (start_ok _ _ _ _ E2); [|rewrite Hw1; apply lookup_insert_eq].
    rewrite Hw1, insert_insert_eq. done.
Qed.

(** C33: The constraints of a launched container.  Launching a sandbox never
    panics, leaves every other container alone, and whatever container it
    adds, also when it reports an error, has no network, a read-only root,
    512 MB, one CPU, no new privileges and no capabilities, and is of the
    requested image with the port as its only variable; when it reports
    success that container is new and runs.  It sets no user, so the process
    runs as the user of the image, whatever that is. *)
Theorem sandbox_isolated image port w :
  ∃ r w', RunSandbox image port w = Ok (r, w') ∧
    (∀ id c, containers w !! id = Some c → containers w' !! id = Some c) ∧
    (∀ id c, containers w' !! id = Some c → containers w !! id = None →
       isolated c ∧ Image (cConfig c) = image ∧ Env (cConfig c) = ["PORT=" +:+ port] ∧ User (cConfig c) = "") ∧
    (∀ id, r = inr id → ∃ c, containers w' !! id = Some c ∧ cRunning c = true ∧ containers w !! id = None).
Proof.
  destruct (RunSandbox_cases image port w) as (r & w' & E & Hr). exists r, w'. split; [done|].
  assert (Hadd : ∀ id run, containers w !! id = None →
    containers w' = <[id := mkContainer (sandbox_config image port) sandbox_host run]> (containers w) →
    (∀ id c, containers w !! id = Some c → containers w' !! id = Some c) ∧
    (∀ id c, containers w' !! id = Some c → containers w !! id = None →
       isolated c ∧ Image (cConfig c) = image ∧ Env (cConfig c) = ["PORT=" +:+ port] ∧ User (cConfig c) = "")).
  { intros id run Hnew ->. split.
    - intros id' c Hc. rewrite lookup_insert_ne; [done|]. intros ->. congruence.
    - intros id' c [[<- <-]|[_ Hc]]%lookup_insert_Some Hn; [by split_and!|congruence]. }
  destruct r as [e|id].
  - destruct Hr as [->|(id & run & Hnew & Hw')]; [split_and!; [done|congruence|done]|].
    destruct (Hadd _ _ Hnew Hw'). by split_and!.
  - destruct Hr as (_ & Hnew & Hw'). destruct (Hadd _ _ Hnew Hw'). split_and!; [done..|].
    intros id' [= <-]. eexists. rewrite Hw', lookup_insert_eq. split_and!; done.
Qed.

(** A sandbox can be taken down.  Stopping and removing the container of a
    launch that succeeded never panics, and when it reports success the
    daemon's containers are those from before the launch, whether or not the
    container could be stopped. *)
Theorem sandbox_roundtrip image port w id w1 :
  RunSandbox image port w = Ok (inr id, w1) →
  ∃ e w2, StopAndRemove id w1 = Ok (e, w2) ∧ (e = None → containers w2 = containers w).
Proof.
  intros E. destruct (RunSandbox_cases image port w) as (r & w1' & E' & Hr). rewrite E in E'.
  simplify_eq. destruct Hr as (Hlen & Hnew & Hw1). unfold StopAndRemove.
  rewrite (bind_Ok _ _ _ _ _ (short_id_Ok id w1' ltac:(lia))).
  destruct (stop_total id 5 w1') as (e & w2 & E2). rewrite (bind_Ok _ _ _ _ _ E2).
  rewrite (bind_Ok _ _ w2 tt w2)
    by (destruct e; [by rewrite (bind_Ok _ _ _ _ _ (short_id_Ok id w2 ltac:(lia)))|done]).
  destruct (remove_total id true w2) as (e3 & w3 & E3). rewrite E3. eexists _, _. split; [done|].
  intros ->. rewrite (remove_ok _ _ _ E3). destruct e as [e|].
  - destruct (stop_err _ _ _ _ _ E2) as [->|(c & _ & ->)];
      by rewrite ?delete_insert_eq, Hw1, delete_insert_id.
  - erewrite (stop_ok _ _ _ _ _ E2); [|rewrite Hw1; apply lookup_insert_eq].
    by rewrite delete_insert_eq, Hw1, delete_insert_id.
Qed.

(** The ids of the log lines are cut to twelve bytes, so a shorter one, such
    as a container's name, stops the program. *)
Lemma StopAndRemove_short id w : (String.length id < 12)%nat → StopAndRemove id w = Panic.
Proof.
  intros H. unfold StopAndRemove, mbind, GoM_bind, short_id. by rewrite (proj2 (Nat.ltb_lt _ _) H).
Qed.
End docker.

(** ** Builds *)

Lemma entry_remove_insert name e es : entry_remove name (entry_insert name e es) = entry_remove name es.
Proof.
  unfold entry_remove. induction es as [|[n x] es IH]; cbn [entry_insert].
  - by rewrite filter_cons_False by (cbn; tauto).
  - destruct (String.ltb n name).
    + rewrite !filter_cons, IH. done.
    + by rewrite filter_cons_False by (cbn; tauto).
Qed.
Lemma entry_remove_twice name es : entry_remove name (entry_remove name es) = entry_remove name es.
Proof. unfold entry_remove. rewrite list_filter_filter. by apply list_filter_iff; intros; tauto. Qed.
Lemma entry_lookup_remove name es : entry_lookup name (entry_remove name es) = None.
Proof.
  unfold entry_remove. induction es as [|[n x] es IH]; [done|]. rewrite filter_cons. cbn [fst].
  case_decide as Hd; [|done]. cbn. by rewrite decide_False.
Qed.
Lemma entry_lookup_insert name e es :
  entry_lookup name es = None → entry_lookup name (entry_insert name e es) = Some e.
Proof.
  induction es as [|[n x] es IH]; cbn; [by rewrite decide_True|]. case_decide; [done|]. intros Hn.
  destruct (String.ltb n name); cbn; [rewrite decide_False by done; auto|by rewrite decide_True].
Qed.

Lemma write_entry_spec name data es es' :
  write_entry name data es = Some es' →
  file_at [name] (Dir (Some es')) = Some data ∧ entry_remove name es' = entry_remove name es.
Proof.
  unfold write_entry. destruct (entry_lookup name es) as [[link c|]|] eqn:Hl; [| done |];
    intros [= <-]; cbn.
  - rewrite entry_lookup_insert by apply entry_lookup_remove.
    by rewrite entry_remove_insert, entry_remove_twice.
  - rewrite entry_lookup_insert by done. by rewrite entry_remove_insert.
Qed.

Section builder.
Context {W : Type} `{HD : Docker W} {HL : DockerLaws W}.
Implicit Types (s : build_state W).

Lemma BuildImage_cases es path tag (w : W) :
  (∃ e w', BuildImage (Dir (Some es)) path tag w = Ok (Some e, w') ∧
    (∀ t, t ≠ tag → images w' !! t = images w !! t) ∧ containers w' = containers w) ∨
  (∃ l out w', BuildImage (Dir (Some es)) path tag w = Ok (None, w') ∧
    listing (Dir (Some es)) = Some l ∧
    ImageBuild (mkTar (archived "." l) 0 false) (mkBuildOptions [tag] path true) w = Ok (inr out, w')).
Proof.
  unfold BuildImage. pose proof (add_node_spec (Dir (Some es)) "." NewWriter eq_refl) as Hadd.
  cbn [add_node] in Hadd. unfold adds in Hadd.
  destruct (listing (Dir (Some es))) as [l|] eqn:Hl.
  2:{ left. destruct Hadd as (e & t & Hadd). rewrite (bind_Ok _ _ _ _ _ (lift_Ok _ _ _ Hadd)).
      eexists _, w. by split_and!. }
  destruct (encodable "." l).
  2:{ left. destruct Hadd as (e & t & Hadd). rewrite (bind_Ok _ _ _ _ _ (lift_Ok _ _ _ Hadd)).
      eexists _, w. by split_and!. }
  rewrite (bind_Ok _ _ _ _ _ (lift_Ok _ _ _ Hadd)). cbn [members finished NewWriter app].
  destruct (build_total (mkTar (archived "." l) 0 false) (mkBuildOptions [tag] path true) w) as (r & w' & E).
  rewrite (bind_Ok _ _ _ _ _ E). destruct r as [e|out].
  - left. eexists _, w'. split_and!; [done| |by eapply build_containers].
    intros t Ht. eapply build_others; [done|]. by intros ->%list_elem_of_singleton.
  - right. eexists l, out, w'. by split_and!.
Qed.

(** How a submission is built.  [BuildSubmission] always returns and never
    touches containers.  When it returns an image tag, the tag is the
    submission's, the daemon was given the complete source tree with the
    platform's Dockerfile in place of the contestant's, and the image exists
    if the output of the build is complete and reports no failure; no other
    image is ever touched.  Afterwards the source directory has no Dockerfile,
    the contestant's own included. *)
Theorem submission_built sid writable s :
  ∃ r s', BuildSubmission sid writable s = Ok (r, s') ∧
    containers (daemon s') = containers (daemon s) ∧
    (∀ t, t ≠ "submission-" +:+ sid +:+ ":latest" → images (daemon s') !! t = images (daemon s) !! t) ∧
    match r with
    | inr tag => tag = "submission-" +:+ sid +:+ ":latest" ∧
        srcEntries s' = entry_remove "Dockerfile" (srcEntries s) ∧
        ∃ text es l out, builderFile s = Some text ∧
          write_entry "Dockerfile" text (srcEntries s) = Some es ∧
          file_at ["Dockerfile"] (Dir (Some es)) = Some text ∧
          listing (Dir (Some es)) = Some l ∧
          ImageBuild (mkTar (archived "." l) 0 false) (mkBuildOptions [tag] "Dockerfile" true) (daemon s) =
            Ok (inr out, daemon s') ∧
          ((∀ e, (BuildFailed e ∉ out) ∧ (StreamError e ∉ out)) → images (daemon s') !! tag = Some (mkTar (archived "." l) 0 false))
    | inl _ => srcEntries s' = srcEntries s ∨ srcEntries s' = entry_remove "Dockerfile" (srcEntries s)
    end.
Proof.
  unfold BuildSubmission. go_step. destruct (builderFile s) as [text|] eqn:Hb.
  2:{ eexists (inl _), s. split_and!; [done..|by left]. }
  go_step. destruct writable; [|eexists (inl _), s; split_and!; [done..|by left]].
  destruct (write_entry "Dockerfile" text (srcEntries s)) as [es|] eqn:Hw.
  2:{ eexists (inl _), s. split_and!; [done..|by left]. }
  destruct (write_entry_spec _ _ _ _ Hw) as [Hfile Hrem]. go_step.
  destruct (BuildImage_cases es "Dockerfile" ("submission-" +:+ sid +:+ ":latest") (daemon s))
    as [(e & w' & E & Hi & Hc)|(l & out & w' & E & Hl & Hbuild)].
  - erewrite bind_Ok by (unfold on_daemon; cbn [daemon set_entries]; by rewrite E). cbn beta. go_step.
    eexists _, _. split; [done|]. cbn. rewrite Hrem. split_and!; [done..|by right].
  - erewrite bind_Ok by (unfold on_daemon; cbn [daemon set_entries]; by rewrite E). cbn beta. go_step.
    eexists _, _. split; [done|]. cbn [daemon srcEntries set_entries]. rewrite Hrem.
    split_and!; [by eapply build_containers| |done|done|].
    { intros t Ht. eapply build_others; [done|]. by intros ->%list_elem_of_singleton. }
    exists text, es, l, out.
    split_and!; [done..|]. intros Hnf. eapply build_ok; [done..|]. by apply list_elem_of_singleton.
Qed.
End builder.

(** ** An in-memory daemon

    It gives out a few fixed ids and fails a build without files. *)
Record mem_docker := mkMem { mdContainers : gmap string container; mdImages : gmap string tar }.

Definition mem_ids : list string :=
  (λ c, String.string_of_list_ascii (replicate 64 c)) <$> ["a"%char; "b"%char; "c"%char].

#[global] Arguments mem_ids : simpl never.

Definition mem_update (id : string) (f : container → option container) : GoM mem_docker (option string) := λ w,
  match mdContainers w !! id with
  | None => Ok (Some "no such container", w)
  | Some c => Ok (None, mkMem (partial_alter (λ _, f c) id (mdContainers w)) (mdImages w))
  end.

#[global] Instance mem_Docker : Docker mem_docker := {|
  ContainerCreate c h := λ w,
    match list_find (λ id, mdContainers w !! id = None) mem_ids with
    | Some (_, id) => Ok (inr id, mkMem (<[id := mkContainer c h false]> (mdContainers w)) (mdImages w))
    | None => Ok (inl "no id left", w)
    end;
  ContainerStart id := mem_update id (λ c, Some (set_running true c));
  ContainerStop id _ := mem_update id (λ c, Some (set_running false c));
  ContainerRemove id _ := mem_update id (λ _, None);
  ContainerLogs id := mret (inr "");
  ImageBuild t o := λ w,
    match members t with
    | [] => Ok (inr [BuildFailed "no files"], w)
    | _ => Ok (inr [BuildOutput "built"],
               mkMem (mdContainers w) (foldr (λ tag, <[tag := t]>) (mdImages w) (Tags o)))
    end;
|}.

Lemma foldr_insert_lookup {A} (x : A) (tags : list string) (m : gmap string A) tag :
  tag ∈ tags → foldr (λ tag, <[tag := x]>) m tags !! tag = Some x.
Proof.
  induction tags as [|t tags IH]; [by intros ?%elem_of_nil|]. cbn. intros [->|Hin]%elem_of_cons.
  - apply lookup_insert_eq.
  - destruct (decide (t = tag)) as [->|]; [apply lookup_insert_eq|].
    rewrite lookup_insert_ne by done. auto.
Qed.

Lemma foldr_insert_other {A} (x : A) (tags : list string) (m : gmap string A) tag :
  tag ∉ tags → foldr (λ tag, <[tag := x]>) m tags !! tag = m !! tag.
Proof.
  induction tags as [|t tags IH]; [done|]. cbn. rewrite not_elem_of_cons. intros [Hne Hin].
  rewrite lookup_insert_ne by done. auto.
Qed.

Lemma mem_update_total id f w : ∃ e w', mem_update id f w = Ok (e, w').
Proof. unfold mem_update. destruct (mdContainers w !! id); eauto. Qed.
Lemma mem_update_ok id f w w' c :
  mem_update id f w = Ok (None, w') → mdContainers w !! id = Some c →
  mdContainers w' = partial_alter (λ _, f c) id (mdContainers w).
Proof. unfold mem_update. intros E Hc. rewrite Hc in E. by injection E as <-. Qed.
Lemma mem_update_err id f w e w' : mem_update id f w = Ok (Some e, w') → w' = w.
Proof. unfold mem_update. destruct (mdContainers w !! id); intros E; by simplify_eq. Qed.

#[global] Program Instance mem_DockerLaws : DockerLaws mem_docker := {|
  containers := mdContainers;
  images := mdImages;
|}.
Next Obligation. intros c h w. cbn. destruct (list_find (λ id, mdContainers w !! id = None) mem_ids) as [[i id]|]; eauto. Qed.
Next Obligation.
  intros c h w id w' E. cbn in E. destruct (list_find (λ id, mdContainers w !! id = None) mem_ids) as [[i id']|] eqn:Hf; simplify_eq.
  apply list_find_Some in Hf as (Hi & Hn & _). split_and!; [done..|].
  apply list_elem_of_lookup_2 in Hi. apply list_elem_of_fmap in Hi as (ch & -> & _).
  by destruct ch as [[] [] [] [] [] [] [] []].
Qed.
Next Obligation.
  intros c h w e w' E. left. cbn in E.
  by destruct (list_find (λ id, mdContainers w !! id = None) mem_ids) as [[]|]; simplify_eq.
Qed.
Next Obligation. intros. apply mem_update_total. Qed.
Next Obligation. intros * E Hc. by apply (mem_update_ok _ _ _ _ _ E). Qed.
Next Obligation. intros * ->%mem_update_err. by left. Qed.
Next Obligation. intros. apply mem_update_total. Qed.
Next Obligation. intros * E Hc. by apply (mem_update_ok _ _ _ _ _ E). Qed.
Next Obligation. intros * ->%mem_update_err. by left. Qed.
Next Obligation. intros. apply mem_update_total. Qed.
Next Obligation.
  intros id w w' E. cbn in E. destruct (mdContainers w !! id) as [c|] eqn:Hc.
  - by rewrite (mem_update_ok _ _ _ _ _ E Hc).
  - unfold mem_update in E. by rewrite Hc in E.
Qed.
Next Obligation. intros * ->%mem_update_err. by left. Qed.
Next Obligation. intros t o w. cbn. destruct (members t); eauto. Qed.
Next Obligation.
  intros t o w out w' E Hout tag Ht. cbn in E. destruct (members t) as [|m ms] eqn:Hm; simplify_eq.
  - destruct (Hout "no files") as [Hno _]. destruct Hno. by apply list_elem_of_singleton.
  - by apply foldr_insert_lookup.
Qed.
Next Obligation.
  intros t o w out w' e E Hout. cbn in E. destruct (members t); simplify_eq; [done|].
  by apply list_elem_of_singleton in Hout.
Qed.
Next Obligation.
  intros t o w r w' tag E Ht. cbn in E. destruct (members t); simplify_eq; [done|]. cbn.
  by apply foldr_insert_other.
Qed.
Next Obligation. intros t o w r w' E. cbn in E. by destruct (members t); simplify_eq. Qed.

Definition ex_daemon : mem_docker := mkMem ∅ ∅.
Definition ex_running : mem_docker :=
  match RunSandbox "submission-1:latest" "8080" ex_daemon with Ok (_, w) => w | _ => ex_daemon end.
Definition ex_id : string := String.string_of_list_ascii (replicate 64 "a"%char).

(** The launch succeeds here and adds one container; a second launch at a
    daemon with no id left reports an error and adds none. *)
Definition ex_full : mem_docker :=
  mkMem (foldr (λ id, <[id := mkContainer (mkConfig "" "other" []) sandbox_host true]>) ∅ mem_ids) ∅.

Lemma sandbox_isolated_witness :
  RunSandbox "submission-1:latest" "8080" ex_daemon = Ok (inr ex_id, ex_running) ∧
  (∃ c, mdContainers ex_running !! ex_id = Some c ∧ cRunning c = true ∧ isolated c ∧
     Image (cConfig c) = "submission-1:latest" ∧ Env (cConfig c) = ["PORT=8080"] ∧ User (cConfig c) = "") ∧
  ∃ e, RunSandbox "submission-1:latest" "8080" ex_full = Ok (inl e, ex_full).
Proof.
  assert (E : RunSandbox "submission-1:latest" "8080" ex_daemon = Ok (inr ex_id, ex_running))
    by (vm_compute; reflexivity).
  split; [exact E|]. split; [|eexists; vm_compute; reflexivity].
  destruct (sandbox_isolated "submission-1:latest" "8080" ex_daemon) as (r & w' & E' & _ & Hnew & Hrun).
  rewrite E in E'. injection E' as <- <-.
  destruct (Hrun ex_id eq_refl) as (c & Hc & Hr & Hn). exists c.
  destruct (Hnew _ _ Hc Hn) as (Hi & Him & Henv & Hu). split_and!; [exact Hc|exact Hr|exact Hi|exact Him|exact Henv|exact Hu].
Defined.

Lemma sandbox_roundtrip_witness :
  ∃ e w2, StopAndRemove ex_id ex_running = Ok (e, w2) ∧ (e = None → mdContainers w2 = mdContainers ex_daemon).
Proof.
  assert (E : RunSandbox "submission-1:latest" "8080" ex_daemon = Ok (inr ex_id, ex_running))
    by (vm_compute; reflexivity).
  exact (sandbox_roundtrip "submission-1:latest" "8080" ex_daemon ex_id ex_running E).
Defined.

Definition ex_build : build_state mem_docker :=
  mkBuild [("Dockerfile", Leaf false (Some "FROM contestant")); ("main.go", Leaf false (Some "package main"))]
    (Some "FROM golang") ex_daemon.

Lemma submission_built_witness :
  ∃ r s', BuildSubmission "1" true ex_build = Ok (r, s') ∧ mdContainers (daemon s') = mdContainers ex_daemon.
Proof.
  destruct (submission_built "1" true ex_build) as (r & s' & E & Hc & _). exists r, s'. split; [exact E|exact Hc].
Defined.
