(* ===== verification/LoadGen.v ===== *)
(** * The load generator

    pkg/loadgen: [NoiseTraderBot.Start] (profiles.go), which sends one random
    order per tick and reports a metric for each, and [Orchestrator.Run]
    (orchestrator.go), which starts the bots, collects the metrics on a
    goroutine of its own and reports the totals.  [MarketMakerBot.Start] is
    the noise trader under another name, and nothing creates one.

    The goroutines are interleaved by [exec]: a bot that has ticked, one that
    waits for its response and one that is blocked on the metrics channel are
    in different positions, and so are the collector and the main goroutine.
    Inputs: the values of [rng.Intn] (natural numbers below its argument), the
    UUIDs, the HTTP responses and the latencies measured.  The channel's
    element count is limited by the address space. *)

From stdpp Require Import prelude list.
From stdpp Require Import strings.
From Stdlib Require Import ZArith Lia.
From S2P Require Import Prelude GoBytes GoChan Float64 FloatSecs Server.

Local Open Scope Z_scope.

(** ** Data *)

Record LatencyMetric := mkMetric { Latency : Z; IsSuccess : bool }.

Record Orchestrator := mkOrchestrator { TotalTPS : Z; NumBots : Z }.

(** ** The bots *)

(** [time.NewTicker(time.Second / time.Duration(b.TPS))]: division by zero
    and an interval that is not positive panic. *)
Definition int_div (a b : Z) : res Z := if b =? 0 then Panic else Ok (wrap_int64 (Z.quot a b)).
Definition ticker_interval (tps : Z) : res Z :=
  d ← int_div second tps;
  if d <=? 0 then Panic else mret d.

(** The values of [rng.Intn(2)], [rng.Intn(2)], [rng.Intn(2000)] and
    [rng.Intn(100)]. *)
Record draws := mkDraws { dSide : Z; dType : Z; dPrice : Z; dQty : Z }.
Definition draws_ok (d : draws) : Prop :=
  0 <= dSide d < 2 ∧ 0 <= dType d < 2 ∧ 0 <= dPrice d < 2000 ∧ 0 <= dQty d < 100.

(** The order of one tick. *)
Definition random_order (d : draws) (uuid : string) : placeOrderReq :=
  let price := wrap64 (10000 + dPrice d) in
  let price := if dType d =? 1 then 0 else price in
  mkPlaceOrderReq uuid (dSide d) (dType d) price (wrap64 (1 + dQty d)).

(** What [httpClient.Do] returns: an error, or a status code. *)
Definition metric_of (latency : Z) (resp : option Z) : LatencyMetric :=
  mkMetric latency (match resp with Some code => code =? StatusOK | None => false end).

(** Where a bot is: before its ticker is made, in its [select], waiting for
    the response to an order, blocked on [metricsChan <- m], returned. *)
Inductive bot :=
  | BStarting
  | BSelect
  | BWaiting (order : placeOrderReq)
  | BSending (m : LatencyMetric)
  | BDone.

(** ** The orchestrator *)

(** The locals of the collector. *)
Record totals := mkTotals { totalRequests : Z; successCount : Z; totalLatency : Z }.
Definition collect (m : LatencyMetric) (t : totals) : totals :=
  mkTotals (wrap_int64 (totalRequests t + 1))
    (if IsSuccess m then wrap_int64 (successCount t + 1) else successCount t)
    (wrap_int64 (totalLatency t + Latency m)).

(** The main goroutine: in [wg.Wait()], in [<-metricsDone], past it. *)
Inductive main := MWaiting | MDraining | MFinished.
#[global] Instance main_eq_dec : EqDecision main.
Proof. solve_decision. Defined.

Record Run := mkRun {
  cap : nat;                     (** capacity of [metricsChan] *)
  tpsPerBot : Z;
  bots : list bot;
  wg : Z;                        (** the counter of the wait group *)
  ctxDone : bool;
  metricsChan : chan LatencyMetric;
  counted : totals;
  collecting : bool;             (** [metricsDone] is not closed *)
  mainAt : main;
  sent : list LatencyMetric;     (** the metrics the bots have sent, in order *)
}.

(** [make(chan LatencyMetric, n)] panics when [n] is negative or the buffer
    does not fit the address space (16 bytes an element). *)
Definition max_chan : Z := (2 ^ 48 - 96) / 16.
Definition make_chan (n : Z) : res nat :=
  if (n <? 0) || (max_chan <? n) then Panic else Ok (Z.to_nat n).

(** [Run] up to [wg.Wait()]. *)
Definition Run_start (o : Orchestrator) : res Run :=
  c ← make_chan (wrap_int64 (TotalTPS o * 10));
  tps ← int_div (TotalTPS o) (NumBots o);
  let tps := if tps <? 1 then 1 else tps in
  mret (mkRun c tps (replicate (Z.to_nat (NumBots o)) BStarting)
          (Z.of_nat (Z.to_nat (NumBots o))) false new_chan (mkTotals 0 0 0) true MWaiting []).

Definition set_bot (i : nat) (b : bot) (r : Run) : Run :=
  mkRun (cap r) (tpsPerBot r) (<[i := b]> (bots r)) (wg r) (ctxDone r) (metricsChan r) (counted r)
    (collecting r) (mainAt r) (sent r).
Definition set_chan (c : chan LatencyMetric) (r : Run) : Run :=
  mkRun (cap r) (tpsPerBot r) (bots r) (wg r) (ctxDone r) c (counted r) (collecting r) (mainAt r) (sent r).
Definition set_counted (t : totals) (r : Run) : Run :=
  mkRun (cap r) (tpsPerBot r) (bots r) (wg r) (ctxDone r) (metricsChan r) t (collecting r) (mainAt r) (sent r).
Definition set_main (m : main) (r : Run) : Run :=
  mkRun (cap r) (tpsPerBot r) (bots r) (wg r) (ctxDone r) (metricsChan r) (counted r) (collecting r) m (sent r).
Definition log_sent (m : LatencyMetric) (r : Run) : Run :=
  mkRun (cap r) (tpsPerBot r) (bots r) (wg r) (ctxDone r) (metricsChan r) (counted r) (collecting r)
    (mainAt r) (sent r ++ [m]).

(** [wg.Done()]: a negative counter panics. *)
Definition wg_done : GoM Run unit := λ r,
  if wg r - 1 <? 0 then Panic
  else Ok (tt, mkRun (cap r) (tpsPerBot r) (bots r) (wg r - 1) (ctxDone r) (metricsChan r) (counted r)
                 (collecting r) (mainAt r) (sent r)).

(** ** Steps *)

Inductive action :=
  | Start (i : nat)                                            (** the ticker is made *)
  | Tick (i : nat) (d : draws) (uuid : string) (url_ok : bool) (** a tick: an order is sent off *)
  | Respond (i : nat) (latency : Z) (resp : option Z)
  | Send (i : nat)                                             (** into the buffer *)
  | Handoff (i : nat)                                          (** to the waiting collector *)
  | Quit (i : nat)                                             (** [<-ctx.Done()] *)
  | Cancel                                                     (** the duration has passed *)
  | Collect
  | CollectorEnds
  | WaitReturns
  | RunReturns.

Definition perform (a : action) : GoM Run unit :=
  match a with
  | Start i =>
      tps ← gets tpsPerBot;
      lift (ticker_interval tps);;
      modify (set_bot i BSelect)
  | Tick i d uuid url_ok =>
      (* [http.NewRequestWithContext] fails on a malformed URL: [continue] *)
      if url_ok then modify (set_bot i (BWaiting (random_order d uuid))) else mret tt
  | Respond i latency resp => modify (set_bot i (BSending (metric_of latency resp)))
  | Send i =>
      b ← gets (λ r, bots r !! i);
      match b with
      | Some (BSending m) =>
          c ← gets metricsChan;
          n ← gets cap;
          res ← lift (try_send n m c);
          (if (res.1 : bool) then
             modify (set_chan res.2);; modify (set_bot i BSelect);; modify (log_sent m)
           else nofuel)
      | _ => mret tt
      end
  | Handoff i =>
      b ← gets (λ r, bots r !! i);
      match b with
      | Some (BSending m) =>
          c ← gets metricsChan;
          (if cClosed c then panic else mret tt);;
          modify (λ r, set_counted (collect m (counted r)) r);;
          modify (set_bot i BSelect);; modify (log_sent m)
      | _ => mret tt
      end
  | Quit i => modify (set_bot i BDone);; wg_done
  | Cancel => modify (λ r, mkRun (cap r) (tpsPerBot r) (bots r) (wg r) true (metricsChan r) (counted r)
                             (collecting r) (mainAt r) (sent r))
  | Collect =>
      c ← gets metricsChan;
      r ← lift (recv c);
      match r with
      | (Some m, c) =>
          modify (set_chan c);;
          modify (λ r, set_counted (collect m (counted r)) r)
      | (None, _) => mret tt
      end
  | CollectorEnds => modify (λ r, mkRun (cap r) (tpsPerBot r) (bots r) (wg r) (ctxDone r) (metricsChan r)
                                    (counted r) false (mainAt r) (sent r))
  | WaitReturns =>
      c ← gets metricsChan;
      c ← lift (close_chan c);
      modify (set_chan c);; modify (set_main MDraining)
  | RunReturns => modify (set_main MFinished)
  end.

(** When the goroutine that takes the step can do so. *)
Definition enabled (a : action) (r : Run) : Prop :=
  match a with
  | Start i => bots r !! i = Some BStarting
  | Tick i d uuid _ => bots r !! i = Some BSelect ∧ draws_ok d ∧ uuid ≠ ""
  | Respond i _ _ => ∃ o, bots r !! i = Some (BWaiting o)
  | Send i => (∃ m, bots r !! i = Some (BSending m)) ∧
      (cClosed (metricsChan r) = true ∨ (length (cBuf (metricsChan r)) < cap r)%nat)
  | Handoff i => (∃ m, bots r !! i = Some (BSending m)) ∧ cBuf (metricsChan r) = [] ∧ collecting r = true
  | Quit i => bots r !! i = Some BSelect ∧ ctxDone r = true
  | Cancel => ctxDone r = false
  | Collect => collecting r = true ∧ cBuf (metricsChan r) ≠ []
  | CollectorEnds => collecting r = true ∧ cBuf (metricsChan r) = [] ∧ cClosed (metricsChan r) = true
  | WaitReturns => mainAt r = MWaiting ∧ wg r = 0
  | RunReturns => mainAt r = MDraining ∧ collecting r = false
  end.

(** A run of steps. *)
Inductive exec : Run → list action → Run → Prop :=
  | exec_nil r : exec r [] r
  | exec_cons a r r1 acts r2 :
      enabled a r → perform a r = Ok (tt, r1) → exec r1 acts r2 → exec r (a :: acts) r2.

(** The lines printed at the end: the totals, the average latency, a duration,
    and the rate, which is printed with two decimals; the last two only when
    there is something to divide by. *)
Inductive report_line :=
  | TotalRequestsLine (n : Z)
  | SuccessfulLine (n : Z)
  | AverageLatencyLine (d : Z)
  | ActualTPSLine (text : bytes).

(** [duration] is [o.Duration]. *)
Definition report (duration : Z) (r : Run) : res (list report_line) :=
  let t := counted r in
  rest ← (if 0 <? totalRequests t then
            avg ← int_div (totalLatency t) (totalRequests t);
            mret [AverageLatencyLine avg; ActualTPSLine (FormatFloat (fdiv (of_Z (totalRequests t)) (Seconds duration)))]
          else mret []);
  mret ([TotalRequestsLine (totalRequests t); SuccessfulLine (successCount t)] ++ rest).
