(* ===== verification/LoadGenProps.v ===== *)
(** * What the load generator guarantees

    The properties of pkg/loadgen over all interleavings of the bots, the
    collector and the main goroutine, and of the orders it sends against the
    API server that receives them. *)

From stdpp Require Import prelude list strings.
From Stdlib Require Import ZArith Lia.
From S2P Require Import Prelude GoBytes GoChan Float64 FloatSecs Order OrderBook BookSpec Server ServerInv LoadGen.

Local Open Scope Z_scope.

(** ** Counting bots *)

Lemma sum_insert {A} (f : A → nat) l i x y :
  l !! i = Some x → (sum_list_with f (<[i := y]> l) + f x = sum_list_with f l + f y)%nat.
Proof.
  revert i. induction l as [|z l IH]; intros [|i] H; [done|done|..].
  - injection H as ->. cbn. lia.
  - specialize (IH i H). change (<[S i := y]> (z :: l)) with (z :: <[i := y]> l).
    cbn [sum_list_with]. lia.
Qed.
Lemma sum_lookup {A} (f : A → nat) l i x : l !! i = Some x → (f x <= sum_list_with f l)%nat.
Proof. revert i. induction l as [|z l IH]; intros [|i] H; cbn in *; simplify_eq; [lia|specialize (IH _ H); lia]. Qed.
Lemma sum_zero {A} (f : A → nat) l : sum_list_with f l = 0%nat → ∀ i x, l !! i = Some x → f x = 0%nat.
Proof. intros Hs i x H. pose proof (sum_lookup f l i x H). lia. Qed.
Lemma sum_pos {A} (f : A → nat) l : sum_list_with f l ≠ 0%nat → ∃ i x, l !! i = Some x ∧ f x ≠ 0%nat.
Proof.
  induction l as [|z l IH]; cbn; [done|]. intros Hs. destruct (decide (f z = 0%nat)).
  - destruct IH as (i & x & ? & ?); [lia|]. by exists (S i), x.
  - by exists 0%nat, z.
Qed.

Definition active (b : bot) : nat := match b with BDone => 0 | _ => 1 end.
Definition weight (b : bot) : nat :=
  match b with BDone => 0 | BSelect => 1 | BStarting => 2 | BSending _ => 3 | BWaiting _ => 4 end.

(** ** Totals *)

Definition tally (l : list LatencyMetric) : totals := foldl (λ t m, collect m t) (mkTotals 0 0 0) l.
Definition sum_latency (l : list LatencyMetric) : Z := foldr (λ m n, Latency m + n) 0 l.
Definition successes (l : list LatencyMetric) : list LatencyMetric := filter (λ m, IsSuccess m = true) l.

Lemma tally_snoc l m : tally (l ++ [m]) = collect m (tally l).
Proof. unfold tally. by rewrite foldl_app. Qed.

Lemma wrap_wrap a b : wrap_int64 (wrap_int64 a + b) = wrap_int64 (a + b).
Proof.
  unfold wrap_int64.
  replace ((a + 2 ^ 63) mod 2 ^ 64 - 2 ^ 63 + b + 2 ^ 63) with ((a + 2 ^ 63) mod 2 ^ 64 + b) by lia.
  rewrite Zplus_mod_idemp_l. do 2 f_equal. lia.
Qed.

Lemma sum_latency_snoc l m : sum_latency (l ++ [m]) = sum_latency l + Latency m.
Proof. unfold sum_latency. induction l as [|x l IH]; cbn in *; lia. Qed.

Lemma tally_spec l :
  tally l = mkTotals (wrap_int64 (Z.of_nat (length l))) (wrap_int64 (Z.of_nat (length (successes l))))
    (wrap_int64 (sum_latency l)).
Proof.
  induction l as [|m l IH] using rev_ind; [done|]. rewrite tally_snoc, IH. unfold collect. cbn.
  unfold successes. rewrite filter_app, !length_app, sum_latency_snoc, !wrap_wrap, filter_cons. cbn.
  destruct (IsSuccess m) eqn:Hs; [rewrite decide_True by done|rewrite decide_False by done]; cbn;
    f_equal; f_equal; lia.
Qed.

(** ** The invariant *)

Record run_ok (r : Run) : Prop := {
  ro_tps : 1 <= tpsPerBot r <= second;
  ro_wg : wg r = Z.of_nat (sum_list_with active (bots r));
  ro_closed : cClosed (metricsChan r) = bool_decide (mainAt r ≠ MWaiting);
  ro_done : mainAt r ≠ MWaiting → wg r = 0;
  ro_drained : collecting r = false → cBuf (metricsChan r) = [] ∧ mainAt r ≠ MWaiting;
  ro_finished : mainAt r = MFinished → collecting r = false;
  ro_counted : ∃ l, sent r = l ++ cBuf (metricsChan r) ∧ counted r = tally l;
}.

(** How much a run has yet to do. *)
Definition to_do (r : Run) : nat :=
  sum_list_with weight (bots r) + length (cBuf (metricsChan r)) + (if collecting r then 1 else 0) +
  match mainAt r with MWaiting => 2 | MDraining => 1 | MFinished => 0 end.

Lemma ticker_ok tps : 1 <= tps <= second → ∃ d, ticker_interval tps = Ok d ∧ 0 < d.
Proof.
  intros H. unfold ticker_interval, int_div, second in *. replace (tps =? 0) with false by lia.
  assert (Hq : 0 < Z.quot 1000000000 tps <= 1000000000).
  { rewrite Z.quot_div_nonneg by lia. split; [apply Z.div_str_pos; lia|apply Z.div_le_upper_bound; nia]. }
  cbn [mbind res_bind]. rewrite wrap_int64_id by (unfold is_int64; lia).
  replace (Z.quot 1000000000 tps <=? 0) with false by lia. eexists. split; [done|]. lia.
Qed.

(** A bot goes to another position; nothing else changes. *)
Lemma set_bot_ok r i b b' :
  run_ok r → bots r !! i = Some b → active b = active b' → run_ok (set_bot i b' r).
Proof.
  intros [Ht Hwg Hc Hd Hdr Hf Hl] Hi Hb. split; cbn; auto.
  pose proof (sum_insert active _ _ _ b' Hi). lia.
Qed.

(** While a bot is active the channel is open and the collector runs. *)
Lemma active_open r i b :
  run_ok r → bots r !! i = Some b → active b = 1%nat →
  cClosed (metricsChan r) = false ∧ collecting r = true ∧ mainAt r = MWaiting ∧ 1 <= wg r.
Proof.
  intros [Ht Hwg Hc Hd Hdr Hf Hl] Hi Hb. pose proof (sum_lookup active _ _ _ Hi).
  assert (mainAt r = MWaiting) as E by (destruct (mainAt r); [done|by specialize (Hd ltac:(done)); lia..]).
  rewrite Hc, E. split_and!; [by apply bool_decide_false; tauto| |done|lia].
  destruct (collecting r) eqn:Hcol; [done|]. by destruct (Hdr eq_refl).
Qed.

Definition is_tick (a : action) : nat := match a with Tick _ _ _ _ => 1 | _ => 0 end.

(** What a step does: it succeeds, keeps the invariant, and gets nearer to
    the end unless it is a tick or the cancellation. *)
Definition step_good (r : Run) (a : action) : Prop :=
  ∃ r', perform a r = Ok (tt, r') ∧ run_ok r' ∧
    (a ≠ Cancel → (to_do r' < to_do r + 4 * is_tick a)%nat) ∧ (ctxDone r = true → ctxDone r' = true).

Lemma sent_ok r i m c t :
  run_ok r → bots r !! i = Some (BSending m) → (∃ l, sent r ++ [m] = l ++ cBuf c ∧ t = tally l) →
  cClosed c = false →
  run_ok (log_sent m (set_bot i BSelect (set_counted t (set_chan c r)))).
Proof.
  intros Hok Hi Hl Hc. destruct (active_open _ _ _ Hok Hi eq_refl) as (_ & Hcol & Hm & _).
  destruct Hok as [Ht Hwg _ Hd Hdr Hf _]. split; cbn; auto.
  - pose proof (sum_insert active _ _ _ BSelect Hi) as H. cbn in H. lia.
  - rewrite Hc, Hm. symmetry. apply bool_decide_false. tauto.
  - by rewrite Hcol.
Qed.

Lemma bot_moves r i b b' :
  bots r !! i = Some b →
  (sum_list_with weight (bots (set_bot i b' r)) + weight b = sum_list_with weight (bots r) + weight b')%nat.
Proof. intros Hi. cbn. apply (sum_insert weight _ _ _ b' Hi). Qed.

Lemma start_good r i : run_ok r → enabled (Start i) r → step_good r (Start i).
Proof.
  intros Hok Hi. cbn in Hi. destruct (ticker_ok (tpsPerBot r) (ro_tps _ Hok)) as (d & Ed & _).
  unfold step_good. cbn [perform]. do 2 go_step. eexists. split_and!; [done| | |done].
  - by eapply set_bot_ok.
  - intros _. pose proof (bot_moves r i _ BSelect Hi) as H. unfold to_do. cbn in *. lia.
Qed.

Lemma send_good r i : run_ok r → enabled (Send i) r → step_good r (Send i).
Proof.
  intros Hok [[m Hi] Hroom]. destruct (active_open _ _ _ Hok Hi eq_refl) as (Hopen & _).
  destruct Hroom as [Hc|Hroom]; [congruence|]. destruct (ro_counted _ Hok) as (l & Hs & Ht).
  unfold step_good. cbn [perform]. go_step. rewrite Hi. do 2 go_step. unfold try_send. rewrite Hopen.
  rewrite (proj2 (Nat.ltb_lt _ _) Hroom). go_step. cbn [fst snd]. do 2 go_step.
  eexists. split_and!; [done| | |done].
  - apply (sent_ok r i m (mkChan (cBuf (metricsChan r) ++ [m]) false) (counted r)); [done..| |done].
    exists l. by rewrite Hs, <-app_assoc.
  - intros _. pose proof (bot_moves r i _ BSelect Hi) as H. unfold to_do. cbn in *.
    rewrite length_app. cbn. lia.
Qed.

Lemma handoff_good r i : run_ok r → enabled (Handoff i) r → step_good r (Handoff i).
Proof.
  intros Hok ([m Hi] & Hbuf & _). destruct (active_open _ _ _ Hok Hi eq_refl) as (Hopen & _).
  destruct (ro_counted _ Hok) as (l & Hs & Ht). rewrite Hbuf, app_nil_r in Hs.
  unfold step_good. cbn [perform]. go_step. rewrite Hi. go_step. rewrite Hopen. do 3 go_step.
  eexists. split_and!; [done| | |done].
  - destruct r as [cap0 tps bs w ctx ch cnt col mn snt]; cbn in *.
    apply (sent_ok (mkRun cap0 tps bs w ctx ch cnt col mn snt) i m ch (collect m cnt)); [done..| |done].
    exists (snt ++ [m]). by rewrite Hbuf, app_nil_r, tally_snoc, Hs, Ht.
  - intros _. pose proof (bot_moves r i _ BSelect Hi) as H. unfold to_do. cbn in *. lia.
Qed.

Lemma quit_good r i : run_ok r → enabled (Quit i) r → step_good r (Quit i).
Proof.
  intros Hok [Hi Hctx]. destruct (active_open _ _ _ Hok Hi eq_refl) as (Hopen & Hcol & Hm & Hw).
  unfold step_good. cbn [perform]. go_step. unfold wg_done. cbn [wg set_bot].
  replace (wg r - 1 <? 0) with false by lia. eexists. split_and!; [done| | |done].
  - destruct Hok as [Ht Hwg Hc Hd Hdr Hf Hl]. split; cbn; auto.
    + pose proof (sum_insert active _ _ _ BDone Hi) as H. cbn in H. lia.
    + by rewrite Hm.
  - intros _. pose proof (bot_moves r i _ BDone Hi) as H. unfold to_do. cbn in *. lia.
Qed.

Lemma collect_good r : run_ok r → enabled Collect r → step_good r Collect.
Proof.
  intros Hok [Hcol Hbuf]. destruct (ro_counted _ Hok) as (l & Hs & Ht).
  destruct (cBuf (metricsChan r)) as [|m buf] eqn:Hb; [done|].
  unfold step_good. cbn [perform]. do 2 go_step. cbn iota. go_step. eexists. split_and!; [done| | |done].
  - destruct Hok as [Ht' Hwg Hc Hd Hdr Hf _]. split; cbn; auto.
    + rewrite Hcol. done.
    + exists (l ++ [m]). rewrite Hs, tally_snoc, Ht, <-app_assoc. done.
  - intros _. unfold to_do. rewrite Hb. cbn. lia.
Qed.

Lemma loadgen_step_ok r a : run_ok r → enabled a r → step_good r a.
Proof.
  intros Hok. destruct a as [i|i d uuid url_ok|i latency resp|i|i|i| | | | |].
  - by apply start_good.
  - intros (Hi & _ & _). unfold step_good. cbn [perform].
    destruct url_ok; [|exists r; split_and!; [done..|cbn; lia|done]].
    eexists. split_and!; [done| | |done].
    + by eapply set_bot_ok.
    + intros _. pose proof (bot_moves r i _ (BWaiting (random_order d uuid)) Hi) as H. unfold to_do. cbn in *. lia.
  - intros [o Hi]. unfold step_good. cbn [perform]. eexists. split_and!; [done| | |done].
    + by eapply set_bot_ok.
    + intros _. pose proof (bot_moves r i _ (BSending (metric_of latency resp)) Hi) as H. unfold to_do. cbn in *. lia.
  - by apply send_good.
  - by apply handoff_good.
  - by apply quit_good.
  - intros _. eexists. split_and!; [done| |done|done]. by destruct Hok.
  - by apply collect_good.
  - intros (Hcol & Hbuf & Hcl). eexists. split_and!; [done| | |done].
    + destruct Hok as [Ht Hwg Hc Hd Hdr Hf Hl]. split; cbn; auto. intros _. split; [done|].
      rewrite Hc in Hcl. by apply bool_decide_eq_true in Hcl.
    + intros _. unfold to_do. rewrite Hcol. cbn. lia.
  - intros [Hm Hw]. unfold step_good. cbn [perform]. go_step.
    pose proof (ro_closed _ Hok) as Hc. rewrite Hm, bool_decide_false in Hc by tauto.
    do 2 go_step. eexists. split_and!; [done| | |done].
    + destruct Hok as [Ht Hwg _ Hd Hdr Hf Hl]. split; cbn; auto.
      * intros H. by destruct (Hdr H).
      * done.
    + intros _. unfold to_do. rewrite Hm. cbn. lia.
  - intros [Hm Hcol]. eexists. split_and!; [done| | |done].
    + destruct Hok as [Ht Hwg Hc Hd Hdr Hf Hl]. split; cbn; auto.
      * rewrite Hc, Hm. by rewrite !bool_decide_true.
      * intros _. apply Hd. by rewrite Hm.
      * intros H. by destruct (Hdr H).
    + intros _. unfold to_do. rewrite Hm. cbn. lia.
Qed.

(** ** Runs *)

Lemma exec_ok r acts r' : run_ok r → exec r acts r' → run_ok r'.
Proof.
  intros Hok He. induction He as [|a r r1 acts r2 Hen E _ IH]; [done|].
  apply IH. destruct (loadgen_step_ok r a Hok Hen) as (r1' & E' & ? & _). rewrite E in E'. by simplify_eq.
Qed.

Lemma exec_app r acts1 r1 acts2 r2 : exec r acts1 r1 → exec r1 acts2 r2 → exec r (acts1 ++ acts2) r2.
Proof. induction 1; cbn; [done|]. intros. econstructor; eauto. Qed.

Definition ticks (acts : list action) : nat := sum_list_with is_tick acts.

(** Every step but the ticks and the cancellation uses up work. *)
Lemma exec_bound r acts r' :
  run_ok r → exec r acts r' →
  (length acts + to_do r' <= to_do r + 4 * ticks acts + if ctxDone r then 0 else 1)%nat.
Proof.
  intros Hok He. induction He as [|a r r1 acts r2 Hen E _ IH]; [cbn; destruct (ctxDone r); lia|].
  destruct (loadgen_step_ok r a Hok Hen) as (r1' & E' & Hok1 & Hlt & Hctx). rewrite E in E'. simplify_eq.
  specialize (IH Hok1). unfold ticks in *. cbn [length sum_list_with].
  assert (Hc : a = Cancel ∨ a ≠ Cancel) by (destruct a; auto). destruct Hc as [->|Hc].
  - cbn in Hen, E. injection E as <-. rewrite Hen. cbn in *. unfold to_do in *. cbn in *. lia.
  - specialize (Hlt Hc). destruct (ctxDone r); [rewrite Hctx in IH by done|destruct (ctxDone r1')]; lia.
Qed.

(** Once cancelled, a run that is not over has a step to take that is not a
    tick. *)
Lemma loadgen_progress r :
  run_ok r → ctxDone r = true → mainAt r ≠ MFinished → ∃ a, enabled a r ∧ is_tick a = 0%nat ∧ a ≠ Cancel.
Proof.
  intros Hok Hctx Hm. destruct (cBuf (metricsChan r)) as [|m buf] eqn:Hb.
  2:{ exists Collect. split_and!; [|done..]. split; [|by rewrite Hb].
      destruct (collecting r) eqn:Hcol; [done|]. destruct (ro_drained _ Hok Hcol). congruence. }
  destruct (decide (sum_list_with active (bots r) = 0%nat)) as [H0|H0].
  - pose proof (ro_wg _ Hok) as Hw. rewrite H0 in Hw. destruct (mainAt r) eqn:Hma; [| |done].
    + by exists WaitReturns.
    + destruct (collecting r) eqn:Hcol; [exists CollectorEnds|by exists RunReturns].
      split_and!; [|done..]. split_and!; [done..|]. rewrite (ro_closed _ Hok), Hma. by apply bool_decide_true.
  - apply sum_pos in H0 as (i & b & Hi & Hb'). destruct b as [| |o|m|]; [| | | |done].
    + by exists (Start i).
    + by exists (Quit i).
    + exists (Respond i 0 None). split_and!; [by exists o|done..].
    + exists (Handoff i). split_and!; [|done..]. destruct (active_open _ _ _ Hok Hi eq_refl) as (_ & Hcol & _).
      split_and!; [by exists m|done..].
Qed.

Lemma finish_cancelled n r :
  (to_do r <= n)%nat → run_ok r → ctxDone r = true →
  ∃ acts r', exec r acts r' ∧ mainAt r' = MFinished ∧ ticks acts = 0%nat.
Proof.
  revert r. induction n as [|n IH]; intros r Hn Hok Hctx;
    (destruct (decide (mainAt r = MFinished)) as [Hf|Hf]; [exists [], r; split_and!; [constructor|done..]|]).
  { exfalso. unfold to_do in Hn. destruct (mainAt r); [lia..|done]. }
  destruct (loadgen_progress r Hok Hctx Hf) as (a & Hen & Ht & Hc).
  destruct (loadgen_step_ok r a Hok Hen) as (r1 & E & Hok1 & Hlt & Hctx1). specialize (Hlt Hc).
  destruct (IH r1) as (acts & r' & He & Hm & Hta); [lia|done|auto|].
  exists (a :: acts), r'. split_and!; [by econstructor|done|]. unfold ticks in *. cbn. lia.
Qed.

(** ** The start *)

Lemma sum_replicate {A} (f : A → nat) n x : sum_list_with f (replicate n x) = (n * f x)%nat.
Proof. induction n as [|n IH]; cbn; lia. Qed.

Lemma start_ok o r : Run_start o = Ok r → tpsPerBot r <= second → run_ok r.
Proof.
  unfold Run_start. destruct (make_chan _) as [c| |]; [|done..]. cbn.
  destruct (int_div _ _) as [tps| |]; [|done..]. cbn. intros [= <-]. cbn. intros Ht. split; cbn; try done.
  - destruct (Z.ltb_spec tps 1); lia.
  - rewrite sum_replicate. cbn. lia.
  - by exists [].
Qed.

(** ** Properties *)

(** The rate of a bot does not change during a run. *)
Lemma perform_tps a r r' : perform a r = Ok (tt, r') → tpsPerBot r' = tpsPerBot r.
Proof.
  destruct a as [i|i d u ok|i l resp|i|i|i| | | | |]; cbn [perform]; unfold mbind, GoM_bind, gets, lift, modify, wg_done; intros E.
  - destruct (ticker_interval _); [|done..]. by injection E as <-.
  - destruct ok; by injection E as <-.
  - by injection E as <-.
  - destruct (bots r !! i) as [[]|]; try (by injection E as <-).
    destruct (try_send _ _ _) as [[[] c]| |]; try done. by injection E as <-.
  - destruct (bots r !! i) as [[]|]; try (by injection E as <-).
    destruct (cClosed _); [done|]. by injection E as <-.
  - destruct (wg _ - 1 <? 0); [done|]. by injection E as <-.
  - by injection E as <-.
  - destruct (recv _) as [[[m|] c]| |]; try done; by injection E as <-.
  - by injection E as <-.
  - destruct (close_chan _); [|done..]. by injection E as <-.
  - by injection E as <-.
Qed.
Lemma exec_tps r acts r' : exec r acts r' → tpsPerBot r' = tpsPerBot r.
Proof. induction 1 as [|a r r1 acts r2 _ E _ IH]; [done|]. by rewrite IH, (perform_tps _ _ _ E). Qed.

(** A ticker can be made for rates from 1 to 10^9, and ticks at the rate. *)
Lemma ticker_interval_spec tps :
  1 <= tps → is_int64 tps →
  if tps <=? 1000000000
  then ∃ d, ticker_interval tps = Ok d ∧ 0 < d ∧ d * tps <= second < (d + 1) * tps
  else ticker_interval tps = Panic.
Proof.
  intros H1 Hi. unfold ticker_interval, int_div. replace (tps =? 0) with false by lia. cbn [mbind res_bind].
  rewrite Z.quot_div_nonneg by (unfold second; lia).
  pose proof (Z.div_mod second tps ltac:(lia)) as Hdm. pose proof (Z.mod_pos_bound second tps ltac:(lia)) as Hm.
  assert (Hd : 0 <= second / tps <= second) by (unfold second in *; nia).
  rewrite wrap_int64_id by (unfold is_int64, second in *; lia).
  destruct (Z.leb_spec tps 1000000000) as [Hle|Hgt].
  - assert (0 < second / tps) by (unfold second in *; nia). replace (second / tps <=? 0) with false by lia.
    exists (second / tps). split_and!; [done|done|lia|lia].
  - rewrite Z.div_small by (unfold second; lia). done.
Qed.

(** C38: When the load generator starts and at what rate.  For [int] settings
    [Run] gets past its set-up exactly when there is a number of bots other
    than zero and a channel of ten times the rate can be made; then every bot
    sends at least one order a second, and together they send at the rate asked
    for, short of it by less than one order a second and bot; only when fewer
    orders than bots are asked for, it is one for every bot.  Whenever a bot
    starts, it makes its ticker if the rate of a bot is at most 10^9, and the
    ticker keeps that rate; with a higher one its goroutine panics. *)
Theorem loadgen_start o :
  is_int64 (TotalTPS o) → is_int64 (NumBots o) →
  if bool_decide (NumBots o ≠ 0) && (0 <=? wrap_int64 (TotalTPS o * 10)) &&
     (wrap_int64 (TotalTPS o * 10) <=? max_chan)
  then
    ∃ r, Run_start o = Ok r ∧ length (bots r) = Z.to_nat (NumBots o) ∧ 1 <= tpsPerBot r ∧
      (0 < NumBots o → 0 <= TotalTPS o →
       if NumBots o <=? TotalTPS o
       then TotalTPS o - NumBots o < NumBots o * tpsPerBot r <= TotalTPS o
       else NumBots o * tpsPerBot r = NumBots o) ∧
      ∀ acts r' i, exec r acts r' → enabled (Start i) r' →
        if tpsPerBot r <=? 1000000000
        then perform (Start i) r' = Ok (tt, set_bot i BSelect r') ∧
          ∃ d, ticker_interval (tpsPerBot r) = Ok d ∧ d * tpsPerBot r <= second < (d + 1) * tpsPerBot r
        else perform (Start i) r' = Panic
  else Run_start o = Panic.
Proof.
  intros Ht Hn. unfold Run_start, make_chan, int_div. set (c := wrap_int64 (TotalTPS o * 10)).
  destruct (Z.ltb_spec c 0) as [Hc|Hc]; cbn [orb].
  { replace (0 <=? c) with false by lia. by rewrite andb_false_r. }
  replace (0 <=? c) with true by lia. rewrite andb_true_r.
  destruct (Z.ltb_spec max_chan c) as [Hm|Hm]; cbn [mbind res_bind].
  { replace (c <=? max_chan) with false by lia. by rewrite andb_false_r. }
  replace (c <=? max_chan) with true by lia. rewrite andb_true_r.
  destruct (Z.eqb_spec (NumBots o) 0) as [H0|H0]; [by rewrite bool_decide_false by tauto|].
  rewrite bool_decide_true by done. cbn [mbind res_bind]. eexists. split; [done|]. cbn.
  set (tps := if _ : bool then 1 else _).
  assert (Htps : 1 <= tps ∧ is_int64 tps).
  { subst tps. pose proof (wrap_int64_bounds (Z.quot (TotalTPS o) (NumBots o))).
    destruct (Z.ltb_spec (wrap_int64 (Z.quot (TotalTPS o) (NumBots o))) 1); [done|]. split; [lia|done]. }
  rewrite length_replicate. split; [done|]. split; [apply Htps|]. split; cycle 1.
  { intros acts r' i He _. apply exec_tps in He. cbn [tpsPerBot] in He. clearbody tps.
    pose proof (ticker_interval_spec tps (proj1 Htps) (proj2 Htps)) as Hti. destruct (tps <=? 1000000000).
    - destruct Hti as (d & E & _ & Hr). split; [|eauto]. unfold mbind, GoM_bind, gets, lift. by rewrite He, E.
    - unfold mbind, GoM_bind, gets, lift. by rewrite He, Hti. }
  intros Hpos Hge. subst tps. unfold is_int64 in *. rewrite Z.quot_div_nonneg by lia.
  pose proof (Z.div_le_upper_bound (TotalTPS o) (NumBots o) (TotalTPS o) ltac:(lia) ltac:(nia)).
  pose proof (Z.div_pos (TotalTPS o) (NumBots o) ltac:(lia) ltac:(lia)).
  rewrite wrap_int64_id by (unfold is_int64; lia).
  pose proof (Z.div_mod (TotalTPS o) (NumBots o) ltac:(lia)) as Hdm.
  pose proof (Z.mod_pos_bound (TotalTPS o) (NumBots o) ltac:(lia)).
  destruct (Z.leb_spec (NumBots o) (TotalTPS o)); destruct (Z.ltb_spec (TotalTPS o / NumBots o) 1); nia.
Qed.

Definition ex_orch : Orchestrator := mkOrchestrator 10 3.
Definition ex_run : Run :=
  mkRun 100 3 [BStarting; BStarting; BStarting] 3 false new_chan (mkTotals 0 0 0) true MWaiting [].

Lemma ex_run_start : Run_start ex_orch = Ok ex_run.
Proof. vm_compute. reflexivity. Qed.

Lemma start_bots o r : Run_start o = Ok r → bots r = replicate (Z.to_nat (NumBots o)) BStarting.
Proof.
  unfold Run_start. destruct (make_chan _) as [c| |]; [|done..]. destruct (int_div _ _) as [t| |]; [|done..].
  cbn. intros E. by injection E as <-.
Qed.

(** One bot that is to send 10^12 orders a second: [Run] starts it and it panics. *)
Definition ex_fast : Orchestrator := mkOrchestrator 1000000000000 1.

Lemma loadgen_start_witness :
  (∃ r, Run_start ex_orch = Ok r ∧ perform (Start 2) r = Ok (tt, set_bot 2 BSelect r) ∧
    10 - 3 < 3 * tpsPerBot r <= 10) ∧
  ∃ r, Run_start ex_fast = Ok r ∧ perform (Start 0) r = Panic.
Proof.
  split.
  - destruct (loadgen_start ex_orch ltac:(by vm_compute) ltac:(by vm_compute)) as (r & E & _ & _ & Hr & Hs).
    exists r. split; [exact E|]. split; [|exact (Hr eq_refl ltac:(by vm_compute))].
    assert (r = ex_run) as -> by (rewrite ex_run_start in E; congruence).
    exact (proj1 (Hs [] ex_run 2%nat (exec_nil _) eq_refl)).
  - destruct (loadgen_start ex_fast ltac:(by vm_compute) ltac:(by vm_compute)) as (r & E & _ & _ & Hr & Hs).
    exists r. split; [exact E|]. specialize (Hr eq_refl ltac:(by vm_compute)).
    specialize (Hs [] r 0%nat (exec_nil _)). cbn [enabled] in Hs. rewrite (start_bots _ _ E) in Hs. specialize (Hs eq_refl).
    change (if NumBots ex_fast <=? TotalTPS ex_fast then _ else _) with
      (1000000000000 - 1 < 1 * tpsPerBot r <= 1000000000000) in Hr.
    destruct (Z.leb_spec (tpsPerBot r) 1000000000); [lia|exact Hs].
Defined.

(** A run never crashes: with a rate of at most 10^9 a bot, whatever the
    interleaving of bots, collector and main goroutine, every step that can
    be taken succeeds.  No metric is sent on the closed channel, the wait
    group never goes negative, and no channel is closed twice. *)
Theorem loadgen_never_panics o r0 acts r a :
  Run_start o = Ok r0 → tpsPerBot r0 <= 1000000000 → exec r0 acts r → enabled a r →
  ∃ r', perform a r = Ok (tt, r').
Proof.
  intros Hs Ht He Hen. pose proof (exec_ok _ _ _ (start_ok _ _ Hs Ht) He) as Hok.
  destruct (loadgen_step_ok r a Hok Hen) as (r' & E & _). eauto.
Qed.

Lemma loadgen_never_panics_witness : ∃ r', perform (Start 0) ex_run = Ok (tt, r').
Proof.
  apply (loadgen_never_panics ex_orch ex_run [] ex_run (Start 0) ex_run_start); [done|constructor|done].
Defined.

(** The report of totals that did not overflow. *)
Lemma report_tally l r duration :
  counted r = mkTotals (wrap_int64 (Z.of_nat (length l))) (wrap_int64 (Z.of_nat (length (successes l))))
    (wrap_int64 (sum_latency l)) →
  Z.of_nat (length l) < 2 ^ 63 → is_int64 (sum_latency l) →
  report duration r = Ok
    ([TotalRequestsLine (Z.of_nat (length l)); SuccessfulLine (Z.of_nat (length (successes l)))] ++
     match l with
     | [] => []
     | _ => [AverageLatencyLine (Z.quot (sum_latency l) (Z.of_nat (length l)));
             ActualTPSLine (FormatFloat (fdiv (of_Z (Z.of_nat (length l))) (Seconds duration)))]
     end).
Proof.
  intros Hc Hn Hs. unfold report. rewrite Hc.
  assert (Hf : (length (successes l) <= length l)%nat) by apply length_filter.
  rewrite (wrap_int64_id (sum_latency l)) by done. rewrite !wrap_int64_id by (unfold is_int64; lia). cbn [totalRequests successCount totalLatency].
  destruct l as [|m l]; [done|]. assert (Hpos : 0 < Z.of_nat (length (m :: l))) by (cbn [length]; lia).
  destruct (Z.ltb_spec 0 (Z.of_nat (length (m :: l)))); [|lia].
  unfold int_div. destruct (Z.eqb_spec (Z.of_nat (length (m :: l))) 0); [lia|]. cbn [mbind res_bind]. rewrite wrap_int64_id; [done|].
  assert (Hq : ∀ a b, is_int64 a → 1 <= b → is_int64 (Z.quot a b)); [|apply Hq; [done|lia]].
  intros a b Ha Hb. unfold is_int64 in *. destruct (Z_le_gt_dec 0 a).
  - rewrite Z.quot_div_nonneg by lia. pose proof (Z.div_pos a b ltac:(lia) ltac:(lia)).
    pose proof (Z.div_le_upper_bound a b a ltac:(lia) ltac:(nia)). lia.
  - replace a with (- (- a)) by lia. rewrite Z.quot_opp_l, Z.quot_div_nonneg by lia.
    pose proof (Z.div_pos (- a) b ltac:(lia) ltac:(lia)).
    pose proof (Z.div_le_upper_bound (- a) b (- a) ltac:(lia) ltac:(nia)). lia.
Qed.

(** C35: Nothing is lost or counted twice.  When [Run] has returned, every bot
    has returned, the channel is empty, and the totals are those of all
    metrics the bots sent: their number, the number of successes and the sum
    of the latencies, in 64-bit arithmetic.  The report never divides by zero,
    and unless the numbers exceed 64 bits it prints the number of metrics sent,
    the number of successes and, if there were any, the average of the latencies
    and the number of requests by the seconds of the run. *)
Theorem loadgen_totals o r0 acts r :
  Run_start o = Ok r0 → tpsPerBot r0 <= 1000000000 → exec r0 acts r → mainAt r = MFinished →
  Forall (λ b, b = BDone) (bots r) ∧ cBuf (metricsChan r) = [] ∧
  counted r = mkTotals (wrap_int64 (Z.of_nat (length (sent r))))
    (wrap_int64 (Z.of_nat (length (successes (sent r))))) (wrap_int64 (sum_latency (sent r))) ∧
  (∀ duration, ∃ lines, report duration r = Ok lines) ∧
  (Z.of_nat (length (sent r)) < 2 ^ 63 → is_int64 (sum_latency (sent r)) →
   let n := Z.of_nat (length (sent r)) in
   ∀ duration, report duration r = Ok
     ([TotalRequestsLine n; SuccessfulLine (Z.of_nat (length (filter (λ m, IsSuccess m = true) (sent r))))] ++
      match sent r with
      | [] => []
      | _ => [AverageLatencyLine (Z.quot (sum_latency (sent r)) n);
              ActualTPSLine (FormatFloat (fdiv (of_Z n) (Seconds duration)))]
      end)).
Proof.
  intros Hs Ht He Hm. pose proof (exec_ok _ _ _ (start_ok _ _ Hs Ht) He) as [_ Hwg _ Hd Hdr Hf Hl].
  destruct (Hdr (Hf Hm)) as [Hbuf Hmw]. specialize (Hd Hmw). rewrite Hd in Hwg. split_and!.
  - apply Forall_lookup. intros i b Hi. pose proof (sum_zero active (bots r) ltac:(lia) _ _ Hi) as H0.
    by destruct b.
  - done.
  - destruct Hl as (l & Hl & ->). rewrite Hbuf, app_nil_r in Hl. rewrite Hl. apply tally_spec.
  - intros duration. unfold report. destruct (Z.ltb_spec 0 (totalRequests (counted r))); [|by eexists].
    unfold int_div. replace (totalRequests (counted r) =? 0) with false by lia. by eexists.
  - destruct Hl as (l & Hl & Hc). rewrite Hbuf, app_nil_r in Hl. subst l. intros Hn Hsum n duration.
    apply report_tally; [by rewrite Hc, tally_spec|done|done].
Qed.

(** C34: Runs end.  The number of steps of a run is bounded by the number of
    bots and of ticks, and from any state of a run that has been cancelled the
    steps under way lead to the return of [Run] without another tick: no bot
    stays blocked on the metrics channel, whatever its capacity, and the
    collector and the main goroutine do not wait for each other. *)
Theorem loadgen_terminates o r0 acts r :
  Run_start o = Ok r0 → tpsPerBot r0 <= 1000000000 → exec r0 acts r →
  (length acts <= 2 * length (bots r0) + 4 + 4 * ticks acts)%nat ∧
  (ctxDone r = true → ∃ acts' r', exec r acts' r' ∧ mainAt r' = MFinished ∧ ticks acts' = 0%nat).
Proof.
  intros Hs Ht He. pose proof (start_ok _ _ Hs Ht) as Hok0. split.
  - pose proof (exec_bound _ _ _ Hok0 He) as Hb.
    assert (Hto : (to_do r0 = 2 * length (bots r0) + 3)%nat).
    { unfold Run_start in Hs. destruct (make_chan _); [|done..]. cbn in Hs.
      destruct (int_div _ _); [|done..]. cbn in Hs. injection Hs as <-. unfold to_do. cbn.
      rewrite sum_replicate, length_replicate. cbn. lia. }
    destruct (ctxDone r0); lia.
  - intros Hctx. eapply finish_cancelled; [done| |done]. by eapply exec_ok.
Qed.

(** One bot is cancelled at once and the run ends. *)
Definition ex_acts : list action :=
  [Cancel; Start 0; Quit 0; WaitReturns; CollectorEnds; RunReturns].
Definition ex_orch1 : Orchestrator := mkOrchestrator 5 1.
Definition ex_run1 : Run := mkRun 50 5 [BStarting] 1 false new_chan (mkTotals 0 0 0) true MWaiting [].
Definition ex_run1_end : Run :=
  mkRun 50 5 [BDone] 0 true (mkChan [] true) (mkTotals 0 0 0) false MFinished [].

Lemma ex_exec : exec ex_run1 ex_acts ex_run1_end.
Proof. do 6 (eapply exec_cons; [by cbn|vm_compute; reflexivity|]). constructor. Qed.

(** A bot sends two orders: one succeeds and its metric goes through the
    buffer, the other fails and its metric is handed to the collector. *)
Definition busy_acts : list action :=
  [Start 0; Tick 0 (mkDraws 1 0 500 9) "u1" true; Respond 0 3000000 (Some 200); Send 0; Collect;
   Tick 0 (mkDraws 0 1 7 1) "u2" true; Respond 0 1000000 (Some 400); Handoff 0;
   Cancel; Quit 0; WaitReturns; CollectorEnds; RunReturns].
Definition busy_end : Run :=
  mkRun 50 5 [BDone] 0 true (mkChan [] true) (mkTotals 2 1 4000000) false MFinished
    [mkMetric 3000000 true; mkMetric 1000000 false].

Lemma busy_exec : exec ex_run1 busy_acts busy_end.
Proof.
  do 13 (eapply exec_cons; [cbn; unfold draws_ok; repeat split; cbn; first [done|lia|by eexists|right; lia]|vm_compute; reflexivity|]).
  constructor.
Qed.

(** Over four seconds: [Actual TPS: 0.50]. *)
Lemma loadgen_totals_witness :
  counted busy_end = mkTotals 2 1 4000000 ∧
  report 4000000000 busy_end = Ok [TotalRequestsLine 2; SuccessfulLine 1; AverageLatencyLine 2000000;
    ActualTPSLine (str "0.50")].
Proof.
  destruct (loadgen_totals ex_orch1 ex_run1 busy_acts busy_end
    ltac:(vm_compute; reflexivity) ltac:(done) busy_exec ltac:(done)) as (_ & _ & Hc & _ & Hr).
  split; [exact Hc|]. exact (Hr ltac:(by vm_compute) ltac:(by vm_compute) 4000000000).
Defined.

Lemma loadgen_terminates_witness : (length ex_acts <= 2 * 1 + 4 + 4 * ticks ex_acts)%nat.
Proof.
  exact (proj1 (loadgen_terminates ex_orch1 ex_run1 ex_acts ex_run1_end
    ltac:(vm_compute; reflexivity) ltac:(done) ex_exec)).
Defined.

(** The load generator speaks the server's language.  Every order a bot
    sends, whatever the random draws, passes the validation of the API
    server with room in its queue: it becomes one pending order with a
    quantity between 1 and 100 and a price between 10000 and 11999, or no
    price if it is a market order. *)
Theorem bot_orders_accepted sv b now d uuid :
  server_ok sv b → (length (inputChan sv) < input_cap)%nat → draws_ok d → uuid ≠ "" →
  let body := random_order d uuid in
  (pSide body = Buy ∨ pSide body = Sell) ∧ 1 <= pQuantity body <= 100 ∧
  (pType body = LimitOrder ∧ 10000 <= pPrice body <= 11999 ∨ pType body = MarketOrder ∧ pPrice body = 0) ∧
  ∃ sv', handlePlaceOrder now (Some body) sv = Ok (Waiting (nextChan sv), sv') ∧ server_ok sv' b ∧
    inputChan sv' = inputChan sv ++ [mkOrderRequest PlaceRequest (sBrk (ob sv)) "" (nextChan sv)].
Proof.
  intros Hok Hcap (H1 & H2 & H3 & H4) Hu body. unfold body, random_order. cbn [pSide pQuantity pType pPrice].
  rewrite !wrap64_id by (unfold is_u64; lia). unfold Buy, Sell, LimitOrder, MarketOrder. split_and!; try lia.
  - destruct (Z.eqb_spec (dType d) 1); [right|left]; lia.
  - destruct (place_handler_ok sv b now (random_order d uuid) Hok Hcap) as (sv' & E & Hok' & Hin & _);
      unfold random_order in *; cbn [pID pQuantity] in *; rewrite ?wrap64_id in * by (unfold is_u64; lia);
      [unfold is_u64; lia|done|lia|]. eauto.
Qed.

Lemma bot_orders_accepted_witness :
  ∃ sv', handlePlaceOrder 0 (Some (random_order (mkDraws 1 0 500 9) "u")) NewServer = Ok (Waiting 0%N, sv') ∧
    server_ok sv' empty_book.
Proof.
  destruct (bot_orders_accepted NewServer empty_book 0 (mkDraws 1 0 500 9) "u" NewServer_ok)
    as (_ & _ & _ & sv' & E & Hok & _); [unfold input_cap; cbn [length inputChan NewServer]; lia| |done|].
  - unfold draws_ok. cbn. lia.
  - exists sv'. split; [exact E|exact Hok].
Defined.
