(* ===== verification/Bots.v ===== *)
(** * Bots against the engine

    The load generator of pkg/loadgen and the API of pkg/api together: the
    request that one tick of a bot makes, in bytes, and what the engine does
    with it. *)

From stdpp Require Import prelude gmap strings list fin_maps.
From Stdlib Require Import ZArith Lia Ascii.
From S2P Require Import Prelude GoBytes GoJson JsonProps Order OrderBook BookSpec Server ServerInv ServerProps Http Routes Wire Api Float64 FloatSecs Telemetry GoChan LoadGen LoadGenProps.

Local Open Scope Z_scope.

(** [json.Marshal(reqBody)] posted to the orders of the endpoint. *)
Definition bot_request (d : draws) (uuid : string) : http_request :=
  mkHttpRequest "POST" (str "/api/v1/orders") (print (j_order (random_order d uuid))).

(** The status code the bot sees. *)
Definition status_of (r : http_response) : option Z := match r with Replied status _ => Some status | _ => None end.

Lemma random_order_ok d uuid : draws_ok d → text_ok uuid → order_ok (random_order d uuid).
Proof.
  intros (H1 & H2 & H3 & H4) Hu. unfold order_ok, random_order. cbn [pID pSide pType pPrice pQuantity].
  rewrite !wrap64_id by (unfold is_u64; lia). unfold is_int64, is_u64. destruct (dType d =? 1); (split; [done|lia]).
Qed.

(** C21: The load generator speaks the engine's language.  The body that a bot
    marshals, whatever the random draws, is decoded to the very order the bot
    made; an idle engine with room answers it with status 200 and the trades
    of the specification, and the bot counts a success. *)
Theorem bot_request_served d uuid now latency sv s :
  draws_ok d → text_ok uuid → uuid ≠ "" → api_rel sv s → book_vol (aBook s) + 100 < 2 ^ 64 →
  let o := random_order d uuid in
  decode_place (hBody (bot_request d uuid)) = Some o ∧
  ∃ ts b sv', spec_process (sBrk (ob sv)) uuid (pSide o) (pType o) (pPrice o) (pQuantity o) (aBook s) = (ts, b) ∧
    serve_http now (bot_request d uuid) sv = Ok (Replied 200 (Encode (j_response (place_response ts))), sv') ∧
    api_rel sv' (mkApi b (aDepth s) true) ∧
    metric_of latency (status_of (Replied 200 (Encode (j_response (place_response ts))))) = mkMetric latency true.
Proof.
  intros Hd Hu Hne Hr Hroom. cbn zeta. pose proof (order_decoded _ (random_order_ok d uuid Hd Hu)) as Hdec. split; [exact Hdec|].
  assert (Hdis : dispatch api_mux "POST" (str "/api/v1/orders") = Serve PlaceOrderH) by (vm_compute; reflexivity).
  assert (Hqty : 1 <= pQuantity (random_order d uuid) <= 100).
  { destruct Hd as (_ & _ & _ & Hq). cbn [pQuantity random_order]. rewrite wrap64_id; unfold is_u64; lia. }
  assert (Hrq : request_qty (bot_request d uuid) = pQuantity (random_order d uuid)).
  { unfold request_qty. cbn [hMethod hTarget hBody bot_request]. by rewrite Hdis, Hdec. }
  destruct (http_refined now (bot_request d uuid) sv s Hr ltac:(lia)) as (sv' & E & Hr' & _). revert E Hr'. unfold spec_http, place_spec.
  cbn [hMethod hTarget hBody bot_request]. rewrite Hdis, Hdec. rewrite decide_False; [|intros [?|?]; [done|lia]].
  change (pID (random_order d uuid)) with uuid.
  destruct (spec_process _ uuid _ _ _ _ (aBook s)) as [ts b]. intros E Hr'. exists ts, b, sv'. split_and!; [done|exact E|exact Hr'|done].
Qed.

Lemma bot_request_served_witness :
  ∃ sv', serve_http 0 (bot_request (mkDraws 1 0 500 9) "u-1") NewServer =
    Ok (Replied 200 (Encode (j_response (mkResponse true [] ""))), sv').
Proof.
  destruct (bot_request_served (mkDraws 1 0 500 9) "u-1" 0 5 NewServer api_init) as (_ & ts & b & sv' & E1 & E2 & _).
  - unfold draws_ok. cbn. lia.
  - by apply ascii_valid.
  - done.
  - apply api_init_rel.
  - by vm_compute.
  - assert (ts = []) as -> by (injection E1 as <- _; reflexivity). exists sv'. exact E2.
Defined.

(** ** The collector's metrics *)

(** One metric of the bots: the totals and the calls of the exporter. *)
Definition collect_metered (m : LatencyMetric) (st : totals * list metric) : res (totals * list metric) :=
  let status := if IsSuccess m then "success" else "error" in
  call ← inc LoadGenRequests [status];
  mret (collect m st.1, st.2 ++ [call; Observe LoadGenLatency.1 (Seconds (Latency m))]).
Fixpoint collect_all (l : list LatencyMetric) (st : totals * list metric) : res (totals * list metric) :=
  match l with
  | [] => mret st
  | m :: l' => st ← collect_metered m st; collect_all l' st
  end.

(** Calls of a counter with given labels, and the durations observed. *)
Definition increments (values : list string) (ms : list metric) : nat :=
  length (filter (λ m, m = Inc LoadGenRequests.1 values) ms).
Definition observed (ms : list metric) : list float64 :=
  omap (λ m, match m with Observe _ d => Some d | Inc _ _ => None end) ms.

Lemma collect_all_spec l t ms :
  ∃ calls, collect_all l (t, ms) = Ok (foldl (λ t m, collect m t) t l, ms ++ calls) ∧
    increments ["success"] calls = length (filter (λ m, IsSuccess m = true) l) ∧
    (increments ["success"] calls + increments ["error"] calls = length l)%nat ∧ observed calls = Seconds ∘ Latency <$> l.
Proof.
  revert t ms. induction l as [|m l IH]; intros t ms.
  - exists []. cbn. by rewrite app_nil_r.
  - set (status := if IsSuccess m then "success" else "error").
    destruct (IH (collect m t) (ms ++ [Inc LoadGenRequests.1 [status]; Observe LoadGenLatency.1 (Seconds (Latency m))])) as (calls & E & H1 & H2 & H3).
    exists (Inc LoadGenRequests.1 [status] :: Observe LoadGenLatency.1 (Seconds (Latency m)) :: calls). split_and!.
    + change (collect_all (m :: l) (t, ms)) with
        (collect_all l (collect m t, ms ++ [Inc LoadGenRequests.1 [status]; Observe LoadGenLatency.1 (Seconds (Latency m))])).
      rewrite E. by rewrite <- app_assoc.
    + unfold increments in *. rewrite filter_cons, (filter_cons _ m). subst status. destruct (IsSuccess m).
      * rewrite !decide_True by done. cbn [length]. f_equal. rewrite filter_cons_False by done. exact H1.
      * rewrite !decide_False by done. rewrite filter_cons_False by done. exact H1.
    + unfold increments in *. rewrite !filter_cons. subst status. destruct (IsSuccess m); vm_compute (decide _); cbn [length]; lia.
    + cbn. by f_equal.
Qed.

(** The load generator's metrics are its totals: for the metrics the
    bots report, however many, the collector increments the counter once for
    each, with the status of the request, and observes every latency in
    seconds, in order;
    so the two counters add up to the requests, and the counter of successes
    is the number it prints at the end. *)
Theorem loadgen_metrics l :
  ∃ calls, collect_all l (mkTotals 0 0 0, []) = Ok (tally l, calls) ∧
    (Z.of_nat (length l) < 2 ^ 63 → successCount (tally l) = Z.of_nat (increments ["success"] calls) ∧
       totalRequests (tally l) = Z.of_nat (increments ["success"] calls) + Z.of_nat (increments ["error"] calls)) ∧
    observed calls = Seconds ∘ Latency <$> l.
Proof.
  destruct (collect_all_spec l (mkTotals 0 0 0) []) as (calls & E & H1 & H2 & H3). exists calls. split_and!; [exact E| |done].
  intros Hl. rewrite tally_spec. cbn [successCount totalRequests]. unfold successes.
  pose proof (length_filter (λ m, IsSuccess m = true) l). rewrite !wrap_int64_id by (unfold is_int64; lia). lia.
Qed.
