(* ===== verification/FloatText.v ===== *)
(** * Floats as text

    [ParseFloat] inverts [FormatFloat] up to the rounding to two decimals, and
    the order survives both. *)

From stdpp Require Import prelude strings list.
From Stdlib Require Import ZArith QArith Qpower Lqa Lia Ascii SpecFloat.
From S2P Require Import Prelude GoBytes Float64 FloatRound FloatOrder.

Local Open Scope Z_scope.

(** ** Reading digits *)

Lemma take_digits_app acc k l rest n :
  digits_val acc l = Some n → match rest with c :: _ => digit_val c = None | [] => True end →
  take_digits acc k (l ++ rest) = (n, (k + length l)%nat, rest).
Proof.
  revert acc k. induction l as [|c l IH]; intros acc k Hl Hr; cbn in *.
  - injection Hl as ->. rewrite Nat.add_0_r. destruct rest as [|c rest]; cbn; [done|by rewrite Hr].
  - apply bind_Some in Hl as (d & Hd & Hl). rewrite Hd, (IH _ _ Hl Hr). f_equal. f_equal. lia.
Qed.

Lemma digit_not_letter c : is_digit c → lower c = c ∧ c ≠ "-"%char ∧ c ≠ "+"%char ∧ c ≠ "i"%char ∧ c ≠ "n"%char.
Proof.
  unfold is_digit, lower. intros Hc. replace ((65 <=? code c) && (code c <=? 90)) with false by lia.
  split; [done|]. split_and!; intros ->;
    [change (code _) with 45 in Hc|change (code _) with 43 in Hc|change (code _) with 105 in Hc
    |change (code _) with 110 in Hc]; lia.
Qed.

Lemma fmt_cents_head n : 0 <= n → ∃ c l, fmt_cents n = c :: l ∧ is_digit c.
Proof.
  intros Hn. unfold fmt_cents. pose proof (digits_are_digits 310 (n / 100) ltac:(apply Z.div_pos; lia)) as Hd.
  pose proof (digits_nonempty 310 (n / 100) ltac:(lia)) as Hne.
  destruct (digits 310 (n / 100)) as [|c l]; [done|]. apply Forall_cons in Hd as [Hc _].
  by eexists _, _.
Qed.

Lemma parse_fmt_cents s n : 0 <= n < 10 ^ 312 → parse_unsigned s (fmt_cents n) = Some (of_ratio s n 100).
Proof.
  intros Hn. destruct (fmt_cents_head n ltac:(lia)) as (c0 & l0 & E & Hc0). unfold parse_unsigned.
  destruct (digit_not_letter c0 Hc0) as (Hlow & _ & _ & Hi & _).
  rewrite decide_False by (rewrite E; cbn; rewrite Hlow; intros [[=]|[=]]; done). clear E c0 l0 Hc0 Hlow Hi.
  unfold fmt_cents.
  rewrite (take_digits_app _ _ (digits 310 (n / 100)) _ (n / 100));
    [|apply digits_val_digits; [split; [apply Z.div_pos; lia|apply Z.div_lt_upper_bound; lia]|lia]|done].
  cbv iota. rewrite decide_True by done.
  set (d1 := n mod 100 / 10). set (d2 := n mod 10).
  assert (Hd1 : 0 <= d1 < 10) by (unfold d1; Z.to_euclidean_division_equations; lia).
  assert (Hd2 : 0 <= d2 < 10) by (unfold d2; Z.to_euclidean_division_equations; lia).
  cbn [take_digits]. rewrite !digit_val_char by lia. cbn [parse_exponent mbind option_bind].
  rewrite bool_decide_false by lia. f_equal. unfold of_decimal.
  replace ((n / 100 * 10 + d1) * 10 + d2) with n by (unfold d1, d2; Z.to_euclidean_division_equations; lia).
  done.
Qed.

(** ** Hundredths *)

Lemma div_even_rounded n d :
  0 < d → div_even n d = rounded (shr_record_of_loc (n / d) (new_location d (n mod d))).
Proof.
  intros Hd. unfold div_even. pose proof (Z.mod_pos_bound n d Hd).
  destruct (decide (n mod d = 0)) as [H0|H0].
  - assert (Hl : new_location d 0 = loc_Exact) by (unfold new_location; by destruct (Z.even d)).
    rewrite H0, Hl. by destruct (Z.compare_spec (2 * 0) d); [lia| |lia].
  - rewrite new_location_compare by lia. by destruct (Z.compare_spec (2 * (n mod d)) d).
Qed.

(** The hundredths of a finite number are its hundredfold, rounded. *)
Lemma cents_located s m e :
  ∃ r, cents (S754_finite s m e) = rounded r ∧ located (inject_Z 100 * fval m e) 1 r ∧ 0 <= shr_m r.
Proof.
  unfold cents. destruct (Z.leb_spec 0 e) as [He|He].
  - exists (Build_shr_record (Z.pos m * 2 ^ e * 100) false false). split; [done|]. split.
    + unfold located; cbn [shr_m shr_r shr_s]. unfold fval. rewrite p2_Z by done.
      rewrite !inject_Z_mult. ring.
    + cbn. pose proof (Z.pow_pos_nonneg 2 e). lia.
  - pose proof (Z.pow_pos_nonneg 2 (- e) ltac:(lia) ltac:(lia)) as Hp.
    rewrite div_even_rounded by done. eexists. split; [done|]. split.
    + eapply (new_location_located _ (Z.pos m * 100)); [done|lra|apply Z.mod_pos_bound; lia| |].
      * apply Z.div_mod. lia.
      * rewrite <-p2_Z by lia. unfold fval. rewrite inject_Z_mult.
        assert (H1 : (p2 (- e) * p2 e == 1)%Q) by (rewrite <-p2_plus; by replace (- e + e) with 0 by lia).
        assert (H2 : (p2 (- e) * (inject_Z 100 * (inject_Z (Z.pos m) * p2 e)) ==
          (p2 (- e) * p2 e) * inject_Z 100 * inject_Z (Z.pos m))%Q) by ring.
        rewrite H2, H1. ring.
    + assert (Hr : ∀ l q, shr_m (shr_record_of_loc q l) = q) by by intros [|[]] q.
      rewrite Hr. apply Z.div_pos; lia.
Qed.

Lemma cents_range f : is_float64 f → 0 <= cents f < 10 ^ 312.
Proof.
  intros Hf. destruct f as [s|s| |s m e]; try (cbn; lia).
  destruct (float64_finite _ _ _ Hf) as (He & Hm & _). unfold cents. destruct (Z.leb_spec 0 e) as [H|H].
  - pose proof (Z.pow_pos_nonneg 2 e ltac:(lia) H).
    pose proof (Z.pow_le_mono_r 2 e 971 ltac:(lia) ltac:(lia)).
    split; [lia|]. apply Z.le_lt_trans with (2 ^ 53 * 2 ^ 971 * 100); [nia|]. by vm_compute.
  - pose proof (Z.pow_pos_nonneg 2 (- e) ltac:(lia) ltac:(lia)) as Hp. unfold div_even.
    pose proof (Z.div_pos (Z.pos m * 100) (2 ^ (- e)) ltac:(lia) Hp).
    pose proof (Z.div_le_upper_bound (Z.pos m * 100) (2 ^ (- e)) (Z.pos m * 100) Hp ltac:(nia)).
    assert (2 ^ 53 * 100 + 1 < 10 ^ 312) by by vm_compute.
    destruct (Z.compare_spec (2 * (Z.pos m * 100 mod 2 ^ (- e))) (2 ^ (- e))); [destruct (Z.even _)|..]; lia.
Qed.

(** What is shown of a number: it is rounded to hundredths, then to a float. *)
Definition shown (f : float64) : float64 :=
  if is_finite f then of_ratio (is_negative f) (cents f) 100 else f.

Lemma ParseFormat f : is_float64 f → ParseFloat (FormatFloat f) = shown f.
Proof.
  intros Hf. pose proof (cents_range f Hf) as Hc.
  assert (Hpos : ParseFloat (fmt_cents (cents f)) = of_ratio false (cents f) 100).
  { destruct (fmt_cents_head (cents f) ltac:(lia)) as (c & l & E & Hd).
    destruct (digit_not_letter c Hd) as (Hlow & Hm & Hp & _ & Hn). unfold ParseFloat. rewrite E.
    rewrite !decide_False; [| |done|done].
    - rewrite <-E. by rewrite parse_fmt_cents.
    - cbn. rewrite Hlow. by intros [=]. }
  assert (Hneg : ParseFloat ("-"%char :: fmt_cents (cents f)) = of_ratio true (cents f) 100).
  { unfold ParseFloat. rewrite decide_True by done. by rewrite parse_fmt_cents. }
  unfold shown, FormatFloat. destruct f as [[]|[]| |[] m e]; cbn [is_finite is_negative app]; done.
Qed.

(** ** The order of what is shown *)

Lemma cents_mono s1 m1 e1 s2 m2 e2 :
  (fval m1 e1 <= fval m2 e2)%Q → cents (S754_finite s1 m1 e1) <= cents (S754_finite s2 m2 e2).
Proof.
  intros Hle. destruct (cents_located s1 m1 e1) as (r1 & -> & H1 & _).
  destruct (cents_located s2 m2 e2) as (r2 & -> & H2 & _).
  apply (rounded_mono _ _ 1 _ _ ltac:(lra) H1 H2). change (inject_Z 100) with 100%Q. lra.
Qed.

Lemma of_ratio_pack s m d :
  ∃ c r, of_ratio s (Z.pos m) (Z.pos d) = pack s (rounded r) c ∧
    cexp (fval m 0 / fval d 0) c ∧ located (fval m 0 / fval d 0) (p2 c) r ∧ 0 <= shr_m r.
Proof.
  unfold of_ratio. cbn [Z.eqb]. pose proof (div_core_located m 0 d 0) as H.
  destruct (SFdiv_core_binary prec emax (Z.pos m) 0 (Z.pos d) 0) as [[q e'] l].
  destruct H as (Hq & Hl & He). by apply binary_round_aux_pack.
Qed.

Lemma of_ratio_ok s n : 0 <= n →
  is_nan (of_ratio s n 100) = false ∧ is_negative (of_ratio s n 100) = s ∧ is_float64 (of_ratio s n 100).
Proof.
  intros Hn. destruct n as [|m|m]; [done| |lia].
  destruct (of_ratio_pack s m 100) as (c & r & E & Hc & Hl & Hr). rewrite E.
  pose proof (pack_located_nan s _ _ _ Hc Hl Hr) as Hnan. pose proof (pack_located_float64 s _ _ _ Hc Hl Hr).
  split_and!; [done| |done]. destruct (pack_sign s (rounded r) c); [congruence|done].
Qed.

Lemma of_ratio_mono n1 n2 : 0 <= n1 <= n2 → fleb (of_ratio false n1 100) (of_ratio false n2 100) = true.
Proof.
  intros [Hn Hle]. destruct n1 as [|m1|m1]; [|destruct n2 as [|m2|m2]; [lia| |lia]|lia].
  - destruct (of_ratio_ok false n2 ltac:(lia)) as (H1 & H2 & _). by apply fleb_zero_l.
  - destruct (of_ratio_pack false m1 100) as (c1 & r1 & -> & ? & ? & ?).
    destruct (of_ratio_pack false m2 100) as (c2 & r2 & -> & ? & ? & ?).
    apply (pack_mono (fval m1 0 / fval 100 0) (fval m2 0 / fval 100 0)); auto.
    unfold Qdiv. apply Qmult_le_compat_r; [apply mult_le; [apply p2_pos|done]|].
    apply Qinv_le_0_compat. pose proof (fval_pos 100 0). lra.
Qed.

(** Larger numbers are shown as larger ones. *)
Lemma shown_mono a b :
  is_float64 a → is_float64 b → is_negative a = false → is_negative b = false →
  fleb a b = true → fleb (shown a) (shown b) = true.
Proof.
  intros Ha Hb Na Nb Hle. pose proof (cents_range a Ha). pose proof (cents_range b Hb). unfold shown.
  destruct a as [sa|sa| |sa ma ea]; cbn in Na; subst; try done.
  - destruct b as [sb|sb| |sb mb eb]; cbn in Nb; subst; try done. cbn [is_finite is_negative].
    apply of_ratio_mono. change (cents (S754_zero false)) with 0. lia.
  - by destruct b as [sb|[]| |[] mb eb].
  - destruct b as [sb|sb| |sb mb eb]; cbn in Nb; subst; try done; cbn [is_finite is_negative].
    + apply fleb_inf_r, of_ratio_ok. lia.
    + apply of_ratio_mono. split; [lia|]. apply cents_mono. by eapply finite_le_val.
Qed.
