(* ===== verification/JsonFloat.v ===== *)
(** * Floating-point numbers in JSON

    How encoding/json writes a float64: [strconv.AppendFloat] with the
    shortest decimal that rounds to the number, as a plain decimal or, when
    the number is below 1e-6 or from 1e21 on, with an exponent.  The shortest
    decimal is found as [roundShortest] of strconv finds it: from the exact
    decimal expansion, with more and more digits, until rounding down or up
    gives a number that reads back.  What is written is a JSON number, and
    [ParseFloat] reads it back exactly. *)

From stdpp Require Import prelude strings list.
From Stdlib Require Import ZArith QArith Qpower Lqa Lia Ascii SpecFloat.
From S2P Require Import Prelude GoBytes GoJson JsonProps Float64 FloatRound FloatOrder FloatText.

Local Open Scope Z_scope.

(** ** The shortest decimal *)

(** [m * 2 ^ e] as a decimal, exactly: an integer and a power of ten. *)
Definition exact_decimal (m : positive) (e : Z) : Z * Z :=
  if 0 <=? e then (Z.pos m * 2 ^ e, 0) else (Z.pos m * 5 ^ (- e), e).

(** [roundShortest]: [j] digits of [D * 10 ^ a] are left out, or fewer. *)
Fixpoint roundShortest (j : nat) (f : float64) (D a : Z) : Z * Z :=
  match j with
  | O => (D, a)
  | S j' =>
      let unit := 10 ^ Z.of_nat j in
      let okdown := bool_decide (of_decimal false (D / unit) (a + Z.of_nat j) = f) in
      let okup := bool_decide (of_decimal false (D / unit + 1) (a + Z.of_nat j) = f) in
      match okdown, okup with
      | true, true => (div_even D unit, a + Z.of_nat j)
      | true, false => (D / unit, a + Z.of_nat j)
      | false, true => (D / unit + 1, a + Z.of_nat j)
      | false, false => roundShortest j' f D a
      end
  end.

(** Zeros at the end are no digits. *)
Fixpoint strip (fuel : nat) (x a : Z) : Z * Z :=
  match fuel with
  | O => (x, a)
  | S fuel' => if x mod 10 =? 0 then strip fuel' (x / 10) (a + 1) else (x, a)
  end.

(** 800 digits are enough for the exact value of every float64. *)
Definition decimal_of (m : positive) (e : Z) : Z * Z :=
  let '(D, a) := exact_decimal m e in
  let '(x, b) := roundShortest (length (digits 800 D) - 1) (S754_finite false m e) D a in
  strip 800 x b.

(** ** Text *)

(** Fraction, exponent, and with the integer part a number. *)
Definition frac_part (f : bytes) : bytes := match f with [] => [] | _ => "."%char :: f end.
Definition exp_part (x : option Z) : bytes :=
  match x with
  | None => []
  | Some x => "e"%char :: (if x <? 0 then "-"%char else "+"%char) :: digits 20 (Z.abs x)
  end.
Definition number_text (i f : bytes) (x : option Z) : bytes := i ++ frac_part f ++ exp_part x.

(** [fmtF]. *)
Definition fixed_text (x a : Z) : bytes :=
  let ds := digits 800 x in
  let dp := len ds + a in
  if 0 <=? a then number_text (ds ++ zeros a) [] None
  else if 0 <? dp then number_text (take (Z.to_nat dp) ds) (drop (Z.to_nat dp) ds) None
  else number_text ["0"%char] (zeros (- dp) ++ ds) None.
(** [fmtE]; the encoder removes a zero in front of the exponent. *)
Definition exponent_text (x a : Z) : bytes :=
  let ds := digits 800 x in
  number_text (take 1 ds) (drop 1 ds) (Some (len ds + a - 1)).

Definition signed (s : bool) (t : bytes) : bytes := (if s then ["-"%char] else []) ++ t.

(** [floatEncoder], for the numbers that it does not refuse. *)
Definition float_text (f : float64) : bytes :=
  match f with
  | S754_zero s => signed s ["0"%char]
  | S754_finite s m e =>
      let abs := S754_finite false m e in
      let '(x, a) := decimal_of m e in
      signed s
        (if fltb abs (of_decimal false 1 (-6)) || fleb (of_decimal false 1 21) abs then exponent_text x a
         else fixed_text x a)
  | _ => []
  end.

(** ** Fields *)

(** [float64], by [strconv.ParseFloat]; a number out of range is an error. *)
Definition float_field {S} (name : string) (set : float64 → S → S) : field S :=
  (str name, λ v, match v with
                  | JNull => Some id
                  | JNum lit => if is_finite (ParseFloat lit) then Some (set (ParseFloat lit)) else None
                  | _ => None
                  end).

(** ** The number decides the rounding *)

Definition dval (n a : Z) : Q := (inject_Z n * Qpower 10 a)%Q.

Lemma p10_pos a : (0 < Qpower 10 a)%Q.
Proof. apply Qpower_0_lt. lra. Qed.
Lemma p10_plus a b : (Qpower 10 (a + b) == Qpower 10 a * Qpower 10 b)%Q.
Proof. apply Qpower_plus. lra. Qed.
Lemma p10_Z k : 0 <= k → (Qpower 10 k == inject_Z (10 ^ k))%Q.
Proof. intros H. change 10%Q with (inject_Z 10). by rewrite Zpower_Qpower by done. Qed.

Lemma of_decimal_pack s n a :
  0 < n →
  ∃ c r, of_decimal s n a = pack s (rounded r) c ∧ cexp (dval n a) c ∧ located (dval n a) (p2 c) r ∧ 0 <= shr_m r.
Proof.
  intros Hn. unfold of_decimal.
  assert (Hx : ∀ p q (x : Q), (x == inject_Z (Z.pos p) / inject_Z (Z.pos q))%Q →
    ∃ c r, of_ratio s (Z.pos p) (Z.pos q) = pack s (rounded r) c ∧ cexp x c ∧ located x (p2 c) r ∧ 0 <= shr_m r).
  { intros p q x Hx. destruct (of_ratio_pack s p q) as (c & r & E & Hc & Hl & Hr). exists c, r. split; [done|].
    assert (Hv : (fval p 0 / fval q 0 == x)%Q).
    { rewrite Hx. unfold fval. change (p2 0) with 1%Q. rewrite !Qmult_1_r. reflexivity. }
    split; [|split; [|done]].
    - unfold cexp in *. rewrite Hv in Hc. exact Hc.
    - unfold located in *. destruct (shr_r r), (shr_s r); rewrite Hv in Hl; exact Hl. }
  destruct (Z.leb_spec 0 a).
  - assert (Hp : 0 < n * 10 ^ a) by (apply Z.mul_pos_pos; [done|by apply Z.pow_pos_nonneg]).
    destruct (n * 10 ^ a) as [|p|p] eqn:E; [lia| |lia]. apply Hx. rewrite <- E. unfold dval.
    rewrite p10_Z, inject_Z_mult by done. change (inject_Z 1) with 1%Q. field.
  - assert (Hp : 0 < 10 ^ (- a)) by (apply Z.pow_pos_nonneg; lia).
    destruct (10 ^ (- a)) as [|p|p] eqn:E; [lia| |lia]. destruct n as [|m|m]; [lia| |lia]. apply Hx. rewrite <- E. unfold dval.
    replace a with (- - a) at 1 by lia. rewrite Qpower_opp, p10_Z by lia. reflexivity.
Qed.

Lemma round_unique x1 x2 c1 c2 r1 r2 :
  cexp x1 c1 → located x1 (p2 c1) r1 → cexp x2 c2 → located x2 (p2 c2) r2 → (x1 == x2)%Q →
  c1 = c2 ∧ rounded r1 = rounded r2.
Proof.
  intros C1 L1 C2 L2 Hx. assert (c1 = c2) as <-.
  { apply Z.le_antisymm; [apply (cexp_mono x1 x2)|apply (cexp_mono x2 x1)]; try done; lra. }
  split; [done|]. pose proof (p2_pos c1).
  apply Z.le_antisymm; [apply (rounded_mono x1 x2 (p2 c1))|apply (rounded_mono x2 x1 (p2 c1))]; try done; lra.
Qed.

Lemma of_decimal_same s n1 a1 n2 a2 :
  0 < n1 → 0 < n2 → (dval n1 a1 == dval n2 a2)%Q → of_decimal s n1 a1 = of_decimal s n2 a2.
Proof.
  intros H1 H2 Hv. destruct (of_decimal_pack s n1 a1 H1) as (c1 & r1 & -> & C1 & L1 & _).
  destruct (of_decimal_pack s n2 a2 H2) as (c2 & r2 & -> & C2 & L2 & _).
  by destruct (round_unique _ _ _ _ _ _ C1 L1 C2 L2 Hv) as [-> ->].
Qed.

Lemma of_decimal_sign s n a m e :
  0 < n → of_decimal false n a = S754_finite false m e → of_decimal s n a = S754_finite s m e.
Proof.
  intros Hn. destruct (of_decimal_pack false n a Hn) as (c1 & r1 & -> & C1 & L1 & _).
  destruct (of_decimal_pack s n a Hn) as (c2 & r2 & -> & C2 & L2 & _).
  destruct (round_unique _ _ _ _ _ _ C1 L1 C2 L2 (Qeq_refl _)) as [-> ->]. unfold pack.
  destruct (if _ =? _ then _ else _) as [[|R|R] c]; try done. case_match; [|done]. by intros [= <- <-].
Qed.

Lemma of_decimal_exact s m e n a :
  is_float64 (S754_finite s m e) → 0 < n → (dval n a == fval m e)%Q → of_decimal s n a = S754_finite s m e.
Proof.
  intros Hf Hn Hv. destruct (float64_finite _ _ _ Hf) as (He & Hm & Hlow).
  destruct (of_decimal_pack s n a Hn) as (c & r & -> & C & L & _).
  assert (C' : cexp (fval m e) e).
  { unfold cexp, fval. destruct (decide (e = emin64)) as [->|Hne]; [left|right].
    - split; [done|]. rewrite (p2_shift emin64 (emin64 + 53)) by lia. rewrite Z.add_simpl_l.
      apply Qmult_lt_compat_r; [apply p2_pos|]. by rewrite <- Zlt_Qlt.
    - split; [lia|]. rewrite (p2_shift e (e + 52)), (p2_shift e (e + 53)) by lia. rewrite !Z.add_simpl_l. split.
      + apply mult_le; [apply p2_pos|apply Hlow; lia].
      + apply Qmult_lt_compat_r; [apply p2_pos|]. by rewrite <- Zlt_Qlt. }
  assert (L' : located (fval m e) (p2 e) (Build_shr_record (Z.pos m) false false)) by (unfold located; reflexivity).
  destruct (round_unique _ _ _ _ _ _ C L C' L' Hv) as [-> ->]. change (rounded _) with (Z.pos m). unfold pack.
  rewrite (proj2 (Z.eqb_neq _ _)) by lia. by rewrite (proj2 (Z.leb_le _ _)) by lia.
Qed.

(** ** The shortest decimal reads back *)

Lemma exact_decimal_value m e : let '(D, a) := exact_decimal m e in 0 < D ∧ (dval D a == fval m e)%Q.
Proof.
  unfold exact_decimal, dval, fval. destruct (Z.leb_spec 0 e).
  - split; [apply Z.mul_pos_pos; [done|by apply Z.pow_pos_nonneg]|]. rewrite inject_Z_mult, p2_Z by done.
    change (Qpower 10 0) with 1%Q. ring.
  - split; [apply Z.mul_pos_pos; [done|apply Z.pow_pos_nonneg; lia]|]. rewrite inject_Z_mult, <- Qmult_assoc.
    apply Qmult_comp; [reflexivity|]. unfold p2. change 10%Q with (inject_Z 5 * 2)%Q. rewrite Qmult_power.
    rewrite Zpower_Qpower by lia. rewrite Qmult_assoc, <- Qpower_plus by (intros E; vm_compute in E; discriminate).
    replace (- e + e) with 0 by lia. change (Qpower (inject_Z 5) 0) with 1%Q. ring.
Qed.

Lemma exact_decimal_bounds s m e :
  is_float64 (S754_finite s m e) → let '(D, a) := exact_decimal m e in D < 10 ^ 790 ∧ -1074 <= a <= 0.
Proof.
  intros Hf. destruct (float64_finite _ _ _ Hf) as (He & Hm & _). unfold exact_decimal.
  destruct (Z.leb_spec 0 e); (split; [|lia]).
  - assert (2 ^ e <= 2 ^ 971) by (apply Z.pow_le_mono_r; lia). assert (Hb : 2 ^ 53 * 2 ^ 971 < 10 ^ 790) by (vm_compute; reflexivity).
    assert (0 < 2 ^ e) by (apply Z.pow_pos_nonneg; lia). eapply Z.le_lt_trans; [|exact Hb]. apply Z.mul_le_mono_nonneg; lia.
  - assert (5 ^ (- e) <= 5 ^ 1074) by (apply Z.pow_le_mono_r; lia). assert (Hb : 2 ^ 53 * 5 ^ 1074 < 10 ^ 790) by (vm_compute; reflexivity).
    assert (0 < 5 ^ (- e)) by (apply Z.pow_pos_nonneg; lia). eapply Z.le_lt_trans; [|exact Hb]. apply Z.mul_le_mono_nonneg; lia.
Qed.

Lemma div_even_range n d : 0 < d → n / d <= div_even n d <= n / d + 1.
Proof. intros Hd. unfold div_even. repeat case_match; lia. Qed.

Lemma roundShortest_spec m e j D a :
  is_float64 (S754_finite false m e) → 0 < D → (dval D a == fval m e)%Q →
  let '(x, b) := roundShortest j (S754_finite false m e) D a in
  of_decimal false x b = S754_finite false m e ∧ 0 < x <= D + 1 ∧ a <= b <= a + Z.of_nat j.
Proof.
  intros Hf HD Hv. induction j as [|j IH]; cbn [roundShortest].
  { split; [by apply of_decimal_exact|lia]. }
  set (k := Z.of_nat (S j)) in *. assert (Hk : 0 <= k ∧ Z.of_nat j <= k) by lia. assert (Hu : 0 < 10 ^ k) by (apply Z.pow_pos_nonneg; lia).
  assert (Hq : 0 <= D / 10 ^ k <= D) by (split; [apply Z.div_pos; lia|apply Z.div_le_upper_bound; nia]).
  assert (Hpos : ∀ x, 0 <= x → of_decimal false x (a + k) = S754_finite false m e → 0 < x).
  { intros x Hx E. destruct (decide (x = 0)) as [->|]; [|lia]. unfold of_decimal in E. rewrite Z.mul_0_l in E. by destruct (0 <=? a + k). }
  pose proof (div_even_range D (10 ^ k) Hu) as Hr.
  destruct (bool_decide (of_decimal false (D / 10 ^ k) _ = _)) eqn:E1, (bool_decide (of_decimal false (D / 10 ^ k + 1) _ = _)) eqn:E2;
    rewrite ?bool_decide_eq_true in *.
  - assert (Hc : div_even D (10 ^ k) = D / 10 ^ k ∨ div_even D (10 ^ k) = D / 10 ^ k + 1) by lia.
    destruct Hc as [-> | ->]; (split; [done|]); [specialize (Hpos _ (proj1 Hq) E1)|]; lia.
  - split; [done|]. specialize (Hpos _ (proj1 Hq) E1). lia.
  - split; [done|]. lia.
  - destruct (roundShortest j _ D a) as [x b]. destruct IH as (H1 & H2 & H3). split; [done|lia].
Qed.

Lemma strip_spec fuel x a :
  0 < x → let '(y, b) := strip fuel x a in (dval y b == dval x a)%Q ∧ 0 < y <= x ∧ a <= b <= a + Z.of_nat fuel.
Proof.
  revert x a. induction fuel as [|fuel IH]; intros x a Hx; cbn [strip]; [split; [reflexivity|lia]|].
  destruct (Z.eqb_spec (x mod 10) 0) as [H0|]; [|split; [reflexivity|lia]].
  assert (Hd : x = 10 * (x / 10)) by (Z.to_euclidean_division_equations; lia). specialize (IH (x / 10) (a + 1) ltac:(lia)).
  destruct (strip fuel (x / 10) (a + 1)) as [y b]. destruct IH as (H1 & H2 & H3). split; [|lia]. rewrite H1.
  rewrite Hd at 2. unfold dval. rewrite p10_plus, inject_Z_mult. change (Qpower 10 1) with (inject_Z 10). ring.
Qed.

Lemma decimal_of_spec s m e :
  is_float64 (S754_finite s m e) →
  let '(x, a) := decimal_of m e in of_decimal s x a = S754_finite s m e ∧ 0 < x < 10 ^ 800 ∧ - 1100 <= a <= 5000.
Proof.
  intros Hf. assert (Hf' : is_float64 (S754_finite false m e)) by exact Hf. unfold decimal_of.
  pose proof (exact_decimal_value m e) as Hv. pose proof (exact_decimal_bounds _ _ _ Hf) as Hb.
  destruct (exact_decimal m e) as [D a]. destruct Hv as [HD Hv], Hb as [Hb Ha].
  assert (Hlen : (length (digits 800 D) <= 800)%nat).
  { pose proof (len_digits_below 800 800 D ltac:(change (Z.of_nat 800) with 800; lia) ltac:(lia)) as H. unfold len in H. lia. }
  pose proof (roundShortest_spec m e (length (digits 800 D) - 1) D a Hf' HD Hv) as Hr.
  destruct (roundShortest _ _ D a) as [x b]. destruct Hr as (E & Hx & Hab).
  pose proof (strip_spec 800 x b ltac:(lia)) as Hs. destruct (strip 800 x b) as [y c]. destruct Hs as (Hy & Hyx & Hbc).
  assert (10 ^ 790 + 1 < 10 ^ 800) by (vm_compute; reflexivity).
  split; [|lia]. apply of_decimal_sign; [lia|]. rewrite <- E. by apply of_decimal_same; [lia..|].
Qed.

(** ** The text is a number, and which one *)

(** A text that does not go on with a digit. *)
Definition no_digit (l : bytes) : Prop := match l with c :: _ => between 48 57 c = false | [] => True end.

Lemma span_digits_until d r : Forall is_digit d → no_digit r → span_digits (d ++ r) = (d, r).
Proof.
  intros Hd Hr. induction Hd as [|x d Hx _ IH]; cbn [app].
  - destruct r as [|c r]; [done|]. cbn in *. by rewrite Hr.
  - cbn. unfold is_digit in Hx. replace (between 48 57 x) with true by (unfold between; lia). by rewrite IH.
Qed.

Lemma some_digits_until d r : Forall is_digit d → d ≠ [] → no_digit r → some_digits (d ++ r) = Some (d, r).
Proof. intros Hd Hne Hr. unfold some_digits. rewrite span_digits_until by done. by destruct d. Qed.

Lemma no_digit_val l : no_digit l → match l with c :: _ => digit_val c = None | [] => True end.
Proof. destruct l as [|c l]; [done|]. unfold no_digit, between, digit_val. by intros ->. Qed.

(** An integer part: digits, without zeros in front. *)
Definition int_part (i : bytes) : Prop := Forall is_digit i ∧ match i with [] => False | c :: l => l = [] ∨ code c ≠ 48 end.

Lemma exp_no_digit x : no_digit (exp_part x).
Proof. by destruct x. Qed.
Lemma frac_no_digit f x : no_digit (frac_part f ++ exp_part x).
Proof. destruct f; [apply exp_no_digit|done]. Qed.

Lemma scan_exp_part x : scan_exp (exp_part x) = Some (exp_part x, []).
Proof.
  destruct x as [x|]; [|done]. cbn [exp_part].
  assert (Hd : some_digits (digits 20 (Z.abs x)) = Some (digits 20 (Z.abs x), [])).
  { rewrite <- (app_nil_r (digits 20 (Z.abs x))) at 1.
    apply some_digits_until; [apply digits_are_digits|apply digits_nonempty|]; [lia|lia|done]. }
  destruct (x <? 0).
  - change (scan_exp ("e"%char :: "-"%char :: digits 20 (Z.abs x))) with
      ('(d, r) ← some_digits (digits 20 (Z.abs x)); Some ("e"%char :: ["-"%char] ++ d, r)). by rewrite Hd.
  - change (scan_exp ("e"%char :: "+"%char :: digits 20 (Z.abs x))) with
      ('(d, r) ← some_digits (digits 20 (Z.abs x)); Some ("e"%char :: ["+"%char] ++ d, r)). by rewrite Hd.
Qed.

Lemma scan_frac_part f x : Forall is_digit f → scan_frac (frac_part f ++ exp_part x) = Some (frac_part f, exp_part x).
Proof.
  intros Hf. destruct f as [|c f]; [by destruct x|]. cbn [frac_part app scan_frac]. change (code "." =? 46) with true. cbv iota.
  change (c :: f ++ exp_part x) with ((c :: f) ++ exp_part x).
  rewrite some_digits_until by (done || apply exp_no_digit). done.
Qed.

Lemma number_text_ok s i f x :
  int_part i → Forall is_digit f → number_ok ((if s : bool then ["-"%char] else []) ++ number_text i f x).
Proof.
  intros [Hi Hhead] Hf. unfold number_text. set (rest := frac_part f ++ exp_part x).
  destruct i as [|c i]; [done|]. pose proof (Forall_inv Hi) as Hc. unfold is_digit in Hc.
  assert (Hint : scan_int ((c :: i) ++ rest) = Some (c :: i, rest)).
  { unfold scan_int. cbn [app]. destruct (Z.eqb_spec (code c) 48) as [E|E].
    - destruct Hhead as [-> |]; done.
    - change (c :: i ++ rest) with ((c :: i) ++ rest). apply some_digits_until; [done..|]. apply frac_no_digit. }
  assert (Hsign : scan_sign ((if s then ["-"%char] else []) ++ (c :: i) ++ rest) = ((if s then ["-"%char] else []), (c :: i) ++ rest)).
  { destruct s; [done|]. cbn. by replace (code c =? 45) with false by lia. }
  unfold number_ok, parse_number. rewrite Hsign, Hint. cbn [mbind option_bind]. subst rest.
  rewrite scan_frac_part by done. cbn [mbind option_bind]. by rewrite scan_exp_part.
Qed.

Lemma read_exponent_digits acc l n : 0 <= acc → digits_val acc l = Some n → n < 10000 → read_exponent acc l = Some n.
Proof.
  revert acc. induction l as [|c l IH]; intros acc Ha; cbn [digits_val read_exponent]; [done|].
  intros (d & Hd & Hl)%bind_Some Hn. rewrite Hd. cbn [mbind option_bind]. pose proof (digit_val_range _ _ Hd).
  pose proof (digits_val_ge (acc * 10 + d) l n ltac:(lia) Hl). replace (acc <? 10000) with true by lia. apply IH; [lia|done..].
Qed.

Lemma parse_exp_part x : match x with Some x => Z.abs x < 10000 | None => True end →
  parse_exponent (exp_part x) = Some (default 0 x).
Proof.
  destruct x as [x|]; [|done]. intros Hx. cbn [exp_part parse_exponent default]. rewrite decide_True by (by left).
  assert (Hd : read_exponent 0 (digits 20 (Z.abs x)) = Some (Z.abs x)).
  { apply read_exponent_digits; [lia| |lia]. apply digits_val_digits; [change (Z.of_nat 20) with 20|]; lia. }
  pose proof (digits_nonempty 20 (Z.abs x) ltac:(lia)) as Hne. destruct (digits 20 (Z.abs x)) as [|c l] eqn:E; [done|].
  destruct (Z.ltb_spec x 0); cbn [decide]; [rewrite decide_True by done|rewrite decide_False, decide_True by done]; rewrite Hd; cbn; f_equal; lia.
Qed.

Lemma parse_number_text s i f x n :
  int_part i → Forall is_digit f → digits_val 0 (i ++ f) = Some n →
  match x with Some x => Z.abs x < 10000 | None => True end →
  parse_unsigned s (number_text i f x) = Some (of_decimal s n (default 0 x - len f)).
Proof.
  intros [Hi Hhead] Hf Hn Hx. unfold number_text. destruct i as [|c i]; [done|].
  destruct (digit_not_letter c (Forall_inv Hi)) as (Hlow & _ & _ & Hni & _). unfold parse_unsigned.
  rewrite decide_False by (cbn; rewrite Hlow; intros [[=]|[=]]; done).
  rewrite digits_val_app in Hn. apply bind_Some in Hn as (a & Ha & Hn).
  rewrite (take_digits_app _ _ _ _ _ Ha) by (apply no_digit_val, frac_no_digit).
  assert (Hlast : parse_exponent (exp_part x) = Some (default 0 x)) by (by apply parse_exp_part).
  destruct f as [|d f].
  - cbn in Hn. injection Hn as ->. cbn [frac_part app].
    assert (Hdot : match exp_part x with [] => True | c :: _ => c ≠ "."%char end) by (by destruct x).
    destruct (exp_part x) as [|c' r']; [|rewrite decide_False by done]; (rewrite bool_decide_false by (cbn; lia));
      rewrite Hlast; cbn [mbind option_bind]; done.
  - cbn [frac_part app]. rewrite decide_True by done. change (d :: f ++ exp_part x) with ((d :: f) ++ exp_part x).
    rewrite (take_digits_app _ _ _ _ _ Hn) by (apply no_digit_val, exp_no_digit). rewrite bool_decide_false by (cbn; lia).
    rewrite Hlast. done.
Qed.

Lemma ParseFloat_text s i f x n :
  int_part i → Forall is_digit f → digits_val 0 (i ++ f) = Some n →
  match x with Some x => Z.abs x < 10000 | None => True end →
  ParseFloat ((if s : bool then ["-"%char] else []) ++ number_text i f x) = of_decimal s n (default 0 x - len f).
Proof.
  intros Hi Hf Hn Hx. pose proof (parse_number_text s i f x n Hi Hf Hn Hx) as Hp. unfold ParseFloat.
  destruct s; cbn [app]; [rewrite decide_True by done; by rewrite Hp|].
  unfold number_text in *. destruct Hi as [Hi Hh], i as [|c i]; [done|]. cbn [app] in *.
  destruct (digit_not_letter c (Forall_inv Hi)) as (Hlow & H1 & H2 & _ & H3). rewrite !decide_False; [by rewrite Hp|..]; try done.
  cbn. rewrite Hlow. by intros [=].
Qed.

(** ** What is written is read *)

Lemma number_text_reads s i f x n y a :
  int_part i → Forall is_digit f → digits_val 0 (i ++ f) = Some n →
  match x with Some x => Z.abs x < 10000 | None => True end → of_decimal s n (default 0 x - len f) = of_decimal s y a →
  number_ok (signed s (number_text i f x)) ∧ ParseFloat (signed s (number_text i f x)) = of_decimal s y a.
Proof.
  intros Hi Hf Hn Hx E. split; [by apply number_text_ok|]. rewrite <- E. by apply ParseFloat_text.
Qed.

Lemma zeros_digits k : Forall is_digit (zeros k).
Proof. apply Forall_replicate. by vm_compute. Qed.
Lemma zeros_val k acc : 0 <= k → digits_val acc (zeros k) = Some (acc * 10 ^ k).
Proof.
  intros Hk. unfold zeros. rewrite <- (Z2Nat.id k) at 2 by done. generalize (Z.to_nat k). intros n. clear k Hk. revert acc.
  induction n as [|n IH]; intros acc; [cbn; f_equal; lia|]. cbn [replicate digits_val].
  change (digit_val "0") with (Some 0). cbn [mbind option_bind]. rewrite IH, Nat2Z.inj_succ, Z.pow_succ_r by lia. f_equal. lia.
Qed.
Lemma len_zeros k : 0 <= k → len (zeros k) = k.
Proof. intros Hk. unfold len, zeros. rewrite length_replicate. lia. Qed.

Section texts.
Context (s : bool) (x a : Z) (Hx : 0 < x < 10 ^ 800) (Ha : - 1100 <= a <= 5000).

Lemma decimal_digits : ∃ c l, digits 800 x = c :: l ∧ code c ≠ 48 ∧ Forall is_digit (c :: l) ∧
  digits_val 0 (c :: l) = Some x ∧ len l < 800.
Proof using Hx.
  destruct (digits_head 800 x) as (c & l & E & Hc); [change (Z.of_nat 800) with 800; lia|]. exists c, l.
  pose proof (len_digits_below 800 800 x ltac:(change (Z.of_nat 800) with 800; lia) ltac:(lia)) as Hlen.
  rewrite E, len_cons in Hlen. split_and!; [done..| | |lia]; rewrite <- E; [apply digits_are_digits; lia|].
  apply digits_val_digits; [change (Z.of_nat 800) with 800|]; lia.
Qed.

Lemma exponent_text_reads :
  number_ok (signed s (exponent_text x a)) ∧ ParseFloat (signed s (exponent_text x a)) = of_decimal s x a.
Proof using Hx Ha.
  destruct decimal_digits as (c & l & E & Hc & Hd & Hv & Hlen). unfold exponent_text. rewrite E. cbn [take drop].
  apply Forall_cons in Hd as [Hd1 Hd2]. pose proof (len_nonneg l).
  apply (number_text_reads s [c] l _ x); rewrite ?len_cons in *; [|done|done|lia|cbn; f_equal; lia].
  split; [by constructor|by left].
Qed.

Lemma fixed_text_reads :
  number_ok (signed s (fixed_text x a)) ∧ ParseFloat (signed s (fixed_text x a)) = of_decimal s x a.
Proof using Hx Ha.
  destruct decimal_digits as (c & l & E & Hc & Hd & Hv & Hlen). unfold fixed_text. rewrite E. set (ds := c :: l) in *.
  destruct (Z.leb_spec 0 a) as [Ha0|Ha0]; [|destruct (Z.ltb_spec 0 (len ds + a)) as [Hp|Hp]].
  - apply (number_text_reads s _ [] None (x * 10 ^ a)); [| |rewrite app_nil_r, digits_val_app, Hv; cbn [mbind option_bind]; by apply zeros_val|done|].
    + split; [apply Forall_app; split; [done|apply zeros_digits]|right; done].
    + done.
    + cbn [default len length]. unfold of_decimal. replace (0 <=? a) with true by lia. by rewrite Z.mul_1_r.
  - set (k := Z.to_nat (len ds + a)). apply (number_text_reads s _ _ None x).
    + split; [by apply Forall_take|]. destruct k as [|k'] eqn:Ek; [unfold k in Ek; lia|]. right. exact Hc.
    + by apply Forall_drop.
    + by rewrite take_drop.
    + done.
    + f_equal. cbn [default]. unfold len in *. rewrite length_drop. lia.
  - apply (number_text_reads s _ _ None x).
    + split; [repeat constructor; by vm_compute|by left].
    + apply Forall_app. split; [apply zeros_digits|done].
    + change (["0"%char] ++ zeros (- (len ds + a)) ++ ds) with (zeros 1 ++ zeros (- (len ds + a)) ++ ds). by rewrite !digits_val_zeros.
    + done.
    + f_equal. cbn [default]. rewrite len_app, len_zeros by lia. lia.
Qed.
End texts.

Lemma float_text_reads f :
  is_float64 f → is_finite f = true → number_ok (float_text f) ∧ ParseFloat (float_text f) = f.
Proof.
  intros Hf Hfin. destruct f as [s|s| |s m e]; try done.
  { destruct s; (split; [by vm_compute|reflexivity]). }
  unfold float_text. pose proof (decimal_of_spec s m e Hf) as Hd. destruct (decimal_of m e) as [x a]. destruct Hd as (E & Hx & Ha).
  rewrite <- E. destruct (fltb _ _ || fleb _ _); [by apply exponent_text_reads|by apply fixed_text_reads].
Qed.

(** Whatever is parsed is a float64. *)
Lemma of_decimal_float64 s n a : 0 <= n → is_float64 (of_decimal s n a).
Proof.
  intros Hn. destruct (decide (n = 0)) as [->|H0]; [unfold of_decimal, of_ratio; by destruct (0 <=? a)|].
  destruct (of_decimal_pack s n a ltac:(lia)) as (c & r & -> & Hc & Hl & Hr). by eapply pack_located_float64.
Qed.

Lemma take_digits_ge acc k l n k' r : 0 <= acc → take_digits acc k l = (n, k', r) → 0 <= n.
Proof.
  revert acc k. induction l as [|c l IH]; intros acc k Ha; cbn; [by intros [= <- _ _]|].
  destruct (digit_val c) as [d|] eqn:Ed; [|by intros [= <- _ _]]. apply IH. apply digit_val_range in Ed. lia.
Qed.

Lemma parse_unsigned_float64 s l f : parse_unsigned s l = Some f → is_float64 f.
Proof.
  unfold parse_unsigned. destruct (decide _); [by intros [= <-]|]. destruct (take_digits 0 0 l) as [[n0 k] rest] eqn:E1.
  apply take_digits_ge in E1; [|lia]. set (p := match rest with [] => _ | _ :: _ => _ end).
  assert (Hp : 0 <= p.1.1).
  { subst p. destruct rest as [|c rest]; [done|]. destruct (decide (c = "."%char)); [|done].
    destruct (take_digits n0 0 rest) as [[n' k'] r] eqn:E2. by apply take_digits_ge in E2. }
  destruct p as [[n' k'] r]. cbn in Hp. destruct (bool_decide _); [done|]. intros (e & _ & [= <-])%bind_Some.
  by apply of_decimal_float64.
Qed.

Lemma ParseFloat_float64 l : is_float64 (ParseFloat l).
Proof.
  unfold ParseFloat. destruct l as [|c l]; [done|]. destruct (decide (c = "-"%char)); [|destruct (decide (c = "+"%char)); [|case_match; [done|]]];
    (destruct (parse_unsigned _ _) as [f|] eqn:E; [by eapply parse_unsigned_float64|done]).
Qed.

Lemma float_field_sets {S} name (set : float64 → S → S) v f :
  (float_field name set).2 v = Some f → f = id ∨ ∃ x, is_finite x = true ∧ is_float64 x ∧ f = set x.
Proof.
  destruct v as [|b|lit|t|vs|ms]; cbn; intros E; simplify_eq; [by left|]. right. destruct (is_finite (ParseFloat lit)) eqn:E'; [|done].
  injection E as <-. exists (ParseFloat lit). split_and!; [done|apply ParseFloat_float64|done].
Qed.

Lemma float_stored {S} name (set : float64 → S → S) f :
  is_float64 f → is_finite f = true → (float_field name set).2 (JNum (float_text f)) = Some (set f).
Proof. intros Hf Hfin. destruct (float_text_reads f Hf Hfin) as [_ E]. cbn [float_field snd]. by rewrite E, Hfin. Qed.
