(* ===== verification/Ranking.v ===== *)
(** * The leaderboard's ranking

    pkg/leaderboard/ranking.go: [UpdateScore] computes a run's score and
    stores it in Redis, in a sorted set and, with the run's figures, in a
    hash; [GetLeaderboard] reads them back.

    Redis is not part of the repository: the class [Redis] has the commands
    that are used, over any type of server states, and [RedisLaws] what its
    documentation says about them.  The time format is a parameter too.  The
    JSON text of the event that is published is in [Live]; that it cannot be
    made for a score that is not finite is here. *)

From stdpp Require Import prelude gmap strings list fin_maps sorting.
From Stdlib Require Import ZArith Lia SpecFloat.
From S2P Require Import Prelude GoBytes Float64 GoTime.

Local Open Scope Z_scope.

(** ** Redis *)

(** An element of [ZRevRangeWithScores]; the member is an interface value
    that need not hold a string. *)
Record Z_ := mkZ { zScore : float64; zMember : option string }.

(** What is published on [leaderboard:updates]. *)
Record new_run := mkNewRun { evSubmission : string; evContestant : string; evScore : float64 }.

Class Redis (W : Type) := {
  ZAdd : string → float64 → string → GoM W (option string);
  HSet : string → gmap string string → GoM W (option string);
  Expire : string → Z → GoM W (option string);
  Publish : string → new_run → GoM W (option string);
  ZRevRangeWithScores : string → Z → Z → W → string + list Z_;
  HGetAll : string → W → string + gmap string string;
}.

(** ** Data *)

Definition GlobalLeaderboardKey : string := "leaderboard:global".
Definition MetadataKeyPrefix : string := "submission:metadata:".
Definition metaKey (submissionID : string) : string := MetadataKeyPrefix +:+ submissionID.

Record LeaderboardEntry := mkEntry {
  SubmissionID : string; ContestantID : string; TPS : float64; P99Latency : float64;
  SuccessRate : float64; Score : float64; Timestamp : Time;
}.
(** The zero [time.Time], January 1 of the year 1. *)
Definition zero_time : Z := -62135596800 * second.

(** ** Scores *)

Definition score_of (tps p99Latency successRate : float64) : float64 :=
  if fltb fzero successRate && fltb fzero p99Latency then
    fmul (fmul tps (fdiv (of_Z 1000) p99Latency)) (fdiv successRate (of_Z 100))
  else fzero.

Definition format2 (f : float64) : string := String.string_of_list_ascii (FormatFloat f).
Definition parse_float (s : string) : float64 := ParseFloat (String.list_ascii_of_string s).

Section ranking.
Context {W : Type} `{Redis W} `{Location}.

Definition metadata (submissionID contestantID : string) (tps p99Latency successRate score : float64)
    (now : Z) : gmap string string :=
  list_to_map
    [("submission_id", submissionID); ("contestant_id", contestantID); ("tps", format2 tps);
     ("p99_latency", format2 p99Latency); ("success_rate", format2 successRate);
     ("score", format2 score); ("timestamp", FormatRFC3339 now)].

Definition week : Z := 7 * 24 * 3600 * second.

(** [now] is the clock reading for the metadata. *)
Definition UpdateScore (submissionID contestantID : string) (tps p99Latency successRate : float64) (now : Z) :
    GoM W (string + float64) :=
  let score := score_of tps p99Latency successRate in
  err ← ZAdd GlobalLeaderboardKey score submissionID;
  match err with
  | Some e => mret (inl ("failed to add ZSET entry: " +:+ e))
  | None =>
      err ← HSet (metaKey submissionID)
              (metadata submissionID contestantID tps p99Latency successRate score now);
      match err with
      | Some e => mret (inl ("failed to save metadata: " +:+ e))
      | None =>
          Expire (metaKey submissionID) week;;
          (if is_finite score then
             Publish "leaderboard:updates" (mkNewRun submissionID contestantID score);; mret tt
           else mret tt);;
          mret (inr score)
      end
  end.

(** The entry of one element: from its metadata, or the fallback when there
    are none. *)
Definition entry_of (submissionID : string) (zscore : float64) (meta : string + gmap string string) :
    LeaderboardEntry :=
  match meta with
  | inl _ => mkEntry submissionID "Unknown" fzero fzero fzero zscore (mkTime zero_time 0)
  | inr metaMap =>
      if bool_decide (metaMap = ∅) then mkEntry submissionID "Unknown" fzero fzero fzero zscore (mkTime zero_time 0)
      else
        let field k := default "" (metaMap !! k) in
        mkEntry submissionID (field "contestant_id") (parse_float (field "tps"))
          (parse_float (field "p99_latency")) (parse_float (field "success_rate"))
          (parse_float (field "score")) (default (mkTime zero_time 0) (ParseTime (field "timestamp")))
  end.

(** The loop over the elements. *)
Definition entries (zRange : list Z_) (w : W) : list LeaderboardEntry :=
  omap (λ z, match zMember z with
             | Some submissionID => Some (entry_of submissionID (zScore z) (HGetAll (metaKey submissionID) w))
             | None => None
             end) zRange.

Definition GetLeaderboard (limit : Z) (w : W) : string + list LeaderboardEntry :=
  match ZRevRangeWithScores GlobalLeaderboardKey 0 (wrap_int64 (limit - 1)) w with
  | inl e => inl ("failed to fetch ZSET: " +:+ e)
  | inr zRange => inr (entries zRange w)
  end.
End ranking.

(** ** What Redis documents *)

(** The order of [ZREVRANGE]: by score, and by member where scores are equal. *)
Definition z_before (a b : string * float64) : Prop :=
  fleb b.2 a.2 = true ∧ (fleb a.2 b.2 = true → String.leb b.1 a.1 = true).

(** The elements an inclusive range from the first one selects; a negative
    end counts from the last element. *)
Definition z_range {A} (stop : Z) (l : list A) : list A :=
  let n := if stop <? 0 then Z.of_nat (length l) + stop + 1 else stop + 1 in
  take (Z.to_nat n) l.

(** [zset k w] and [hash k w] are the contents of a key, [published w] what
    was published, in order.  A command that reports an error did not change
    anything, or did all it was asked to (the reply was lost).  A score that
    is not a number is rejected, and none is ever stored.  Setting a time to
    live changes nothing now. *)
Class RedisLaws (W : Type) `{Redis W} := {
  zset : string → W → gmap string float64;
  hash : string → W → gmap string string;
  published : W → list (string * new_run);
  zset_number k w m s : zset k w !! m = Some s → is_nan s = false;
  zadd_total k s m w : ∃ e w', ZAdd k s m w = Ok (e, w');
  zadd_ok k s m w w' : ZAdd k s m w = Ok (None, w') → zset k w' = <[m := s]> (zset k w);
  zadd_error k s m w e w' : ZAdd k s m w = Ok (Some e, w') →
    zset k w' = zset k w ∨ zset k w' = <[m := s]> (zset k w);
  zadd_nan k m w e w' : ZAdd k S754_nan m w = Ok (e, w') → e ≠ None ∧ zset k w' = zset k w;
  zadd_frame k s m w e w' : ZAdd k s m w = Ok (e, w') →
    (∀ k', k' ≠ k → zset k' w' = zset k' w) ∧ (∀ k', hash k' w' = hash k' w) ∧ published w' = published w;
  hset_total k m w : ∃ e w', HSet k m w = Ok (e, w');
  hset_hash k m w w' : HSet k m w = Ok (None, w') → hash k w' = m ∪ hash k w;
  hset_error k m w e w' : HSet k m w = Ok (Some e, w') → hash k w' = hash k w ∨ hash k w' = m ∪ hash k w;
  hset_frame k m w e w' : HSet k m w = Ok (e, w') →
    (∀ k', k' ≠ k → hash k' w' = hash k' w) ∧ (∀ k', zset k' w' = zset k' w) ∧ published w' = published w;
  expire_frame k t w : ∃ e w', Expire k t w = Ok (e, w') ∧ (∀ k', hash k' w' = hash k' w) ∧
    (∀ k', zset k' w' = zset k' w) ∧ published w' = published w;
  publish_frame c ev w : ∃ e w', Publish c ev w = Ok (e, w') ∧ (∀ k', hash k' w' = hash k' w) ∧
    (∀ k', zset k' w' = zset k' w) ∧
    (published w' = published w ++ [(c, ev)] ∨ e ≠ None ∧ published w' = published w);
  zrange_sorted k stop w l : ZRevRangeWithScores k 0 stop w = inr l →
    ∃ sorted, sorted ≡ₚ map_to_list (zset k w) ∧ StronglySorted z_before sorted ∧
      l = (λ p, mkZ p.2 (Some p.1)) <$> z_range stop sorted;
  hgetall_hash k w m : HGetAll k w = inr m → m = hash k w;
}.

(** ** Histories *)

(** What happens to the leaderboard: updates with rates that are not negative,
    whatever their outcome, and metadata that expire.  [stale] are the
    submissions whose last update failed and may have written the score
    without its metadata; a failure that changed neither key adds none. *)
Inductive history_step `{RedisLaws W, Location} : W * gset string → W * gset string → Prop :=
  | step_update sid cid tps p99 sr now w score w' stale :
      is_float64 tps → is_float64 p99 → is_float64 sr → is_negative tps = false →
      UpdateScore sid cid tps p99 sr now w = Ok (inr score, w') →
      history_step (w, stale) (w', stale ∖ {[sid]})
  | step_refused sid cid tps p99 sr now w err w' stale :
      UpdateScore sid cid tps p99 sr now w = Ok (inl err, w') →
      zset GlobalLeaderboardKey w' = zset GlobalLeaderboardKey w → hash (metaKey sid) w' = hash (metaKey sid) w →
      history_step (w, stale) (w', stale)
  | step_fails sid cid tps p99 sr now w err w' stale :
      is_float64 tps → is_float64 p99 → is_float64 sr → is_negative tps = false →
      UpdateScore sid cid tps p99 sr now w = Ok (inl err, w') →
      history_step (w, stale) (w', {[sid]} ∪ stale)
  | step_expire w w' stale :
      (∀ k, zset k w' = zset k w) → (∀ k, hash k w' = hash k w ∨ hash k w' = ∅) →
      history_step (w, stale) (w', stale).

(** The scores are proper, and the metadata that are there agree with them
    unless an update failed. *)
Definition ranking_ok `{RedisLaws W} (w : W) (stale : gset string) : Prop := ∀ id s,
  zset GlobalLeaderboardKey w !! id = Some s →
  is_float64 s ∧ is_negative s = false ∧
  (id ∉ stale → hash (metaKey id) w = ∅ ∨ hash (metaKey id) w !! "score" = Some (format2 s)).

(** Whether an entry is made from metadata. *)
Definition readable `{Redis W} (id : string) (w : W) : bool :=
  match HGetAll (metaKey id) w with inr m => bool_decide (m ≠ ∅) | inl _ => false end.

(** What happens to the other submissions of a leaderboard: any updates, with
    any outcome, and metadata that expire. *)
Inductive others_step `{RedisLaws W, Location} (sid : string) : W → W → Prop :=
  | others_update sid' cid tps p99 sr now w r w' :
      sid' ≠ sid → UpdateScore sid' cid tps p99 sr now w = Ok (r, w') → others_step sid w w'
  | others_expire w w' :
      (∀ k, zset k w' = zset k w) → (∀ k, hash k w' = hash k w ∨ hash k w' = ∅) → others_step sid w w'.
