(* ===== verification/MemRedis.v ===== *)
(** * A Redis server in memory

    A server that satisfies the laws of [Ranking], so that the theorems about
    every such server can be run on one; its local time is UTC. *)

From stdpp Require Import prelude gmap strings list fin_maps sorting.
From Stdlib Require Import ZArith Lia SpecFloat.
From S2P Require Import Prelude GoBytes Float64 GoTime FloatOrder Ranking.

Local Open Scope Z_scope.

Record mem := mkMem {
  memZsets : gmap string (gmap string float64);
  memHashes : gmap string (gmap string string);
  memPublished : list (string * new_run);
}.

Definition mem_zset (k : string) (w : mem) : gmap string float64 :=
  filter (λ p, is_nan p.2 = false) (default ∅ (memZsets w !! k)).
Definition mem_hash (k : string) (w : mem) : gmap string string := default ∅ (memHashes w !! k).

(** The order of the sorted set, total by taking what is not a number for
    the least one. *)
Definition number (f : float64) : float64 := if is_nan f then S754_infinity true else f.
Definition z_order (a b : string * float64) : Prop :=
  fleb (number b.2) (number a.2) = true ∧
  (fleb (number a.2) (number b.2) = true → String.leb b.1 a.1 = true).

#[global] Instance z_order_dec a b : Decision (z_order a b).
Proof. unfold z_order. apply _. Defined.

#[global] Instance mem_redis : Redis mem := {
  ZAdd k s m w :=
    if is_nan s then Ok (Some "ERR value is not a valid float", w)
    else Ok (None, mkMem (<[k := <[m := s]> (default ∅ (memZsets w !! k))]> (memZsets w)) (memHashes w)
                     (memPublished w));
  HSet k m w := Ok (None, mkMem (memZsets w) (<[k := m ∪ mem_hash k w]> (memHashes w)) (memPublished w));
  Expire k t w := Ok (None, w);
  Publish c ev w := Ok (None, mkMem (memZsets w) (memHashes w) (memPublished w ++ [(c, ev)]));
  ZRevRangeWithScores k start stop w :=
    inr ((λ p, mkZ p.2 (Some p.1)) <$> z_range stop (merge_sort z_order (map_to_list (mem_zset k w))));
  HGetAll k w := inr (mem_hash k w);
}.

(** ** The sorted set is sorted *)

Lemma number_nan f : is_nan (number f) = false.
Proof. by destruct f. Qed.

Lemma string_leb_trans a b c : String.leb a b = true → String.leb b c = true → String.leb a c = true.
Proof. rewrite <-!Is_true_true. apply (transitivity (R := String.le)). Qed.

#[global] Instance z_order_trans : Transitive z_order.
Proof.
  intros a b c [Hab Hab'] [Hbc Hbc']. split; [by eapply fleb_trans|]. intros Hac.
  apply string_leb_trans with b.1; [apply Hbc'|apply Hab']; by eapply fleb_trans.
Qed.

#[global] Instance z_order_total : Total z_order.
Proof.
  intros a b. unfold z_order.
  destruct (fleb (number b.2) (number a.2)) eqn:E1, (fleb (number a.2) (number b.2)) eqn:E2.
  - destruct (String.leb_total a.1 b.1); [right|left]; auto.
  - by left.
  - by right.
  - destruct (fleb_total (number a.2) (number b.2) (number_nan _) (number_nan _)); congruence.
Qed.

Lemma z_order_before a b : is_nan a.2 = false → is_nan b.2 = false → z_order a b → z_before a b.
Proof. unfold z_order, z_before, number. by intros -> ->. Qed.

Lemma StronglySorted_Forall_impl {A} (P : A → Prop) (R R' : A → A → Prop) l :
  (∀ x y, P x → P y → R x y → R' x y) → Forall P l → StronglySorted R l → StronglySorted R' l.
Proof.
  intros HR HP Hs. induction Hs as [|x l _ IH Hx]; constructor; apply Forall_cons in HP as [HP1 HP2]; [auto|].
  eapply Forall_impl; [apply Forall_and; split; [exact HP2|exact Hx]|]. naive_solver.
Qed.

Lemma mem_sorted k w :
  StronglySorted z_before (merge_sort z_order (map_to_list (mem_zset k w))).
Proof.
  eapply (StronglySorted_Forall_impl (λ p, is_nan p.2 = false)); [|..|apply StronglySorted_merge_sort; apply _].
  - apply z_order_before.
  - rewrite merge_sort_Permutation. apply Forall_forall. intros [m s] Hm%elem_of_map_to_list.
    by apply map_lookup_filter_Some in Hm as [_ ?].
Qed.

(** ** The laws *)

Lemma mem_zset_insert k k' z w hs ps :
  mem_zset k' (mkMem (<[k := z]> (memZsets w)) hs ps) =
  if decide (k' = k) then filter (λ p, is_nan p.2 = false) z else mem_zset k' w.
Proof.
  unfold mem_zset. cbn. destruct (decide (k' = k)) as [->|Hk].
  - by rewrite lookup_insert_eq.
  - by rewrite lookup_insert_ne.
Qed.

Lemma mem_hash_insert k k' h w zs ps :
  mem_hash k' (mkMem zs (<[k := h]> (memHashes w)) ps) = if decide (k' = k) then h else mem_hash k' w.
Proof.
  unfold mem_hash. cbn. destruct (decide (k' = k)) as [->|Hk].
  - by rewrite lookup_insert_eq.
  - by rewrite lookup_insert_ne.
Qed.

#[global, refine] Instance mem_redis_laws : RedisLaws mem := {
  zset := mem_zset; hash := mem_hash; published := memPublished;
}.
Proof.
  - intros k w m s Hm. by apply map_lookup_filter_Some in Hm as [_ ?].
  - intros k s m w. cbn. destruct (is_nan s); eauto.
  - intros k s m w w'. cbn. destruct (is_nan s) eqn:Es; intros [= <-].
    rewrite mem_zset_insert, decide_True by done. by rewrite map_filter_insert_True.
  - intros k s m w e w'. cbn. destruct (is_nan s) eqn:Es; intros [= <- <-]. by left.
  - intros k m w e w' [= <- <-]. done.
  - intros k s m w e w'. cbn. destruct (is_nan s) eqn:Es; intros [= <- <-]; [done|]. split_and!; [|done..].
    intros k' Hk. by rewrite mem_zset_insert, decide_False.
  - intros k m w. cbn. eauto.
  - intros k m w w' [= <-]. by rewrite mem_hash_insert, decide_True.
  - intros k m w e w' [=].
  - intros k m w e w' [= <- <-]. split_and!; [|done..]. intros k' Hk. by rewrite mem_hash_insert, decide_False.
  - intros k t w. cbn. eauto 10.
  - intros c ev w. cbn. do 2 eexists. split; [done|]. auto.
  - intros k stop w l [= <-]. exists (merge_sort z_order (map_to_list (mem_zset k w))).
    split; [apply (merge_sort_Permutation z_order)|]. split; [apply mem_sorted|done].
  - intros k w m [= <-]. done.
Defined.

(** The server runs in UTC. *)
#[global] Existing Instance utc.
