(* ===== verification/RankingProps.v ===== *)
(** * What the ranking guarantees

    The scoring function, the course of an update and what the leaderboard
    shows, for every Redis server that satisfies the laws of [Ranking]; and a
    small in-memory one that does. *)

From stdpp Require Import prelude gmap strings list fin_maps sorting.
From Stdlib Require Import ZArith Lia SpecFloat.
From S2P Require Import Prelude GoBytes Float64 GoTime FloatRound FloatOrder FloatText Ranking MemRedis.

Local Open Scope Z_scope.

(** ** Scores *)

Lemma fltb_zero f : fltb fzero f = true → is_negative f = false ∧ is_nan f = false.
Proof. by destruct f as [[]|[]| |[] m e]. Qed.

Lemma of_Z_1000 : of_Z 1000 = S754_finite false 8796093022208000 (-43).
Proof. vm_compute. reflexivity. Qed.
Lemma of_Z_100 : of_Z 100 = S754_finite false 7036874417766400 (-46).
Proof. vm_compute. reflexivity. Qed.

Lemma nan_mul_l a b : is_nan (fmul a b) = false → is_nan a = false ∧ is_nan b = false.
Proof. by destruct a, b. Qed.


Lemma score_float64 tps p99 sr :
  is_float64 tps → is_float64 p99 → is_float64 sr → is_float64 (score_of tps p99 sr).
Proof.
  intros Ht Hp Hs. unfold score_of. destruct (fltb fzero sr && fltb fzero p99); [|done].
  repeat apply fmul_float64; try done; by apply fdiv_float64.
Qed.

Lemma score_negative tps p99 sr :
  is_float64 tps → is_float64 p99 → is_float64 sr → is_negative tps = false →
  is_negative (score_of tps p99 sr) = false.
Proof.
  intros Ht Hp Hs Nt. unfold score_of.
  destruct (fltb fzero sr) eqn:Es, (fltb fzero p99) eqn:Ep; [|done..]. cbn [andb].
  assert (H1 : is_float64 (fdiv (of_Z 1000) p99)) by by apply fdiv_float64.
  assert (H2 : is_float64 (fdiv sr (of_Z 100))) by by apply fdiv_float64.
  assert (H3 : is_float64 (fmul tps (fdiv (of_Z 1000) p99))) by by apply fmul_float64.
  destruct (is_nan (fmul (fmul tps (fdiv (of_Z 1000) p99)) (fdiv sr (of_Z 100)))) eqn:Hn.
  { by destruct (fmul (fmul _ _) _). }
  destruct (nan_mul_l _ _ Hn) as [Hn1 Hn2]. destruct (nan_mul_l _ _ Hn1) as [_ Hn3].
  rewrite !fmul_sign, !fdiv_sign by done. destruct (fltb_zero _ Es) as [-> _], (fltb_zero _ Ep) as [-> _].
  rewrite Nt, of_Z_1000, of_Z_100. done.
Qed.

(** The score is a proper float64 whatever the figures; it is zero for a
    run without successes or without a positive latency, so also when
    either is not a number; and the score of a rate that is not
    negative is never negative. *)
Theorem score_sound tps p99 sr :
  is_float64 tps → is_float64 p99 → is_float64 sr →
  is_float64 (score_of tps p99 sr) ∧
  (fltb fzero sr = false ∨ fltb fzero p99 = false → score_of tps p99 sr = fzero) ∧
  (is_negative tps = false → is_negative (score_of tps p99 sr) = false).
Proof.
  intros Ht Hp Hs. split_and!; [by apply score_float64| |by apply score_negative].
  unfold score_of. intros [-> | ->]; [done|by rewrite andb_false_r].
Qed.


(** ** Updates *)

Section updates.
Context {W : Type} `{RW : Redis W} `{TZ : Location} `{RL : !RedisLaws W}.

(** Setting the time to live and publishing, after both writes. *)
Lemma update_tail k ev score (w : W) :
  ∃ w', (Expire k week;; (if is_finite score then Publish "leaderboard:updates" ev;; mret tt else mret tt);;
         (mret (inr score) : GoM W (string + float64))) w = Ok (inr score, w') ∧
    (∀ k', hash k' w' = hash k' w) ∧ (∀ k', zset k' w' = zset k' w) ∧
    (published w' = published w ∨
     is_finite score = true ∧ published w' = published w ++ [("leaderboard:updates", ev)]).
Proof.
  destruct (expire_frame k week w) as (e1 & w1 & E1 & H1 & Z1 & P1). rewrite (bind_Ok _ _ _ _ _ E1).
  destruct (is_finite score).
  - destruct (publish_frame "leaderboard:updates" ev w1) as (e2 & w2 & E2 & H2 & Z2 & P2).
    exists w2. split.
    + unfold mbind, GoM_bind. rewrite E2. done.
    + split_and!; [congruence..|]. rewrite <- P1. naive_solver.
  - exists w1. naive_solver.
Qed.

(** The course of an update, on every branch.  When it succeeds, the
    sorted set holds the score under the submission, the hash the figures
    over what it held before, and at most the event for this score has been
    published, which takes a finite score.  When it fails nothing is
    published: either the first write failed and the hash is untouched, or
    the second one did and the sorted set already has the score.  A score
    that is not a number always fails and changes neither.  No other key is
    touched. *)
Lemma UpdateScore_course sid cid tps p99 sr now (w : W) :
  let score := score_of tps p99 sr in
  let meta := metadata sid cid tps p99 sr score now in
  ∃ r w', UpdateScore sid cid tps p99 sr now w = Ok (r, w') ∧
    (∀ k, k ≠ GlobalLeaderboardKey → zset k w' = zset k w) ∧
    (∀ k, k ≠ metaKey sid → hash k w' = hash k w) ∧
    match r with
    | inr s =>
        s = score ∧ is_nan score = false ∧
        zset GlobalLeaderboardKey w' = <[sid := score]> (zset GlobalLeaderboardKey w) ∧
        hash (metaKey sid) w' = meta ∪ hash (metaKey sid) w ∧
        (published w' = published w ∨ is_finite score = true ∧
           published w' = published w ++ [("leaderboard:updates", mkNewRun sid cid score)])
    | inl e =>
        published w' = published w ∧
        (is_nan score = true → zset GlobalLeaderboardKey w' = zset GlobalLeaderboardKey w ∧
           hash (metaKey sid) w' = hash (metaKey sid) w) ∧
        ((∃ e', e = "failed to add ZSET entry: " +:+ e') ∧ hash (metaKey sid) w' = hash (metaKey sid) w ∧
           (zset GlobalLeaderboardKey w' = zset GlobalLeaderboardKey w ∨
            zset GlobalLeaderboardKey w' = <[sid := score]> (zset GlobalLeaderboardKey w))
         ∨ (∃ e', e = "failed to save metadata: " +:+ e') ∧
           zset GlobalLeaderboardKey w' = <[sid := score]> (zset GlobalLeaderboardKey w) ∧
           (hash (metaKey sid) w' = hash (metaKey sid) w ∨
            hash (metaKey sid) w' = meta ∪ hash (metaKey sid) w))
    end.
Proof.
  cbn zeta. unfold UpdateScore. set (score := score_of tps p99 sr).
  destruct (zadd_total GlobalLeaderboardKey score sid w) as (e1 & w1 & E1).
  destruct (zadd_frame _ _ _ _ _ _ E1) as (Z1 & H1 & P1). rewrite (bind_Ok _ _ _ _ _ E1). cbn beta.
  assert (Hnan : is_nan score = true → e1 ≠ None ∧ zset GlobalLeaderboardKey w1 = zset GlobalLeaderboardKey w).
  { intros Hn. destruct score; try done. by eapply zadd_nan. }
  destruct e1 as [e1|].
  { eexists (inl _), w1. split; [done|]. split_and!; eauto; [naive_solver|].
    left. split_and!; eauto. by eapply zadd_error. }
  pose proof (zadd_ok _ _ _ _ _ E1) as Hset.
  assert (Hnum : is_nan score = false) by (destruct (is_nan score); naive_solver).
  set (meta := metadata sid cid tps p99 sr score now).
  destruct (hset_total (metaKey sid) meta w1) as (e2 & w2 & E2).
  destruct (hset_frame _ _ _ _ _ E2) as (H2 & Z2 & P2). rewrite (bind_Ok _ _ _ _ _ E2). cbn beta.
  destruct e2 as [e2|].
  { eexists (inl _), w2. split; [done|]. split_and!; [intros; by rewrite Z2, Z1|intros; by rewrite H2, H1| |..].
    - congruence.
    - by rewrite Hnum.
    - right. split_and!; eauto; [congruence|]. rewrite <- H1. by eapply hset_error. }
  destruct (update_tail (metaKey sid) (mkNewRun sid cid score) score w2) as (w3 & E3 & H3 & Z3 & P3).
  eexists (inr _), w3. split; [exact E3|].
  split_and!; try done; [intros; by rewrite Z3, Z2, Z1|intros; by rewrite H3, H2, H1|congruence| |].
  - rewrite H3, <- H1. by apply hset_hash.
  - rewrite <- P1, <- P2. done.
Qed.

(** An update never fails silently or half-way without saying so: it
    always returns; an update that reports success has stored the score
    and the figures; one that reports an error has published nothing and
    says which write failed, the sorted set being up to date already when it
    was the second; and a score that is not a number is always reported as an
    error and leaves the leaderboard and the figures as they were.  Other
    submissions and keys are not touched. *)
Theorem update_reports sid cid tps p99 sr now (w : W) :
  let score := score_of tps p99 sr in
  let meta := metadata sid cid tps p99 sr score now in
  ∃ r w', UpdateScore sid cid tps p99 sr now w = Ok (r, w') ∧
    (∀ k, k ≠ GlobalLeaderboardKey → zset k w' = zset k w) ∧
    (∀ k, k ≠ metaKey sid → hash k w' = hash k w) ∧
    (∀ m, m ≠ sid → zset GlobalLeaderboardKey w' !! m = zset GlobalLeaderboardKey w !! m) ∧
    (is_nan score = true → zset GlobalLeaderboardKey w' = zset GlobalLeaderboardKey w ∧
       hash (metaKey sid) w' = hash (metaKey sid) w ∧ ∃ e, r = inl e) ∧
    match r with
    | inr s =>
        s = score ∧ zset GlobalLeaderboardKey w' !! sid = Some score ∧ meta ⊆ hash (metaKey sid) w'
    | inl e =>
        published w' = published w ∧
        ((∃ e', e = "failed to add ZSET entry: " +:+ e') ∧ hash (metaKey sid) w' = hash (metaKey sid) w
         ∨ (∃ e', e = "failed to save metadata: " +:+ e') ∧
           zset GlobalLeaderboardKey w' !! sid = Some score)
    end.
Proof.
  cbn zeta. destruct (UpdateScore_course sid cid tps p99 sr now w) as (r & w' & E & HZ & HH & Hr).
  exists r, w'. split; [done|]. split_and!; try done; destruct r as [e|s].
  - intros m Hm. destruct Hr as (_ & _ & [(_ & _ & [-> | ->])|(_ & -> & _)]); by rewrite ?lookup_insert_ne.
  - intros m Hm. destruct Hr as (_ & _ & -> & _). by rewrite lookup_insert_ne.
  - naive_solver.
  - destruct Hr as (_ & Hn & _). by rewrite Hn.
  - destruct Hr as (Hp & _ & [(He & Hh & _)|(He & -> & _)]); [by eauto|].
    split; [done|]. right. split; [done|]. by rewrite lookup_insert_eq.
  - destruct Hr as (-> & _ & -> & -> & _). split_and!; [done|by rewrite lookup_insert_eq|].
    apply map_union_subseteq_l.
Qed.
End updates.

(** ** Reading *)

Section reading.
Context {W : Type} `{RW : Redis W} `{TZ : Location} `{RL : !RedisLaws W}.

Lemma entries_fmap ps (w : W) :
  entries ((λ p, mkZ p.2 (Some p.1)) <$> ps) w =
  (λ p, entry_of p.1 p.2 (HGetAll (metaKey p.1) w)) <$> ps.
Proof. unfold entries. induction ps as [|p ps IH]; [done|]. cbn in *. by rewrite IH. Qed.

(** The entries are those of a front part of the sorted set in its order. *)
Lemma GetLeaderboard_front limit (w : W) l :
  1 <= limit < 2 ^ 63 → GetLeaderboard limit w = inr l →
  ∃ sorted, sorted ≡ₚ map_to_list (zset GlobalLeaderboardKey w) ∧ StronglySorted z_before sorted ∧
    l = (λ p, entry_of p.1 p.2 (HGetAll (metaKey p.1) w)) <$> take (Z.to_nat limit) sorted.
Proof.
  intros Hl. unfold GetLeaderboard. rewrite wrap_int64_id by (unfold is_int64; lia).
  destruct (ZRevRangeWithScores _ _ _ _) as [e|zs] eqn:E; [done|]. intros [= <-].
  destruct (zrange_sorted _ _ _ _ E) as (sorted & Hp & Hs & ->). exists sorted. split_and!; [done..|].
  rewrite entries_fmap. unfold z_range. rewrite (proj2 (Z.ltb_ge _ _)) by lia.
  by replace (limit - 1 + 1) with limit by lia.
Qed.

Lemma entry_of_id id z meta : SubmissionID (entry_of id z meta) = id.
Proof. unfold entry_of. destruct meta as [|m]; [done|]. by destruct (bool_decide (m = ∅)). Qed.

Lemma entries_ids ps (w : W) :
  SubmissionID <$> ((λ p, entry_of p.1 p.2 (HGetAll (metaKey p.1) w)) <$> ps) = ps.*1.
Proof. rewrite <- list_fmap_compose. apply list_fmap_ext. intros i p _. apply entry_of_id. Qed.

Lemma sorted_keys (m : gmap string float64) sorted :
  sorted ≡ₚ map_to_list m → NoDup (sorted.*1) ∧ length sorted = size m ∧
  (∀ id s, (id, s) ∈ sorted ↔ m !! id = Some s).
Proof.
  intros Hp. split_and!.
  - rewrite Hp. apply NoDup_fst_map_to_list.
  - by rewrite Hp, length_map_to_list.
  - intros id s. rewrite Hp. apply elem_of_map_to_list.
Qed.

Lemma StronglySorted_app_between {A} (R : A → A → Prop) l1 l2 :
  StronglySorted R (l1 ++ l2) → StronglySorted R l1 ∧ ∀ x y, x ∈ l1 → y ∈ l2 → R x y.
Proof.
  induction l1 as [|a l1 IH]; cbn; [split; [constructor|set_solver]|].
  intros [Hs Ha]%StronglySorted_inv. destruct (IH Hs) as [H1 H2].
  rewrite Forall_app in Ha. destruct Ha as [Ha1 Ha2]. split; [by constructor|].
  intros x y [->|Hx]%elem_of_cons Hy; [|by apply H2]. by rewrite Forall_forall in Ha2; apply Ha2.
Qed.

Lemma StronglySorted_fmap_impl {A B} (R : A → A → Prop) (R' : B → B → Prop) (f : A → B) l :
  StronglySorted R l → (∀ x y, x ∈ l → y ∈ l → R x y → R' (f x) (f y)) → StronglySorted R' (f <$> l).
Proof.
  intros Hs HR. induction Hs as [|x l _ IH Hx]; [constructor|]. rewrite fmap_cons. constructor.
  - apply IH. intros y z Hy Hz. apply HR; by right.
  - apply Forall_forall. intros ? (y & -> & Hy)%list_elem_of_fmap. rewrite Forall_forall in Hx.
    apply HR; [by left|by right|by apply Hx].
Qed.

Lemma StronglySorted_fst (m : gmap string float64) (R : string * float64 → string * float64 → Prop) ps :
  (∀ p, p ∈ ps → m !! p.1 = Some p.2) → StronglySorted R ps →
  StronglySorted (λ a b, ∃ sa sb, m !! a = Some sa ∧ m !! b = Some sb ∧ R (a, sa) (b, sb)) ps.*1.
Proof.
  intros Hm Hs. eapply StronglySorted_fmap_impl; [exact Hs|]. intros [a sa] [b sb] Ha Hb HR.
  exists sa, sb. split_and!; [exact (Hm _ Ha)|exact (Hm _ Hb)|done].
Qed.

(** C36: What a leaderboard of at most [limit] entries shows: as many
    submissions as there are, up to the limit, none twice and all ranked; the
    better score first and, between equal scores, the greater id; and nobody
    is left out who would rank above someone shown. *)
Theorem leaderboard_ranked limit (w : W) l :
  1 <= limit < 2 ^ 63 → GetLeaderboard limit w = inr l →
  let board := zset GlobalLeaderboardKey w in
  let ids := SubmissionID <$> l in
  Z.of_nat (length l) = Z.min limit (Z.of_nat (size board)) ∧ NoDup ids ∧ (∀ id, id ∈ ids → id ∈ dom board) ∧
  StronglySorted (λ a b, ∃ sa sb, board !! a = Some sa ∧ board !! b = Some sb ∧ z_before (a, sa) (b, sb)) ids ∧
  (∀ id s id' s', id ∉ ids → board !! id = Some s → id' ∈ ids → board !! id' = Some s' →
     z_before (id', s') (id, s)).
Proof.
  intros Hl E. cbn zeta. destruct (GetLeaderboard_front _ _ _ Hl E) as (sorted & Hp & Hs & ->).
  rewrite entries_ids. destruct (sorted_keys _ _ Hp) as (Hnd & Hlen & Hin).
  set (n := Z.to_nat limit). rewrite <- (take_drop n sorted) in Hs, Hnd.
  destruct (StronglySorted_app_between _ _ _ Hs) as [Hs1 Hs2].
  rewrite fmap_app in Hnd. apply NoDup_app in Hnd as (Hnd1 & _ & _).
  assert (Hfront : ∀ p, p ∈ take n sorted → zset GlobalLeaderboardKey w !! p.1 = Some p.2).
  { intros [id s] Hq. apply Hin. rewrite <- (take_drop n sorted). apply elem_of_app. by left. }
  split_and!; [|done| | |].
  - rewrite length_fmap, length_take, Hlen. lia.
  - intros id ([id' s] & -> & Hid)%list_elem_of_fmap. apply elem_of_dom. exists s. by apply (Hfront (id', s)).
  - by apply StronglySorted_fst.
  - intros id s id' s' Hout Hid Hin' Hid'. apply Hs2.
    + apply list_elem_of_fmap in Hin' as ([id2 s2] & -> & H2). pose proof (Hfront _ H2). cbn in *. by simplify_eq.
    + apply Hin in Hid. rewrite <- (take_drop n sorted) in Hid. apply elem_of_app in Hid as [Hid|Hid]; [|done].
      exfalso. apply Hout. apply list_elem_of_fmap. by exists (id, s).
Qed.
End reading.

(** ** Updates and what is shown of them *)

Lemma parse_format2 f : is_float64 f → parse_float (format2 f) = shown f.
Proof.
  intros Hf. unfold parse_float, format2. rewrite String.list_ascii_of_string_of_list_ascii.
  by apply ParseFormat.
Qed.

Lemma metaKey_inj a b : metaKey a = metaKey b → a = b.
Proof. unfold metaKey. by intros ?%(inj (String.append MetadataKeyPrefix)). Qed.

Section shown.
Context {W : Type} `{RW : Redis W} `{TZ : Location} `{RL : !RedisLaws W}.

(** The entry of a hash that has the metadata of a run. *)
Lemma entry_of_metadata sid cid tps p99 sr score now z m :
  is_float64 tps → is_float64 p99 → is_float64 sr → is_float64 score →
  metadata sid cid tps p99 sr score now ⊆ m →
  entry_of sid z (inr m) =
  mkEntry sid cid (shown tps) (shown p99) (shown sr) (shown score)
    (default (mkTime zero_time 0) (ParseTime (FormatRFC3339 now))).
Proof.
  intros Ht Hp Hs Hc Hm. unfold entry_of.
  assert (Hf : ∀ k v, metadata sid cid tps p99 sr score now !! k = Some v → m !! k = Some v)
    by (intros k v Hk; by eapply lookup_weaken).
  rewrite bool_decide_eq_false_2 by (intros ->; by specialize (Hf "tps" _ eq_refl)).
  rewrite (Hf "contestant_id" cid eq_refl), (Hf "tps" (format2 tps) eq_refl),
    (Hf "p99_latency" (format2 p99) eq_refl), (Hf "success_rate" (format2 sr) eq_refl),
    (Hf "score" (format2 score) eq_refl), (Hf "timestamp" (FormatRFC3339 now) eq_refl).
  cbn [from_option id]. unfold id. by rewrite !parse_format2.
Qed.

Lemma entries_others sid ps (w : W) :
  sid ∉ ps.*1 →
  filter (λ e, SubmissionID e = sid) ((λ p, entry_of p.1 p.2 (HGetAll (metaKey p.1) w)) <$> ps) = [].
Proof.
  induction ps as [|p ps IH]; [done|]. rewrite !fmap_cons. intros [Hp Hps]%not_elem_of_cons.
  rewrite filter_cons_False by (by rewrite entry_of_id). by apply IH.
Qed.

(** What is stored is shown.  After a successful update a leaderboard
    that has room for everybody has exactly one entry for the submission,
    with the contestant and the figures of the run to two decimals and the
    time to the second, provided the metadata can be read. *)
Theorem update_shown sid cid tps p99 sr now (w w' : W) score limit l m :
  is_float64 tps → is_float64 p99 → is_float64 sr → 0 <= now < 2 ^ 63 → proper_offset (zone_offset now) →
  UpdateScore sid cid tps p99 sr now w = Ok (inr score, w') →
  Z.of_nat (size (zset GlobalLeaderboardKey w')) <= limit < 2 ^ 63 →
  GetLeaderboard limit w' = inr l → HGetAll (metaKey sid) w' = inr m →
  filter (λ e, SubmissionID e = sid) l =
  [mkEntry sid cid (shown tps) (shown p99) (shown sr) (shown score) (mkTime (now / second * second) (zone_offset now))].
Proof.
  intros Ht Hp Hs Hnow Hz0 E Hl EG EH.
  destruct (UpdateScore_course sid cid tps p99 sr now w) as (r & w'' & E' & _ & _ & Hr).
  rewrite E in E'. injection E' as <- <-. destruct Hr as (-> & Hnan & Hz & Hh & _).
  apply hgetall_hash in EH as Hm. rewrite Hh in Hm.
  assert (1 <= limit < 2 ^ 63).
  { split; [|lia]. assert (size (zset GlobalLeaderboardKey w') ≠ 0%nat); [|lia].
    rewrite Hz. apply (map_size_ne_0_lookup_2 _ sid). rewrite lookup_insert_eq. by eexists. }
  destruct (GetLeaderboard_front _ _ _ ltac:(done) EG) as (sorted & Hperm & _ & ->).
  destruct (sorted_keys _ _ Hperm) as (Hnd & Hlen & Hin). rewrite take_ge by lia.
  assert (Hsid : (sid, score_of tps p99 sr) ∈ sorted) by (apply Hin; by rewrite Hz, lookup_insert_eq).
  apply list_elem_of_split in Hsid as (l1 & l2 & ->).
  rewrite fmap_app, fmap_cons in Hnd. cbn in Hnd. apply NoDup_app in Hnd as (_ & Hd1 & Hd2).
  apply NoDup_cons in Hd2 as [Hd2 _].
  rewrite fmap_app, fmap_cons. cbn [fst snd]. rewrite filter_app, filter_cons_True by apply entry_of_id.
  rewrite (entries_others sid l1), (entries_others sid l2); [|exact Hd2|intros Hin1; apply (Hd1 _ Hin1); left].
  cbn [app]. f_equal.
  rewrite EH, (entry_of_metadata sid cid tps p99 sr (score_of tps p99 sr) now).
  - by rewrite parse_format_time.
  - exact Ht.
  - exact Hp.
  - exact Hs.
  - by apply score_float64.
  - rewrite Hm. apply map_union_subseteq_l.
Qed.

Lemma metadata_score sid cid tps p99 sr score now :
  metadata sid cid tps p99 sr score now !! "score" = Some (format2 score).
Proof. reflexivity. Qed.

Lemma ranking_ok_step (w w' : W) stale stale' :
  ranking_ok w stale → history_step (w, stale) (w', stale') → ranking_ok w' stale'.
Proof.
  intros Hok Hstep. inversion Hstep as [sid cid tps p99 sr now ? score ? ? Ht Hp Hs Hneg E
    |sid cid tps p99 sr now ? err ? ? E Hz Hh|sid cid tps p99 sr now ? err ? ? Ht Hp Hs Hneg E|? ? ? HZ HH]; subst.
  - destruct (UpdateScore_course sid cid tps p99 sr now w) as (r & w'' & E' & _ & HH & Hr).
    rewrite E in E'. injection E' as <- <-. destruct Hr as (-> & _ & Hz & Hh & _).
    intros id s. rewrite Hz. destruct (decide (id = sid)) as [->|Hne].
    + rewrite lookup_insert_eq. intros [= <-]. split_and!; [by apply score_float64|by apply score_negative|].
      right. rewrite Hh. apply lookup_union_Some_l, metadata_score.
    + rewrite lookup_insert_ne by done. intros Hid. destruct (Hok id s Hid) as (H1 & H2 & H3).
      split_and!; [done..|]. intros Hst. rewrite HH; [apply H3; set_solver|]. by intros ->%metaKey_inj.
  - destruct (UpdateScore_course sid cid tps p99 sr now w) as (r & w'' & E' & _ & HH & _).
    rewrite E in E'. injection E' as <- <-. intros id s. rewrite Hz. intros Hid. destruct (Hok id s Hid) as (H1 & H2 & H3).
    split_and!; [done..|]. destruct (decide (id = sid)) as [->|Hne]; [by rewrite Hh|].
    rewrite HH; [done|]. by intros ->%metaKey_inj.
  - destruct (UpdateScore_course sid cid tps p99 sr now w) as (r & w'' & E' & _ & HH & Hr).
    rewrite E in E'. injection E' as <- <-. intros id s. destruct (decide (id = sid)) as [->|Hne].
    + intros Hid. assert (Hs' : zset GlobalLeaderboardKey w !! sid = Some s ∨ s = score_of tps p99 sr).
      { destruct Hr as (_ & _ & [(_ & _ & [Hz|Hz])|(_ & Hz & _)]); rewrite Hz in Hid; [by left|..];
          rewrite lookup_insert_eq in Hid; right; congruence. }
      destruct Hs' as [Hs'| ->].
      * destruct (Hok sid s Hs') as (H1 & H2 & _). split_and!; [done..|set_solver].
      * split_and!; [by apply score_float64|by apply score_negative|set_solver].
    + intros Hid. assert (Hs' : zset GlobalLeaderboardKey w !! id = Some s).
      { destruct Hr as (_ & _ & [(_ & _ & [Hz|Hz])|(_ & Hz & _)]); rewrite Hz in Hid; [done|..];
          by rewrite lookup_insert_ne in Hid. }
      destruct (Hok id s Hs') as (H1 & H2 & H3). split_and!; [done..|].
      intros Hst. rewrite HH; [apply H3; set_solver|]. by intros ->%metaKey_inj.
  - intros id s. rewrite HZ. intros Hid. destruct (Hok id s Hid) as (H1 & H2 & H3). split_and!; [done..|].
    intros Hst. destruct (HH (metaKey id)) as [-> | ->]; [by apply H3|by left].
Qed.

Lemma ranking_ok_history (w0 w : W) stale :
  zset GlobalLeaderboardKey w0 = ∅ → rtc history_step (w0, ∅) (w, stale) → ranking_ok w stale.
Proof.
  intros H0 Hr. assert (Hok : ranking_ok w0 ∅) by (intros id s; rewrite H0; done).
  clear H0. remember (w0, ∅) as x eqn:Ex. remember (w, stale) as y eqn:Ey.
  revert w0 Ex Hok. generalize (∅ : gset string) as st0.
  induction Hr as [x|x [w1 st1] y Hstep _ IH]; intros st0 w0 -> Hok; [by simplify_eq|].
  apply (IH Ey st1 w1); [done|]. by eapply ranking_ok_step.
Qed.

(** The score an entry shows. *)
Lemma entry_score (w : W) stale id s :
  ranking_ok w stale → zset GlobalLeaderboardKey w !! id = Some s → id ∉ stale →
  Score (entry_of id s (HGetAll (metaKey id) w)) = (if readable id w then shown s else s).
Proof.
  intros Hok Hid Hst. unfold readable. destruct (HGetAll (metaKey id) w) as [e|m] eqn:E; [done|].
  apply hgetall_hash in E. cbn [entry_of]. destruct (decide (m = ∅)) as [Hm|Hm].
  - rewrite bool_decide_eq_true_2, bool_decide_eq_false_2 by tauto. done.
  - rewrite bool_decide_eq_false_2, bool_decide_eq_true_2 by done. cbn [Score].
    destruct (Hok id s Hid) as (H1 & _ & H3). destruct (H3 Hst) as [H|H]; [congruence|].
    rewrite E, H. by apply parse_format2.
Qed.

Lemma filter_fmap_comm {A B} (f : A → B) (P : B → Prop) `{∀ x, Decision (P x)} (l : list A) :
  filter P (f <$> l) = f <$> filter (λ x, P (f x)) l.
Proof.
  induction l as [|x l IH]; [done|]. rewrite fmap_cons, !filter_cons. destruct (decide (P (f x))); [|done].
  by rewrite fmap_cons, IH.
Qed.

Lemma StronglySorted_filter {A} (R : A → A → Prop) (P : A → Prop) `{∀ x, Decision (P x)} (l : list A) :
  StronglySorted R l → StronglySorted R (filter P l).
Proof.
  induction 1 as [|x l _ IH Hx]; [constructor|]. rewrite filter_cons. destruct (decide (P x)); [|done].
  constructor; [done|]. apply Forall_forall. intros y [_ Hy]%list_elem_of_filter.
  by rewrite Forall_forall in Hx; apply Hx.
Qed.

(** An entry that is shown with the metadata of its last update. *)
Definition settled (stale : gset string) (w : W) (e : LeaderboardEntry) : Prop :=
  (SubmissionID e ∉ stale) ∧ readable (SubmissionID e) w = true.
#[local] Instance settled_dec stale w e : Decision (settled stale w e) := and_dec _ _.

(** C14: The scores that are displayed agree with the ranking.  After any
    history of updates with rates that are not negative, of any outcome, and
    of expiries, an entry whose submission is not left over from an update that
    failed half-way shows the score of the sorted set to two decimals, or as it
    is when the metadata have expired or cannot be read; and among the entries
    that are shown from their metadata the scores are in descending order,
    although the order comes from one key and the figures from others and were
    rounded and parsed on their way. *)
Theorem displayed_in_order (w0 w : W) stale limit l :
  zset GlobalLeaderboardKey w0 = ∅ → rtc history_step (w0, ∅) (w, stale) →
  1 <= limit < 2 ^ 63 → GetLeaderboard limit w = inr l →
  (∀ e, e ∈ l → ∃ s, zset GlobalLeaderboardKey w !! SubmissionID e = Some s ∧
     (SubmissionID e ∉ stale → Score e = (if readable (SubmissionID e) w then shown s else s))) ∧
  StronglySorted (λ a b, fleb (Score b) (Score a) = true) (filter (settled stale w) l).
Proof.
  intros H0 Hr Hl E. pose proof (ranking_ok_history _ _ _ H0 Hr) as Hok.
  destruct (GetLeaderboard_front _ _ _ Hl E) as (sorted & Hp & Hs & ->).
  destruct (sorted_keys _ _ Hp) as (_ & _ & Hin). set (n := Z.to_nat limit) in *.
  rewrite <- (take_drop n sorted) in Hs. destruct (StronglySorted_app_between _ _ _ Hs) as [Hs1 _].
  assert (Hf : ∀ p, p ∈ take n sorted → zset GlobalLeaderboardKey w !! p.1 = Some p.2).
  { intros [id s] Hq. apply Hin. rewrite <- (take_drop n sorted). apply elem_of_app. by left. }
  split.
  - intros e ([id s] & -> & Hq)%list_elem_of_fmap. rewrite entry_of_id. exists s. split; [by apply (Hf (id, s))|].
    intros Hst. by apply (entry_score _ stale), Hst; [|apply (Hf (id, s))].
  - rewrite filter_fmap_comm. eapply StronglySorted_fmap_impl; [by apply StronglySorted_filter|].
    intros p q [[Sp Rp] Hpp]%list_elem_of_filter [[Sq Rq] Hqq]%list_elem_of_filter [Hle _].
    cbn in Sp, Rp, Sq, Rq. rewrite entry_of_id in *. specialize (Hf p Hpp) as Hzp. specialize (Hf q Hqq) as Hzq.
    rewrite (entry_score _ stale), (entry_score _ stale) by done. rewrite Rp, Rq.
    destruct (Hok _ _ Hzq) as (? & ? & _), (Hok _ _ Hzp) as (? & ? & _). by apply shown_mono.
Qed.

(** ** A score that is not finite stays on the board *)

Lemma others_keep sid score (w w' : W) :
  rtc (others_step sid) w w' →
  zset GlobalLeaderboardKey w !! sid = Some score ∧
    (hash (metaKey sid) w = ∅ ∨ hash (metaKey sid) w !! "score" = Some (format2 score)) →
  zset GlobalLeaderboardKey w' !! sid = Some score ∧
    (hash (metaKey sid) w' = ∅ ∨ hash (metaKey sid) w' !! "score" = Some (format2 score)).
Proof.
  induction 1 as [|w w1 w2 Hstep _ IH]; [done|]. intros [Hz Hh]. apply IH. clear IH.
  destruct Hstep as [sid' cid tps p99 sr now w r w1 Hne E|w w1 HZ HH].
  - destruct (UpdateScore_course sid' cid tps p99 sr now w) as (r' & w'' & E' & _ & HH & Hr).
    rewrite E in E'. injection E' as <- <-. rewrite HH by (intros ?%metaKey_inj; congruence). split; [|done].
    destruct r as [err|s].
    + destruct Hr as (_ & _ & [(_ & _ & [-> | ->])|(_ & -> & _)]); by rewrite ?lookup_insert_ne.
    + destruct Hr as (_ & _ & -> & _). by rewrite lookup_insert_ne.
  - rewrite HZ. split; [done|]. destruct (HH (metaKey sid)) as [-> | ->]; [done|by left].
Qed.

Lemma entry_not_finite (w : W) sid score :
  is_float64 score → is_finite score = false →
  hash (metaKey sid) w = ∅ ∨ hash (metaKey sid) w !! "score" = Some (format2 score) →
  is_finite (Score (entry_of sid score (HGetAll (metaKey sid) w))) = false.
Proof.
  intros Hs Hf Hh. destruct (HGetAll (metaKey sid) w) as [e|m] eqn:E; [done|]. apply hgetall_hash in E as ->.
  cbn [entry_of]. destruct (decide (hash (metaKey sid) w = ∅)) as [Hm|Hm].
  - by rewrite bool_decide_eq_true_2.
  - rewrite bool_decide_eq_false_2 by done. destruct Hh as [?| ->]; [done|]. cbn [Score].
    change (default "" (Some (format2 score))) with (format2 score). rewrite parse_format2 by done.
    unfold shown. by rewrite Hf.
Qed.
End shown.

Lemma score_sound_witness : is_float64 (score_of (of_Z 5000) (of_Z 2) (of_Z 100)).
Proof. apply (score_sound (of_Z 5000) (of_Z 2) (of_Z 100)); vm_compute; reflexivity. Defined.


(** Two runs, the second one better. *)
Definition mem0 : mem := mkMem ∅ ∅ [].
Definition run1 : GoM mem (string + float64) :=
  UpdateScore "s1" "alice" (of_Z 5000) (of_Z 2) (of_Z 100) 1700000000123456789.
Definition run2 : GoM mem (string + float64) :=
  UpdateScore "s2" "bob" (of_Z 6000) (of_Z 2) (of_Z 99) 1700000001000000000.
Definition after (m : GoM mem (string + float64)) (w : mem) : mem :=
  match m w with Ok (_, w') => w' | _ => w end.
Definition mem2 : mem := after run2 (after run1 mem0).
Definition board2 : list LeaderboardEntry := match GetLeaderboard 50 mem2 with inr l => l | inl _ => [] end.

Lemma update_reports_witness :
  ∃ r w', UpdateScore "s1" "alice" (of_Z 5000) (of_Z 2) (of_Z 100) 0 mem0 = Ok (r, w') ∧
    mem_zset "other" w' = mem_zset "other" mem0.
Proof.
  destruct (update_reports "s1" "alice" (of_Z 5000) (of_Z 2) (of_Z 100) 0 mem0) as (r & w' & E & HZ & _).
  exists r, w'. split; [exact E|]. by apply HZ.
Defined.

Lemma leaderboard_ranked_witness :
  (SubmissionID <$> board2) = ["s2"; "s1"] ∧ NoDup (SubmissionID <$> board2).
Proof.
  assert (E : GetLeaderboard 50 mem2 = inr board2) by (vm_compute; reflexivity).
  split; [vm_compute; reflexivity|]. apply (leaderboard_ranked 50 mem2 board2); [lia|exact E].
Defined.

Lemma update_shown_witness :
  filter (λ e, SubmissionID e = "s2") board2 =
  [mkEntry "s2" "bob" (shown (of_Z 6000)) (shown (of_Z 2)) (shown (of_Z 99))
     (shown (score_of (of_Z 6000) (of_Z 2) (of_Z 99))) (mkTime 1700000001000000000 0)].
Proof.
  assert (E : run2 (after run1 mem0) = Ok (inr (score_of (of_Z 6000) (of_Z 2) (of_Z 99)), mem2))
    by (vm_compute; reflexivity).
  assert (EG : GetLeaderboard 50 mem2 = inr board2) by (vm_compute; reflexivity).
  assert (Hsize : size (mem_zset GlobalLeaderboardKey mem2) = 2%nat) by (vm_compute; reflexivity).
  refine (update_shown "s2" "bob" (of_Z 6000) (of_Z 2) (of_Z 99) 1700000001000000000 (after run1 mem0) mem2
    _ 50 board2 (mem_hash (metaKey "s2") mem2) _ _ _ _ _ E _ EG _);
    [vm_compute; reflexivity..|lia|apply utc_proper|cbn [zset mem_redis_laws]; rewrite Hsize; lia|reflexivity].
Defined.

(** The second run's metadata expire: it is shown from the sorted set. *)
Definition mem3 : mem := mkMem (memZsets mem2) (delete (metaKey "s2") (memHashes mem2)) (memPublished mem2).
Definition board3 : list LeaderboardEntry := match GetLeaderboard 50 mem3 with inr l => l | inl _ => [] end.

Lemma displayed_in_order_witness :
  (SubmissionID <$> board3) = ["s2"; "s1"] ∧ readable "s2" mem3 = false ∧ readable "s1" mem3 = true ∧
  (∀ e, e ∈ board3 → ∃ s, mem_zset GlobalLeaderboardKey mem3 !! SubmissionID e = Some s ∧
     (SubmissionID e ∉ (∅ : gset string) → Score e = (if readable (SubmissionID e) mem3 then shown s else s))) ∧
  StronglySorted (λ a b, fleb (Score b) (Score a) = true) (filter (λ e, settled ∅ mem3 e) board3).
Proof.
  assert (E1 : run1 mem0 = Ok (inr (score_of (of_Z 5000) (of_Z 2) (of_Z 100)), after run1 mem0))
    by (vm_compute; reflexivity).
  assert (E2 : run2 (after run1 mem0) = Ok (inr (score_of (of_Z 6000) (of_Z 2) (of_Z 99)), mem2))
    by (vm_compute; reflexivity).
  assert (EG : GetLeaderboard 50 mem3 = inr board3) by (vm_compute; reflexivity).
  split; [vm_compute; reflexivity|]. split; [vm_compute; reflexivity|]. split; [vm_compute; reflexivity|].
  refine (displayed_in_order mem0 mem3 ∅ 50 board3 _ _ _ EG).
  - vm_compute. reflexivity.
  - eapply rtc_l; [eapply step_update, E1; vm_compute; reflexivity|].
    eapply rtc_l; [eapply step_update, E2; vm_compute; reflexivity|].
    replace ((∅ ∖ {["s1"]}) ∖ {["s2"]}) with (∅ : gset string) by set_solver.
    apply rtc_once, step_expire; [done|]. intros k. cbn. unfold mem_hash. cbn [memHashes mem3].
    destruct (decide (k = metaKey "s2")) as [->|Hk]; [right; by rewrite lookup_delete_eq|left; by rewrite lookup_delete_ne].
  - lia.
Defined.
