(* ===== verification/Queue.v ===== *)
(** * The telemetry queue and the leaderboard service

    pkg/queue: the producer that publishes telemetry events to Kafka
    (producer.go), their encoding (messages.go) and the consumer's loop
    (consumer.go); and of cmd/leaderboard-service/main.go the handlers that
    tie the queue and HTTP requests to the ranking.

    The Kafka client is not part of the repository: the class [Kafka] has the
    calls of its writer, [KafkaLaws] what its documentation says of them.  What
    the reader returns, and when the context is cancelled, are the inputs of
    the loop.  The texts of decoding errors are left out. *)

From stdpp Require Import prelude gmap strings list fin_maps.
From Stdlib Require Import ZArith Lia Ascii SpecFloat.
From S2P Require Import Prelude GoBytes GoJson Float64 GoTime JsonFloat Ranking.

Local Open Scope Z_scope.

(** ** Events *)

Record TelemetryEvent := mkEvent {
  evSubmissionID : string; evContestantID : string; evTPS : float64; evP99LatencyMS : float64;
  evSuccessRate : float64; evTimestamp : Z;
}.

(** [json.Marshal]: the values of the fields, or the first error.  The time
    is written by [Time.MarshalJSON], in local time and with nanoseconds. *)
Definition marshal_float (f : float64) : string + json :=
  if is_finite f then inr (JNum (float_text f))
  else inl ("json: unsupported value: " +:+ String.string_of_list_ascii (FormatFloat f)).
Definition marshal_time `{Location} (t : Z) : string + json :=
  let prefix := "json: error calling MarshalJSON for type time.Time: Time.MarshalJSON: " in
  let year := (local_date t).1.1 in
  if negb ((0 <=? year) && (year <? 10000)) then inl (prefix +:+ "year outside of range [0,9999]")
  else if 24 <=? Z.abs (zone_offset t) / 3600 then inl (prefix +:+ "timezone hour outside of range [0,23]")
  else inr (j_string (FormatRFC3339Nano t)).
Definition and_then {A B} (r : string + A) (k : A → string + B) : string + B :=
  match r with inl err => inl err | inr x => k x end.
Definition Serialize `{Location} (e : TelemetryEvent) : string + bytes :=
  and_then (marshal_float (evTPS e)) (λ tps,
  and_then (marshal_float (evP99LatencyMS e)) (λ p99,
  and_then (marshal_float (evSuccessRate e)) (λ rate,
  and_then (marshal_time (evTimestamp e)) (λ time,
  inr (print (JObj [j_key "submission_id" (j_string (evSubmissionID e)); j_key "contestant_id" (j_string (evContestantID e));
                    j_key "tps" tps; j_key "p99_latency_ms" p99; j_key "success_rate" rate; j_key "timestamp" time])))))).

(** [Time.UnmarshalJSON] takes the text between the quotes as it is. *)
Definition time_field {S} (name : string) (set : Z → S → S) : field_of (json * bytes) S :=
  (str name, λ v,
     if decide (v.2 = str "null") then Some id
     else
       match v.2 with
       | q :: l => if (code q =? 34) && bool_decide (last l = Some (byte 34)) then
                     set <$> ParseRFC3339 (String.string_of_list_ascii (take (length l - 1) l))
                   else None
       | [] => None
       end).
Definition event_fields : list (field_of (json * bytes) TelemetryEvent) :=
  [plain (string_field "submission_id" (λ v e, mkEvent v (evContestantID e) (evTPS e) (evP99LatencyMS e) (evSuccessRate e) (evTimestamp e)));
   plain (string_field "contestant_id" (λ v e, mkEvent (evSubmissionID e) v (evTPS e) (evP99LatencyMS e) (evSuccessRate e) (evTimestamp e)));
   plain (float_field "tps" (λ v e, mkEvent (evSubmissionID e) (evContestantID e) v (evP99LatencyMS e) (evSuccessRate e) (evTimestamp e)));
   plain (float_field "p99_latency_ms" (λ v e, mkEvent (evSubmissionID e) (evContestantID e) (evTPS e) v (evSuccessRate e) (evTimestamp e)));
   plain (float_field "success_rate" (λ v e, mkEvent (evSubmissionID e) (evContestantID e) (evTPS e) (evP99LatencyMS e) v (evTimestamp e)));
   time_field "timestamp" (λ v e, mkEvent (evSubmissionID e) (evContestantID e) (evTPS e) (evP99LatencyMS e) (evSuccessRate e) v)].
Definition zero_event : TelemetryEvent := mkEvent "" "" fzero fzero fzero zero_time.
Definition DeserializeTelemetryEvent (data : bytes) : option TelemetryEvent :=
  match unmarshal_struct event_fields zero_event data with
  | None => None
  | Some event => Some event
  end.

(** ** The producer *)

Definition TelemetryTopic : string := "run.telemetry".

(** The fields of a [kafka.Writer] that are set; the balancer by its name. *)
Record Writer := mkWriter {
  wAddr : list string; wTopic : string; wBalancer : string; wBatchSize : Z; wBatchTimeout : Z;
  wAsync : bool; wRequiredAcks : string;
}.
Definition NewProducer (brokers : list string) : Writer :=
  mkWriter brokers TelemetryTopic "LeastBytes" 100 (10 * 1000000) true "RequireOne".

Record Message := mkMessage { Key : bytes; Value : bytes }.

Class Kafka (W : Type) := {
  WriteMessages : Writer → Message → GoM W (option string);
  CloseWriter : Writer → GoM W (option string);
  CloseReader : GoM W (option string);
}.

Definition PublishTelemetry `{Location, Kafka W} (p : Writer) (event : TelemetryEvent) : GoM W (option string) :=
  match Serialize event with
  | inl err => mret (Some ("failed to serialize event: " +:+ err))
  | inr payload =>
      let msg := mkMessage (String.list_ascii_of_string (evSubmissionID event)) payload in
      err ← WriteMessages p msg;
      match err with
      | Some err => mret (Some ("failed to write message to Redpanda: " +:+ err))
      | None => mret None
      end
  end.

Definition Producer_Close `{Kafka W} (p : Writer) : GoM W (option string) := CloseWriter p.

(** ** The consumer *)

Record ReaderConfig := mkReader {
  rcBrokers : list string; rcGroupID : string; rcTopic : string; rcMinBytes : Z; rcMaxBytes : Z;
}.
Definition NewConsumer (brokers : list string) (groupID : string) : ReaderConfig :=
  mkReader brokers groupID TelemetryTopic 10000 10000000.

(** What one round of the loop meets: whether the context is done at its
    start; what [ReadMessage] returns; whether the context is done by then;
    the clock when the handler runs. *)
Record round := mkRound {
  rDone : bool; rRead : string + bytes; rDoneAfter : bool; rNow : Z;
}.

Inductive log_line :=
  | LogStopping
  | LogReadError (err : string)
  | LogDeserializeError
  | LogHandlerError (err : string).

Section listening.
Context {W : Type} (handler : Z → TelemetryEvent → GoM W (option string)).

(** The lines that are logged, and whether the loop has returned; it has not
    when the rounds are used up. *)
Fixpoint StartListening (rounds : list round) : GoM W (list log_line * bool) :=
  match rounds with
  | [] => mret ([], false)
  | r :: rounds' =>
      if rDone r then mret ([LogStopping], true)
      else
        match rRead r with
        | inl err =>
            if rDoneAfter r then mret ([], true)
            else
              '(log, returned) ← StartListening rounds';
              mret (LogReadError err :: log, returned)
        | inr value =>
            match DeserializeTelemetryEvent value with
            | None =>
                '(log, returned) ← StartListening rounds';
                mret (LogDeserializeError :: log, returned)
            | Some event =>
                err ← handler (rNow r) event;
                '(log, returned) ← StartListening rounds';
                mret (match err with Some err => LogHandlerError err :: log | None => log end, returned)
            end
        end
  end.
End listening.

Definition Consumer_Close `{Kafka W} : GoM W (option string) :=
  err ← CloseReader;
  match err with
  | Some err => mret (Some ("failed to close Redpanda reader: " +:+ err))
  | None => mret None
  end.

(** ** The leaderboard service *)

Section service.
Context {W : Type} `{Redis W} `{Location}.

(** The callback of the consumer. *)
Definition handle_event (now : Z) (event : TelemetryEvent) : GoM W (option string) :=
  r ← UpdateScore (evSubmissionID event) (evContestantID event) (evTPS event) (evP99LatencyMS event)
        (evSuccessRate event) now;
  match r with
  | inl err => mret (Some err)
  | inr score => mret None
  end.

(** What a response carries; [NoBody] when the encoder could not encode the
    value, which it finds out before it writes. *)
Inductive body :=
  | NoBody
  | BText (s : string)
  | BStatus (s : string)
  | BError (err : string)
  | BEntries (entries : list LeaderboardEntry)
  | BScore (score : float64).
Record response := mkResponse { rStatus : Z; rBody : body }.

(** A time that was parsed is written in the zone it was parsed with. *)
Definition marshal_entry_time (t : Time) : string + json := @marshal_time (λ _, offset t) (instant t).
Definition entry_encodable (e : LeaderboardEntry) : bool :=
  is_finite (TPS e) && is_finite (P99Latency e) && is_finite (SuccessRate e) && is_finite (Score e) &&
  match marshal_entry_time (Timestamp e) with inr _ => true | inl _ => false end.

(** GET /api/v1/leaderboard *)
Definition handle_leaderboard (w : W) : response :=
  match GetLeaderboard 50 w with
  | inl err => mkResponse 500 (BError err)
  | inr entries => mkResponse 200 (if forallb entry_encodable entries then BEntries entries else NoBody)
  end.

(** GET /health *)
Definition handle_health : response := mkResponse 200 (BStatus "healthy").

(** The body of a request for a dummy run, as it was decoded. *)
Record run_request := mkRunRequest {
  rqContestantID : string; rqSubmissionID : string; rqTPS : float64; rqP99Latency : float64;
  rqSuccessRate : float64;
}.

(** POST /api/v1/debug/run *)
Definition handle_debug_run (req : string + run_request) (now : Z) : GoM W response :=
  match req with
  | inl err => mret (mkResponse 400 (BText err))
  | inr req =>
      r ← UpdateScore (rqSubmissionID req) (rqContestantID req) (rqTPS req) (rqP99Latency req)
            (rqSuccessRate req) now;
      match r with
      | inl err => mret (mkResponse 500 (BText err))
      | inr score => mret (mkResponse 200 (if is_finite score then BScore score else NoBody))
      end
  end.
End service.

(** ** What is documented *)

Definition finite_figures (e : TelemetryEvent) : bool :=
  is_finite (evTPS e) && is_finite (evP99LatencyMS e) && is_finite (evSuccessRate e).

(** [partitions w] has the messages of the topic by partition.  A message
    goes to one partition, where the balancer LeastBytes takes one that has
    received the least data, and there it is written once, or more often when
    the writer retries.  Without an error a synchronous writer has written it;
    an asynchronous one returns before that and may yet lose it.  With an error
    nothing is certain: the message may have been written before it.  A delayed
    delivery counts as one at the time of the call. *)
Definition message_bytes (m : Message) : nat := length (Key m) + length (Value m).
Definition received (ms : list Message) : nat := sum_list_with message_bytes ms.

Definition delivered (p : Writer) (copies : nat) (msg : Message) (before after : list (list Message)) : Prop :=
  copies = 0%nat ∧ after = before ∨
  ∃ i ms, before !! i = Some ms ∧ after = <[i := ms ++ replicate copies msg]> before ∧
    (wBalancer p = "LeastBytes" → ∀ ms', ms' ∈ before → (received ms <= received ms')%nat).

Class KafkaLaws (W : Type) `{Kafka W} := {
  partitions : W → list (list Message);
  write_total p msg w : ∃ e w', WriteMessages p msg w = Ok (e, w');
  write_delivers p msg w e w' : WriteMessages p msg w = Ok (e, w') →
    ∃ copies, delivered p copies msg (partitions w) (partitions w') ∧
      (e = None → wAsync p = false → (1 <= copies)%nat);
}.

(** ** What the loop amounts to *)

(** A round in which the loop returns. *)
Definition stops (r : round) : bool :=
  rDone r || match rRead r with inl _ => rDoneAfter r | inr _ => false end.

(** The rounds before that. *)
Fixpoint live (rounds : list round) : list round :=
  match rounds with
  | [] => []
  | r :: rounds' => if stops r then [] else r :: live rounds'
  end.

(** The event of a round, with the time it is handled. *)
Definition round_event (r : round) : option (Z * TelemetryEvent) :=
  match rRead r with
  | inl _ => None
  | inr value => event ← DeserializeTelemetryEvent value; Some (rNow r, event)
  end.
Definition events (rounds : list round) : list (Z * TelemetryEvent) := omap round_event (live rounds).

(** Handling events one after the other, collecting the errors. *)
Fixpoint handle_all {W} (handler : Z → TelemetryEvent → GoM W (option string))
    (evs : list (Z * TelemetryEvent)) : GoM W (list string) :=
  match evs with
  | [] => mret []
  | (now, event) :: evs' =>
      err ← handler now event;
      errs ← handle_all handler evs';
      mret (match err with Some err => err :: errs | None => errs end)
  end.

Definition handler_error (l : log_line) : option string :=
  match l with LogHandlerError err => Some err | _ => None end.

(** The score an event gives its submission. *)
Definition event_score (e : TelemetryEvent) : float64 := score_of (evTPS e) (evP99LatencyMS e) (evSuccessRate e).
Definition apply_event (board : gmap string float64) (e : TelemetryEvent) : gmap string float64 :=
  <[evSubmissionID e := event_score e]> board.
Definition apply_events (board : gmap string float64) (es : list TelemetryEvent) : gmap string float64 :=
  foldl apply_event board es.

(** An event that survives the encoding: of proper figures, ids in UTF-8 and
    a time between 1970 and 2262. *)
Definition proper_event `{Location} (e : TelemetryEvent) : Prop :=
  is_float64 (evTPS e) ∧ is_float64 (evP99LatencyMS e) ∧ is_float64 (evSuccessRate e) ∧
  text_ok (evSubmissionID e) ∧ text_ok (evContestantID e) ∧ 0 <= evTimestamp e < 2 ^ 63 ∧
  proper_offset (zone_offset (evTimestamp e)).
