(* ===== verification/QueueJson.v ===== *)
(** * Telemetry events as JSON

    An event whose figures are finite is written as a JSON object, and what is
    written is read back as it was: the ids with any characters, the figures
    to the last bit, the time to the nanosecond.  Whatever text arrives, the
    event that is read from it has finite figures and ids in UTF-8. *)

From stdpp Require Import prelude strings list.
From Stdlib Require Import ZArith Lia Ascii SpecFloat.
From S2P Require Import Prelude GoBytes GoJson JsonProps Wire Float64 GoTime JsonFloat Queue.

Local Open Scope Z_scope.

(** ** Objects *)

Lemma unmarshal_print {S} (fields : list (field_of (json * bytes) S)) zero m ms :
  json_ok (JObj (m :: ms)) → height (JObj (m :: ms)) <= max_depth →
  unmarshal_struct fields zero (print (JObj (m :: ms))) = store_members fields (with_text <$> m :: ms) zero.
Proof.
  intros Hok Hh. unfold unmarshal_struct. rewrite <- (app_nil_r (print _)) at 1. rewrite parse_text_value by done.
  cbn [mbind option_bind skip]. cbn [print height json_ok] in *. set (l := commas _). change (str "}") with [byte 125].
  assert (Hskip : drop 1 (skip (str "{" ++ l ++ [byte 125])) = l ++ [byte 125]) by done. rewrite Hskip. subst l.
  rewrite raw_members_print; [done|done| |lia]. rewrite !length_app. change (length (str "{")) with 1%nat. cbn [length]. lia.
Qed.

Lemma unmarshal_invariant {S} (I : S → Prop) (fields : list (field_of (json * bytes) S)) zero l s :
  (∀ fd v f s, fd ∈ fields → all_utf8 v.1 → fd.2 v = Some f → I s → I (f s)) →
  I zero → unmarshal_struct fields zero l = Some s → I s.
Proof.
  intros Hf Hz. unfold unmarshal_struct. destruct (parse_text l) as [v|]; [|done]. cbn [mbind option_bind].
  destruct v as [|b|lit|t|vs|[|m ms]]; try done; try by intros [= <-].
  destruct (raw_members (length l) 1 (drop 1 (skip l))) as [[rs r]|] eqn:E; [|done]. cbn [mbind option_bind].
  assert (Hu : Forall (λ m : bytes * (json * bytes), all_utf8 m.2.1) rs).
  { pose proof (raw_members_parse (length l) 1 (drop 1 (skip l))) as Hp. rewrite E in Hp. cbn in Hp.
    apply (proj2 (proj2 (parse_utf8 _))) in Hp. cbn [all_utf8] in Hp. rewrite map_map in Hp. clear -Hp.
    induction rs as [|x rs IH]; [constructor|]. destruct Hp as [[_ Hx] Hp]. constructor; [exact Hx|by apply IH]. }
  clear E. revert zero Hz. induction Hu as [|[k v] rs Hv _ IH]; intros zero Hz; cbn [store_members]; [by intros [= <-]|].
  destruct (find_field fields k) as [set|] eqn:Ek; [|by apply IH]. apply find_field_In in Ek as [name Hin].
  destruct (set v) as [f|] eqn:Es; [|done]. cbn [mbind option_bind]. apply IH. by eapply (Hf (name, set)).
Qed.

(** ** Times *)

(** Characters that are not escaped. *)
Definition is_plain (c : ascii) : bool :=
  (32 <=? code c) && (code c <? 128) && negb ((code c =? 34) || (code c =? 92) || (code c =? 60) || (code c =? 62) || (code c =? 38)).

Lemma plain_escape c : is_plain c = true → code c < 128 ∧ escape_ascii c = [c].
Proof. destruct c as [[] [] [] [] [] [] [] []]; intros H; vm_compute in H; try discriminate H; vm_compute; split; reflexivity. Qed.

Lemma quote_plain l : Forall (λ c, is_plain c = true) l → quote l = byte 34 :: l ++ [byte 34].
Proof.
  intros Hl. unfold quote. f_equal. f_equal. induction Hl as [|c l Hc _ IH]; [done|].
  destruct (plain_escape c Hc) as [H1 H2]. cbn [length quote_loop]. replace (code c <? 128) with true by lia. by rewrite H2, IH.
Qed.

Lemma plain_valid l : Forall (λ c, is_plain c = true) l → valid_utf8 l.
Proof. induction 1 as [|c l Hc _ IH]; [constructor|]. apply valid_ascii; [by apply plain_escape|done]. Qed.

Lemma digit_plain c : is_digit c → is_plain c = true.
Proof. unfold is_digit, is_plain. intros H. rewrite !andb_true_iff, negb_true_iff, !orb_false_iff. lia. Qed.
Lemma digits_plain l : Forall is_digit l → Forall (λ c, is_plain c = true) l.
Proof. intros H. eapply Forall_impl; [exact H|apply digit_plain]. Qed.

Lemma pad2_digits n : Forall is_digit (pad2 n).
Proof. repeat constructor; apply digit_char_digit; Z.to_euclidean_division_equations; lia. Qed.
Lemma fraction_are_digits k n : 0 <= n < 10 ^ Z.of_nat k → Forall is_digit (fraction_digits k n).
Proof.
  revert n. induction k as [|k IH]; intros n Hn; [constructor|]. cbn [fraction_digits].
  rewrite Nat2Z.inj_succ, Z.pow_succ_r in Hn by lia. assert (0 < 10 ^ Z.of_nat k) by (apply Z.pow_pos_nonneg; lia).
  constructor; [|by apply IH, Z.mod_pos_bound]. apply digit_char_digit. split; [apply Z.div_pos; lia|apply Z.div_lt_upper_bound; lia].
Qed.
Lemma trim_zeros_Forall (P : ascii → Prop) l : Forall P l → Forall P (trim_zeros l).
Proof.
  induction 1 as [|c l Hc _ IH]; [constructor|]. cbn [trim_zeros]. destruct (trim_zeros l); [case_decide; by repeat constructor|by constructor].
Qed.

Lemma time_text_plain `{Location} t : 0 <= (local_date t).1.1 < 10000 →
  Forall (λ c, is_plain c = true) (time_text t (nano_text (t mod second))).
Proof.
  intros Hy. unfold time_text. destruct (local_date t) as [[y m] d]. cbn in Hy.
  assert (Hp : ∀ n, Forall (λ c, is_plain c = true) (pad2 n)) by (intros n; apply digits_plain, pad2_digits).
  assert (Hyear : Forall (λ c, is_plain c = true) (pad_year y)).
  { unfold pad_year. replace (y <? 0) with false by lia. replace (y <? 10000) with true by lia. apply Forall_app. by split. }
  assert (Hn : Forall (λ c, is_plain c = true) (nano_text (t mod second))).
  { unfold nano_text. pose proof (digits_plain _ (trim_zeros_Forall _ _ (fraction_are_digits 9 (t mod second) ltac:(by apply Z.mod_pos_bound)))) as Ht.
    destruct (trim_zeros _); [constructor|by constructor]. }
  assert (Hz : Forall (λ c, is_plain c = true) (zone_text (zone_offset t))).
  { unfold zone_text. destruct (zone_offset t =? 0); [by repeat constructor|]. constructor; [by destruct (zone_offset t <? 0)|].
    apply Forall_app. split; [done|]. by constructor. }
  repeat (apply Forall_app; split; [done|]; try (constructor; [done|])). exact Hz.
Qed.

Lemma time_stored {S} `{Location} name (set : Z → S → S) v t :
  0 <= t < 2 ^ 63 → proper_offset (zone_offset t) →
  (time_field name set).2 (v, print (j_string (FormatRFC3339Nano t))) = Some (set t).
Proof.
  intros Ht Hoff. cbn [time_field snd]. unfold j_string. cbn [print]. pose proof (parse_format_nano t Ht Hoff) as Hp.
  unfold FormatRFC3339Nano, str in *. rewrite String.list_ascii_of_string_of_list_ascii in *.
  rewrite quote_plain by (by apply time_text_plain, local_year). set (l := time_text t _) in *.
  rewrite decide_False by done. rewrite code_byte by lia. rewrite last_snoc, bool_decide_true by done. cbn [andb Z.eqb Pos.eqb].
  rewrite length_app, Nat.add_sub, take_app_length. by rewrite Hp.
Qed.

(** ** Events *)

Section events.
Context `{TZ : Location}.

Lemma serialize_infinite e : finite_figures e = false → ∃ err, Serialize e = inl err.
Proof.
  unfold finite_figures, Serialize, marshal_float. destruct (is_finite (evTPS e)); [|by eexists].
  destruct (is_finite (evP99LatencyMS e)); [|by eexists]. destruct (is_finite (evSuccessRate e)); [done|by eexists].
Qed.

(** The object of an event. *)
Definition event_members (e : TelemetryEvent) : list (bytes * json) :=
  [j_key "submission_id" (j_string (evSubmissionID e)); j_key "contestant_id" (j_string (evContestantID e));
   j_key "tps" (JNum (float_text (evTPS e))); j_key "p99_latency_ms" (JNum (float_text (evP99LatencyMS e)));
   j_key "success_rate" (JNum (float_text (evSuccessRate e))); j_key "timestamp" (j_string (FormatRFC3339Nano (evTimestamp e)))].

Lemma serialize_finite e :
  finite_figures e = true → 0 <= evTimestamp e < 2 ^ 63 → proper_offset (zone_offset (evTimestamp e)) →
  Serialize e = inr (print (JObj (event_members e))).
Proof.
  unfold finite_figures, Serialize, marshal_float. intros [[-> ->]%andb_prop ->]%andb_prop Ht Hoff.
  pose proof (local_year _ Ht Hoff). unfold marshal_time.
  replace ((0 <=? (local_date (evTimestamp e)).1.1) && ((local_date (evTimestamp e)).1.1 <? 10000)) with true by lia.
  destruct Hoff as [Hoff _]. replace (24 <=? Z.abs (zone_offset (evTimestamp e)) / 3600) with false; [done|].
  symmetry. apply Z.leb_gt, Z.div_lt_upper_bound; lia.
Qed.

Lemma event_json_ok e :
  proper_event e → finite_figures e = true → json_ok (JObj (event_members e)).
Proof.
  intros (H1 & H2 & H3 & H4 & H5 & H6 & H7). unfold finite_figures. intros [[F1 F2]%andb_prop F3]%andb_prop.
  destruct (float_text_reads _ H1 F1) as [N1 _], (float_text_reads _ H2 F2) as [N2 _], (float_text_reads _ H3 F3) as [N3 _].
  assert (Ht : valid_utf8 (str (FormatRFC3339Nano (evTimestamp e)))).
  { unfold FormatRFC3339Nano, str. rewrite String.list_ascii_of_string_of_list_ascii.
    by apply plain_valid, time_text_plain, local_year. }
  cbn -[float_text FormatRFC3339Nano]. solve_json.
Qed.

(** What is serialized is deserialized. *)
Lemma deserialize_serialize e data :
  proper_event e → Serialize e = inr data → DeserializeTelemetryEvent data = Some e.
Proof.
  intros He E. destruct (finite_figures e) eqn:Hfin; [|destruct (serialize_infinite e Hfin); congruence].
  pose proof (event_json_ok e He Hfin) as Hok. destruct He as (H1 & H2 & H3 & _ & _ & H6 & H7).
  rewrite serialize_finite in E by done. assert (print (JObj (event_members e)) = data) as <- by congruence. unfold finite_figures in Hfin.
  apply andb_prop in Hfin as [[F1 F2]%andb_prop F3]. unfold DeserializeTelemetryEvent.
  unfold event_members in *. rewrite unmarshal_print; [|exact Hok|unfold max_depth; cbn [height map foldr snd j_key j_string]; lia].
  rewrite !fmap_cons. unfold with_text, j_key. cbn [fst snd].
  erewrite store_member; [|reflexivity|apply (string_stored "submission_id")].
  erewrite store_member; [|reflexivity|apply (string_stored "contestant_id")].
  erewrite store_member; [|reflexivity|by apply (float_stored "tps")].
  erewrite store_member; [|reflexivity|by apply (float_stored "p99_latency_ms")].
  erewrite store_member; [|reflexivity|by apply (float_stored "success_rate")].
  erewrite store_member; [|reflexivity|by apply (time_stored "timestamp")]. by destruct e.
Qed.
End events.

(** What arrives. *)
Definition event_wf (e : TelemetryEvent) : Prop :=
  finite_figures e = true ∧ is_float64 (evTPS e) ∧ is_float64 (evP99LatencyMS e) ∧ is_float64 (evSuccessRate e) ∧
  text_ok (evSubmissionID e) ∧ text_ok (evContestantID e).

Lemma deserialize_wf data e : DeserializeTelemetryEvent data = Some e → event_wf e.
Proof.
  unfold DeserializeTelemetryEvent. destruct (unmarshal_struct event_fields zero_event data) as [e'|] eqn:E; [|done]. intros [= ->].
  revert E. apply unmarshal_invariant; [|by repeat split; try constructor].
  intros fd v f s Hin Hv E (H1 & H2 & H3 & H4 & H5 & H6). unfold event_wf, finite_figures in *.
  apply andb_prop in H1 as [[F1 F2]%andb_prop F3]. unfold event_fields in Hin.
  repeat (apply elem_of_cons in Hin as [Hin|Hin]); [..|by apply not_elem_of_nil in Hin]; subst fd.
  - apply (string_field_sets "submission_id") in E as [->|(x & Hx & ->)]; [..|exact Hv]; cbn; by rewrite F1, F2, F3.
  - apply (string_field_sets "contestant_id") in E as [->|(x & Hx & ->)]; [..|exact Hv]; cbn; by rewrite F1, F2, F3.
  - apply (float_field_sets "tps") in E as [->|(x & Hx & Hx' & ->)]; cbn; by rewrite ?Hx, ?F1, ?F2, ?F3.
  - apply (float_field_sets "p99_latency_ms") in E as [->|(x & Hx & Hx' & ->)]; cbn; by rewrite ?Hx, ?F1, ?F2, ?F3.
  - apply (float_field_sets "success_rate") in E as [->|(x & Hx & Hx' & ->)]; cbn; by rewrite ?Hx, ?F1, ?F2, ?F3.
  - cbn [time_field snd] in E. destruct (decide (v.2 = str "null")); [injection E as <-; cbn; by rewrite F1, F2, F3|].
    destruct v.2 as [|q l]; [done|]. destruct ((code q =? 34) && _); [|done]. apply fmap_Some in E as (x & _ & ->). cbn. by rewrite F1, F2, F3.
Qed.
