(* ===== verification/MemQueue.v ===== *)
(** * A queue in memory

    A topic whose partitions are lists, which satisfies the laws of [Queue],
    so that the theorems can be run on it. *)

From stdpp Require Import prelude strings list.
From Stdlib Require Import ZArith Lia.
From S2P Require Import Prelude GoBytes Queue.

Local Open Scope Z_scope.

(** The first partition with the least data. *)
Fixpoint least (ps : list (list Message)) : option (nat * list Message) :=
  match ps with
  | [] => None
  | ms :: ps' =>
      match least ps' with
      | Some (i, ms') => if (received ms' <? received ms)%nat then Some (S i, ms') else Some (0%nat, ms)
      | None => Some (0%nat, ms)
      end
  end.

Lemma least_Some ps i ms :
  least ps = Some (i, ms) → ps !! i = Some ms ∧ ∀ ms', ms' ∈ ps → (received ms <= received ms')%nat.
Proof.
  revert i ms. induction ps as [|ms0 ps IH]; [done|]. intros i ms. cbn [least].
  destruct (least ps) as [[j ms1]|] eqn:E.
  - destruct (IH j ms1 eq_refl) as [H1 H2]. destruct (Nat.ltb_spec (received ms1) (received ms0)) as [Hlt|Hge];
      intros ?; simplify_eq; (split; [done|]); intros ms' [->|Hin]%elem_of_cons; try lia; [by apply H2|].
    specialize (H2 _ Hin). lia.
  - intros ?; simplify_eq. destruct ps as [|ms1 ps]; [set_solver by lia|].
    cbn [least] in E. destruct (least ps) as [[]|]; [by destruct (_ <? _)%nat|done].
Qed.

#[global] Instance mem_kafka : Kafka (list (list Message)) := {
  WriteMessages p msg w :=
    match least w with
    | Some (i, ms) => Ok (None, <[i := ms ++ [msg]]> w)
    | None => Ok (Some "no partitions", w)
    end;
  CloseWriter p w := Ok (None, w);
  CloseReader w := Ok (None, w);
}.

#[global, refine] Instance mem_kafka_laws : KafkaLaws (list (list Message)) := { partitions w := w }.
Proof.
  - intros p msg w. cbn. destruct (least w) as [[]|]; eauto.
  - intros p msg w e w'. cbn. destruct (least w) as [[i ms]|] eqn:E; intros [= <- <-].
    + exists 1%nat. split; [|lia]. right. destruct (least_Some _ _ _ E). exists i, ms. auto.
    + exists 0%nat. split; [by left|done].
Defined.
