(* ===== verification/QueueProps.v ===== *)
(** * What the queue and the leaderboard service guarantee

    Publishing, the consumer's loop, the way of a run from the producer to the
    leaderboard, and the service's handlers; for every Kafka and Redis that
    satisfy the laws.  Small in-memory ones serve as witnesses. *)

From stdpp Require Import prelude gmap strings list fin_maps.
From Stdlib Require Import ZArith Lia SpecFloat.
From S2P Require Import Prelude GoBytes Float64 GoTime FloatRound FloatOrder FloatText GoJson Wire Ranking MemRedis RankingProps Queue QueueJson MemQueue.

Local Open Scope Z_scope.

(** ** Publishing *)

Section publishing.
Context `{TZ : Location} {W : Type} `{KW : Kafka W} `{KL : !KafkaLaws W}.



Lemma published_delivered p e (w w' : W) :
  PublishTelemetry p e w = Ok (None, w') → partitions w' ≠ partitions w →
  ∃ msg n i ms, partitions w !! i = Some ms ∧ partitions w' = <[i := ms ++ replicate n msg]> (partitions w) ∧
    (wBalancer p = "LeastBytes" → ∀ ms', ms' ∈ partitions w → (received ms <= received ms')%nat) ∧ (1 <= n)%nat ∧
    Key msg = String.list_ascii_of_string (evSubmissionID e).
Proof.
  unfold PublishTelemetry. destruct (Serialize e) as [err|data]; [done|].
  set (msg := mkMessage _ data). destruct (write_total p msg w) as ([err|] & w1 & Ew);
    rewrite (bind_Ok _ _ _ _ _ Ew); intros [= <-] Hne.
  destruct (write_delivers _ _ _ _ _ Ew) as (n & [[_ Hd]|(i & ms & Hi & Hd & Hb)] & _); [done|].
  exists msg, n, i, ms. split_and!; try done. destruct n; [|lia]. exfalso. apply Hne. rewrite Hd. cbn.
  rewrite app_nil_r. by apply list_insert_id.
Qed.

(** The partition key does not keep the messages of a run together.  With
    the balancer the producer is configured with, two messages of one
    submission that are delivered to a topic with two or more empty
    partitions end up in different ones, and nothing orders those. *)
Theorem same_run_split brokers e1 e2 (w w1 w2 : W) :
  evSubmissionID e1 = evSubmissionID e2 → evSubmissionID e1 ≠ "" →
  (2 <= length (partitions w))%nat → Forall (λ ms, ms = []) (partitions w) →
  PublishTelemetry (NewProducer brokers) e1 w = Ok (None, w1) → partitions w1 ≠ partitions w →
  PublishTelemetry (NewProducer brokers) e2 w1 = Ok (None, w2) → partitions w2 ≠ partitions w1 →
  ∃ i j m1 m2 n1 n2, i ≠ j ∧ partitions w2 !! i = Some (replicate n1 m1) ∧
    partitions w2 !! j = Some (replicate n2 m2) ∧ (1 <= n1)%nat ∧ (1 <= n2)%nat ∧ Key m1 = Key m2.
Proof.
  intros Hid Hne Hlen Hempty E1 D1 E2 D2.
  destruct (published_delivered _ _ _ _ E1 D1) as (m1 & n1 & i & ms1 & Hi & Hw1 & _ & Hn1 & K1).
  destruct (published_delivered _ _ _ _ E2 D2) as (m2 & n2 & j & ms2 & Hj & Hw2 & Hleast & Hn2 & K2).
  rewrite Forall_lookup in Hempty. pose proof (Hempty _ _ Hi) as ->. specialize (Hleast eq_refl).
  assert (Hpos : (0 < received (replicate n1 m1))%nat).
  { destruct n1 as [|n1]; [lia|]. cbn. unfold message_bytes at 1. rewrite K1. destruct (evSubmissionID e1); [done|cbn; lia]. }
  destruct (decide (i = j)) as [<-|Hij].
  - exfalso. rewrite Hw1, list_lookup_insert_eq in Hj by (by eapply lookup_lt_Some). injection Hj as <-.
    destruct (lookup_lt_is_Some_2 (partitions w) (if decide (i = 0)%nat then 1 else 0)) as [ms Hms];
      [case_decide; lia|].
    pose proof (Hempty _ _ Hms) as ->. enough ([] ∈ partitions w1) as Hin; [specialize (Hleast [] Hin); cbn in Hleast, Hpos; lia|].
    rewrite Hw1. apply list_elem_of_lookup. eexists. rewrite list_lookup_insert_ne; [exact Hms|]. case_decide; lia.
  - exists i, j, m1, m2, n1, n2. rewrite Hw1, list_lookup_insert_ne in Hj by done. pose proof (Hempty _ _ Hj) as ->.
    rewrite Hw2. split_and!; [done|..|done|done|].
    + rewrite list_lookup_insert_ne, Hw1, list_lookup_insert_eq by (done || by eapply lookup_lt_Some). done.
    + rewrite list_lookup_insert_eq; [done|]. rewrite Hw1, length_insert. by eapply lookup_lt_Some.
    + by rewrite K1, K2, Hid.
Qed.
End publishing.

(** ** The consumer's loop *)

Section listening.
Context {W : Type} (handler : Z → TelemetryEvent → GoM W (option string)).

Lemma StartListening_handles rounds (w : W) :
  match handle_all handler (events rounds) w with
  | Ok (errs, w') => ∃ log, StartListening handler rounds w = Ok ((log, existsb stops rounds), w') ∧
                       omap handler_error log = errs
  | Panic => StartListening handler rounds w = Panic
  | NoFuel => StartListening handler rounds w = NoFuel
  end.
Proof.
  revert w. induction rounds as [|r rounds IH]; intros w; [by eexists|].
  destruct r as [[] read after now].
  { cbn. eexists. split; [reflexivity|done]. }
  destruct read as [err|value].
  - unfold events. cbn [live stops rDone rRead rDoneAfter orb existsb]. destruct after; [cbn; by eexists|].
    cbn [orb omap list_omap round_event rRead]. specialize (IH w). unfold events in IH.
    cbn [StartListening rDone rRead rDoneAfter]. destruct (handle_all _ _ _) as [[errs w']| |].
    + destruct IH as (log & E & Hlog). rewrite (bind_Ok _ _ _ _ _ E). by eexists.
    + unfold mbind, GoM_bind. by rewrite IH.
    + unfold mbind, GoM_bind. by rewrite IH.
  - unfold events. cbn [live stops rDone rRead orb existsb omap list_omap round_event].
    cbn [StartListening rDone rRead]. destruct (DeserializeTelemetryEvent value) as [event|]; cbn [mbind option_bind]; cycle 1.
    + specialize (IH w). unfold events in IH. destruct (handle_all _ _ _) as [[errs w']| |].
      * destruct IH as (log & E & Hlog). rewrite (bind_Ok _ _ _ _ _ E). by eexists.
      * unfold mbind, GoM_bind. by rewrite IH.
      * unfold mbind, GoM_bind. by rewrite IH.
    + cbn [handle_all rNow]. destruct (handler now event w) as [[err w1]| |] eqn:Eh;
        [|unfold mbind, GoM_bind; by rewrite Eh..].
      rewrite !(bind_Ok _ _ _ _ _ Eh). specialize (IH w1). unfold events in IH.
      destruct (handle_all _ _ w1) as [[errs w']| |] eqn:Ea.
      * rewrite (bind_Ok _ _ _ _ _ Ea). destruct IH as (log & E & Hlog). rewrite (bind_Ok _ _ _ _ _ E).
        eexists. split; [done|]. destruct err; cbn; by rewrite <- Hlog.
      * unfold mbind, GoM_bind. by rewrite Ea, IH.
      * unfold mbind, GoM_bind. by rewrite Ea, IH.
Qed.

(** The loop amounts to handling the events that are decoded before the
    context is cancelled, each once and in the order they were read.  Errors
    of the reader, messages that do not decode and errors of the handler are
    logged and do not end it; it returns exactly when a round sees the
    cancellation; and the handler's errors are in the log, in order. *)
Theorem listening_exact rounds (w : W) :
  match handle_all handler (events rounds) w with
  | Ok (errs, w') => ∃ log, StartListening handler rounds w = Ok ((log, existsb stops rounds), w') ∧
                       omap handler_error log = errs
  | Panic => StartListening handler rounds w = Panic
  | NoFuel => StartListening handler rounds w = NoFuel
  end.
Proof. apply StartListening_handles. Qed.
End listening.

(** ** From the queue to the leaderboard *)

Section pipeline.
Context {W : Type} `{RW : Redis W} `{TZ : Location} `{RL : !RedisLaws W}.

Lemma handle_event_board now e (w : W) :
  ∃ err w', handle_event now e w = Ok (err, w') ∧
    (err ≠ None ∧ zset GlobalLeaderboardKey w' = zset GlobalLeaderboardKey w
     ∨ zset GlobalLeaderboardKey w' = apply_event (zset GlobalLeaderboardKey w) e).
Proof.
  unfold handle_event.
  destruct (UpdateScore_course (evSubmissionID e) (evContestantID e) (evTPS e) (evP99LatencyMS e)
    (evSuccessRate e) now w) as (r & w' & E & _ & _ & Hr).
  rewrite (bind_Ok _ _ _ _ _ E). destruct r as [err|score].
  - exists (Some err), w'. split; [done|]. unfold apply_event, event_score. naive_solver.
  - exists None, w'. split; [done|]. right. by destruct Hr as (_ & _ & ? & _).
Qed.

Lemma handle_all_board evs (w : W) :
  ∃ errs w' applied, handle_all handle_event evs w = Ok (errs, w') ∧ applied `sublist_of` evs.*2 ∧
    zset GlobalLeaderboardKey w' = apply_events (zset GlobalLeaderboardKey w) applied ∧
    (errs = [] → applied = evs.*2).
Proof.
  revert w. induction evs as [|[now e] evs IH]; intros w; [by exists [], w, []|]. cbn [handle_all].
  destruct (handle_event_board now e w) as (err & w1 & E & Hz). rewrite (bind_Ok _ _ _ _ _ E).
  destruct (IH w1) as (errs & w' & applied & E' & Hsub & Hz' & Hall). rewrite (bind_Ok _ _ _ _ _ E').
  destruct Hz as [[Herr Hz]|Hz].
  - do 2 eexists. exists applied. split; [done|]. rewrite fmap_cons.
    split_and!; [by apply sublist_cons|by rewrite Hz', Hz|by destruct err].
  - do 2 eexists. exists (e :: applied). split; [done|]. rewrite fmap_cons.
    split_and!; [by apply sublist_skip|by rewrite Hz', Hz|]. destruct err; [done|]. by intros ->%Hall.
Qed.

Lemma live_all rounds : existsb stops rounds = false → live rounds = rounds.
Proof.
  induction rounds as [|r rounds IH]; [done|]. cbn. intros [-> ?]%orb_false_elim. by rewrite IH.
Qed.

(** The payloads that are read. *)
Definition read_values (rounds : list round) : list bytes :=
  omap (λ r, match rRead r with inl _ => None | inr v => Some v end) rounds.

(** The payload of an event, from a producer in some time zone. *)
Definition message_of (e : TelemetryEvent) (v : bytes) : Prop :=
  ∃ zone : Location, proper_event e ∧ Serialize e = inr v.

Lemma events_published rounds es :
  existsb stops rounds = false → Forall2 message_of es (read_values rounds) →
  (events rounds).*2 = es.
Proof.
  intros Hl. unfold events. rewrite live_all by done. clear Hl. revert es.
  induction rounds as [|[d read a now] rounds IH]; intros es Hes.
  - by apply Forall2_nil_inv_r in Hes as ->.
  - destruct read as [err|v]; [by apply IH|].
    apply Forall2_cons_inv_r in Hes as (e & es' & (zone & He & E) & Hes' & ->).
    cbn [omap list_omap]. unfold round_event at 1. cbn [rRead].
    rewrite (deserialize_serialize e v He E). cbn. f_equal. by apply IH.
Qed.

(** C16: The way of the runs from the producers to the leaderboard.  When the
    messages of the runs [es], each from a producer in its own time zone, are
    read in that order, with errors of the reader in between and no
    cancellation, the loop goes on, and the board holds for every submission
    the score of the last of its runs that was applied, the runs applied being
    some of [es] in their order; unless the log has an error of the handler,
    they are all of them. *)
Theorem telemetry_pipeline rounds es (w : W) :
  existsb stops rounds = false → Forall2 message_of es (read_values rounds) →
  ∃ log w' applied, StartListening handle_event rounds w = Ok ((log, false), w') ∧
    applied `sublist_of` es ∧
    zset GlobalLeaderboardKey w' = apply_events (zset GlobalLeaderboardKey w) applied ∧
    (omap handler_error log = [] → applied = es).
Proof.
  intros Hl Hes. pose proof (events_published _ _ Hl Hes) as <-.
  destruct (handle_all_board (events rounds) w) as (errs & w' & applied & E & Hsub & Hz & Hall).
  pose proof (StartListening_handles handle_event rounds w) as H. rewrite E, Hl in H.
  destruct H as (log & El & Hlog). exists log, w', applied. split_and!; [done..|]. by rewrite Hlog.
Qed.

(** ** The service's handlers *)

(** C39: A score that overflows blanks the leaderboard.  When the update of
    such a run is accepted, the reply to the request is empty, for JSON has no
    infinite numbers; and from then on, whatever other submissions are updated,
    with whatever outcome, and whatever metadata expire, every leaderboard that
    shows the entry is an empty response with status 200. *)
Theorem infinite_score_blanks req now (w : W) :
  is_float64 (rqTPS req) → is_float64 (rqP99Latency req) → is_float64 (rqSuccessRate req) →
  is_finite (score_of (rqTPS req) (rqP99Latency req) (rqSuccessRate req)) = false →
  ∀ r w1, handle_debug_run (inr req) now w = Ok (r, w1) → rStatus r = 200 →
  rBody r = NoBody ∧
  ∀ w' l, rtc (others_step (rqSubmissionID req)) w1 w' →
    GetLeaderboard 50 w' = inr l → rqSubmissionID req ∈ (SubmissionID <$> l) →
    handle_leaderboard w' = mkResponse 200 NoBody.
Proof.
  intros Ht Hp Hs. set (score := score_of _ _ _). intros Hfin r w1 E Hok. unfold handle_debug_run in E.
  destruct (UpdateScore_course (rqSubmissionID req) (rqContestantID req) (rqTPS req) (rqP99Latency req)
    (rqSuccessRate req) now w) as (u & w2 & E1 & _ & _ & Hu).
  rewrite (bind_Ok _ _ _ _ _ E1) in E. destruct u as [err|sc]; injection E as <- <-; [done|].
  destruct Hu as (-> & _ & Hz & Hh & _). fold score in Hz, Hh |- *. split; [cbn; fold score; by rewrite Hfin|].
  intros w' l Hothers EG Hin.
  destruct (others_keep (rqSubmissionID req) score w2 w' Hothers) as [Hz' Hh'].
  { rewrite Hz, Hh, lookup_insert_eq. split; [done|]. right. apply lookup_union_Some_l, metadata_score. }
  unfold handle_leaderboard. rewrite EG. f_equal.
  enough (forallb entry_encodable l = false) as -> by done.
  apply not_true_is_false. intros Hall. rewrite forallb_forall in Hall. apply list_elem_of_fmap in Hin as (e & He & Hel).
  assert (Henc : entry_encodable e = true) by (by apply Hall, list_elem_of_In).
  destruct (GetLeaderboard_front 50 _ _ ltac:(lia) EG) as (sorted & Hp' & _ & ->).
  destruct (sorted_keys _ _ Hp') as (_ & _ & Hsorted).
  apply list_elem_of_fmap in Hel as ([id s] & -> & Hq). cbn [fst snd] in *. rewrite entry_of_id in He. subst id.
  assert (Hid : (rqSubmissionID req, s) ∈ sorted) by (rewrite <- (take_drop (Z.to_nat 50) sorted); set_solver).
  apply Hsorted in Hid. rewrite Hz' in Hid. injection Hid as <-.
  pose proof (entry_not_finite w' _ score (score_float64 _ _ _ Ht Hp Hs) Hfin Hh') as Hscore.
  unfold entry_encodable in Henc. by rewrite Hscore, andb_false_r in Henc.
Qed.
End pipeline.

(** ** The theorems at work *)

Definition event1 : TelemetryEvent := mkEvent "s1" "alice" (of_Z 5000) (of_Z 2) (of_Z 100) 1700000000000000000.
Definition event2 : TelemetryEvent := mkEvent "s1" "alice" (of_Z 5500) (of_Z 2) (of_Z 100) 1700000001000000000.
Definition payload_of (e : TelemetryEvent) : bytes := match Serialize e with inr data => data | inl _ => [] end.
Definition rounds2 : list round :=
  [mkRound false (inr (payload_of event1)) false 1; mkRound false (inl "timeout") false 2;
   mkRound false (inr (payload_of event2)) false 3].

Lemma proper_event1 : proper_event event1.
Proof.
  split_and!; [vm_compute; reflexivity..|by apply ascii_valid|by apply ascii_valid|cbn; lia|cbn; lia|apply utc_proper].
Defined.
Lemma proper_event2 : proper_event event2.
Proof.
  split_and!; [vm_compute; reflexivity..|by apply ascii_valid|by apply ascii_valid|cbn; lia|cbn; lia|apply utc_proper].
Defined.


Definition publish (e : TelemetryEvent) (w : list (list Message)) : list (list Message) :=
  match PublishTelemetry (NewProducer ["b"]) e w with Ok (_, w') => w' | _ => w end.
Definition topic1 : list (list Message) := publish event1 [[]; []].
Definition topic2 : list (list Message) := publish event2 topic1.

Lemma same_run_split_witness :
  ∃ i j m1 m2 n1 n2, i ≠ j ∧ partitions topic2 !! i = Some (replicate n1 m1) ∧
    partitions topic2 !! j = Some (replicate n2 m2) ∧ (1 <= n1)%nat ∧ (1 <= n2)%nat ∧ Key m1 = Key m2.
Proof.
  apply (same_run_split ["b"] event1 event2 [[]; []] topic1 topic2);
    [done|done|cbn; lia|by repeat constructor|vm_compute; reflexivity|by vm_compute|vm_compute; reflexivity
    |by vm_compute].
Defined.

Lemma telemetry_pipeline_witness :
  ∃ log w' applied, StartListening handle_event rounds2 mem0 = Ok ((log, false), w') ∧
    applied `sublist_of` [event1; event2] ∧
    mem_zset GlobalLeaderboardKey w' = apply_events ∅ applied.
Proof.
  destruct (telemetry_pipeline rounds2 [event1; event2] mem0) as (log & w' & applied & E & Hs & Hz & _).
  - reflexivity.
  - constructor; [exists utc; split; [exact proper_event1|vm_compute; reflexivity]|].
    constructor; [exists utc; split; [exact proper_event2|vm_compute; reflexivity]|constructor].
  - exists log, w', applied. split; [exact E|]. split; [exact Hs|]. 
    assert (H0 : zset GlobalLeaderboardKey mem0 = ∅) by (vm_compute; reflexivity). rewrite H0 in Hz. exact Hz.
Defined.

(** A dummy run whose score overflows. *)
Definition huge : float64 := fdiv (of_Z 1) (of_ratio false 1 (2 ^ 1000)).
Definition infinite_run : run_request := mkRunRequest "eve" "s9" huge (of_ratio false 1 (2 ^ 1000)) (of_Z 100).
Definition mem9 : mem :=
  match handle_debug_run (inr infinite_run) 0 mem0 with Ok (_, w') => w' | _ => mem0 end.

(** Another run comes after it. *)
Definition mem10 : mem := after run2 mem9.

Lemma infinite_score_blanks_witness : handle_leaderboard mem10 = mkResponse 200 NoBody.
Proof.
  assert (E : handle_debug_run (inr infinite_run) 0 mem0 = Ok (mkResponse 200 NoBody, mem9))
    by (vm_compute; reflexivity).
  assert (E2 : run2 mem9 = Ok (inr (score_of (of_Z 6000) (of_Z 2) (of_Z 99)), mem10)) by (vm_compute; reflexivity).
  refine (proj2 (infinite_score_blanks infinite_run 0 mem0 _ _ _ _ _ mem9 E _) mem10
    (match GetLeaderboard 50 mem10 with inr l => l | inl _ => [] end) _ _ _); [vm_compute; reflexivity..| | |].
  - apply rtc_once. eapply others_update, E2. done.
  - vm_compute. reflexivity.
  - apply (bool_decide_unpack _). vm_compute. exact I.
Defined.
