(* ===== verification/Runs.v ===== *)
(** * The body of a debug run

    How POST /api/v1/debug/run of cmd/leaderboard-service decodes its body,
    in front of [handle_debug_run] of [Queue]. *)

From stdpp Require Import prelude list strings.
From Stdlib Require Import ZArith Lia Ascii SpecFloat.
From S2P Require Import Prelude GoBytes GoJson JsonProps Wire Float64 JsonFloat Queue.

Local Open Scope Z_scope.

Definition run_fields : list (field run_request) :=
  [string_field "contestant_id" (λ v r, mkRunRequest v (rqSubmissionID r) (rqTPS r) (rqP99Latency r) (rqSuccessRate r));
   string_field "submission_id" (λ v r, mkRunRequest (rqContestantID r) v (rqTPS r) (rqP99Latency r) (rqSuccessRate r));
   float_field "tps" (λ v r, mkRunRequest (rqContestantID r) (rqSubmissionID r) v (rqP99Latency r) (rqSuccessRate r));
   float_field "p99_latency_ms" (λ v r, mkRunRequest (rqContestantID r) (rqSubmissionID r) (rqTPS r) v (rqSuccessRate r));
   float_field "success_rate" (λ v r, mkRunRequest (rqContestantID r) (rqSubmissionID r) (rqTPS r) (rqP99Latency r) v)].
Definition zero_run : run_request := mkRunRequest "" "" fzero fzero fzero.
Definition decode_run (body : bytes) : option run_request :=
  v ← read_value body; decode_struct run_fields zero_run v.

(** Finite figures and ids in UTF-8. *)
Record run_wf (r : run_request) : Prop := {
  rw_finite : is_finite (rqTPS r) = true ∧ is_finite (rqP99Latency r) = true ∧ is_finite (rqSuccessRate r) = true;
  rw_float64 : is_float64 (rqTPS r) ∧ is_float64 (rqP99Latency r) ∧ is_float64 (rqSuccessRate r);
  rw_text : text_ok (rqContestantID r) ∧ text_ok (rqSubmissionID r);
}.

(** Whatever the body is, the figures of a decoded run are finite and its ids
    are UTF-8; a field that is missing or null is zero or empty. *)
Lemma decoded_run_wf body r : decode_run body = Some r → run_wf r.
Proof.
  unfold decode_run. destruct (read_value body) as [v|] eqn:Ev; [|done]. cbn [mbind option_bind].
  apply decode_invariant; [|by repeat split; try constructor|by eapply read_utf8].
  intros fd w f s Hin Hw E [(H1 & H2 & H3) (H4 & H5 & H6) (H7 & H8)]. unfold run_fields in Hin.
  repeat (apply elem_of_cons in Hin as [Hin|Hin]); [..|by apply not_elem_of_nil in Hin]; subst fd.
  - apply string_field_sets in E as [->|(x & Hx & ->)]; [..|done]; by split; cbn.
  - apply string_field_sets in E as [->|(x & Hx & ->)]; [..|done]; by split; cbn.
  - apply float_field_sets in E as [->|(x & Hx & Hx' & ->)]; by split; cbn.
  - apply float_field_sets in E as [->|(x & Hx & Hx' & ->)]; by split; cbn.
  - apply float_field_sets in E as [->|(x & Hx & Hx' & ->)]; by split; cbn.
Qed.

(** A run as a client writes it. *)
Definition j_run (r : run_request) : json :=
  JObj [j_key "contestant_id" (j_string (rqContestantID r)); j_key "submission_id" (j_string (rqSubmissionID r));
        j_key "tps" (JNum (float_text (rqTPS r))); j_key "p99_latency_ms" (JNum (float_text (rqP99Latency r)));
        j_key "success_rate" (JNum (float_text (rqSuccessRate r)))].

Lemma run_decoded r : run_wf r → decode_run (print (j_run r)) = Some r.
Proof.
  intros [(F1 & F2 & F3) (H1 & H2 & H3) (T1 & T2)]. unfold decode_run. rewrite <- (app_nil_r (print _)).
  destruct (float_text_reads _ H1 F1) as [N1 _], (float_text_reads _ H2 F2) as [N2 _], (float_text_reads _ H3 F3) as [N3 _].
  rewrite read_print; [|cbn -[float_text]; solve_json|unfold max_depth; cbn [j_run height map foldr snd j_key j_string]; lia|done].
  cbn [mbind option_bind]. unfold decode_struct, j_run, j_key.
  erewrite store_member; [|reflexivity|apply (string_stored "contestant_id")].
  erewrite store_member; [|reflexivity|apply (string_stored "submission_id")].
  erewrite store_member; [|reflexivity|by apply (float_stored "tps")].
  erewrite store_member; [|reflexivity|by apply (float_stored "p99_latency_ms")].
  erewrite store_member; [|reflexivity|by apply (float_stored "success_rate")]. by destruct r.
Qed.

(** A body of the README's kind. *)
Example decode_run_example :
  decode_run (print (JObj [j_key "contestant_id" (j_string "ann"); j_key "Submission_ID" (j_string "s1"); j_key "tps" (JNum (str "1500.5"));
    j_key "p99_latency_ms" (j_int 2); j_key "success_rate" JNull; j_key "note" (JArr [])])) =
  Some (mkRunRequest "ann" "s1" (of_ratio false 3001 2) (of_Z 2) fzero).
Proof. vm_compute. reflexivity. Qed.
