(* ===== verification/LbApi.v ===== *)
(** * The leaderboard service, from bytes to bytes

    cmd/leaderboard-service as its clients see it: requests are routed,
    decoded, handled and answered in bytes, and messages of the queue are
    handled in between.  What a client posts is what the board shows, and
    whatever is sent to the service, its answers can be read.

    The text of a decoding error and the files of the dashboard are parameters
    ([decode_error], [static]); nothing depends on them.  Requests and messages
    come one after the other here. *)

From stdpp Require Import prelude gmap strings list fin_maps.
From Stdlib Require Import ZArith Lia Ascii SpecFloat.
From S2P Require Import Prelude GoBytes GoJson JsonProps Http Routes Wire Float64 GoTime FloatText JsonFloat Ranking MemRedis RankingProps Queue QueueJson QueueProps Runs.

Local Open Scope Z_scope.

(** ** Texts *)

(** An entry that can be encoded. *)
Definition j_entry (e : LeaderboardEntry) : json :=
  JObj [j_key "submission_id" (j_string (SubmissionID e)); j_key "contestant_id" (j_string (ContestantID e));
        j_key "tps" (JNum (float_text (TPS e))); j_key "p99_latency_ms" (JNum (float_text (P99Latency e)));
        j_key "success_rate" (JNum (float_text (SuccessRate e))); j_key "score" (JNum (float_text (Score e)));
        j_key "timestamp" (j_string (@FormatRFC3339Nano (λ _, offset (Timestamp e)) (instant (Timestamp e))))].

(** The keys of maps are sorted; [http.Error] ends its text with a newline. *)
Definition body_text (b : body) : bytes :=
  match b with
  | NoBody => []
  | BText s => str s ++ [byte 10]
  | BStatus s => Encode (JObj [j_key "status" (j_string s)])
  | BError err => Encode (JObj [j_key "error" (j_string err)])
  | BEntries es => Encode (JArr (j_entry <$> es))
  | BScore f => Encode (JObj [j_key "score" (JNum (float_text f)); j_key "status" (j_string "success")])
  end.
Definition reply (r : response) : http_response := Replied (rStatus r) (body_text (rBody r)).

(** ** The service *)

Section service.
Context (decode_error : bytes → string) (static : http_request → http_response).
Context {W : Type} `{RW : Redis W} `{TZ : Location}.

Definition leaderboard_route : GoM W http_response := λ w, Ok (reply (handle_leaderboard w), w).
Definition debug_run_route (now : Z) (body : bytes) : GoM W http_response :=
  r ← handle_debug_run (match decode_run body with None => inl (decode_error body) | Some r => inr r end) now;
  mret (reply r).

Definition serve_leaderboard (now : Z) (req : http_request) : GoM W http_response :=
  r ← match dispatch leaderboard_mux (hMethod req) (hTarget req) with
      | Serve LeaderboardH => leaderboard_route
      | Serve LiveH => mret Upgraded
      | Serve HealthH => mret (reply handle_health)
      | Serve DebugRunH => debug_run_route now (hBody req)
      | Serve StaticH => mret (static req)
      | Redirect path => mret (Moved path)
      | MethodNotAllowed => mret (http_error "Method Not Allowed" 405)
      | NotFound => mret (http_error "404 page not found" 404)
      end;
  mret (written (hMethod req) r).

(** Requests, and stretches of the consumer's loop. *)
Inductive lb_op := LbRequest (now : Z) (req : http_request) | LbMessages (rounds : list round).
Fixpoint serve_lb_ops (ops : list lb_op) : GoM W (list http_response) :=
  match ops with
  | [] => mret []
  | LbRequest now req :: ops' => r ← serve_leaderboard now req; rs ← serve_lb_ops ops'; mret (r :: rs)
  | LbMessages rounds :: ops' => StartListening handle_event rounds;; serve_lb_ops ops'
  end.

(** ** The invariant *)

Context `{RL : !RedisLaws W}.

(** Scores that are numbers, and ids and contestants in UTF-8. *)
Record lb_sound (w : W) : Prop := {
  ls_scores id s : zset GlobalLeaderboardKey w !! id = Some s → text_ok id ∧ is_float64 s ∧ is_nan s = false;
  ls_names id c : hash (metaKey id) w !! "contestant_id" = Some c → text_ok c;
}.

Lemma update_sound sid cid tps p99 sr now (w : W) :
  text_ok sid → text_ok cid → is_float64 tps → is_float64 p99 → is_float64 sr → lb_sound w →
  ∃ r w', UpdateScore sid cid tps p99 sr now w = Ok (r, w') ∧ lb_sound w'.
Proof.
  intros Hsid Hcid H1 H2 H3 [Hb Hn].
  destruct (UpdateScore_course sid cid tps p99 sr now w) as (r & w' & E & _ & HH & Hr).
  exists r, w'. split; [done|]. set (score := score_of tps p99 sr) in *. set (meta := metadata _ _ _ _ _ _ _) in *.
  assert (Hset : zset GlobalLeaderboardKey w' = zset GlobalLeaderboardKey w ∨
    is_nan score = false ∧ zset GlobalLeaderboardKey w' = <[sid := score]> (zset GlobalLeaderboardKey w)).
  { destruct r as [err|s]; [|naive_solver]. destruct Hr as (_ & Hnan & Hr). destruct (is_nan score); naive_solver. }
  assert (Hmeta : hash (metaKey sid) w' = hash (metaKey sid) w ∨ hash (metaKey sid) w' = meta ∪ hash (metaKey sid) w)
    by (destruct r; naive_solver).
  split.
  - intros id s. destruct Hset as [-> |[Hnum ->]]; [apply Hb|]. destruct (decide (id = sid)) as [->|Hne].
    + rewrite lookup_insert_eq. intros [= <-]. split_and!; [done|by apply score_float64|done].
    + rewrite lookup_insert_ne by done. apply Hb.
  - intros id c. destruct (decide (id = sid)) as [->|Hne].
    + destruct Hmeta as [-> | ->]; [apply Hn|]. intros [Hc|[_ Hc]]%lookup_union_Some_raw; [|by eapply Hn].
      assert (Hm : meta !! "contestant_id" = Some cid) by reflexivity. congruence.
    + rewrite HH by (by intros ?%metaKey_inj). apply Hn.
Qed.

Lemma handle_event_sound now e (w : W) :
  event_wf e → lb_sound w → ∃ err w', handle_event now e w = Ok (err, w') ∧ lb_sound w'.
Proof.
  intros (_ & H1 & H2 & H3 & Hid & Hc) Hw. unfold handle_event.
  destruct (update_sound (evSubmissionID e) (evContestantID e) (evTPS e) (evP99LatencyMS e) (evSuccessRate e) now w)
    as (r & w' & E & Hw'); [done..|]. rewrite (bind_Ok _ _ _ _ _ E). destruct r; by eexists _, w'.
Qed.

Lemma handle_all_sound evs (w : W) :
  Forall (λ p, event_wf p.2) evs → lb_sound w →
  ∃ errs w', handle_all handle_event evs w = Ok (errs, w') ∧ lb_sound w'.
Proof.
  intros Hevs. revert w. induction Hevs as [|[now e] evs He _ IH]; intros w Hb; [by exists [], w|]. cbn [handle_all].
  destruct (handle_event_sound now e w He Hb) as (err & w1 & E & Hb1). rewrite (bind_Ok _ _ _ _ _ E).
  destruct (IH w1 Hb1) as (errs & w' & E' & Hb'). rewrite (bind_Ok _ _ _ _ _ E'). eexists _, w'. by split.
Qed.

Lemma events_wf rounds : Forall (λ p, event_wf p.2) (events rounds).
Proof.
  unfold events. induction (live rounds) as [|r rs IH]; [constructor|]. cbn [omap list_omap].
  destruct (round_event r) as [p|] eqn:E; [|done]. constructor; [|done]. unfold round_event in E.
  destruct (rRead r) as [err|v]; [done|]. apply bind_Some in E as (e & He & [= <-]). by eapply deserialize_wf.
Qed.

Lemma messages_sound rounds (w : W) :
  lb_sound w → ∃ r w', StartListening handle_event rounds w = Ok (r, w') ∧ lb_sound w'.
Proof.
  intros Hb. destruct (handle_all_sound (events rounds) w (events_wf rounds) Hb) as (errs & w' & E & Hb').
  pose proof (StartListening_handles handle_event rounds w) as H. rewrite E in H. destruct H as (log & El & _).
  by eexists _, w'.
Qed.

Lemma debug_run_sound now body (w : W) :
  lb_sound w → ∃ r w', debug_run_route now body w = Ok (r, w') ∧ lb_sound w'.
Proof.
  intros Hw. unfold debug_run_route. destruct (decode_run body) as [r|] eqn:E; [|by eexists _, w].
  apply decoded_run_wf in E as [_ (H1 & H2 & H3) (T1 & T2)]. unfold handle_debug_run.
  destruct (update_sound (rqSubmissionID r) (rqContestantID r) (rqTPS r) (rqP99Latency r) (rqSuccessRate r) now w)
    as (u & w' & E & Hw'); [done..|]. exists (reply (match u with inl err => mkResponse 500 (BText err)
      | inr score => mkResponse 200 (if is_finite score then BScore score else NoBody) end)), w'. split; [|done].
  unfold mbind, GoM_bind. rewrite E. by destruct u.
Qed.

Lemma serve_sound now req (w : W) :
  lb_sound w → ∃ r w', serve_leaderboard now req w = Ok (r, w') ∧ lb_sound w'.
Proof.
  intros Hw. unfold serve_leaderboard. destruct (dispatch _ _ _) as [[]|path| |]; try (by eexists _, w).
  destruct (debug_run_sound now (hBody req) w Hw) as (r & w' & E & Hw'). rewrite (bind_Ok _ _ _ _ _ E). by eexists _, w'.
Qed.

Lemma serve_lb_ops_sound ops (w : W) : lb_sound w → ∃ rs w', serve_lb_ops ops w = Ok (rs, w') ∧ lb_sound w'.
Proof.
  revert w. induction ops as [|op ops IH]; intros w Hw; [by exists [], w|]. destruct op as [now req|rounds]; cbn [serve_lb_ops].
  - destruct (serve_sound now req w Hw) as (r & w1 & E & H1). destruct (IH w1 H1) as (rs & w' & E' & H').
    rewrite (bind_Ok _ _ _ _ _ E), (bind_Ok _ _ _ _ _ E'). by eexists _, w'.
  - destruct (messages_sound rounds w Hw) as (r & w1 & E & H1). destruct (IH w1 H1) as (rs & w' & E' & H').
    rewrite (bind_Ok _ _ _ _ _ E). eauto.
Qed.
End service.

(** ** What a client reads *)

(** The list of entries, as a client that knows the struct decodes it. *)
Definition client_time_field {S} (name : string) (set : Time → S → S) : field S :=
  (str name, λ v, match v with JStr s => set <$> ParseTime (String.string_of_list_ascii s) | _ => None end).
Definition entry_fields : list (field LeaderboardEntry) :=
  [string_field "submission_id" (λ v e, mkEntry v (ContestantID e) (TPS e) (P99Latency e) (SuccessRate e) (Score e) (Timestamp e));
   string_field "contestant_id" (λ v e, mkEntry (SubmissionID e) v (TPS e) (P99Latency e) (SuccessRate e) (Score e) (Timestamp e));
   float_field "tps" (λ v e, mkEntry (SubmissionID e) (ContestantID e) v (P99Latency e) (SuccessRate e) (Score e) (Timestamp e));
   float_field "p99_latency_ms" (λ v e, mkEntry (SubmissionID e) (ContestantID e) (TPS e) v (SuccessRate e) (Score e) (Timestamp e));
   float_field "success_rate" (λ v e, mkEntry (SubmissionID e) (ContestantID e) (TPS e) (P99Latency e) v (Score e) (Timestamp e));
   float_field "score" (λ v e, mkEntry (SubmissionID e) (ContestantID e) (TPS e) (P99Latency e) (SuccessRate e) v (Timestamp e));
   client_time_field "timestamp" (λ v e, mkEntry (SubmissionID e) (ContestantID e) (TPS e) (P99Latency e) (SuccessRate e) (Score e) v)].
Definition zero_entry : LeaderboardEntry := mkEntry "" "" fzero fzero fzero fzero (mkTime zero_time 0).
Definition read_board (text : bytes) : option (list LeaderboardEntry) :=
  v ← read_value text;
  match v with JArr vs => mapM (decode_struct entry_fields zero_entry) vs | _ => None end.

(** Entries of float64 figures, texts in UTF-8 and times of whole minutes. *)
Record entry_wf (e : LeaderboardEntry) : Prop := {
  ew_text : text_ok (SubmissionID e) ∧ text_ok (ContestantID e);
  ew_float64 : is_float64 (TPS e) ∧ is_float64 (P99Latency e) ∧ is_float64 (SuccessRate e) ∧ is_float64 (Score e);
  ew_minutes : offset (Timestamp e) mod 60 = 0;
}.

Lemma encodable_time t j :
  marshal_entry_time t = inr j → offset t mod 60 = 0 →
  0 <= (@local_date (λ _, offset t) (instant t)).1.1 < 10000 ∧ proper_offset (offset t).
Proof.
  unfold marshal_entry_time, marshal_time. destruct ((0 <=? _) && _) eqn:E1; [|done]. cbn [negb].
  destruct (24 <=? _) eqn:E2; [done|]. intros _ Hm. split; [lia|]. split; [|done].
  unfold zone_offset in E2. apply Z.leb_gt in E2.
  assert (Z.abs (offset t) < 24 * 3600); [|lia]. destruct (Z_lt_le_dec (Z.abs (offset t)) (24 * 3600)) as [|Hge]; [done|].
  pose proof (Z.div_le_mono (24 * 3600) (Z.abs (offset t)) 3600 ltac:(lia) Hge). change (24 * 3600 / 3600) with 24 in *. lia.
Qed.

Lemma client_time_stored {S} name (set : Time → S → S) t :
  0 <= (@local_date (λ _, offset t) (instant t)).1.1 < 10000 → proper_offset (offset t) →
  (client_time_field name set).2 (j_string (@FormatRFC3339Nano (λ _, offset t) (instant t))) = Some (set t).
Proof.
  intros Hy Hoff. unfold client_time_field, j_string, str. cbn [snd]. rewrite String.string_of_list_ascii_of_string.
  rewrite (@parse_time_nano (λ _, offset t)) by done. by destruct t.
Qed.

Lemma encodable_parts e : entry_encodable e = true →
  is_finite (TPS e) = true ∧ is_finite (P99Latency e) = true ∧ is_finite (SuccessRate e) = true ∧ is_finite (Score e) = true ∧
  ∃ j, marshal_entry_time (Timestamp e) = inr j.
Proof.
  unfold entry_encodable. rewrite !andb_true_iff. intros [[[[? ?] ?] ?] Ht]. split_and!; try done.
  destruct (marshal_entry_time _) as [|j]; [done|by exists j].
Qed.

Lemma entry_json_ok e : entry_wf e → entry_encodable e = true → json_ok (j_entry e).
Proof.
  intros [(T1 & T2) (H1 & H2 & H3 & H4) Hm] (F1 & F2 & F3 & F4 & j & Ht)%encodable_parts.
  destruct (encodable_time _ _ Ht Hm) as [Hy _].
  destruct (float_text_reads _ H1 F1) as [N1 _], (float_text_reads _ H2 F2) as [N2 _], (float_text_reads _ H3 F3) as [N3 _],
    (float_text_reads _ H4 F4) as [N4 _].
  assert (Htime : valid_utf8 (str (@FormatRFC3339Nano (λ _, offset (Timestamp e)) (instant (Timestamp e))))).
  { unfold FormatRFC3339Nano, str. rewrite String.list_ascii_of_string_of_list_ascii. by apply plain_valid, time_text_plain. }
  cbn -[float_text FormatRFC3339Nano]. solve_json.
Qed.

Lemma entry_read e : entry_wf e → entry_encodable e = true → decode_struct entry_fields zero_entry (j_entry e) = Some e.
Proof.
  intros [_ (H1 & H2 & H3 & H4) Hm] (F1 & F2 & F3 & F4 & j & Ht)%encodable_parts.
  destruct (encodable_time _ _ Ht Hm) as [Hy Hoff]. unfold decode_struct, j_entry, j_key.
  erewrite store_member; [|reflexivity|apply (string_stored "submission_id")].
  erewrite store_member; [|reflexivity|apply (string_stored "contestant_id")].
  erewrite store_member; [|reflexivity|by apply (float_stored "tps")].
  erewrite store_member; [|reflexivity|by apply (float_stored "p99_latency_ms")].
  erewrite store_member; [|reflexivity|by apply (float_stored "success_rate")].
  erewrite store_member; [|reflexivity|by apply (float_stored "score")].
  erewrite store_member; [|reflexivity|by apply (client_time_stored "timestamp")]. by destruct e.
Qed.

Lemma read_board_text es :
  Forall entry_wf es → forallb entry_encodable es = true → read_board (Encode (JArr (j_entry <$> es))) = Some es.
Proof.
  intros Hwf He. assert (Hok : Forall (λ e, entry_wf e ∧ entry_encodable e = true) es).
  { apply Forall_forall. intros e Hin. rewrite Forall_forall in Hwf. rewrite forallb_forall in He.
    split; [by apply Hwf|by apply He, list_elem_of_In]. }
  unfold read_board. rewrite read_Encode; [|eapply json_ok_list; [|exact Hok]; intros e [? ?]; by apply entry_json_ok|].
  - cbn [mbind option_bind]. clear -Hok. induction Hok as [|e es [H1 H2] _ IH]; [done|]. rewrite fmap_cons. cbn [mapM].
    rewrite entry_read by done. cbn [mbind option_bind]. by rewrite IH.
  - etrans; [by apply (height_list j_entry 1)|]. by vm_compute.
Qed.

(** ** What the service guarantees *)

Section answers.
Context (decode_error : bytes → string) (static : http_request → http_response).
Context {W : Type} `{RW : Redis W} `{TZ : Location} `{RL : !RedisLaws W}.

Lemma entry_of_wf (w : W) id s :
  lb_sound w → zset GlobalLeaderboardKey w !! id = Some s → entry_wf (entry_of id s (HGetAll (metaKey id) w)).
Proof.
  intros [Hb Hn] Hid. destruct (Hb _ _ Hid) as (T1 & H1 & _).
  assert (Hbasic : entry_wf (mkEntry id "Unknown" fzero fzero fzero s (mkTime zero_time 0))).
  { split; cbn; [split; [done|by apply ascii_valid]|done|done]. }
  unfold entry_of. destruct (HGetAll (metaKey id) w) as [err|m] eqn:E; [done|]. apply hgetall_hash in E as ->.
  destruct (bool_decide _); [done|]. split; cbn [SubmissionID ContestantID TPS P99Latency SuccessRate Score Timestamp].
  - split; [done|]. destruct (hash (metaKey id) w !! "contestant_id") as [c|] eqn:Ec; [by eapply Hn|constructor].
  - split_and!; apply ParseFloat_float64.
  - destruct (ParseTime _) as [t|] eqn:Et; [by eapply ParseTime_minutes|done].
Qed.

Lemma board_wf (w : W) es : lb_sound w → GetLeaderboard 50 w = inr es → Forall entry_wf es ∧ (length es <= 50)%nat.
Proof.
  intros Hw E. destruct (GetLeaderboard_front 50 _ _ ltac:(lia) E) as (sorted & Hp & _ & ->).
  destruct (sorted_keys _ _ Hp) as (_ & _ & Hin). change (Z.to_nat 50) with 50%nat. split.
  - apply Forall_fmap, Forall_forall. intros [id s] Hs. cbn. apply entry_of_wf; [done|]. apply Hin.
    rewrite <- (take_drop 50 sorted). set_solver.
  - rewrite length_fmap, length_take. lia.
Qed.

Definition leaderboard_request (body : bytes) : http_request := mkHttpRequest "GET" (str "/api/v1/leaderboard") body.
Definition run_request_for (r : run_request) : http_request :=
  mkHttpRequest "POST" (str "/api/v1/debug/run") (print (j_run r)).

Lemma serve_board now body (w : W) :
  serve_leaderboard decode_error static now (leaderboard_request body) w = Ok (reply (handle_leaderboard w), w).
Proof. unfold serve_leaderboard. by replace (dispatch _ _ _) with (Serve LeaderboardH) by (by vm_compute). Qed.

Lemma served_board (w : W) es : lb_sound w → GetLeaderboard 50 w = inr es →
  ∃ text, reply (handle_leaderboard w) = Replied 200 text ∧
    if forallb entry_encodable es then read_board text = Some es else text = [].
Proof.
  intros Hw E. unfold handle_leaderboard. rewrite E. eexists. split; [done|]. cbn [rBody].
  destruct (forallb entry_encodable es) eqn:Ee; [|done]. apply read_board_text; [by apply (board_wf w)|done].
Qed.

(** C19: The leaderboard can always be read.  The service may have got any
    requests and any messages from the queue, in bytes: it has answered them
    without a panic, the scores on the board are numbers (never NaN) and the
    ids UTF-8, and a request for the leaderboard is answered with the error of
    Redis, or with status 200 and a JSON text from which a client reads
    exactly the entries, at most 50, with their figures to the last bit; or,
    when an entry has an infinite figure, with nothing. *)
Theorem leaderboard_readable ops now body (w : W) :
  lb_sound w →
  ∃ rs w', serve_lb_ops decode_error static ops w = Ok (rs, w') ∧ lb_sound w' ∧
    match GetLeaderboard 50 w' with
    | inl err => serve_leaderboard decode_error static now (leaderboard_request body) w' =
                   Ok (Replied 500 (Encode (JObj [j_key "error" (j_string err)])), w')
    | inr es => (length es <= 50)%nat ∧
        ∃ text, serve_leaderboard decode_error static now (leaderboard_request body) w' = Ok (Replied 200 text, w') ∧
          if forallb entry_encodable es then read_board text = Some es else text = []
    end.
Proof.
  intros Hw. destruct (serve_lb_ops_sound decode_error static ops w Hw) as (rs & w' & E & Hw'). exists rs, w'. split_and!; [done..|].
  rewrite serve_board. destruct (GetLeaderboard 50 w') as [err|es] eqn:EG.
  - unfold handle_leaderboard. by rewrite EG.
  - split; [by apply (board_wf w')|]. destruct (served_board w' es Hw' EG) as (text & -> & Ht). by exists text.
Qed.

Lemma serve_run now r (w : W) :
  run_wf r →
  serve_leaderboard decode_error static now (run_request_for r) w =
  (u ← UpdateScore (rqSubmissionID r) (rqContestantID r) (rqTPS r) (rqP99Latency r) (rqSuccessRate r) now;
   mret (reply (match u with
                | inl err => mkResponse 500 (BText err)
                | inr score => mkResponse 200 (if is_finite score then BScore score else NoBody)
                end))) w.
Proof.
  intros Hr. unfold serve_leaderboard. replace (dispatch _ _ _) with (Serve DebugRunH) by (by vm_compute).
  unfold debug_run_route, run_request_for. cbn [hBody hMethod]. rewrite run_decoded by done. unfold handle_debug_run, mbind, GoM_bind.
  destruct (UpdateScore _ _ _ _ _ _ w) as [[[err|score] w']| |]; done.
Qed.

(** C18: What is posted is what is shown.  A run that a client posts, in
    bytes, and that is answered with status 200 is answered with its score
    (or nothing, when that is infinite), and a leaderboard that is read from
    then on, with room for everybody, has exactly one entry for the
    submission: with the contestant, the figures and the score to two
    decimals and the time to the second, in the service's time zone. *)
Theorem posted_run_shown now r (w w' : W) text m :
  run_wf r → 0 <= now < 2 ^ 63 → proper_offset (zone_offset now) → lb_sound w →
  serve_leaderboard decode_error static now (run_request_for r) w = Ok (Replied 200 text, w') →
  (size (zset GlobalLeaderboardKey w') <= 50)%nat → HGetAll (metaKey (rqSubmissionID r)) w' = inr m →
  let score := score_of (rqTPS r) (rqP99Latency r) (rqSuccessRate r) in
  (if is_finite score then read_value text = Some (JObj [j_key "score" (JNum (float_text score)); j_key "status" (j_string "success")])
   else text = []) ∧
  ∀ now' body board, serve_leaderboard decode_error static now' (leaderboard_request body) w' = Ok (Replied 200 board, w') →
    board ≠ [] →
    ∃ es, read_board board = Some es ∧
      filter (λ e, SubmissionID e = rqSubmissionID r) es =
      [mkEntry (rqSubmissionID r) (rqContestantID r) (shown (rqTPS r)) (shown (rqP99Latency r)) (shown (rqSuccessRate r)) (shown score)
         (mkTime (now / second * second) (zone_offset now))].
Proof.
  intros Hr Hnow Hz Hw E Hsize EH score.
  assert (Hw' : lb_sound w').
  { destruct (serve_sound decode_error static now (run_request_for r) w Hw) as (r' & w1 & E1 & H1). rewrite E in E1. by simplify_eq. }
  rewrite serve_run in E by done. destruct Hr as [_ (H1 & H2 & H3) _].
  destruct (UpdateScore_course (rqSubmissionID r) (rqContestantID r) (rqTPS r) (rqP99Latency r) (rqSuccessRate r) now w)
    as (u & w1 & Eu & _ & _ & Hu). rewrite (bind_Ok _ _ _ _ _ Eu) in E. destruct u as [err|sc]; [by inversion E|].
  destruct Hu as (-> & _). fold score in E. unfold reply in E. cbn [rStatus rBody] in E. inversion E as [[Et Ew]]. subst w1. split.
  - destruct (is_finite score) eqn:Hf; [|done]. cbn [body_text]. destruct (float_text_reads score) as [N _]; [by apply score_float64|done|].
    rewrite read_Encode; [done|cbn -[float_text]; solve_json|unfold max_depth; cbn [height map foldr snd j_key j_string]; lia].
  - intros now' body board Eb Hne. rewrite serve_board in Eb. destruct (GetLeaderboard 50 w') as [err|es] eqn:EG.
    { unfold handle_leaderboard in Eb. rewrite EG in Eb. by inversion Eb. }
    destruct (served_board w' es Hw' EG) as (board' & Er & Hread). rewrite Er in Eb. assert (board' = board) as -> by congruence.
    destruct (forallb entry_encodable es); [|done]. exists es. split; [done|].
    by apply (update_shown (rqSubmissionID r) (rqContestantID r) (rqTPS r) (rqP99Latency r) (rqSuccessRate r) now w w' score 50 es m); [..|lia|done|done].
Qed.
End answers.

(** ** The theorems at work *)

Definition ex_error (body : bytes) : string := "invalid character".
Definition ex_static (req : http_request) : http_response := http_error "404 page not found" 404.
Abbreviation ex_serve := (serve_leaderboard ex_error ex_static).

(** Messages that are no JSON, no object and no event; one with a figure that
    is out of range; and one whose score is not a number. *)
Definition rounds_bad : list round :=
  [mkRound false (inr (str "{")) false 1; mkRound false (inr (str "[1]")) false 2;
   mkRound false (inr (print (JObj [j_key "tps" (JNum (str "1e999"))]))) false 3;
   mkRound false (inr (print (JObj [j_key "tps" (JNum (str "0")); j_key "p99_latency_ms" (JNum (str "1e-320"));
                                    j_key "success_rate" (JNum (str "1e2"))]))) false 4;
   mkRound true (inl "") false 5].
Definition posted : run_request := mkRunRequest "ann" "s1" (of_Z 1500) (of_Z 2) (of_Z 99).
Definition ex_lb_ops : list lb_op :=
  [LbMessages rounds_bad; LbRequest 5 (mkHttpRequest "POST" (str "/api/v1/debug/run") (str "nonsense"));
   LbRequest 6 (run_request_for posted); LbRequest 7 (mkHttpRequest "PUT" (str "/health") [])].

Lemma mem0_sound : lb_sound mem0.
Proof.
  split.
  - intros id s H. assert (H0 : zset GlobalLeaderboardKey mem0 = ∅) by (vm_compute; reflexivity). by rewrite H0, lookup_empty in H.
  - intros id c H. assert (H0 : hash (metaKey id) mem0 = ∅) by reflexivity. by rewrite H0, lookup_empty in H.
Qed.

Lemma leaderboard_readable_witness : ∃ rs w', serve_lb_ops ex_error ex_static ex_lb_ops mem0 = Ok (rs, w').
Proof.
  destruct (leaderboard_readable ex_error ex_static ex_lb_ops 8 [] mem0 mem0_sound) as (rs & w' & E & _). exists rs, w'. exact E.
Defined.

Definition posted_now : Z := 1700000000500000000.
Definition posted_mem : mem := match ex_serve posted_now (run_request_for posted) mem0 with Ok (_, w') => w' | _ => mem0 end.
Definition posted_board : bytes :=
  match ex_serve posted_now (leaderboard_request []) posted_mem with Ok (Replied _ text, _) => text | _ => [] end.

Lemma posted_wf : run_wf posted.
Proof. split; [by vm_compute|by vm_compute|split; by apply ascii_valid]. Qed.

Lemma posted_run_shown_witness :
  ∃ es, read_board posted_board = Some es ∧
    filter (λ e, SubmissionID e = "s1") es =
    [mkEntry "s1" "ann" (shown (of_Z 1500)) (shown (of_Z 2)) (shown (of_Z 99)) (shown (score_of (of_Z 1500) (of_Z 2) (of_Z 99)))
       (mkTime 1700000000000000000 0)].
Proof.
  assert (E : ∃ text, ex_serve posted_now (run_request_for posted) mem0 = Ok (Replied 200 text, posted_mem)) by (eexists; vm_compute; reflexivity).
  destruct E as [text E].
  refine (proj2 (posted_run_shown ex_error ex_static posted_now posted mem0 posted_mem text (mem_hash (metaKey "s1") posted_mem)
    posted_wf _ _ mem0_sound E _ _) posted_now [] posted_board _ _).
  - unfold posted_now. lia.
  - apply utc_proper.
  - assert (H : size (mem_zset GlobalLeaderboardKey posted_mem) = 1%nat) by (vm_compute; reflexivity).
    cbn [zset mem_redis_laws]. rewrite H. lia.
  - reflexivity.
  - vm_compute. reflexivity.
  - by vm_compute.
Defined.
