(* ===== verification/Live.v ===== *)
(** * The live leaderboard

    The event that [UpdateScore] of pkg/leaderboard/ranking.go marshals and
    publishes, the frames in which [WritePump] of broadcast.go sends it to the
    dashboards, and what can be read from them.

    Redis hands on what was published: the payloads that the hub receives are
    the texts of events. *)

From stdpp Require Import prelude gmap strings list fin_maps.
From Stdlib Require Import ZArith Lia Ascii.
From S2P Require Import Prelude GoBytes GoJson JsonProps Wire GoChan Float64 JsonFloat Ranking LbHub LbHubProps.

Local Open Scope Z_scope.

(** The map that is marshalled; its keys are sorted. *)
Definition j_new_run (ev : new_run) : json :=
  JObj [j_key "contestant_id" (j_string (evContestant ev)); j_key "score" (JNum (float_text (evScore ev)));
        j_key "submission_id" (j_string (evSubmission ev)); j_key "type" (j_string "new_run")].
(** [eventData]; [UpdateScore] does not publish when the score is not finite. *)
Definition event_text (ev : new_run) : bytes := print (j_new_run ev).
Definition finite_run (ev : new_run) : Prop := is_float64 (evScore ev) ∧ is_finite (evScore ev) = true.

(** The bytes of a frame; a nil slice adds nothing. *)
Definition frame_bytes (f : list (option bytes)) : bytes := frame_text (default [] <$> f).

Lemma event_line ev : finite_run ev → (newline_byte ∉ event_text ev) ∧ event_text ev ≠ [].
Proof.
  intros [Hf1 Hf2]. split; [|done]. apply print_no_newline. cbn. split_and!; try done. by apply float_text_reads.
Qed.

Lemma frames_lines fs msgs :
  concat fs = Some <$> msgs → Forall (λ m, (newline_byte ∉ m) ∧ m ≠ []) msgs → fs ≫= (λ f, lines (frame_bytes f)) = msgs.
Proof.
  revert msgs. induction fs as [|f fs IH]; intros msgs E Hm; cbn in *; [by destruct msgs|].
  symmetry in E. apply fmap_app_inv in E as (m1 & m2 & E1 & E2 & ->). apply Forall_app in Hm as [H1 H2].
  rewrite (IH m2) by done. f_equal. unfold frame_bytes. rewrite E1, <- list_fmap_compose. cbn. rewrite list_fmap_id. by apply lines_frame.
Qed.

(** C28: What a dashboard is sent.  In every state of the hub, the lines of
    the frames a client was sent are the texts of events that were published,
    in the order of their publication and each at most once, however the
    writer gathered them into frames and whatever characters the ids have. *)
Theorem live_frames_lines h a cl evs :
  lb_reachable h → conns h !! a = Some cl → received h = event_text <$> evs → Forall finite_run evs →
  ∃ seen, frames cl ≫= (λ f, lines (frame_bytes f)) = event_text <$> seen ∧ seen `sublist_of` evs.
Proof.
  intros Hr Hcl Hrec Hfin. destruct (lb_frames h a cl Hr Hcl) as (msgs & E & Hsub & _).
  assert (Hm : msgs `sublist_of` event_text <$> evs).
  { rewrite <- Hrec. etrans; [exact Hsub|]. etrans; [apply sublist_drop|]. destruct (lb_log_received h Hr) as [k ->]. by apply sublist_inserts_r. }
  assert (Hseen : ∃ seen, msgs = event_text <$> seen ∧ seen `sublist_of` evs).
  { clear -Hm. revert msgs Hm. induction evs as [|ev evs IH]; intros msgs Hm.
    - apply sublist_nil_r in Hm as ->. by exists [].
    - rewrite fmap_cons in Hm. apply sublist_cons_r in Hm as [Hm|(l & -> & Hm)]; destruct (IH _ Hm) as (seen & -> & Hs).
      + exists seen. split; [done|by constructor].
      + exists (ev :: seen). split; [done|by constructor]. }
  destruct Hseen as (seen & -> & Hs). exists seen. split; [|done]. apply frames_lines; [done|].
  apply Forall_fmap. assert (Hf : Forall finite_run seen).
  { clear -Hs Hfin. induction Hs; [done|..]; apply Forall_cons in Hfin as [? ?]; [constructor|]; auto. }
  eapply Forall_impl; [exact Hf|apply event_line].
Qed.

(** An event with ids in UTF-8. *)
Definition event_ok (ev : new_run) : Prop := finite_run ev ∧ text_ok (evContestant ev) ∧ text_ok (evSubmission ev).

Lemma j_new_run_ok ev : event_ok ev → json_ok (j_new_run ev).
Proof. intros ([H0 H1] & H2 & H3). destruct (float_text_reads _ H0 H1) as [? _]. cbn -[float_text]. solve_json. Qed.

(** C40: Only frames of one message can be parsed.  The text of one event is
    one JSON value, as the dashboard expects of a frame; the text of a frame
    that gathers two events or more is not, and [JSON.parse] rejects it. *)
Theorem gathered_frame_unparsable ev1 ev2 evs :
  event_ok ev1 →
  parse_text (frame_bytes [Some (event_text ev1)]) = Some (j_new_run ev1) ∧
  parse_text (frame_bytes (Some <$> (event_text <$> ev1 :: ev2 :: evs))) = None.
Proof.
  intros H1. apply j_new_run_ok in H1. unfold frame_bytes. split.
  - change (frame_text (default [] <$> [Some (event_text ev1)])) with (event_text ev1).
    rewrite <- (app_nil_r (event_text ev1)). unfold event_text. by rewrite parse_text_value.
  - rewrite !fmap_cons. cbn [default from_option]. set (rest := frame_text _).
    assert (Hrest : ∃ k, frame_text (event_text ev1 :: event_text ev2 :: (default [] <$> (Some <$> (event_text <$> evs)))) =
      print (j_new_run ev1) ++ newline_byte :: byte 123 :: k) by (by destruct evs; eexists).
    destruct Hrest as [k Hk]. subst rest. etrans; [apply f_equal, Hk|]. by rewrite parse_text_value.
Qed.
(** ** An example *)

(** A client gets two events in one frame. *)
Definition run1 : new_run := mkNewRun "s1" "ann" (of_Z 120).
Definition run2 : new_run := mkNewRun "s2" "bob" (of_Z 7).
Definition live_actions : list (action bytes) :=
  [Serve 1%N; Receive (event_text run1); Broadcast (event_text run1) [1%N]; Receive (event_text run2);
   Broadcast (event_text run2) [1%N]; WriteNext 1%N true; WriteLen 1%N; WriteDrain 1%N; WriteFlush 1%N true].
Definition live_do (h : Hub bytes) (act : action bytes) : Hub bytes :=
  match perform act h with Ok (_, h') => h' | _ => h end.
Definition live_hub : Hub bytes := foldl live_do NewHub live_actions.
Definition live_client : Client bytes :=
  mkClient new_chan true RReading WSelect 0 0 [[Some (event_text run1); Some (event_text run2)]] [event_text run1; event_text run2] 0 0.

Lemma live_step h act : lb_reachable h → enabled act h → lb_reachable (live_do h act).
Proof.
  intros Hr He. unfold live_do. destruct (lb_perform_ok h act (lb_reachable_ok h Hr) He) as (h' & E & _).
  rewrite E. by eapply lb_step.
Qed.
Lemma live_hub_reachable : lb_reachable live_hub.
Proof.
  unfold live_hub, live_actions. cbn [foldl]. do 9 (apply live_step; [|vm_compute; naive_solver]). constructor.
Qed.

Lemma live_frames_lines_witness :
  ∃ seen, frames live_client ≫= (λ f, lines (frame_bytes f)) = event_text <$> seen ∧ seen `sublist_of` [run1; run2].
Proof.
  apply (live_frames_lines live_hub 1%N live_client [run1; run2] live_hub_reachable).
  - vm_compute. reflexivity.
  - vm_compute. reflexivity.
  - repeat constructor; vm_compute; reflexivity.
Defined.

Lemma gathered_frame_unparsable_witness :
  parse_text (frame_bytes [Some (event_text run1); Some (event_text run2)]) = None.
Proof.
  apply (gathered_frame_unparsable run1 run2 []).
  split_and!; [split; vm_compute; reflexivity|by apply ascii_valid|by apply ascii_valid].
Defined.
