(* ===== verification/Services.v ===== *)
(** * The services as processes

    The [main] functions of cmd/matching-engine, cmd/submission-service,
    cmd/leaderboard-service and cmd/load-generator, and [StartMetricsServer]
    of pkg/telemetry: what they start, when they stop and with which status.

    A [main] is the list of what it does that can be seen from outside; the
    goroutines it starts are actions of their own that can happen between any
    two of its steps: a listener that fails ends the process ([log.Fatalf]), as
    does a panic, requests come and go, and signals arrive.  Left to the environment: whether
    a port can be bound, whether Redis and Docker answer, and when the deadline
    of a shutdown passes.  Of the log, the lines of [main] and the fatal ones
    are kept. *)

From stdpp Require Import prelude list strings.
From Stdlib Require Import ZArith Lia.
From S2P Require Import Prelude.

Local Open Scope Z_scope.

(** ** Processes *)

(** [http.Server], timeouts in seconds. *)
Record http_server := mkHttpServer { Addr : string; ReadTimeout : Z; WriteTimeout : Z; IdleTimeout : Z }.

Inductive instr :=
  | Print (line : string)
  | StartMetrics (addr : string)   (** [telemetry.StartMetricsServer] *)
  | StartEngine                    (** [server.Start()] *)
  | TryDocker                      (** [NewDockerExecutor]; its error is only logged *)
  | OpenRedis (addr : string)
  | PingRedis                      (** fatal when it fails *)
  | StartHub                       (** [go hub.Run(hubCtx, rdb)] *)
  | StartConsumer                  (** the goroutine with the queue's consumer *)
  | RegisterRoutes                 (** the tables of [Routes]; they have no conflict to panic about *)
  | Notify                         (** [signal.Notify(shutdownSig, ...)] *)
  | ListenAndServe (srv : http_server)
  | AwaitSignal                    (** [<-shutdownSig] *)
  | CloseListeners                 (** [srv.Shutdown] begins *)
  | AwaitIdle (fatal : bool)       (** it returns; whether its error is fatal *)
  | CloseRedis
  | RunLoad.                       (** [orchestrator.Run()], which may panic *)

Inductive listener := NotListening | Listening | Closing.
Inductive redis_state := NoRedis | RedisOpen | RedisClosed.
(** How a process ended: by [os.Exit] or the return of [main], by a panic that
    nothing recovered, for which the status is 2, or by a signal. *)
Inductive ending := Status (code : Z) | Panicked | Killed.

Record proc := mkProc {
  todo : list instr;          (** what [main] has still to do *)
  logged : list string;
  metricsUp : bool;           (** the metrics server's goroutine *)
  engineUp : bool;
  hubUp : bool;
  consumerUp : bool;
  http : listener;
  inflight : nat;             (** requests whose handlers run *)
  redis : redis_state;
  notified : bool;            (** signals go to [shutdownSig] *)
  pending : bool;             (** its buffer, of capacity 1 *)
  stopping : bool;            (** a signal was received by [main] *)
  drained : bool;             (** [Shutdown] returned without an error *)
  ended : option ending;
}.

Definition start (main : list instr) : proc :=
  mkProc main [] false false false false NotListening 0 NoRedis false false false false None.

Definition goto (rest : list instr) (p : proc) : proc :=
  mkProc rest (logged p) (metricsUp p) (engineUp p) (hubUp p) (consumerUp p) (http p) (inflight p) (redis p)
    (notified p) (pending p) (stopping p) (drained p) (ended p).
Definition print_line (line : string) (p : proc) : proc :=
  mkProc (todo p) (logged p ++ [line]) (metricsUp p) (engineUp p) (hubUp p) (consumerUp p) (http p) (inflight p) (redis p)
    (notified p) (pending p) (stopping p) (drained p) (ended p).
Definition finish (e : ending) (p : proc) : proc :=
  mkProc (todo p) (logged p) (metricsUp p) (engineUp p) (hubUp p) (consumerUp p) (http p) (inflight p) (redis p)
    (notified p) (pending p) (stopping p) (drained p) (Some e).
(** [log.Fatalf]; deferred calls do not run. *)
Definition fatal_error (line : string) (p : proc) : proc := finish (Status 1) (print_line line p).
Definition set_http (l : listener) (n : nat) (p : proc) : proc :=
  mkProc (todo p) (logged p) (metricsUp p) (engineUp p) (hubUp p) (consumerUp p) l n (redis p)
    (notified p) (pending p) (stopping p) (drained p) (ended p).
Definition set_redis (r : redis_state) (p : proc) : proc :=
  mkProc (todo p) (logged p) (metricsUp p) (engineUp p) (hubUp p) (consumerUp p) (http p) (inflight p) r
    (notified p) (pending p) (stopping p) (drained p) (ended p).
Definition set_signals (n b s : bool) (p : proc) : proc :=
  mkProc (todo p) (logged p) (metricsUp p) (engineUp p) (hubUp p) (consumerUp p) (http p) (inflight p) (redis p)
    n b s (drained p) (ended p).
Definition set_drained (p : proc) : proc :=
  mkProc (todo p) (logged p) (metricsUp p) (engineUp p) (hubUp p) (consumerUp p) (http p) (inflight p) (redis p)
    (notified p) (pending p) (stopping p) true (ended p).
Definition spawn (m e h c : bool) (p : proc) : proc :=
  mkProc (todo p) (logged p) (metricsUp p || m) (engineUp p || e) (hubUp p || h) (consumerUp p || c) (http p)
    (inflight p) (redis p) (notified p) (pending p) (stopping p) (drained p) (ended p).

(** [telemetry.StartMetricsServer]: its goroutine serves until it fails. *)
Definition StartMetricsServer (addr : string) (p : proc) : proc :=
  spawn true false false false (print_line ("Starting telemetry metrics server on " +:+ addr) p).

(** One instruction, with the outcome of what can fail; [None] when it has to
    wait.  A shutdown returns without an error when no request is left, and
    with one when its deadline passes before. *)
Definition execute (i : instr) (ok : bool) (p : proc) : option proc :=
  match i with
  | Print line => Some (print_line line p)
  | StartMetrics addr => Some (StartMetricsServer addr p)
  | StartEngine => Some (spawn false true false false p)
  | TryDocker =>
      Some (if ok then print_line "Connected to Docker daemon successfully." p
            else print_line "Sandbox execution will be unavailable. Upload and Git clone still functional."
                   (print_line "WARNING: Docker daemon not available" p))
  | OpenRedis _ => Some (set_redis RedisOpen p)
  | PingRedis => Some (if ok then p else fatal_error "Failed to connect to Redis" p)
  | StartHub => Some (spawn false false true false p)
  | StartConsumer => Some (spawn false false false true p)
  | RegisterRoutes => Some p
  | Notify => Some (set_signals true (pending p) (stopping p) p)
  | ListenAndServe _ => Some (set_http Listening (inflight p) p)
  | AwaitSignal => if pending p then Some (set_signals (notified p) false true p) else None
  | CloseListeners => Some (set_http Closing (inflight p) p)
  | AwaitIdle fatal =>
      if (inflight p =? 0)%nat then Some (set_drained p)
      else if ok then None
      else Some (if fatal then fatal_error "Server forced shutdown" p else p)
  | CloseRedis => Some (set_redis RedisClosed p)
  | RunLoad => Some (if ok then p else finish Panicked p)
  end.

Inductive action :=
  | Main (ok : bool)      (** the next instruction of [main], or its return *)
  | ServeFails            (** [ListenAndServe] returns another error than [ErrServerClosed] *)
  | MetricsFails
  | Signal                (** SIGINT or SIGTERM *)
  | GoroutinePanics       (** one that [main] has started; handlers recover *)
  | RequestBegins
  | RequestEnds.

(** Goroutines other than [main] run. *)
Definition has_goroutines (p : proc) : bool :=
  metricsUp p || engineUp p || hubUp p || consumerUp p || match http p with NotListening => false | _ => true end.

Definition step (a : action) (p : proc) : option proc :=
  match ended p with
  | Some _ => None
  | None =>
      match a with
      | Main ok =>
          match todo p with
          | [] => Some (finish (Status 0) p)
          | i :: rest => goto rest <$> execute i ok p
          end
      | ServeFails => match http p with NotListening => None | _ => Some (fatal_error "ListenAndServe error" p) end
      | MetricsFails => if metricsUp p then Some (fatal_error "Metrics server failed" p) else None
      | Signal => Some (if notified p then set_signals true true (stopping p) p else finish Killed p)
      | GoroutinePanics => if has_goroutines p then Some (finish Panicked p) else None
      | RequestBegins =>
          (* while [Shutdown] waits, a connection that is still open can bring another *)
          match http p with
          | NotListening => None
          | l => if drained p then None else Some (set_http l (S (inflight p)) p)
          end
      | RequestEnds => match inflight p with S n => Some (set_http (http p) n p) | O => None end
      end
  end.

Inductive reachable (main : list instr) : proc → Prop :=
  | reach_start : reachable main (start main)
  | reach_step a p p' : reachable main p → step a p = Some p' → reachable main p'.

(** ** The services *)

(** cmd/matching-engine. *)
Definition matching_engine (port telemetryPort : string) : list instr :=
  [Print ("Starting Matching Engine on port " +:+ port +:+ "..."); StartMetrics telemetryPort; StartEngine; RegisterRoutes;
   Notify; ListenAndServe (mkHttpServer (":" +:+ port) 10 10 120);
   Print "Server is running. Press CTRL+C to stop."; AwaitSignal; Print "Shutting down gracefully...";
   CloseListeners; AwaitIdle true; Print "Server stopped successfully."].

(** cmd/submission-service; the handler is given the directory. *)
Definition submission_service (port uploadDir : string) : list instr :=
  [Print ("Starting Submission Service on port " +:+ port +:+ "..."); TryDocker; RegisterRoutes;
   Notify; ListenAndServe (mkHttpServer (":" +:+ port) 30 30 120);
   Print ("Submission Service running on :" +:+ port +:+ ". Press CTRL+C to stop."); AwaitSignal;
   CloseListeners; AwaitIdle false; Print "Submission Service stopped."].

(** cmd/leaderboard-service: before its routes, and after them. *)
Definition leaderboard_startup (port redisAddr : string) : list instr :=
  [Print ("Starting Leaderboard Service on port " +:+ port +:+ "..."); OpenRedis redisAddr; PingRedis;
   Print "Connected to Redis successfully."; StartHub; StartConsumer].
Definition leaderboard_serving (port : string) : list instr :=
  [Notify; ListenAndServe (mkHttpServer (":" +:+ port) 10 10 120);
   AwaitSignal; Print "Shutting down gracefully..."; CloseListeners; AwaitIdle true; CloseRedis;
   Print "Server stopped successfully."].
Definition leaderboard_service (port redisAddr : string) : list instr :=
  leaderboard_startup port redisAddr ++ [RegisterRoutes] ++ leaderboard_serving port.

(** cmd/load-generator; the other flags are the fields of the orchestrator,
    whose [Run] is in [LoadGen]. *)
Definition load_generator (telemetryPort : string) : list instr := [StartMetrics telemetryPort; RunLoad].

(** The defaults of the flags. *)
Definition default_engine : list instr := matching_engine "8080" ":2112".
Definition default_submission : list instr := submission_service "9090" "./uploads".
Definition default_leaderboard : list instr := leaderboard_service "8282" "localhost:6379".
Definition default_loadgen : list instr := load_generator ":2113".
