(* ===== verification/ServicesProps.v ===== *)
(** * How the services stop

    For every interleaving of [main] with the goroutines of a service, its
    requests and signals: which statuses a service can exit with and what has
    been done by then, and that a signal ends it. *)

From stdpp Require Import prelude list strings.
From Stdlib Require Import ZArith Lia.
From S2P Require Import Prelude Services.

Local Open Scope Z_scope.

(** ** Instructions done *)

Definition is_signal (i : instr) : bool := match i with AwaitSignal => true | _ => false end.
Definition is_close (i : instr) : bool := match i with CloseListeners => true | _ => false end.
Definition is_idle (i : instr) : bool := match i with AwaitIdle _ => true | _ => false end.
Definition is_fatal_idle (i : instr) : bool := match i with AwaitIdle fatal => fatal | _ => false end.
Definition is_close_redis (i : instr) : bool := match i with CloseRedis => true | _ => false end.
Definition is_metrics (i : instr) : bool := match i with StartMetrics _ => true | _ => false end.
Definition is_ping (i : instr) : bool := match i with PingRedis => true | _ => false end.
Definition is_load (i : instr) : bool := match i with RunLoad => true | _ => false end.
Definition is_engine (i : instr) : bool := match i with StartEngine => true | _ => false end.
Definition is_hub (i : instr) : bool := match i with StartHub => true | _ => false end.
Definition is_consumer (i : instr) : bool := match i with StartConsumer => true | _ => false end.
Definition is_listen (i : instr) : bool := match i with ListenAndServe _ => true | _ => false end.

(** The order a [main] keeps: it serves before it closes, waits only after
    closing, and does not open Redis again. *)
Definition in_order (done : list instr) (i : instr) : bool :=
  match i with
  | ListenAndServe _ => negb (existsb is_close done)
  | CloseListeners => existsb is_listen done
  | AwaitIdle _ => existsb is_close done
  | OpenRedis _ => negb (existsb is_close_redis done)
  | _ => true
  end.
Fixpoint ordered (done rest : list instr) : bool :=
  match rest with
  | [] => true
  | i :: rest' => in_order done i && ordered (done ++ [i]) rest'
  end.

(** The messages a [main] can die with. *)
Definition causes (main : list instr) : list string :=
  (if existsb is_listen main then ["ListenAndServe error"] else []) ++
  (if existsb is_metrics main then ["Metrics server failed"] else []) ++
  (if existsb is_ping main then ["Failed to connect to Redis"] else []) ++
  (if existsb is_fatal_idle main then ["Server forced shutdown"] else []).

(** What holds of a running process that has done [done]. *)
Record facts (done : list instr) (p : proc) : Prop := {
  fa_signal : existsb is_signal done = true → stopping p = true;
  fa_close : existsb is_close done = true → http p = Closing;
  fa_idle : existsb is_fatal_idle done = true → drained p = true;
  fa_drained : drained p = true → existsb is_close done = true ∧ inflight p = 0%nat;
  fa_redis : existsb is_close_redis done = true → redis p = RedisClosed;
  fa_metrics : metricsUp p = existsb is_metrics done;
  fa_engine : engineUp p = existsb is_engine done;
  fa_hub : hubUp p = existsb is_hub done;
  fa_consumer : consumerUp p = existsb is_consumer done;
  fa_listen : http p ≠ NotListening → existsb is_listen done = true;
}.

Definition proc_ok (main : list instr) (p : proc) : Prop :=
  match ended p with
  | None => ∃ done, main = done ++ todo p ∧ ordered done (todo p) = true ∧ facts done p
  | Some (Status 0) => facts main p
  | Some (Status code) => code = 1 ∧ ∃ cause, last (logged p) = Some cause ∧ cause ∈ causes main
  | Some Panicked => has_goroutines p = true ∨ existsb is_load main = true
  | Some Killed => notified p = false
  end.

Lemma did_app (f : instr → bool) done i : existsb f (done ++ [i]) = existsb f done || f i.
Proof. rewrite existsb_app. cbn. by rewrite orb_false_r. Qed.

Lemma causes_of main (f : instr → bool) cause :
  existsb f main = true →
  (f = is_listen ∧ cause = "ListenAndServe error") ∨ (f = is_metrics ∧ cause = "Metrics server failed") ∨
  (f = is_ping ∧ cause = "Failed to connect to Redis") ∨ (f = is_fatal_idle ∧ cause = "Server forced shutdown") →
  cause ∈ causes main.
Proof. intros Hf Hc. unfold causes. rewrite !elem_of_app. destruct Hc as [[-> ->]|[[-> ->]|[[-> ->]|[-> ->]]]]; rewrite Hf; set_solver. Qed.

Lemma fatal_ok main line p : line ∈ causes main → proc_ok main (fatal_error line p).
Proof. intros Hl. cbn. split; [done|]. exists line. by rewrite last_snoc. Qed.

(** Fields that [facts] does not look at. *)
Lemma facts_ext done p p' :
  facts done p → stopping p' = stopping p → http p' = http p → drained p' = drained p → inflight p' = inflight p →
  redis p' = redis p → metricsUp p' = metricsUp p → engineUp p' = engineUp p → hubUp p' = hubUp p →
  consumerUp p' = consumerUp p → facts done p'.
Proof. intros [] E1 E2 E3 E4 E5 E6 E7 E8 E9. split; rewrite ?E1, ?E2, ?E3, ?E4, ?E5, ?E6, ?E7, ?E8, ?E9; auto. Qed.

Lemma running_ok main done i rest p :
  main = done ++ i :: rest → ordered (done ++ [i]) rest = true → ended p = None → facts (done ++ [i]) p → proc_ok main (goto rest p).
Proof.
  intros Hm Ho He Hf. unfold proc_ok. cbn [ended goto]. rewrite He. exists (done ++ [i]).
  split_and!; [by rewrite <- app_assoc|done|]. by apply (facts_ext _ p).
Qed.

Lemma died_ok main rest line p : line ∈ causes main → proc_ok main (goto rest (fatal_error line p)).
Proof. intros Hl. cbn. split; [done|]. exists line. by rewrite last_snoc. Qed.

Lemma in_program {A} (f : A → bool) done i rest : f i = true → existsb f (done ++ i :: rest) = true.
Proof. intros Hi. rewrite existsb_app. cbn. by rewrite Hi, orb_true_r. Qed.

(** One instruction more is done: what is known of the others is kept. *)
Ltac facts_step :=
  split; cbn; rewrite ?did_app, ?orb_false_r, ?orb_true_r; auto; try congruence.

Lemma main_ok main done i rest ok p p' :
  main = done ++ i :: rest → ordered done (i :: rest) = true → ended p = None → facts done p →
  execute i ok p = Some p' → proc_ok main (goto rest p').
Proof.
  intros Hm Ho He Hf E. cbn in Ho. apply andb_true_iff in Ho as [Hi Ho].
  pose proof (running_ok main done i rest) as Hrun.
  destruct Hf as [H1 H2 H3 H4 H5 H6 H7 H8 H9 H10].
  destruct i; cbn [execute] in E; cbn in Hi;
    try (injection E as <-; apply Hrun; [done..|facts_step]; fail).
  - injection E as <-. apply Hrun; [done|done|by destruct ok|]. destruct ok; facts_step.
  - injection E as <-. apply Hrun; [done..|]. facts_step. intros H. by rewrite H in Hi.
  - injection E as <-. destruct ok; [apply Hrun; [done..|facts_step]|].
    apply died_ok. apply (causes_of _ is_ping); [subst main; by apply in_program|tauto].
  - injection E as <-. apply Hrun; [done..|]. apply negb_true_iff in Hi. facts_step.
  - destruct (pending p); [|done]. injection E as <-. apply Hrun; [done..|facts_step].
  - injection E as <-. apply Hrun; [done..|]. facts_step. intros [_ ?]%H4. done.
  - destruct (Nat.eqb_spec (inflight p) 0) as [H0|H0].
    + injection E as <-. apply Hrun; [done..|facts_step].
    + destruct ok; [done|]. injection E as <-. destruct fatal.
      * apply died_ok. apply (causes_of _ is_fatal_idle); [subst main; by apply in_program|tauto].
      * apply Hrun; [done..|facts_step].
  - injection E as <-. destruct ok; [apply Hrun; [done..|facts_step]|].
    cbn. right. subst main. by apply in_program.
Qed.

Lemma proc_step_ok main a p p' : proc_ok main p → step a p = Some p' → proc_ok main p'.
Proof.
  intros Hok E. unfold step in E. unfold proc_ok in Hok. destruct (ended p) eqn:He; [done|].
  destruct Hok as (done & Hm & Ho & Hf).
  assert (Hkeep : ∀ l n, l ≠ NotListening → l = http p → (drained p = true → n = 0%nat) → proc_ok main (set_http l n p)).
  { intros l n Hl -> Hn. unfold proc_ok. cbn. rewrite He. exists done. split_and!; [done..|].
    destruct Hf as [H1 H2 H3 H4 H5 H6 H7 H8 H9 H10]. split; cbn; auto. intros Hd. split; [by apply H4|auto]. }
  destruct a as [ok| | | | | |].
  - destruct (todo p) as [|i rest] eqn:Ht.
    + injection E as <-. unfold proc_ok. cbn. rewrite app_nil_r in Hm. subst done. by apply (facts_ext _ p).
    + apply fmap_Some in E as (p1 & E & ->). by eapply main_ok.
  - assert (Hl : http p ≠ NotListening) by (by intros Eh; rewrite Eh in E).
    assert (p' = fatal_error "ListenAndServe error" p) as -> by (destruct (http p); congruence).
    apply fatal_ok, (causes_of _ is_listen); [|tauto]. rewrite Hm, existsb_app, (fa_listen _ _ Hf Hl). done.
  - destruct (metricsUp p) eqn:Em; [|done]. injection E as <-. apply fatal_ok, (causes_of _ is_metrics); [|tauto].
    rewrite Hm, existsb_app. by rewrite (fa_metrics _ _ Hf) in Em; rewrite Em.
  - injection E as <-. destruct (notified p) eqn:En.
    + unfold proc_ok. cbn. rewrite He. exists done. split_and!; [done..|]. by apply (facts_ext _ p).
    + cbn. done.
  - destruct (has_goroutines p) eqn:Hg; [|done]. injection E as <-. by left.
  - destruct (drained p) eqn:Hd; [by destruct (http p)|].
    destruct (http p) eqn:Eh; [done|injection E as <-; by apply Hkeep..].
  - destruct (inflight p) as [|n] eqn:Ei; [done|]. injection E as <-.
    destruct (http p) eqn:Eh; [|apply Hkeep; [done|done|]..].
    + unfold proc_ok. cbn. rewrite He. exists done. split_and!; [done..|].
      destruct Hf as [H1 H2 H3 H4 H5 H6 H7 H8 H9 H10]. split; cbn; rewrite ?Eh; auto; try (by rewrite <- Eh). intros [_ H]%H4. congruence.
    + intros [_ H]%(fa_drained _ _ Hf). congruence.
    + intros [_ H]%(fa_drained _ _ Hf). congruence.
Qed.

Lemma proc_reachable_ok main p : ordered [] main = true → reachable main p → proc_ok main p.
Proof.
  intros Ho. induction 1 as [|a p p' _ IH E]; [|by eapply proc_step_ok].
  exists []. split_and!; [done|done|]. by split.
Qed.

(** ** Exits *)

(** The services whose [main] treats an error of [Shutdown] as fatal. *)
Definition graceful (main : list instr) : Prop :=
  (∃ port tport, main = matching_engine port tport) ∨ (∃ port addr, main = leaderboard_service port addr).


(** ** Signals end a service *)

Definition signals (l : list instr) : nat := length (List.filter is_signal l).

(** One step of [main]; when it would wait for requests, until the deadline. *)
Definition advance (ok : bool) (p : proc) : option proc :=
  match step (Main ok) p with
  | Some p' => Some p'
  | None => step (Main false) p
  end.
Fixpoint advances (oks : list bool) (p : proc) : option proc :=
  match oks with
  | [] => Some p
  | ok :: oks' => p' ← advance ok p; advances oks' p'
  end.

(** A signal is waiting if [main] has still to wait for one. *)
Definition ready (p : proc) : Prop := (signals (todo p) <= 1)%nat ∧ (signals (todo p) = 1%nat → pending p = true).

Lemma execute_keeps i ok p p' :
  execute i ok p = Some p' → is_signal i = false → pending p' = pending p ∧ (ended p' = ended p ∨ ended p' ≠ None).
Proof. destruct i; cbn; intros E Hs; repeat case_match; simplify_eq; cbn; auto. Qed.

Lemma signals_cons i l : signals (i :: l) = ((if is_signal i then 1 else 0) + signals l)%nat.
Proof. unfold signals. cbn. by destruct (is_signal i). Qed.

Lemma advance_progress ok p :
  ended p = None → ready p →
  ∃ p', advance ok p = Some p' ∧ (ended p' ≠ None ∨ ended p' = None ∧ length (todo p) = S (length (todo p')) ∧ ready p').
Proof.
  intros He [Hn Hp]. unfold advance, step. rewrite He. destruct (todo p) as [|i rest] eqn:Ht; [by eexists; split; [done|left]|].
  rewrite signals_cons in *. destruct (is_signal i) eqn:Hi.
  { destruct i; try done. cbn. rewrite Hp by lia. eexists. split; [done|]. right. cbn. split_and!; [done|done|].
    split; [change (signals rest <= 1)%nat; lia|change (signals rest = 1%nat → false = true); lia]. }
  assert (Hex : ∃ b p1, (execute i ok p = Some p1 ∧ b = ok ∨ execute i ok p = None ∧ execute i false p = Some p1 ∧ b = false) ∧ execute i b p = Some p1).
  { destruct (execute i ok p) as [p1|] eqn:E; [exists ok, p1; auto|]. destruct (execute i false p) as [p1|] eqn:E'; [exists false, p1; auto|].
    exfalso. destruct i; cbn in E'; try done. repeat case_match; done. }
  destruct Hex as (b & p1 & Hor & E). destruct (execute_keeps _ _ _ _ E Hi) as [Hpend Hend].
  exists (goto rest p1). split; [destruct Hor as [[-> _]|[-> [-> _]]]; done|]. rewrite He in Hend.
  destruct Hend as [Hend|Hend]; [right|by left]. cbn. split_and!; [done|done|]. split; [change (signals rest <= 1)%nat; lia|].
  change (signals rest = 1%nat → pending p1 = true). rewrite Hpend. intros H. apply Hp. lia.
Qed.

Lemma advances_end oks p :
  ended p = None → ready p → (length (todo p) < length oks)%nat →
  ∃ n p', (n <= S (length (todo p)))%nat ∧ advances (take n oks) p = Some p' ∧ ended p' ≠ None.
Proof.
  revert p. induction oks as [|ok oks IH]; intros p He Hr Hl; [cbn in Hl; lia|].
  destruct (advance_progress ok p He Hr) as (p1 & E & [H1|(H1 & H2 & H3)]).
  - exists 1%nat, p1. split; [lia|]. split; [|done]. cbn. by rewrite E.
  - destruct (IH p1 H1 H3) as (n & p' & Hn & E' & He'); [cbn in Hl; lia|]. exists (S n), p'.
    split; [lia|]. split; [|done]. cbn. by rewrite E.
Qed.

(** A signal stops a service.  Once a service that listens to signals
    has got one, its [main] never waits for ever: whatever the outcomes of
    what it does, it has ended after as many steps as it has left, one of
    which may take the five seconds of the shutdown's deadline. *)
Theorem signal_stops_service main p oks :
  graceful main ∨ (∃ port dir, main = submission_service port dir) →
  reachable main p → ended p = None → pending p = true → (length (todo p) < length oks)%nat →
  ∃ n p', (n <= S (length (todo p)))%nat ∧ advances (take n oks) p = Some p' ∧ ended p' ≠ None.
Proof.
  intros Hm Hr He Hp Hl. apply advances_end; [done| |done]. split; [|done].
  assert (Ho : ordered [] main = true ∧ signals main = 1%nat).
  { destruct Hm as [[(port & tport & ->)|(port & addr & ->)]|(port & dir & ->)]; done. }
  destruct Ho as [Ho Hs]. pose proof (proc_reachable_ok main p Ho Hr) as Hok. unfold proc_ok in Hok. rewrite He in Hok.
  destruct Hok as (done & E & _). rewrite E in Hs. unfold signals in *. rewrite List.filter_app, length_app in Hs. lia.
Qed.

(** ** Runs *)

Fixpoint run (acts : list action) (p : proc) : option proc :=
  match acts with
  | [] => Some p
  | a :: acts' => p' ← step a p; run acts' p'
  end.

Lemma run_reachable main acts p p' : reachable main p → run acts p = Some p' → reachable main p'.
Proof.
  revert p. induction acts as [|a acts IH]; intros p Hr; cbn; [by intros [= <-]|].
  destruct (step a p) as [p1|] eqn:E; [|done]. apply IH. by eapply reach_step.
Qed.

Definition mains (n : nat) : list action := replicate n (Main true).
Definition ex_run (main : list instr) (acts : list action) : proc := default (start main) (run acts (start main)).




Definition engine_signalled : proc := ex_run default_engine (mains 7 ++ [RequestBegins; Signal]).
Lemma engine_signalled_reachable : reachable default_engine engine_signalled.
Proof. eapply (run_reachable _ (mains 7 ++ [RequestBegins; Signal])); [apply reach_start|vm_compute; reflexivity]. Qed.

Lemma signal_stops_service_witness :
  ∃ n p', (n <= 6)%nat ∧ advances (take n (replicate 6 true)) engine_signalled = Some p' ∧ ended p' ≠ None.
Proof.
  refine (signal_stops_service default_engine engine_signalled (replicate 6 true)
    (or_introl (or_introl (ex_intro _ "8080" (ex_intro _ ":2112" eq_refl)))) engine_signalled_reachable _ _ _).
  - vm_compute. reflexivity.
  - vm_compute. reflexivity.
  - vm_compute. lia.
Defined.

(** ** What is cut off *)

(** The submission service ignores the error of [Shutdown]: it can exit with
    status 0 while a request is still being handled. *)
Definition cut_off_acts : list action :=
  mains 6 ++ [RequestBegins; Signal] ++ mains 2 ++ [Main false] ++ mains 2.
Definition cut_off : proc := ex_run default_submission cut_off_acts.
Lemma submission_cuts_requests :
  reachable default_submission cut_off ∧ ended cut_off = Some (Status 0) ∧ inflight cut_off = 1%nat ∧
  last (logged cut_off) = Some "Submission Service stopped.".
Proof.
  split; [|by vm_compute]. eapply (run_reachable _ cut_off_acts); [apply reach_start|vm_compute; reflexivity].
Qed.

(** The leaderboard service closes its Redis client while the consumer, whose
    context is cancelled only when [main] returns, is still running. *)
Definition early_close_acts : list action := mains 9 ++ [Signal] ++ mains 5.
Definition early_close : proc := ex_run default_leaderboard early_close_acts.
Lemma leaderboard_closes_redis_early :
  reachable default_leaderboard early_close ∧ ended early_close = None ∧ redis early_close = RedisClosed ∧
  consumerUp early_close = true.
Proof.
  split; [|by vm_compute]. eapply (run_reachable _ early_close_acts); [apply reach_start|vm_compute; reflexivity].
Qed.

(** Without Redis the leaderboard service starts nothing. *)
Lemma leaderboard_needs_redis port addr acts p :
  run acts (start (leaderboard_service port addr)) = Some p → (length acts <= 3)%nat →
  http p = NotListening ∧ hubUp p = false ∧ consumerUp p = false.
Proof.
  intros E Hl. destruct acts as [|a1 [|a2 [|a3 [|]]]]; [..|cbn in Hl; lia];
    repeat match goal with a : action |- _ => destruct a as [[]| | | | | |] end; cbn in E; simplify_eq; by vm_compute.
Qed.
